(* ===== verification/_CoqProject ===== *)
-Q . S2P
Prelude.v
Effects.v
Sendable.v
Reactive.v
Subscribers.v
Processors.v
Publishers.v
Pipeline.v
Stages.v
Signals.v
Threads.v
FanIn.v
Scheduler.v
Mmap.v
MmapFile.v
Journal.v
JournalTest.v
MemberFn.v
Protocol.v
Chains.v
Example.v
Mio.v
StreamBuf.v
NetStream.v
Reactor.v
MioModel.v
Echo.v
Outbound.v
Inbound.v
Engine.v
Lifetime.v
Streams.v
NetEngine.v
Frames.v
Loopback.v
LoopbackSafe.v
LoopbackLive.v
LoopbackModel.v
Limits.v
U64.v
Oneway.v
Wire.v
OnewayTest.v
OnewaySafe.v
OnewayLive.v
OnewayRun.v
Integration.v
IntegrationRun.v
Leftover.v
