(* ===== verification/Prelude.v ===== *)
(** * rx: a verification development for the reactive-streams library

    The crate (src/src/) builds pipelines of publishers, processors and
    subscribers, joins pipelines of different threads with queues, connects
    them to TCP sockets through an event loop, and brings an allocator that
    hands out blocks of a memory-mapped file.  This library models its code as
    executable definitions and proves what makes each part correct.

    ** The parts and the files

    - [Prelude]: this file; scope, tactics, machine integers, list lemmas.
    - [Effects]: the monad [M V X] every operation runs in.  A [World] holds
      what was printed and logged, the [std::sync::mpsc] queues (messages of
      type [V]) and the state [X] of third-party code; an [Outcome] is a
      result, a panic, waiting for another thread, or a loop out of fuel.
    - [Sendable] (sendable.rs): the queue senders.
    - [Reactive] (reactive.rs, default_macros.rs): the traits [Subscriber] and
      [Publisher] as classes, default methods, [run], the [default_pass_*]
      macros.  A boxed subscriber is a value of any type with an instance; the
      fields every stage has are the classes [Link] and [Indexed].
    - [Subscribers] (subscriber.rs), [Processors] (processorimpl.rs),
      [Publishers] (publisherimpl.rs): a Module per struct, with its record
      [t], [new], [subscribe] and [on_next] or [next] and its instances.
    - [Pipeline]: the vocabulary of the theorems on pipelines: [push] (values
      offered one by one until one is refused), Mealy machines, the class
      [Stage] that the pure processors implement, and a [Recorder] subscriber.
    - [Stages]: what each processor does to a stream.  [map_run],
      [reduce_push], [enumerate_push], [unzip_push] equate a stage with its
      reference on lists; [take_run] gives the delivery and the completion of
      [Take]; [take_overdriven], [take_wraps], [unzip_loses_refusal] are its
      and [Unzip]'s behaviour beyond that.
    - [Signals]: what publishers signal ([iter_run_signals],
      [repeat_never_stops], [coupler_try_next]), the printing stages, [Tee],
      and chains that lack a subscriber.
    - [Threads]: a source thread and a sink thread joined by a queue of any
      bound, as a step relation over interleavings; [threads_deliver] is its
      correctness.  [FanIn]: any number of sources on one queue;
      [fan_in_delivers] says the sink sees an interleaving ([Merge]) of them.
    - [Chains] (lib.rs): the crate's example, its three threads:
      [main_local_prints], [main_threads_print], and [main_threads_silent] for
      the two threads as they are written.  [Example]: the whole of [main],
      with its pauses, as a transition system ([example_every_schedule]).
    - [Echo] (test/test.rs): the echo server of the integration test, run over
      a closed queue ([echo_returns_all]).
    - [Scheduler] (scheduler.rs): [fixed_loop].
    - [Mmap] (mmap_allocator.rs): [allocate], one transition per atomic action,
      for one thread and for many; [MmapFile]: [new], [load], [drop];
      [Journal]: allocations in a row, and over the runs of a program;
      [JournalTest]: its two tests, as programs on any system that keeps its
      files ([FileLaws]): that they pass, and what the file holds then
      ([basic_test_passes], [boundary_test_passes]).
    - [MemberFn] (memberfn.rs): bound methods.
    - [Protocol] (protocol.rs): framing of byte buffers.
    - [Mio]: the interfaces of mio and iobuf with their laws; [MioModel]: a
      concrete model of them all; [StreamBuf] (reactor.rs): the message types.
    - [NetStream] (net_stream.rs): a connection as seen by its client.
    - [Reactor] (reactor.rs): connections, the engine and its event handlers.
    - [Outbound], [Inbound], [Engine]: what the engine sends, what it receives
      and what it keeps true of its tables.  [Leftover]: messages split over
      reads ([reads_in_stream_order], [read_accounts_for_bytes]).  [Lifetime]: what holds of their
      entries over an engine's whole life ([engines_well_formed],
      [timer_fires]), also through the event loop ([run_well_formed]), and how
      many timeouts it can set ([timeouts_run_out]).
    - [NetEngine] (reactor.rs): the engine next to its event loop, the drop
      glue of both ([shutdown_releases]), and what [listen], [connect] and
      [timeout] do on a host that works ([HostLaws]).  [Frames]: what each
      handler leaves alone ([FrameLaws]).  [Limits]: how many connections and
      listeners an engine takes ([connects_until_full], [listens_until_full]);
      what a refused one leaves behind is in [Engine] ([connect_keeps_slot],
      [listen_keeps_slot]).  [Streams]: a [NetStreamer] on an engine, as the
      end of a chain ([streamer_writes]) and as its start ([streamer_reads]).
    - [U64], [Oneway] (the tests of net_stream.rs): integers as buffers and the
      protocol that reads them back, with its round trip; the thread of
      [oneway_test].
    - [Loopback]: an engine that listens on a port of its own host and connects
      to it, as a transition system: the steps of another thread, the handlers
      the event loop calls, the end of [run], and what the host does, in any
      order; for any thread, and any protocol with messages of one length
      ([Format]).  [LoopbackSafe]: its invariant, which says where each message
      is ([main_inv], [on_the_way]); [LoopbackLive]: that on a host that can
      still do its work ([HostLive]) what is outstanding can always come
      through, by a measure of the work left ([todo], [all_comes]);
      [LoopbackModel]: computing its runs on the model network.
    - [OnewayTest], [OnewaySafe], [OnewayLive], [OnewayRun] (net_stream.rs):
      the whole of [oneway_test] as such a system, and what it shows under
      every schedule ([oneway_every_schedule], [oneway_ends]), and that from
      every state in which the engine runs it can pass ([oneway_can_pass]).
    - [Integration], [IntegrationRun] (test/test.rs): the whole integration
      test as such a system ([integration_every_schedule],
      [integration_ends]), and that its message can always go round once more
      ([integration_goes_round]).
    - [Wire]: the outgoing half of one connection, the network and the incoming
      half of another, composed: [u64_wire].

    ** How they interact

    A publisher calls [on_next] of its subscriber and gets the answer whether
    to go on.  A [Decoupler] or [Tee] puts values into a queue, a [Coupler] or
    a [NetStreamer] takes them out on another thread.  The event loop calls
    the handlers of [EngineInner]; these put messages cut by a [Protocol] into
    a connection's queue, and write what clients send through the loop's own
    queue ([notify]) to the socket.  The engine's read buffers may come from
    the mapped-file allocator.

    The contracts between the parts are classes and records: [Sink] and [Observer] for the
    two ends of a thread's chain, [Stage] for processors, [Framing] and [Format]
    for what a protocol finds, [SockLaws] and [RecvLaws] for the two directions of a
    socket.  The theorems on threads and on the engine are proved against
    these, and the chains, protocols and the model network implement them.

    ** Integers, fuel, laws

    Integers are [Z]; [u32], [u64], [usize] and [as_i64] wrap at their width,
    as the crate's compiler does (it predates overflow checks).

    Loops take fuel, one unit per iteration.  Every theorem about one gives a
    bound that suffices: the length of the source for [run_loop], bytes and
    buffers queued for [drain_loop], bytes read for [frame_loop], the body's
    own measure for [fixed_iter]; more fuel never changes a result
    ([run_loop_mono]).  [repeat_never_stops] is about a loop that no fuel
    suffices for.  [run] of the reader in [Oneway] and the histories of [Wire]
    state their fuel as a hypothesis: more than the messages queued, or the
    bytes and buffers written.  Handlers of a [Loopback] need 128: at most 64
    bytes are outstanding, in no more buffers than bytes.

    Third-party code is a class of operations ([MioOps], [NixOps], [ClockOps],
    [Iobuf], ...); where a theorem relies on what it does, that is a class of
    laws ([SlabLaws], [SlabItemsLaws], [AppendBufLaws], [SockLaws], [RecvLaws],
    [IobufLaws], [EventLoopSenderLaws], [EventLoopRunLaws], [IobufCopyLaws],
    [IobufPtrLaws], [HostLaws], [HostLive], [FrameLaws], [FileLaws], [IobufStrLaws],
    [ClockLaws], [ClockStill]) or a hypothesis about a call,
    and a concrete instance discharges it.

    ** What is not modelled

    - The system itself: sockets, files, clocks and mio's event loop are
      interfaces; [run] and [run_once] hand the engine to that loop.
    - A [sync_channel] of bound 0, which in Rust is a rendezvous: its send is
      modelled for bounds from 1 on, and the theorems ask for that.
    - In the transition systems of the two network tests the host carries
      bytes in pieces that end where messages end (what else may happen is the
      subject of [Leftover]), and no socket hangs up.
    - publisherext.rs, whose code is commented out, and processorext.rs, an
      empty trait; of the tests, the directories and files they create and
      remove, and the integration test's allocator, which passes on to libc.
    - Drop order beyond the drop glue of the boxes, queues and sockets a struct
      owns; the counting of [Arc]s; the [Show] output of values the code only
      logs. *)

From Stdlib Require Export ZArith Lia Morphisms Setoid.
From stdpp Require Export base gmap list strings numbers relations pretty.

(** ** Scope and names shared by every file *)

Declare Scope rx_scope.
Delimit Scope rx_scope with rx.
#[global] Open Scope rx_scope.

(** Rust's [Result<A, E>]. *)
Inductive result (A E : Type) : Type :=
| Ok (a : A)
| Err (e : E).
Arguments Ok {A E} a.
Arguments Err {A E} e.

(** [Result::map_err] and [Result::map]. *)
Definition result_map_err {A E F : Type} (f : E -> F) (r : result A E) : result A F :=
  match r with Ok a => Ok a | Err e => Err (f e) end.

Definition result_map {A B E : Type} (f : A -> B) (r : result A E) : result B E :=
  match r with Ok a => Ok (f a) | Err e => Err e end.

(** ** Machine integers

    The compiler this crate targets (January 2015, before overflow checks were
    introduced) gives every integer operation its wrap-around result, in debug
    and release builds alike.  [usize] is 64 bits wide: the allocator's own
    tests ask for an alignment of 8, the size of a [usize]. *)

Definition wrap (w z : Z) : Z := (z mod 2 ^ w)%Z.
Definition u32 (z : Z) : Z := wrap 32 z.
Definition u64 (z : Z) : Z := wrap 64 z.
Definition usize (z : Z) : Z := wrap 64 z.

(** [x as i64] for a 64-bit [x]: the two's-complement reading. *)
Definition as_i64 (z : Z) : Z :=
  let r := (z mod 2 ^ 64)%Z in if (r <? 2 ^ 63)%Z then r else (r - 2 ^ 64)%Z.

(** [i64::checked_sub]: [None] exactly when the difference leaves the [i64]
    range. *)
Definition in_i64 (z : Z) : bool := ((- 2 ^ 63 <=? z) && (z <? 2 ^ 63))%Z.
Definition checked_sub_i64 (a b : Z) : option Z :=
  if in_i64 (a - b)%Z then Some (a - b)%Z else None.

(** ** Tactics of the development *)

(** Case analysis on every stuck [match], closing the impossible cases. *)
Ltac crush_match :=
  repeat (case_match; simplify_eq/=); try done.

(** Split a conjunctive goal and try the shallow automation on each part. *)
Ltac splits := repeat split; auto.

Create HintDb rx.
Create Rewrite HintDb rx_rw.

(** ** Lemmas on machine integers *)

Lemma wrap_range w z : (0 <= w)%Z -> (0 <= wrap w z < 2 ^ w)%Z.
Proof. intros Hw. unfold wrap. apply Z.mod_pos_bound. by apply Z.pow_pos_nonneg. Qed.

Lemma wrap_small w z : (0 <= z < 2 ^ w)%Z -> wrap w z = z.
Proof. intros H. unfold wrap. by apply Z.mod_small. Qed.

Lemma wrap_wrap w z : wrap w (wrap w z) = wrap w z.
Proof. unfold wrap. apply Zmod_mod. Qed.

Lemma wrap_add_l w a b : wrap w (wrap w a + b)%Z = wrap w (a + b)%Z.
Proof. unfold wrap. apply Zplus_mod_idemp_l. Qed.

Lemma wrap_sub_l w a b : wrap w (wrap w a - b)%Z = wrap w (a - b)%Z.
Proof. unfold wrap. apply Zminus_mod_idemp_l. Qed.

Lemma u64_range z : (0 <= u64 z < 2 ^ 64)%Z.
Proof. by apply wrap_range. Qed.

Lemma usize_range z : (0 <= usize z < 2 ^ 64)%Z.
Proof. by apply wrap_range. Qed.

Lemma u64_small z : (0 <= z < 2 ^ 64)%Z -> u64 z = z.
Proof. apply wrap_small. Qed.

Lemma usize_small z : (0 <= z < 2 ^ 64)%Z -> usize z = z.
Proof. apply wrap_small. Qed.

Lemma u32_small z : (0 <= z < 2 ^ 32)%Z -> u32 z = z.
Proof. apply wrap_small. Qed.

Lemma as_i64_range z : (- 2 ^ 63 <= as_i64 z < 2 ^ 63)%Z.
Proof.
  unfold as_i64. pose proof (Z.mod_pos_bound z (2 ^ 64) ltac:(lia)).
  destruct (Z.ltb_spec (z mod 2 ^ 64) (2 ^ 63)); lia.
Qed.

Lemma as_i64_small z : (0 <= z < 2 ^ 63)%Z -> as_i64 z = z.
Proof.
  intros H. unfold as_i64. rewrite Z.mod_small by lia.
  destruct (Z.ltb_spec z (2 ^ 63)); lia.
Qed.

#[export] Hint Rewrite wrap_wrap wrap_add_l wrap_sub_l : rx_rw.
#[export] Hint Resolve wrap_range u64_range usize_range : rx.

(** ** Lemmas on lists *)

Lemma drop_length_sub {A : Type} (l rest : list A) k :
  rest = drop k l -> k <= length l -> length l - length rest = k.
Proof. intros -> Hk. rewrite length_drop. lia. Qed.

(** A measure that strictly decreases along a relation bounds its executions. *)
Lemma nsteps_measure {A : Type} (R : relation A) (f : A -> nat) :
  (forall x y, R x y -> f y < f x) ->
  forall n x y, nsteps R n x y -> n + f y <= f x.
Proof.
  intros HR n x y Hn. induction Hn as [|n x y z Hxy _ IH]; [lia|].
  specialize (HR x y Hxy). lia.
Qed.

(** The sum of [f] over a list, in [Z]. *)
Definition sumZ {A : Type} (f : A -> Z) (l : list A) : Z := foldr (fun x acc => f x + acc)%Z 0%Z l.

Lemma sumZ_insert {A : Type} (f : A -> Z) (l : list A) i x y :
  l !! i = Some x -> sumZ f (<[i := y]> l) = (sumZ f l - f x + f y)%Z.
Proof.
  revert i. induction l as [|z l IH]; intros [|i] Hi; simplify_eq/=; [lia|].
  rewrite (IH i Hi). lia.
Qed.

Lemma sumZ_nonneg {A : Type} (f : A -> Z) (l : list A) :
  (forall x, x ∈ l -> 0 <= f x)%Z -> (0 <= sumZ f l)%Z.
Proof.
  intros Hf. induction l as [|z l IH]; simpl; [done|].
  pose proof (Hf z ltac:(set_solver)). specialize (IH ltac:(set_solver)). lia.
Qed.

Lemma sumZ_lookup {A : Type} (f : A -> Z) (l : list A) i x :
  (forall x, x ∈ l -> 0 <= f x)%Z -> l !! i = Some x -> (f x <= sumZ f l)%Z.
Proof.
  intros Hf. revert i. induction l as [|z l IH]; intros [|i] Hi; simplify_eq/=.
  - pose proof (sumZ_nonneg f l ltac:(set_solver)). lia.
  - pose proof (Hf z ltac:(set_solver)). specialize (IH ltac:(set_solver) i Hi). lia.
Qed.

Lemma sumZ_map {A B : Type} (f : B -> Z) (g : A -> B) (l : list A) :
  sumZ f (map g l) = sumZ (fun x => f (g x)) l.
Proof. induction l; simpl; congruence. Qed.

(** Every summand may grow by [d] at most. *)
Lemma sumZ_le_add {A : Type} (f g : A -> Z) (d : Z) (l : list A) :
  (forall x, x ∈ l -> f x <= g x + d)%Z -> (sumZ f l <= sumZ g l + d * Z.of_nat (length l))%Z.
Proof.
  intros Hf. induction l as [|z l IH]; simpl; [lia|].
  pose proof (Hf z ltac:(set_solver)). specialize (IH ltac:(set_solver)). lia.
Qed.
