(* ===== verification/Effects.v ===== *)
(** * The effects a reactive pipeline performs

    Every operation of the library runs in the monad [M V X]: a state monad
    over a [World] whose computations return, panic, wait for another thread,
    or (for a loop given too little fuel) are cut short.  [V] is the type of
    the messages that travel through the [std::sync::mpsc] queues of the
    program; [X] is whatever state the third-party code (the operating system,
    the clock, mio's event loop) keeps. *)

From S2P Require Import Prelude.

(** ** The world *)

(** The levels the code logs at ([error!], [info!], [debug!]). *)
Inductive Level := LError | LInfo | LDebug.

(** One call of a logging macro: its level, its format string, its arguments. *)
Record LogLine := mkLog { log_level : Level; log_fmt : string; log_args : list string }.

(** A [std::sync::mpsc] queue: the messages in flight in order, how many
    senders are alive, whether the receiver is, and the bound of a
    [sync_channel] ([None] for [channel()]). *)
Record Chan (V : Type) := mkChan {
  ch_queue : list V;
  ch_senders : nat;
  ch_receiver : bool;
  ch_bound : option nat
}.
Arguments mkChan {V} _ _ _ _.
Arguments ch_queue {V} _.
Arguments ch_senders {V} _.
Arguments ch_receiver {V} _.
Arguments ch_bound {V} _.

Record World (V X : Type) := mkWorld {
  stdout : list string;
  log : list LogLine;
  chans : gmap nat (Chan V);
  ext : X
}.
Arguments mkWorld {V X} _ _ _ _.
Arguments stdout {V X} _.
Arguments log {V X} _.
Arguments chans {V X} _.
Arguments ext {V X} _.

(** A world where nothing has happened yet. *)
Definition empty_world {V X : Type} (x : X) : World V X := mkWorld [] [] ∅ x.

(** ** The monad *)

Inductive Outcome (V X A : Type) : Type :=
| Done (a : A) (w : World V X)             (* returned *)
| Panicked (msg : string) (w : World V X)  (* unwound *)
| Blocked (w : World V X)                  (* waits for another thread *)
| OutOfFuel (w : World V X).               (* a loop cut short by its fuel *)
Arguments Done {V X A} a w.
Arguments Panicked {V X A} msg w.
Arguments Blocked {V X A} w.
Arguments OutOfFuel {V X A} w.

Definition M (V X A : Type) : Type := World V X -> Outcome V X A.

Definition ret {V X A : Type} (a : A) : M V X A := fun w => Done a w.

Definition bind {V X A B : Type} (m : M V X A) (k : A -> M V X B) : M V X B :=
  fun w => match m w with
           | Done a w' => k a w'
           | Panicked e w' => Panicked e w'
           | Blocked w' => Blocked w'
           | OutOfFuel w' => OutOfFuel w'
           end.

Notation "'let!' x ':=' m 'in' k" := (bind m (fun x => k))
  (at level 10, x name, m at level 200, k at level 200) : rx_scope.
Notation "'let!' ' p ':=' m 'in' k" := (bind m (fun p => k))
  (at level 10, p strict pattern, m at level 200, k at level 200) : rx_scope.

(** [panic!]. *)
Definition panic {V X A : Type} (msg : string) : M V X A := fun w => Panicked msg w.
Definition out_of_fuel {V X A : Type} : M V X A := fun w => OutOfFuel w.

(** [println!] and the logging macros. *)
Definition println {V X : Type} (line : string) : M V X unit :=
  fun w => Done tt (mkWorld (stdout w ++ [line]) (log w) (chans w) (ext w)).

Definition log_at {V X : Type} (l : Level) (fmt : string) (args : list string) : M V X unit :=
  fun w => Done tt (mkWorld (stdout w) (log w ++ [mkLog l fmt args]) (chans w) (ext w)).
Definition error {V X : Type} (fmt : string) (args : list string) : M V X unit := log_at LError fmt args.
Definition info {V X : Type} (fmt : string) (args : list string) : M V X unit := log_at LInfo fmt args.
Definition debug {V X : Type} (fmt : string) (args : list string) : M V X unit := log_at LDebug fmt args.

(** [Result::unwrap] and [Option::unwrap]. *)
Definition unwrap {V X A E : Type} (r : result A E) : M V X A :=
  match r with
  | Ok a => ret a
  | Err _ => panic "called `Result::unwrap()` on an `Err` value"
  end.
Definition unwrap_opt {V X A : Type} (o : option A) : M V X A :=
  match o with
  | Some a => ret a
  | None => panic "called `Option::unwrap()` on a `None` value"
  end.

(** The state of the third-party code. *)
Definition get_ext {V X : Type} : M V X X := fun w => Done (ext w) w.
Definition put_ext {V X : Type} (x : X) : M V X unit :=
  fun w => Done tt (mkWorld (stdout w) (log w) (chans w) x).

Definition with_chans {V X : Type} (w : World V X) (cs : gmap nat (Chan V)) : World V X :=
  mkWorld (stdout w) (log w) cs (ext w).

(** ** Printable values: [Display] and [Debug] *)

Class Display (A : Type) := display : A -> string.
Class Debug (A : Type) := debug_fmt : A -> string.

(** [Clone]: user code, with no contract the type checker enforces. *)
Class Clone (A : Type) := clone : A -> A.

#[export] Instance Display_Z : Display Z := pretty.
#[export] Instance Debug_Z : Debug Z := pretty.
#[export] Instance Clone_Z : Clone Z := fun z => z.

(** [{:?}] of a string of printable characters without quotes: the string
    between quotes. *)
Definition quote : string := String (Ascii.ascii_of_nat 34) EmptyString.
Definition debug_str (s : string) : string := (quote ++ s ++ quote)%string.

(** ** [std::sync::mpsc] *)

Record Sender := mkSender { tx_chan : nat }.
Record SyncSender := mkSyncSender { stx_chan : nat }.
Record Receiver := mkReceiver { rx_chan : nat }.
Inductive SendError (A : Type) := mkSendError (a : A).
Arguments mkSendError {A} a.
Inductive TryRecvError := Empty | Disconnected.

Section Mpsc.
Context {V X : Type}.

(** [channel()] and [sync_channel(n)]: a queue under a fresh identity. *)
Definition new_chan (b : option nat) : M V X nat :=
  fun w => let c := fresh (dom (chans w)) in
           Done c (with_chans w (<[c := mkChan [] 1 true b]> (chans w))).
Definition channel : M V X (Sender * Receiver) :=
  let! c := new_chan None in ret (mkSender c, mkReceiver c).
Definition sync_channel (n : nat) : M V X (SyncSender * Receiver) :=
  let! c := new_chan (Some n) in ret (mkSyncSender c, mkReceiver c).

(** A send fails and hands the message back when the receiver is gone; on a
    full bounded queue it waits; otherwise it appends. *)
Definition chan_full (ch : Chan V) : bool :=
  match ch_bound ch with
  | Some n => n <=? length (ch_queue ch)
  | None => false
  end.

Definition chan_send (c : nat) (v : V) : M V X (result unit (SendError V)) :=
  fun w => match chans w !! c with
           | Some ch =>
               if ch_receiver ch then
                 if chan_full ch then Blocked w
                 else Done (Ok tt) (with_chans w (<[c := mkChan (ch_queue ch ++ [v]) (ch_senders ch) true (ch_bound ch)]> (chans w)))
               else Done (Err (mkSendError v)) w
           | None => Done (Err (mkSendError v)) w
           end.

(** [Receiver::recv] waits on an empty queue while a sender is alive. *)
Definition recv (r : Receiver) : M V X (result V unit) :=
  fun w => match chans w !! rx_chan r with
           | Some ch =>
               match ch_queue ch with
               | v :: q => Done (Ok v) (with_chans w (<[rx_chan r := mkChan q (ch_senders ch) (ch_receiver ch) (ch_bound ch)]> (chans w)))
               | [] => match ch_senders ch with
                       | O => Done (Err tt) w
                       | S _ => Blocked w
                       end
               end
           | None => Done (Err tt) w
           end.

(** [Receiver::try_recv] never waits. *)
Definition try_recv (r : Receiver) : M V X (result V TryRecvError) :=
  fun w => match chans w !! rx_chan r with
           | Some ch =>
               match ch_queue ch with
               | v :: q => Done (Ok v) (with_chans w (<[rx_chan r := mkChan q (ch_senders ch) (ch_receiver ch) (ch_bound ch)]> (chans w)))
               | [] => match ch_senders ch with
                       | O => Done (Err Disconnected) w
                       | S _ => Done (Err Empty) w
                       end
               end
           | None => Done (Err Disconnected) w
           end.

(** [Clone] and [Drop] of the two ends. *)
Definition alter_chan (c : nat) (f : Chan V -> Chan V) : M V X unit :=
  fun w => Done tt (with_chans w (alter f c (chans w))).
Definition chan_clone (c : nat) : M V X unit :=
  alter_chan c (fun ch => mkChan (ch_queue ch) (S (ch_senders ch)) (ch_receiver ch) (ch_bound ch)).
Definition chan_drop_sender (c : nat) : M V X unit :=
  alter_chan c (fun ch => mkChan (ch_queue ch) (pred (ch_senders ch)) (ch_receiver ch) (ch_bound ch)).
Definition drop_receiver (r : Receiver) : M V X unit :=
  alter_chan (rx_chan r) (fun ch => mkChan [] (ch_senders ch) false (ch_bound ch)).
End Mpsc.

(** ** Equality of computations: same outcome from every world *)

Definition meq {V X A : Type} (m1 m2 : M V X A) : Prop := forall w, m1 w = m2 w.
Infix "≈" := meq (at level 70, no associativity) : rx_scope.

#[export] Instance meq_equivalence {V X A : Type} : Equivalence (@meq V X A).
Proof.
  split; [intros m w; done | intros m1 m2 H w; by rewrite (H w)
         | intros m1 m2 m3 H1 H2 w; by rewrite (H1 w)].
Qed.

#[export] Instance bind_proper {V X A B : Type} :
  Proper (meq ==> pointwise_relation A meq ==> meq) (@bind V X A B).
Proof. intros m1 m2 Hm k1 k2 Hk w. unfold bind. rewrite (Hm w). destruct (m2 w); [apply Hk | done..]. Qed.

Lemma bind_ret_l {V X A B : Type} (a : A) (k : A -> M V X B) : bind (ret a) k ≈ k a.
Proof. done. Qed.

Lemma bind_ret_r {V X A : Type} (m : M V X A) : bind m ret ≈ m.
Proof. intros w. unfold bind. by destruct (m w). Qed.

Lemma bind_assoc {V X A B C : Type} (m : M V X A) (k : A -> M V X B) (h : B -> M V X C) :
  bind (bind m k) h ≈ bind m (fun a => bind (k a) h).
Proof. intros w. unfold bind. by destruct (m w). Qed.

Lemma bind_panic {V X A B : Type} msg (k : A -> M V X B) : bind (panic msg) k ≈ panic msg.
Proof. done. Qed.

(** Two computations that start alike are equal when they continue alike. *)
Lemma bind_ext {V X A B : Type} (m : M V X A) (k1 k2 : A -> M V X B) :
  (forall a, k1 a ≈ k2 a) -> bind m k1 ≈ bind m k2.
Proof. intros H. by apply bind_proper. Qed.

(** The same, knowing how the common start ended. *)
Lemma bind_ext_done {V X A B : Type} (m : M V X A) (k1 k2 : A -> M V X B) :
  (forall a w w', m w = Done a w' -> k1 a w' = k2 a w') -> bind m k1 ≈ bind m k2.
Proof. intros H w. unfold bind. destruct (m w) eqn:E; eauto. Qed.

(** The same, knowing a property of every result of the common start. *)
Lemma bind_ext_post {V X A B : Type} (Q : A -> Prop) (m : M V X A) (k1 k2 : A -> M V X B) :
  (forall w a w', m w = Done a w' -> Q a) -> (forall a, Q a -> k1 a ≈ k2 a) ->
  bind m k1 ≈ bind m k2.
Proof. intros HQ Hk. apply bind_ext_done. intros a w w' E. apply Hk. by eapply HQ. Qed.

(** The world a successful bind goes through. *)
Lemma bind_done {V X A B : Type} (m : M V X A) (k : A -> M V X B) w b w' :
  bind m k w = Done b w' <-> exists a w1, m w = Done a w1 /\ k a w1 = Done b w'.
Proof.
  unfold bind. split.
  - destruct (m w) eqn:E; naive_solver.
  - intros (a & w1 & -> & ?). done.
Qed.

(** [mnorm] normalises a computation by the monad laws; [mext] goes under the
    first bind of both sides. *)
Ltac mret :=
  repeat match goal with
    | |- context [bind (ret ?a) ?k] => change (bind (ret a) k) with (k a); cbn beta iota zeta
    end.
Ltac mnorm := mret; repeat (progress (try setoid_rewrite bind_assoc; try setoid_rewrite bind_ret_l); mret).
Ltac mext := apply bind_ext; intros; try (case_match; subst).
(** Two known outcomes of one run are equal. *)
Ltac same_outcome :=
  repeat match goal with
    | E : ?r = Done ?a ?w, E' : ?r = ?o |- _ =>
        tryif constr_eq (Done a w) o then fail else (rewrite E' in E; simplify_eq)
    end; simplify_eq.

(** Follow a computation through calls whose outcomes are known. *)
Tactic Notation "follow" constr(E) := rewrite E; cbn beta iota delta [ret unwrap bind].

(** Equal computations, up to equal arguments. *)
Ltac meq_eq := lazymatch goal with |- ?a ≈ ?b => cut (a = b); [by intros ->|] end; repeat first [reflexivity | lia | progress f_equal].
(** Pointwise proof of an equation between concrete computations. *)
Ltac mcompute := intros ?w; unfold bind, ret, panic, out_of_fuel; simpl; crush_match.

#[export] Hint Resolve bind_ext : rx.
