(* ===== verification/Sendable.v ===== *)
(** * Queue senders: src/src/sendable.rs

    The trait [Sendable] and its three implementations: the asynchronous and
    the bounded sender of [std::sync::mpsc], whose [SendError] wrapper the code
    removes, and mio's [EventLoopSender], whose own [send] is a parameter. *)

From S2P Require Import Prelude Effects.

(** [trait Sendable : Sized + Clone]; [Drop] is the drop glue of the sender. *)
Class Sendable (V X Q Item : Type) := {
  send : Q -> Item -> M V X (result unit Item);
  clone_q : Q -> M V X Q;
  drop_q : Q -> M V X unit
}.

Section StdSenders.
Context {V X : Type}.

Definition Sender_send (self : Sender) (a : V) : M V X (result unit V) :=
  let! r := chan_send (tx_chan self) a in
  match r with
  | Ok _ => ret (Ok tt)
  | Err (mkSendError e) => ret (Err e)
  end.

Definition SyncSender_send (self : SyncSender) (a : V) : M V X (result unit V) :=
  let! r := chan_send (stx_chan self) a in
  match r with
  | Ok _ => ret (Ok tt)
  | Err (mkSendError e) => ret (Err e)
  end.

#[export] Instance Sendable_Sender : Sendable V X Sender V := {
  send := Sender_send;
  clone_q q := let! _ := chan_clone (tx_chan q) in ret q;
  drop_q q := chan_drop_sender (tx_chan q)
}.

#[export] Instance Sendable_SyncSender : Sendable V X SyncSender V := {
  send := SyncSender_send;
  clone_q q := let! _ := chan_clone (stx_chan q) in ret q;
  drop_q q := chan_drop_sender (stx_chan q)
}.
End StdSenders.

(** mio's event-loop sender: its inherent [send], [clone] and [drop] belong to
    mio and are parameters. *)
Class EventLoopSenderOps (V X Els A : Type) := {
  els_send : Els -> A -> M V X (result unit A);
  els_clone : Els -> M V X Els;
  els_drop : Els -> M V X unit
}.

Section MioSender.
Context {V X Els A : Type} `{!EventLoopSenderOps V X Els A}.

Definition EventLoopSender_send (self : Els) (a : A) : M V X (result unit A) :=
  let! r := els_send self a in
  match r with
  | Ok _ => ret (Ok tt)
  | Err e => ret (Err e)
  end.

#[export] Instance Sendable_EventLoopSender : Sendable V X Els A := {
  send := EventLoopSender_send;
  clone_q := els_clone;
  drop_q := els_drop
}.
End MioSender.

(** An event loop that takes every message and keeps it, in order; what it
    was sent is visible in the third-party state. *)
Class EventLoopSenderLaws (V X Els A : Type) `{!EventLoopSenderOps V X Els A} := {
  mail : X -> list A;
  els_send_law : forall q m (w : World V X), exists w', els_send q m w = Done (Ok tt) w' /\
    chans w' = chans w /\ stdout w' = stdout w /\ mail (ext w') = mail (ext w) ++ [m];
  els_drop_law : forall q (w : World V X), exists w', els_drop q w = Done tt w' /\
    chans w' = chans w /\ stdout w' = stdout w /\ mail (ext w') = mail (ext w)
}.

(** ** What sending does *)

(** The value is appended when the queue has a receiver and room for it. *)
Lemma chan_send_open {V X : Type} c (v : V) (w : World V X) ch :
  chans w !! c = Some ch -> ch_receiver ch = true -> chan_full ch = false ->
  chan_send c v w =
    Done (Ok tt) (with_chans w (<[c := mkChan (ch_queue ch ++ [v]) (ch_senders ch) true (ch_bound ch)]> (chans w))).
Proof. intros Hc Hr Hf. unfold chan_send. by rewrite Hc, Hr, Hf. Qed.

(** The value comes back when the receiver is gone. *)
Lemma chan_send_closed {V X : Type} c (v : V) (w : World V X) ch :
  chans w !! c = Some ch -> ch_receiver ch = false ->
  chan_send c v w = Done (Err (mkSendError v)) w.
Proof. intros Hc Hr. unfold chan_send. by rewrite Hc, Hr. Qed.
