(* ===== verification/Reactive.v ===== *)
(** * The reactive protocol: src/src/reactive.rs and src/src/default_macros.rs

    The traits [Subscriber] and [Publisher] as type classes over state-passing
    methods, their default methods, the loop [run], and the three macros with
    which every processor passes errors, completion and its subscription on.

    A [Box<Subscriber<Input=I> + 'a>] is a value of a type [S] with an
    instance [Subscriber V X S I]: dynamic dispatch becomes instance
    resolution, and a publisher's type mentions the type of what it may be
    subscribed with.  [&mut self] methods return the new [self]. *)

From S2P Require Import Prelude Effects.

(** ** [trait Subscriber] *)

(** [drop_box] is the drop glue of the boxed subscriber: it runs when a
    publisher overwrites or loses it. *)
Class Subscriber (V X S I : Type) := {
  on_next : S -> I -> M V X (S * bool);
  on_subscribe : S -> Z -> M V X S;
  on_error : S -> string -> M V X S;
  on_complete : S -> bool -> M V X S;
  drop_box : S -> M V X unit
}.

Arguments on_next {V X S I _} _ _ : simpl nomatch.
Arguments on_subscribe {V X S I _} _ _ : simpl nomatch.
Arguments on_error {V X S I _} _ _ : simpl nomatch.
Arguments on_complete {V X S I _} _ _ : simpl nomatch.
Arguments drop_box {V X S I _} _ : simpl nomatch.

Section SubscriberDefaults.
Context {V X S : Type}.
Definition default_on_subscribe (self : S) (_ : Z) : M V X S :=
  let! _ := debug "on_subscribe called" [] in ret self.
Definition default_on_error (self : S) (err : string) : M V X S :=
  let! _ := error "on_error called: {:?}" [err] in ret self.
Definition default_on_complete (self : S) (force : bool) : M V X S :=
  let! _ := debug "on_complete called" [] in ret self.
End SubscriberDefaults.

(** ** [trait Publisher] *)

Class Publisher (V X P S : Type) := {
  subscribe : P -> S -> M V X P;
  next : P -> M V X (P * bool);
  try_next : P -> M V X (P * bool)
}.

Arguments subscribe {V X P S _} _ _ : simpl nomatch.
Arguments next {V X P S _} _ : simpl nomatch.
Arguments try_next {V X P S _} _ : simpl nomatch.

Definition default_try_next {V X P : Type} (self : P) : M V X (P * bool) :=
  panic "Unimplemented fn, presumably run() or next() is being attempted on a processor, not a publisher".

(** The default [next] is the publisher's own [try_next]. *)
Definition default_next {V X P : Type} (self_try_next : P -> M V X (P * bool)) (self : P) : M V X (P * bool) :=
  self_try_next self.

Section Run.
Context {V X P S : Type} `{!Publisher V X P S}.

(** The loop of [run]; one unit of fuel per iteration. *)
Fixpoint run_loop (fuel : nat) (self : P) : M V X P :=
  match fuel with
  | O => out_of_fuel
  | Datatypes.S fuel' =>
      let! '(self', go) := next self in
      if go then run_loop fuel' self' else ret self'
  end.

Definition run (fuel : nat) (self : P) : M V X P :=
  let! _ := debug "Starting loop" [] in
  let! self' := run_loop fuel self in
  let! _ := debug "Done with loop" [] in
  ret self'.
End Run.

(** ** The fields [subscriber] and [index]

    Every publisher has a field [subscriber : Option<Box<Subscriber>>], and
    every processor a field [index : Option<usize>]; the macros and the bodies
    of [subscribe] use only these. *)
Class Link (P S : Type) := {
  subscriber_of : P -> option S;
  with_subscriber : option S -> P -> P;
  subscriber_of_with : forall o p, subscriber_of (with_subscriber o p) = o;
  with_subscriber_with : forall o o' p, with_subscriber o (with_subscriber o' p) = with_subscriber o p;
  with_subscriber_of : forall p, with_subscriber (subscriber_of p) p = p
}.

Class Indexed (P : Type) := {
  index_of : P -> option Z;
  with_index : option Z -> P -> P
}.

Section Macros.
Context {V X P S O : Type} `{!Subscriber V X S O} `{!Link P S}.

(** The body every [subscribe] has: store the box (dropping the one it
    replaces), then tell it its index. *)
Definition link_subscribe (self : P) (s : S) : M V X P :=
  let! _ := match subscriber_of self with
            | Some old => drop_box old
            | None => ret tt
            end in
  let! s' := on_subscribe s 0%Z in
  ret (with_subscriber (Some s') self).

Definition default_pass_error (self : P) (err : string) : M V X P :=
  let! _ := error "Error: {:?}" [err] in
  match subscriber_of self with
  | Some s => let! s' := on_error s err in ret (with_subscriber (Some s') self)
  | None => panic "on_error called but I don't have a subscriber"
  end.

Definition default_pass_complete (self : P) (force : bool) : M V X P :=
  match subscriber_of self with
  | Some s => let! s' := on_complete s force in ret (with_subscriber (Some s') self)
  | None => panic "on_complete called but I don't have a subscriber"
  end.

Definition default_pass_subscribe `{!Indexed P} (self : P) (index : Z) : M V X P :=
  ret (with_index (Some index) self).

(** The drop glue of a struct whose only owned resource is its subscriber. *)
Definition drop_link (self : P) : M V X unit :=
  match subscriber_of self with
  | Some s => drop_box s
  | None => ret tt
  end.
End Macros.

(** ** Facts about the loop *)

Section RunFacts.
Context {V X P S : Type} `{!Publisher V X P S}.

(** More fuel never changes a result that was reached. *)
Lemma run_loop_mono fuel fuel' (p : P) w :
  fuel <= fuel' ->
  (forall w', run_loop fuel p w <> OutOfFuel w') ->
  run_loop fuel' p w = run_loop fuel p w.
Proof.
  revert fuel' p w. induction fuel as [|fuel IH]; intros fuel' p w Hle Hok.
  { exfalso. by apply (Hok w). }
  destruct fuel' as [|fuel']; [lia|]. simpl in *. unfold bind in *.
  destruct (next p w) as [[p' b] w1| | |]; try done.
  destruct b; [|done]. apply IH; [lia | exact Hok].
Qed.

(** Publishers whose [next] always asks for more never stop. *)
Lemma run_loop_forever (I : P -> World V X -> Prop) :
  (forall p w, I p w -> exists p' w', next p w = Done (p', true) w' /\ I p' w') ->
  forall fuel p w, I p w -> exists w', run_loop fuel p w = OutOfFuel w'.
Proof.
  intros Hstep fuel. induction fuel as [|fuel IH]; intros p w Hp; simpl.
  { by eexists. }
  destruct (Hstep p w Hp) as (p' & w' & E & Hp').
  unfold bind. rewrite E. by apply IH.
Qed.
End RunFacts.
