(* ===== verification/Subscribers.v ===== *)
(** * Terminal subscribers: src/src/subscriber.rs

    [StdoutSubscriber] prints, [Decoupler] hands each value to a queue,
    [Collect] appends to a vector.  None overrides the other methods of the
    trait, so each has the default [on_subscribe], [on_error] and
    [on_complete] (their [index] field is never written). *)

From S2P Require Import Prelude Effects Sendable Reactive.

Module StdoutSubscriber.
Record t (A : Type) := mk { index : option Z }.
Arguments mk {A} _.

Section Def.
Context {V X A : Type} `{!Display A}.

Definition new : t A := mk None.

Definition on_next (self : t A) (x : A) : M V X (t A * bool) :=
  let! _ := println (display x) in
  ret (self, true).

#[global] Instance Subscriber_Stdout : Subscriber V X (t A) A := {
  on_next := on_next;
  on_subscribe := default_on_subscribe;
  on_error := default_on_error;
  on_complete := default_on_complete;
  drop_box _ := ret tt
}.
End Def.
End StdoutSubscriber.

Module Decoupler.
Record t (Q I : Type) := mk { index : option Z; data_tx : Q }.
Arguments mk {Q I} _ _.
Arguments data_tx {Q I} _.

Section Def.
Context {V X Q I : Type} `{!Sendable V X Q I}.

Definition new (tx : Q) : t Q I := mk None tx.

Definition on_next (self : t Q I) (x : I) : M V X (t Q I * bool) :=
  let! r := send (data_tx self) x in
  match r with
  | Ok _ => ret (self, true)
  | Err _ => ret (self, false)
  end.

#[global] Instance Subscriber_Decoupler : Subscriber V X (t Q I) I := {
  on_next := on_next;
  on_subscribe := default_on_subscribe;
  on_error := default_on_error;
  on_complete := default_on_complete;
  drop_box self := drop_q (data_tx self)
}.
End Def.
End Decoupler.

(** The vector is borrowed mutably for as long as the subscriber lives, so it
    is the subscriber's own state; dropping the subscriber ends the borrow. *)
Module Collect.
Record t (I : Type) := mk { index : option Z; val : list I }.
Arguments mk {I} _ _.
Arguments index {I} _.
Arguments val {I} _.

Section Def.
Context {V X I : Type}.

Definition new (v : list I) : t I := mk None v.

Definition on_next (self : t I) (x : I) : M V X (t I * bool) :=
  ret (mk (index self) (val self ++ [x]), true).

#[global] Instance Subscriber_Collect : Subscriber V X (t I) I := {
  on_next := on_next;
  on_subscribe := default_on_subscribe;
  on_error := default_on_error;
  on_complete := default_on_complete;
  drop_box _ := ret tt
}.
End Def.
End Collect.
