(* ===== verification/Processors.v ===== *)
(** * Processors: src/src/processorimpl.rs

    One module per processor: its struct as the record [t], its constructor
    [new], its [subscribe] and [on_next] as in the source, and the instances
    that assemble the trait implementations, the macro-generated methods
    included.  A user closure is a computation, so it may print, send or
    panic like any code.  None of these structs overrides [next] or
    [try_next], so running one is the panic of the default method. *)

From S2P Require Import Prelude Effects Sendable Reactive.

Module DoDebug.
Record t (S : Type) := mk { subscriber : option S; index : option Z }.
Arguments mk {S} _ _.
Arguments subscriber {S} _.
Arguments index {S} _.

#[global] Program Instance Link_DoDebug {S} : Link (t S) S := {
  subscriber_of := subscriber;
  with_subscriber o self := mk o (index self)
}.
Solve All Obligations with by intros; destruct_and?; try destruct p.
#[global] Instance Indexed_DoDebug {S} : Indexed (t S) := {
  index_of := index;
  with_index i self := mk (subscriber self) i
}.

Section Def.
Context {V X S I : Type} `{!Subscriber V X S I} `{!Debug I}.

Definition new : t S := mk None None.

Definition subscribe (self : t S) (s : S) : M V X (t S) := link_subscribe self s.

Definition on_next (self : t S) (x : I) : M V X (t S * bool) :=
  match subscriber self with
  | Some s =>
      let! _ := println (debug_fmt x) in
      let! '(s', go) := on_next s x in
      ret (mk (Some s') (index self), go)
  | None => ret (self, true)
  end.

#[global] Instance Subscriber_DoDebug : Subscriber V X (t S) I := {
  on_next := on_next;
  on_subscribe := default_pass_subscribe;
  on_error := default_pass_error;
  on_complete := default_pass_complete;
  drop_box := drop_link
}.
#[global] Instance Publisher_DoDebug : Publisher V X (t S) S := {
  subscribe := subscribe;
  next := default_next default_try_next;
  try_next := default_try_next
}.
End Def.
End DoDebug.

Module DebugWhile.
Record t (V X I S : Type) := mk {
  fun_ : I -> M V X bool;
  subscriber : option S;
  index : option Z
}.
Arguments mk {V X I S} _ _ _.
Arguments fun_ {V X I S} _ _.
Arguments subscriber {V X I S} _.
Arguments index {V X I S} _.

#[global] Program Instance Link_DebugWhile {V X I S} : Link (t V X I S) S := {
  subscriber_of := subscriber;
  with_subscriber o self := mk (fun_ self) o (index self)
}.
Solve All Obligations with by intros; destruct_and?; try destruct p.
#[global] Instance Indexed_DebugWhile {V X I S} : Indexed (t V X I S) := {
  index_of := index;
  with_index i self := mk (fun_ self) (subscriber self) i
}.

Section Def.
Context {V X S I : Type} `{!Subscriber V X S I} `{!Debug I}.

Definition new (f : I -> M V X bool) : t V X I S := mk f None None.

Definition subscribe (self : t V X I S) (s : S) : M V X (t V X I S) := link_subscribe self s.

Definition on_next (self : t V X I S) (x : I) : M V X (t V X I S * bool) :=
  match subscriber self with
  | Some s =>
      let! b := fun_ self x in
      let! _ := if b then println (debug_fmt x) else ret tt in
      let! '(s', go) := on_next s x in
      ret (mk (fun_ self) (Some s') (index self), go)
  | None => ret (self, true)
  end.

#[global] Instance Subscriber_DebugWhile : Subscriber V X (t V X I S) I := {
  on_next := on_next;
  on_subscribe := default_pass_subscribe;
  on_error := default_pass_error;
  on_complete := default_pass_complete;
  drop_box := drop_link
}.
#[global] Instance Publisher_DebugWhile : Publisher V X (t V X I S) S := {
  subscribe := subscribe;
  next := default_next default_try_next;
  try_next := default_try_next
}.
End Def.
End DebugWhile.

(** [Do] applies a unit function to each value. *)
Module Do.
Record t (V X I S : Type) := mk {
  fun_ : I -> M V X unit;
  subscriber : option S;
  index : option Z
}.
Arguments mk {V X I S} _ _ _.
Arguments fun_ {V X I S} _ _.
Arguments subscriber {V X I S} _.
Arguments index {V X I S} _.

#[global] Program Instance Link_Do {V X I S} : Link (t V X I S) S := {
  subscriber_of := subscriber;
  with_subscriber o self := mk (fun_ self) o (index self)
}.
Solve All Obligations with by intros; destruct_and?; try destruct p.
#[global] Instance Indexed_Do {V X I S} : Indexed (t V X I S) := {
  index_of := index;
  with_index i self := mk (fun_ self) (subscriber self) i
}.

Section Def.
Context {V X S I : Type} `{!Subscriber V X S I}.

Definition new (f : I -> M V X unit) : t V X I S := mk f None None.

Definition subscribe (self : t V X I S) (s : S) : M V X (t V X I S) := link_subscribe self s.

Definition on_next (self : t V X I S) (x : I) : M V X (t V X I S * bool) :=
  match subscriber self with
  | Some s =>
      let! _ := fun_ self x in
      let! '(s', go) := on_next s x in
      ret (mk (fun_ self) (Some s') (index self), go)
  | None => ret (self, true)
  end.

#[global] Instance Subscriber_Do : Subscriber V X (t V X I S) I := {
  on_next := on_next;
  on_subscribe := default_pass_subscribe;
  on_error := default_pass_error;
  on_complete := default_pass_complete;
  drop_box := drop_link
}.
#[global] Instance Publisher_Do : Publisher V X (t V X I S) S := {
  subscribe := subscribe;
  next := default_next default_try_next;
  try_next := default_try_next
}.
End Def.
End Do.

Module Map.
Record t (V X I O S : Type) := mk {
  fun_ : I -> M V X O;
  subscriber : option S;
  index : option Z
}.
Arguments mk {V X I O S} _ _ _.
Arguments fun_ {V X I O S} _ _.
Arguments subscriber {V X I O S} _.
Arguments index {V X I O S} _.

#[global] Program Instance Link_Map {V X I O S} : Link (t V X I O S) S := {
  subscriber_of := subscriber;
  with_subscriber o self := mk (fun_ self) o (index self)
}.
Solve All Obligations with by intros; destruct_and?; try destruct p.
#[global] Instance Indexed_Map {V X I O S} : Indexed (t V X I O S) := {
  index_of := index;
  with_index i self := mk (fun_ self) (subscriber self) i
}.

Section Def.
Context {V X S I O : Type} `{!Subscriber V X S O}.

Definition new (f : I -> M V X O) : t V X I O S := mk f None None.

Definition subscribe (self : t V X I O S) (s : S) : M V X (t V X I O S) := link_subscribe self s.

Definition on_next (self : t V X I O S) (x : I) : M V X (t V X I O S * bool) :=
  match subscriber self with
  | Some s =>
      let! y := fun_ self x in
      let! '(s', go) := on_next s y in
      ret (mk (fun_ self) (Some s') (index self), go)
  | None => ret (self, true)
  end.

#[global] Instance Subscriber_Map : Subscriber V X (t V X I O S) I := {
  on_next := on_next;
  on_subscribe := default_pass_subscribe;
  on_error := default_pass_error;
  on_complete := default_pass_complete;
  drop_box := drop_link
}.
#[global] Instance Publisher_Map : Publisher V X (t V X I O S) S := {
  subscribe := subscribe;
  next := default_next default_try_next;
  try_next := default_try_next
}.
End Def.
End Map.

(** [MapVal1] maps with a value cloned once, at construction. *)
Module MapVal1.
Record t (V X I T O S : Type) := mk {
  fun_ : I -> T -> M V X O;
  subscriber : option S;
  index : option Z;
  val : T
}.
Arguments mk {V X I T O S} _ _ _ _.
Arguments fun_ {V X I T O S} _ _ _.
Arguments subscriber {V X I T O S} _.
Arguments index {V X I T O S} _.
Arguments val {V X I T O S} _.

#[global] Program Instance Link_MapVal1 {V X I T O S} : Link (t V X I T O S) S := {
  subscriber_of := subscriber;
  with_subscriber o self := mk (fun_ self) o (index self) (val self)
}.
Solve All Obligations with by intros; destruct_and?; try destruct p.
#[global] Instance Indexed_MapVal1 {V X I T O S} : Indexed (t V X I T O S) := {
  index_of := index;
  with_index i self := mk (fun_ self) (subscriber self) i (val self)
}.

Section Def.
Context {V X S I T O : Type} `{!Subscriber V X S O} `{!Clone T}.

Definition new (v : T) (f : I -> T -> M V X O) : t V X I T O S := mk f None None (clone v).

Definition subscribe (self : t V X I T O S) (s : S) : M V X (t V X I T O S) := link_subscribe self s.

Definition on_next (self : t V X I T O S) (x : I) : M V X (t V X I T O S * bool) :=
  match subscriber self with
  | Some s =>
      let! y := fun_ self x (val self) in
      let! '(s', go) := on_next s y in
      ret (mk (fun_ self) (Some s') (index self) (val self), go)
  | None => ret (self, true)
  end.

#[global] Instance Subscriber_MapVal1 : Subscriber V X (t V X I T O S) I := {
  on_next := on_next;
  on_subscribe := default_pass_subscribe;
  on_error := default_pass_error;
  on_complete := default_pass_complete;
  drop_box := drop_link
}.
#[global] Instance Publisher_MapVal1 : Publisher V X (t V X I T O S) S := {
  subscribe := subscribe;
  next := default_next default_try_next;
  try_next := default_try_next
}.
End Def.
End MapVal1.

(** [Reduce] threads a state through its closure, and does so whether or not
    it has a subscriber for the result. *)
Module Reduce.
Record t (V X I T O S : Type) := mk {
  fun_ : T -> I -> M V X (T * O);
  subscriber : option S;
  index : option Z;
  state : T
}.
Arguments mk {V X I T O S} _ _ _ _.
Arguments fun_ {V X I T O S} _ _ _.
Arguments subscriber {V X I T O S} _.
Arguments index {V X I T O S} _.
Arguments state {V X I T O S} _.

#[global] Program Instance Link_Reduce {V X I T O S} : Link (t V X I T O S) S := {
  subscriber_of := subscriber;
  with_subscriber o self := mk (fun_ self) o (index self) (state self)
}.
Solve All Obligations with by intros; destruct_and?; try destruct p.
#[global] Instance Indexed_Reduce {V X I T O S} : Indexed (t V X I T O S) := {
  index_of := index;
  with_index i self := mk (fun_ self) (subscriber self) i (state self)
}.

Section Def.
Context {V X S I T O : Type} `{!Subscriber V X S O}.

Definition new (initial : T) (f : T -> I -> M V X (T * O)) : t V X I T O S := mk f None None initial.

Definition subscribe (self : t V X I T O S) (s : S) : M V X (t V X I T O S) := link_subscribe self s.

Definition on_next (self : t V X I T O S) (x : I) : M V X (t V X I T O S * bool) :=
  let! '(newstate, outval) := fun_ self (state self) x in
  match subscriber self with
  | Some s =>
      let! '(s', go) := on_next s outval in
      ret (mk (fun_ self) (Some s') (index self) newstate, go)
  | None => ret (mk (fun_ self) None (index self) newstate, true)
  end.

#[global] Instance Subscriber_Reduce : Subscriber V X (t V X I T O S) I := {
  on_next := on_next;
  on_subscribe := default_pass_subscribe;
  on_error := default_pass_error;
  on_complete := default_pass_complete;
  drop_box := drop_link
}.
#[global] Instance Publisher_Reduce : Publisher V X (t V X I T O S) S := {
  subscribe := subscribe;
  next := default_next default_try_next;
  try_next := default_try_next
}.
End Def.
End Reduce.

(** [Enumerate] pairs each value with a 64-bit count that wraps around. *)
Module Enumerate.
Record t (S : Type) := mk {
  subscriber : option S;
  index : option Z;
  count : Z
}.
Arguments mk {S} _ _ _.
Arguments subscriber {S} _.
Arguments index {S} _.
Arguments count {S} _.

#[global] Program Instance Link_Enumerate {S} : Link (t S) S := {
  subscriber_of := subscriber;
  with_subscriber o self := mk o (index self) (count self)
}.
Solve All Obligations with by intros; destruct_and?; try destruct p.
#[global] Instance Indexed_Enumerate {S} : Indexed (t S) := {
  index_of := index;
  with_index i self := mk (subscriber self) i (count self)
}.

Section Def.
Context {V X S I : Type} `{!Subscriber V X S (I * Z)}.

Definition new : t S := mk None None 0%Z.

Definition subscribe (self : t S) (s : S) : M V X (t S) := link_subscribe self s.

Definition on_next (self : t S) (x : I) : M V X (t S * bool) :=
  match subscriber self with
  | Some s =>
      let c := count self in
      let! '(s', go) := on_next s (x, c) in
      ret (mk (Some s') (index self) (u64 (c + 1)), go)
  | None => ret (self, true)
  end.

#[global] Instance Subscriber_Enumerate : Subscriber V X (t S) I := {
  on_next := on_next;
  on_subscribe := default_pass_subscribe;
  on_error := default_pass_error;
  on_complete := default_pass_complete;
  drop_box := drop_link
}.
#[global] Instance Publisher_Enumerate : Publisher V X (t S) S := {
  subscribe := subscribe;
  next := default_next default_try_next;
  try_next := default_try_next
}.
End Def.
End Enumerate.

(** [Tee] sends a clone to a queue, ignoring whether that worked, then passes
    the value on. *)
Module Tee.
Record t (Q S : Type) := mk {
  subscriber : option S;
  index : option Z;
  data_tx : Q
}.
Arguments mk {Q S} _ _ _.
Arguments subscriber {Q S} _.
Arguments index {Q S} _.
Arguments data_tx {Q S} _.

#[global] Program Instance Link_Tee {Q S} : Link (t Q S) S := {
  subscriber_of := subscriber;
  with_subscriber o self := mk o (index self) (data_tx self)
}.
Solve All Obligations with by intros; destruct_and?; try destruct p.
#[global] Instance Indexed_Tee {Q S} : Indexed (t Q S) := {
  index_of := index;
  with_index i self := mk (subscriber self) i (data_tx self)
}.

Section Def.
Context {V X Q S I : Type} `{!Subscriber V X S I} `{!Sendable V X Q I} `{!Clone I}.

Definition new (tx : Q) : t Q S := mk None None tx.

Definition subscribe (self : t Q S) (s : S) : M V X (t Q S) := link_subscribe self s.

Definition on_next (self : t Q S) (x : I) : M V X (t Q S * bool) :=
  match subscriber self with
  | Some s =>
      let! _ := send (data_tx self) (clone x) in
      let! '(s', go) := on_next s x in
      ret (mk (Some s') (index self) (data_tx self), go)
  | None => ret (self, true)
  end.

(** Fields are dropped in order: the subscriber, then the sender. *)
Definition drop_tee (self : t Q S) : M V X unit :=
  let! _ := drop_link self in drop_q (data_tx self).

#[global] Instance Subscriber_Tee : Subscriber V X (t Q S) I := {
  on_next := on_next;
  on_subscribe := default_pass_subscribe;
  on_error := default_pass_error;
  on_complete := default_pass_complete;
  drop_box := drop_tee
}.
#[global] Instance Publisher_Tee : Publisher V X (t Q S) S := {
  subscribe := subscribe;
  next := default_next default_try_next;
  try_next := default_try_next
}.
End Def.
End Tee.

(** [Unzip] sends both halves of a pair on, and joins the two answers with a
    [|] that does not short-circuit. *)
Module Unzip.
Record t (S : Type) := mk { subscriber : option S; index : option Z }.
Arguments mk {S} _ _.
Arguments subscriber {S} _.
Arguments index {S} _.

#[global] Program Instance Link_Unzip {S} : Link (t S) S := {
  subscriber_of := subscriber;
  with_subscriber o self := mk o (index self)
}.
Solve All Obligations with by intros; destruct_and?; try destruct p.
#[global] Instance Indexed_Unzip {S} : Indexed (t S) := {
  index_of := index;
  with_index i self := mk (subscriber self) i
}.

Section Def.
Context {V X S I : Type} `{!Subscriber V X S I}.

Definition new : t S := mk None None.

Definition subscribe (self : t S) (s : S) : M V X (t S) := link_subscribe self s.

Definition on_next (self : t S) (x : I * I) : M V X (t S * bool) :=
  match subscriber self with
  | Some s =>
      let! '(s1, go0) := on_next s x.1 in
      let! '(s2, go1) := on_next s1 x.2 in
      ret (mk (Some s2) (index self), go0 || go1)
  | None => ret (self, true)
  end.

#[global] Instance Subscriber_Unzip : Subscriber V X (t S) (I * I) := {
  on_next := on_next;
  on_subscribe := default_pass_subscribe;
  on_error := default_pass_error;
  on_complete := default_pass_complete;
  drop_box := drop_link
}.
#[global] Instance Publisher_Unzip : Publisher V X (t S) S := {
  subscribe := subscribe;
  next := default_next default_try_next;
  try_next := default_try_next
}.
End Def.
End Unzip.

(** [Take] counts with a 64-bit [usize] that wraps around; the value that
    passes the maximum completes the subscriber and is dropped. *)
Module Take.
Record t (S : Type) := mk {
  subscriber : option S;
  index : option Z;
  count : Z;
  max : Z;
  notified : bool
}.
Arguments mk {S} _ _ _ _ _.
Arguments subscriber {S} _.
Arguments index {S} _.
Arguments count {S} _.
Arguments max {S} _.
Arguments notified {S} _.

#[global] Program Instance Link_Take {S} : Link (t S) S := {
  subscriber_of := subscriber;
  with_subscriber o self := mk o (index self) (count self) (max self) (notified self)
}.
Solve All Obligations with by intros; destruct_and?; try destruct p.
#[global] Instance Indexed_Take {S} : Indexed (t S) := {
  index_of := index;
  with_index i self := mk (subscriber self) i (count self) (max self) (notified self)
}.

Section Def.
Context {V X S O : Type} `{!Subscriber V X S O}.

Definition new (max : Z) : t S := mk None None 0%Z max false.

Definition subscribe (self : t S) (s : S) : M V X (t S) := link_subscribe self s.

Definition on_next (self : t S) (x : O) : M V X (t S * bool) :=
  match subscriber self with
  | Some s =>
      let count' := usize (count self + 1) in
      if (count' >? max self)%Z then
        let! s' := on_complete s false in
        ret (mk (Some s') (index self) count' (max self) true, false)
      else
        let! '(s', go) := on_next s x in
        ret (mk (Some s') (index self) count' (max self) (notified self), go)
  | None => ret (self, true)
  end.

#[global] Instance Subscriber_Take : Subscriber V X (t S) O := {
  on_next := on_next;
  on_subscribe := default_pass_subscribe;
  on_error := default_pass_error;
  on_complete := default_pass_complete;
  drop_box := drop_link
}.
#[global] Instance Publisher_Take : Publisher V X (t S) S := {
  subscribe := subscribe;
  next := default_next default_try_next;
  try_next := default_try_next
}.
End Def.
End Take.
