(* ===== verification/Publishers.v ===== *)
(** * Sources: src/src/publisherimpl.rs

    [RndGen] (over the counting generator [TestIncGen]), [IterPublisher],
    [Coupler] and [Repeat].  [RndGen] overrides [try_next]; [IterPublisher] and
    [Repeat] override [next] only, so their [try_next] is the panic of the
    default method; [Coupler] overrides both. *)

From S2P Require Import Prelude Effects Reactive.

(** ** [TestIncGen]: a random generator that counts *)

Module TestIncGen.
Record t := mk { current : Z }.

Definition next_u32 (self : t) : t * Z :=
  let c := current self in (mk (u64 (c + 1)), u32 c).

Definition next_u64 (self : t) : t * Z :=
  let c := current self in (mk (u64 (c + 1)), c).
End TestIncGen.

(** quickcheck's [StdGen::new] and [Arbitrary::arbitrary] are third-party. *)
Class QuickCheck (V X Gen O : Type) := {
  StdGen_new : TestIncGen.t -> Z -> Gen;
  arbitrary : Gen -> M V X (Gen * O)
}.

Module RndGen.
Record t (Gen S : Type) := mk { subscriber : option S; gen : Gen }.
Arguments mk {Gen S} _ _.
Arguments subscriber {Gen S} _.
Arguments gen {Gen S} _.

#[global] Program Instance Link_RndGen {Gen S} : Link (t Gen S) S := {
  subscriber_of := subscriber;
  with_subscriber o self := mk o (gen self)
}.
Solve All Obligations with by intros; destruct_and?; try destruct p.

Section Def.
Context {V X Gen S O : Type} `{!Subscriber V X S O} `{!QuickCheck V X Gen O}.

Definition new : t Gen S := mk None (StdGen_new (TestIncGen.mk 0) 1000000).

Definition subscribe (self : t Gen S) (s : S) : M V X (t Gen S) := link_subscribe self s.

Definition try_next (self : t Gen S) : M V X (t Gen S * bool) :=
  match subscriber self with
  | Some s =>
      let! '(gen', x) := arbitrary (gen self) in
      let! '(s', go) := on_next s x in
      ret (mk (Some s') gen', go)
  | None =>
      let! _ := error "My subscriber went away" [] in ret (self, false)
  end.

#[global] Instance Publisher_RndGen : Publisher V X (t Gen S) S := {
  subscribe := subscribe;
  next := default_next try_next;
  try_next := try_next
}.
End Def.
End RndGen.

(** ** [std::iter::Iterator] *)

Class Iterator (V X It O : Type) := iter_next : It -> M V X (It * option O).

(** The items still to come of a vector. *)
#[export] Instance Iterator_list {V X O : Type} : Iterator V X (list O) O := fun l =>
  match l with
  | [] => ret ([], None)
  | x :: l' => ret (l', Some x)
  end.

(** [range(a, b)]. *)
Record Range := mkRange { rg_state : Z; rg_stop : Z }.
#[export] Instance Iterator_Range {V X : Type} : Iterator V X Range Z := fun r =>
  if (rg_state r <? rg_stop r)%Z
  then ret (mkRange (rg_state r + 1) (rg_stop r), Some (rg_state r))
  else ret (r, None).

Module IterPublisher.
Record t (It S : Type) := mk { iter : It; subscriber : option S }.
Arguments mk {It S} _ _.
Arguments iter {It S} _.
Arguments subscriber {It S} _.

#[global] Program Instance Link_IterPublisher {It S} : Link (t It S) S := {
  subscriber_of := subscriber;
  with_subscriber o self := mk (iter self) o
}.
Solve All Obligations with by intros; destruct_and?; try destruct p.

Section Def.
Context {V X It S O : Type} `{!Iterator V X It O} `{!Subscriber V X S O}.

Definition new (iter : It) : t It S := mk iter None.

Definition subscribe (self : t It S) (s : S) : M V X (t It S) := link_subscribe self s.

Definition next (self : t It S) : M V X (t It S * bool) :=
  match subscriber self with
  | Some s =>
      let! '(iter', item) := iter_next (iter self) in
      match item with
      | Some x =>
          let! '(s', go) := on_next s x in
          ret (mk iter' (Some s'), go)
      | None =>
          let! s' := on_complete s false in
          ret (mk iter' (Some s'), false)
      end
  | None =>
      let! _ := error "My subscriber went away" [] in ret (self, false)
  end.

#[global] Instance Publisher_IterPublisher : Publisher V X (t It S) S := {
  subscribe := subscribe;
  next := next;
  try_next := default_try_next
}.
End Def.
End IterPublisher.

Module Coupler.
Record t (S : Type) := mk { data_rx : Receiver; subscriber : option S }.
Arguments mk {S} _ _.
Arguments data_rx {S} _.
Arguments subscriber {S} _.

#[global] Program Instance Link_Coupler {S} : Link (t S) S := {
  subscriber_of := subscriber;
  with_subscriber o self := mk (data_rx self) o
}.
Solve All Obligations with by intros; destruct_and?; try destruct p.

Section Def.
Context {V X S : Type} `{!Subscriber V X S V}.

Definition new (rx : Receiver) : t S := mk rx None.

Definition subscribe (self : t S) (s : S) : M V X (t S) := link_subscribe self s.

Definition next (self : t S) : M V X (t S * bool) :=
  match subscriber self with
  | Some s =>
      let! r := recv (data_rx self) in
      match r with
      | Ok d =>
          let! '(s', go) := on_next s d in
          ret (mk (data_rx self) (Some s'), go)
      | Err _ =>
          let! _ := info "The other end of the coupler queue went away" [] in
          let! s' := on_complete s false in
          ret (mk (data_rx self) (Some s'), false)
      end
  | None =>
      let! _ := error "My subscriber went away" [] in ret (self, false)
  end.

Definition try_next (self : t S) : M V X (t S * bool) :=
  match subscriber self with
  | Some s =>
      let! r := try_recv (data_rx self) in
      match r with
      | Ok d =>
          let! '(s', go) := on_next s d in
          ret (mk (data_rx self) (Some s'), go)
      | Err Empty => ret (self, true)
      | Err Disconnected =>
          let! _ := info "The other end of the coupler queue went away" [] in
          let! s' := on_complete s false in
          ret (mk (data_rx self) (Some s'), false)
      end
  | None =>
      let! _ := error "My subscriber went away" [] in ret (self, false)
  end.

#[global] Instance Publisher_Coupler : Publisher V X (t S) S := {
  subscribe := subscribe;
  next := next;
  try_next := try_next
}.
End Def.
End Coupler.

Module Repeat.
Record t (O S : Type) := mk { val : O; subscriber : option S }.
Arguments mk {O S} _ _.
Arguments val {O S} _.
Arguments subscriber {O S} _.

#[global] Program Instance Link_Repeat {O S} : Link (t O S) S := {
  subscriber_of := subscriber;
  with_subscriber o self := mk (val self) o
}.
Solve All Obligations with by intros; destruct_and?; try destruct p.

Section Def.
Context {V X S O : Type} `{!Subscriber V X S O} `{!Clone O}.

Definition new (o : O) : t O S := mk o None.

Definition subscribe (self : t O S) (s : S) : M V X (t O S) := link_subscribe self s.

Definition next (self : t O S) : M V X (t O S * bool) :=
  match subscriber self with
  | Some s =>
      let! '(s', go) := on_next s (clone (val self)) in
      ret (mk (val self) (Some s'), go)
  | None =>
      let! _ := error "My subscriber went away" [] in ret (self, false)
  end.

#[global] Instance Publisher_Repeat : Publisher V X (t O S) S := {
  subscribe := subscribe;
  next := next;
  try_next := default_try_next
}.
End Def.
End Repeat.

(** ** Drop glue of the sources: fields in declaration order *)

Section Drops.
Context {V X S : Type} `{!Subscriber V X S V}.

Definition drop_coupler (self : Coupler.t S) : M V X unit :=
  let! _ := drop_receiver (Coupler.data_rx self) in drop_link self.
End Drops.

(** ** One iteration over a list *)

Section IterFacts.
Context {V X S O : Type} `{!Subscriber V X S O}.

Lemma iter_next_some (x : O) xs (s : S) :
  next (IterPublisher.mk (x :: xs) (Some s)) ≈
  let! '(s', go) := on_next s x in ret (IterPublisher.mk xs (Some s'), go).
Proof. done. Qed.

Lemma iter_next_none (s : S) :
  next (IterPublisher.mk (It := list O) [] (Some s)) ≈
  let! s' := on_complete s false in ret (IterPublisher.mk [] (Some s'), false).
Proof. done. Qed.
End IterFacts.

(** ** Iterators by what they yield *)

(** The iterator [it] yields [xs] and then ends. *)
Inductive Yields {V X It O : Type} `{!Iterator V X It O} : It -> list O -> Prop :=
| yields_nil it it' : iter_next it ≈ ret (it', None) -> Yields it []
| yields_cons it it' x xs : iter_next it ≈ ret (it', Some x) -> Yields it' xs -> Yields it (x :: xs).
Arguments Yields V X {It O _} it xs.

Section Yields.
Context {V X It S O : Type} `{!Iterator V X It O} `{!Subscriber V X S O}.

Lemma yields_nil_next (it : It) (s : S) :
  Yields V X it [] -> exists it',
  next (IterPublisher.mk it (Some s)) ≈
  let! s' := on_complete s false in ret (IterPublisher.mk it' (Some s'), false).
Proof.
  intros Hy. inversion Hy as [? it' E|]; subst. exists it'. simpl. unfold IterPublisher.next. simpl.
  rewrite E. by mret.
Qed.

Lemma yields_cons_next (it : It) x xs (s : S) :
  Yields V X it (x :: xs) -> exists it', Yields V X it' xs /\
  next (IterPublisher.mk it (Some s)) ≈
  let! '(s', go) := on_next s x in ret (IterPublisher.mk it' (Some s'), go).
Proof.
  intros Hy. inversion Hy as [|? it' ? ? E Hxs]; subst. exists it'. split; [done|]. simpl. unfold IterPublisher.next. simpl.
  rewrite E. by mret.
Qed.
End Yields.

Lemma yields_list {V X O : Type} (l : list O) : Yields V X l l.
Proof. induction l as [|x l IH]; [by eapply yields_nil | by eapply yields_cons]. Qed.

(** A vector yields nothing but its items. *)
Lemma yields_list_inv {V X O : Type} (w : World V X) (l xs : list O) : Yields V X l xs -> l = xs.
Proof.
  induction 1 as [l l' E | l l' x xs E _ IH]; specialize (E w); destruct l as [|y l]; try done.
  cbn in E. injection E as -> ->. by f_equal.
Qed.

Lemma yields_range {V X : Type} a (n : nat) : Yields V X (mkRange a (a + Z.of_nat n)) (seqZ a (Z.of_nat n)).
Proof.
  revert a. induction n as [|n IH]; intros a.
  - eapply yields_nil. unfold iter_next, Iterator_Range. simpl. by rewrite Z.add_0_r, Z.ltb_irrefl.
  - rewrite (seqZ_cons a (Z.of_nat (S n))) by lia. eapply yields_cons.
    + unfold iter_next, Iterator_Range. simpl. destruct (Z.ltb_spec a (a + Z.of_nat (S n))); [reflexivity|lia].
    + specialize (IH (a + 1)%Z). by replace (a + 1 + Z.of_nat n)%Z with (a + Z.of_nat (S n))%Z in IH by lia;
        replace (Z.pred (Z.of_nat (S n))) with (Z.of_nat n) by lia; rewrite <- Z.add_1_r.
Qed.
