(* ===== verification/Pipeline.v ===== *)
(** * What a pipeline computes

    The abstract specification of the push protocol.  [push s xs] offers the
    values [xs] to a subscriber until it refuses one; running a source over a
    list is [push] followed by one completion ([run_iter]).  A [Stage] is a
    processor that turns each value into exactly one value; it is a Mealy
    machine placed in front of its subscriber ([stage_push_pure]), and the
    processors of Processors.v are instances.  [Recorder] is the subscriber
    that records the signals it gets. *)

From S2P Require Import Prelude Effects Reactive Publishers.

(** ** Offering a list of values *)

Section Push.
Context {V X S I : Type} `{!Subscriber V X S I}.

(** The subscriber after the run, the values not offered, and whether every
    value was accepted. *)
Fixpoint push (s : S) (xs : list I) : M V X (S * list I * bool) :=
  match xs with
  | [] => ret (s, [], true)
  | x :: xs' =>
      let! '(s', go) := on_next s x in
      if go then push s' xs' else ret (s', xs', false)
  end.

(** A source that does not listen: every value is offered, whatever the
    answers (as a caller that loops over [next] may do). *)
Fixpoint drive (s : S) (xs : list I) : M V X S :=
  match xs with
  | [] => ret s
  | x :: xs' => let! '(s', _) := on_next s x in drive s' xs'
  end.
End Push.

(** [k] completions in a row. *)
Fixpoint complete_times {V X S I : Type} `{!Subscriber V X S I} (k : nat) (s : S) : M V X S :=
  match k with
  | O => ret s
  | Datatypes.S k' => let! s' := on_complete s false in complete_times k' s'
  end.

(** ** Mealy machines *)

Section Mealy.
Context {P I O : Type} (f : P -> I -> P * O).

Fixpoint mealy_out (p : P) (xs : list I) : list O :=
  match xs with
  | [] => []
  | x :: xs' => (f p x).2 :: mealy_out (f p x).1 xs'
  end.

Fixpoint mealy_state (p : P) (xs : list I) : P :=
  match xs with
  | [] => p
  | x :: xs' => mealy_state (f p x).1 xs'
  end.
End Mealy.

(** ** Stages *)

(** What a one-in, one-out processor promises: [stage_step] is its own work on
    a value; it neither reads nor writes the subscriber; [on_next] is the step
    followed by the subscriber's [on_next], whose answer is passed up; and
    completion is passed on. *)
Class Stage (V X P S I O : Type) `{!Link P S} `{!Subscriber V X P I} `{!Subscriber V X S O} := {
  stage_step : P -> I -> M V X (P * O);
  stage_frame : forall o p x,
    stage_step (with_subscriber o p) x ≈
    let! '(p', y) := stage_step p x in ret (with_subscriber o p', y);
  stage_on_next : forall p s x, subscriber_of p = Some s ->
    on_next p x ≈
    let! '(p', y) := stage_step p x in
    let! '(s', go) := on_next s y in
    ret (with_subscriber (Some s') p', go);
  stage_on_complete : forall p s force, subscriber_of p = Some s ->
    on_complete p force ≈
    let! s' := on_complete s force in ret (with_subscriber (Some s') p)
}.

(** ** A subscriber that records what it is told *)

Inductive Signal (I : Type) :=
| OnSubscribe (index : Z)
| OnNext (x : I)
| OnError (err : string)
| OnComplete (force : bool).
Arguments OnSubscribe {I} index.
Arguments OnNext {I} x.
Arguments OnError {I} err.
Arguments OnComplete {I} force.

Module Recorder.
(** [quota]: how many values it accepts before it answers [false]. *)
Record t (I : Type) := mk { signals : list (Signal I); quota : option nat }.
Arguments mk {I} _ _.
Arguments signals {I} _.
Arguments quota {I} _.

Section Def.
Context {V X I : Type}.
Definition note (e : Signal I) (self : t I) : t I := mk (signals self ++ [e]) (quota self).

Definition answer (self : t I) : bool :=
  match quota self with Some O => false | _ => true end.

#[global] Instance Subscriber_Recorder : Subscriber V X (t I) I := {
  on_next self x :=
    ret (mk (signals self ++ [OnNext x]) (pred <$> quota self), answer self);
  on_subscribe self i := ret (note (OnSubscribe i) self);
  on_error self e := ret (note (OnError e) self);
  on_complete self f := ret (note (OnComplete f) self);
  drop_box _ := ret tt
}.
End Def.
End Recorder.

(** ** Theorems *)

Section PushFacts.
Context {V X S I : Type} `{!Subscriber V X S I}.

Lemma push_app (s : S) (xs ys : list I) :
  push s (xs ++ ys) ≈
  let! '(s', rest, go) := push s xs in
  if (go : bool) then push s' ys else ret (s', rest ++ ys, false).
Proof.
  revert s. induction xs as [|x xs IH]; intros s; simpl.
  { by rewrite bind_ret_l. }
  rewrite bind_assoc. apply bind_ext. intros [s' go].
  destruct go; [apply IH | by rewrite bind_ret_l].
Qed.

(** What is left is a suffix of what was offered, and nothing is left when
    all was accepted. *)
Lemma push_suffix (s : S) (xs : list I) w s' rest go w' :
  push s xs w = Done (s', rest, go) w' ->
  rest = drop (length xs - length rest) xs /\ length rest <= length xs /\
  (go = true -> rest = []).
Proof.
  revert s w. induction xs as [|x xs IH]; intros s w; simpl.
  { intros [= <- <- <- <-]. done. }
  rewrite bind_done. intros ([s1 b] & w1 & _ & E). destruct b.
  - destruct (IH _ _ E) as (Hr & Hl & Hg).
    rewrite Nat.sub_succ_l by done. split; [done|]. split; [lia|done].
  - injection E as <- <- <- <-.
    replace (Datatypes.S (length xs) - length xs) with 1 by lia. split; [done|]. split; [lia|done].
Qed.

End PushFacts.

(** Running a source over a list: every value is offered in order until one is
    refused, and completion is signalled exactly when none was. *)
Lemma run_loop_iter {V X S I : Type} `{!Subscriber V X S I} (xs : list I) (s : S) fuel :
  length xs < fuel ->
  run_loop fuel (IterPublisher.mk xs (Some s)) ≈
  let! '(s', rest, go) := push s xs in
  if (go : bool)
  then let! s'' := on_complete s' false in ret (IterPublisher.mk [] (Some s''))
  else ret (IterPublisher.mk rest (Some s')).
Proof.
  revert s fuel. induction xs as [|x xs IH]; intros s fuel Hf;
    (destruct fuel as [|fuel]; simpl in Hf; [lia|]); cbn [run_loop push].
  - rewrite iter_next_none. mnorm. by apply bind_ext.
  - rewrite iter_next_some. mnorm.
    apply bind_ext. intros [s' go]. mret. destruct go; [|done].
    apply IH. lia.
Qed.

(** ** Stages are Mealy machines *)

Section StageFacts.
Context {V X P S I O : Type} `{Stage V X P S I O}.

(** A stage whose step is pure on the states [Inv], and computed there by
    [f].  [f] carries the subscriber along untouched. *)
Context (Inv : P -> Prop) (f : P -> I -> P * O).
Hypothesis step_pure : forall p x, Inv p -> stage_step p x ≈ ret (f p x).
Hypothesis step_inv : forall p x, Inv p -> Inv (f p x).1.
Hypothesis inv_link : forall o p, Inv p -> Inv (with_subscriber o p).
Hypothesis step_link : forall o p x, Inv p ->
  f (with_subscriber o p) x = (with_subscriber o (f p x).1, (f p x).2).

Lemma stage_on_next_pure p (s : S) x :
  Inv p ->
  on_next (with_subscriber (Some s) p) x ≈
  let! '(s', go) := on_next s (f p x).2 in
  ret (with_subscriber (Some s') (f p x).1, go).
Proof.
  intros Hp. rewrite (stage_on_next _ s) by apply subscriber_of_with.
  rewrite step_pure by auto. rewrite step_link by done. mnorm.
  apply bind_ext. intros [s' go]. by rewrite with_subscriber_with.
Qed.

Lemma length_mealy_out p xs : length (mealy_out f p xs) = length xs.
Proof. revert p. induction xs; intros p; simpl; auto. Qed.

(** Offering [xs] to the stage is offering the machine's outputs to its
    subscriber; as many inputs are left as outputs, and the machine has
    advanced over the inputs that were offered. *)
Lemma stage_push_pure p (s : S) xs :
  Inv p ->
  push (with_subscriber (Some s) p) xs ≈
  let! '(s', rest, go) := push s (mealy_out f p xs) in
  let k := length xs - length rest in
  ret (with_subscriber (Some s') (mealy_state f p (take k xs)), drop k xs, go).
Proof.
  revert p s. induction xs as [|x xs IH]; intros p s Hp; [done|].
  simpl. rewrite (stage_on_next_pure p s x Hp). mnorm.
  apply bind_ext. intros [s' go]. mnorm. destruct go.
  - rewrite IH by auto. apply bind_ext_done.
    intros [[s1 rest] go] w w' Hpush.
    apply push_suffix in Hpush as (_ & Hl & _). rewrite length_mealy_out in Hl.
    rewrite Nat.sub_succ_l by done. done.
  - mnorm. rewrite length_mealy_out.
    replace (Datatypes.S (length xs) - length xs) with 1 by lia. done.
Qed.

(** Running a source through the stage is running the source of its outputs
    into the subscriber: same effects, same deliveries, same completion. *)
Lemma stage_run_pure p (s : S) xs fuel :
  Inv p -> length xs < fuel ->
  run_loop fuel (IterPublisher.mk xs (Some (with_subscriber (Some s) p))) ≈
  let! '(s', rest, go) := push s (mealy_out f p xs) in
  let k := length xs - length rest in
  let p' := mealy_state f p (take k xs) in
  if (go : bool) then
    let! s'' := on_complete s' false in
    ret (IterPublisher.mk [] (Some (with_subscriber (Some s'') p')))
  else ret (IterPublisher.mk (drop k xs) (Some (with_subscriber (Some s') p'))).
Proof.
  intros Hp Hf. rewrite run_loop_iter, stage_push_pure by done. mnorm.
  apply bind_ext. intros [[s' rest] go]. mnorm. destruct go; [|done].
  rewrite (stage_on_complete _ s') by apply subscriber_of_with. mnorm.
  apply bind_ext. intros s''. by rewrite with_subscriber_with.
Qed.
End StageFacts.
