(* ===== verification/Stages.v ===== *)
(** * The processors keep their contracts

    The one-in, one-out processors of Processors.v are stages of Pipeline.v,
    so a chain of them computes what the corresponding list functions compute
    (map, enumerate, scan); [Take] delivers a prefix and completes once, as
    long as it is not driven past its end; [Unzip] flattens pairs. *)

From S2P Require Import Prelude Effects Sendable Reactive Subscribers Processors Publishers Pipeline.

(** Discharges the laws of a stage whose step is written as its [on_next]. *)
Ltac solve_stage :=
  intros;
  repeat match goal with
    | p : DoDebug.t _ |- _ => destruct p
    | p : DebugWhile.t _ _ _ _ |- _ => destruct p
    | p : Do.t _ _ _ _ |- _ => destruct p
    | p : Map.t _ _ _ _ _ |- _ => destruct p
    | p : MapVal1.t _ _ _ _ _ _ |- _ => destruct p
    | p : Reduce.t _ _ _ _ _ _ |- _ => destruct p
    | p : Enumerate.t _ |- _ => destruct p
    | p : Tee.t _ _ |- _ => destruct p
    end;
  simpl in *; simplify_eq;
  unfold DoDebug.on_next, DebugWhile.on_next, Do.on_next, Map.on_next, MapVal1.on_next,
    Reduce.on_next, Enumerate.on_next, Tee.on_next, default_pass_complete;
  mcompute.

Section Instances.
Context {V X S I T O : Type}.

#[export] Program Instance Stage_DoDebug `{!Subscriber V X S I} `{!Debug I} :
  Stage V X (DoDebug.t S) S I I := {
  stage_step p x := let! _ := println (debug_fmt x) in ret (p, x)
}.
Solve All Obligations with solve_stage.

#[export] Program Instance Stage_DebugWhile `{!Subscriber V X S I} `{!Debug I} :
  Stage V X (DebugWhile.t V X I S) S I I := {
  stage_step p x :=
    let! b := DebugWhile.fun_ p x in
    let! _ := if b then println (debug_fmt x) else ret tt in
    ret (p, x)
}.
Solve All Obligations with solve_stage.

#[export] Program Instance Stage_Do `{!Subscriber V X S I} :
  Stage V X (Do.t V X I S) S I I := {
  stage_step p x := let! _ := Do.fun_ p x in ret (p, x)
}.
Solve All Obligations with solve_stage.

#[export] Program Instance Stage_Map `{!Subscriber V X S O} :
  Stage V X (Map.t V X I O S) S I O := {
  stage_step p x := let! y := Map.fun_ p x in ret (p, y)
}.
Solve All Obligations with solve_stage.

#[export] Program Instance Stage_MapVal1 `{!Subscriber V X S O} `{!Clone T} :
  Stage V X (MapVal1.t V X I T O S) S I O := {
  stage_step p x := let! y := MapVal1.fun_ p x (MapVal1.val p) in ret (p, y)
}.
Solve All Obligations with solve_stage.

#[export] Program Instance Stage_Reduce `{!Subscriber V X S O} :
  Stage V X (Reduce.t V X I T O S) S I O := {
  stage_step p x :=
    let! '(st, y) := Reduce.fun_ p (Reduce.state p) x in
    ret (Reduce.mk (Reduce.fun_ p) (Reduce.subscriber p) (Reduce.index p) st, y)
}.
Solve All Obligations with solve_stage.

#[export] Program Instance Stage_Enumerate `{!Subscriber V X S (I * Z)} :
  Stage V X (Enumerate.t S) S I (I * Z) := {
  stage_step p x :=
    ret (Enumerate.mk (Enumerate.subscriber p) (Enumerate.index p) (u64 (Enumerate.count p + 1)),
         (x, Enumerate.count p))
}.
Solve All Obligations with solve_stage.

#[export] Program Instance Stage_Tee {Q} `{!Subscriber V X S I} `{!Sendable V X Q I} `{!Clone I} :
  Stage V X (Tee.t Q S) S I I := {
  stage_step p x := let! _ := send (Tee.data_tx p) (clone x) in ret (p, x)
}.
Solve All Obligations with solve_stage.
End Instances.

(** ** Chains of pure stages *)

Section PureStages.
Context {V X S I T O : Type} `{!Subscriber V X S O}.

(** C19: A source through [Map f] is the mapped source. *)
Theorem map_run (fn : I -> M V X O) (g : I -> O) (s : S) i (xs : list I) fuel :
  (forall x, fn x ≈ ret (g x)) -> length xs < fuel ->
  run_loop fuel (IterPublisher.mk xs (Some (Map.mk fn (Some s) i))) ≈
  let! '(s', rest, go) := push s (map g xs) in
  if (go : bool) then
    let! s'' := on_complete s' false in
    ret (IterPublisher.mk [] (Some (Map.mk fn (Some s'') i)))
  else ret (IterPublisher.mk (drop (length xs - length rest) xs) (Some (Map.mk fn (Some s') i))).
Proof.
  intros Hfn Hf.
  pose (f := fun (p : Map.t V X I O S) (x : I) => (p, g x)).
  assert (Hout : forall p ys, mealy_out f p ys = map g ys)
    by (intros p ys; revert p; induction ys; intros p; simpl; f_equal; auto).
  assert (Hst : forall p ys, mealy_state f p ys = p)
    by (intros p ys; revert p; induction ys; intros p; simpl; auto).
  change (Map.mk fn (Some s) i) with (with_subscriber (Some s) (Map.mk fn (Some s) i)).
  rewrite (stage_run_pure (fun p => Map.fun_ p = fn) f); [|..]; try done.
  - rewrite Hout. apply bind_ext. intros [[s' rest] go]. cbv zeta. rewrite Hst. done.
  - intros p x Hp. simpl. rewrite Hp, Hfn. done.
Qed.

(** [Reduce]: the scan of its closure. *)
Theorem reduce_push (fn : T -> I -> M V X (T * O)) (g : T -> I -> T * O) (s : S) i st (xs : list I) :
  (forall t x, fn t x ≈ ret (g t x)) ->
  push (Reduce.mk fn (Some s) i st) xs ≈
  let! '(s', rest, go) := push s (mealy_out g st xs) in
  let k := length xs - length rest in
  ret (Reduce.mk fn (Some s') i (mealy_state g st (take k xs)), drop k xs, go).
Proof.
  intros Hfn.
  pose (f := fun (p : Reduce.t V X I T O S) (x : I) =>
    (Reduce.mk (Reduce.fun_ p) (Reduce.subscriber p) (Reduce.index p) (g (Reduce.state p) x).1,
     (g (Reduce.state p) x).2)).
  assert (Hout : forall p ys, mealy_out f p ys = mealy_out g (Reduce.state p) ys)
    by (intros p ys; revert p; induction ys as [|y ys IH]; intros p; simpl; [done|]; f_equal; apply IH).
  assert (Hst : forall p ys, mealy_state f p ys =
      Reduce.mk (Reduce.fun_ p) (Reduce.subscriber p) (Reduce.index p) (mealy_state g (Reduce.state p) ys))
    by (intros p ys; revert p; induction ys as [|y ys IH]; intros p; simpl; [by destruct p|]; by rewrite IH).
  change (Reduce.mk fn (Some s) i st) with (with_subscriber (Some s) (Reduce.mk fn (Some s) i st)).
  rewrite (stage_push_pure (fun p => Reduce.fun_ p = fn) f); try done.
  - rewrite Hout. apply bind_ext. intros [[s' rest] go]. cbv zeta. rewrite Hst. done.
  - intros p x Hp. simpl. rewrite Hp, Hfn. unfold f. rewrite Hp. by destruct (g (Reduce.state p) x).
Qed.
End PureStages.

(** [Enumerate]: the count of each value, modulo 2^64. *)
Definition enum_from {I : Type} (c : Z) (xs : list I) : list (I * Z) :=
  imap (fun j x => (x, u64 (c + Z.of_nat j))) xs.

Lemma enum_from_cons {I : Type} c (x : I) xs :
  enum_from c (x :: xs) = (x, u64 c) :: enum_from (u64 (c + 1)) xs.
Proof.
  unfold enum_from. simpl. rewrite Z.add_0_r. f_equal. apply imap_ext. intros j y _. simpl.
  unfold u64. rewrite wrap_add_l. do 2 f_equal. lia.
Qed.

(** [Enumerate] delivers every value with its number, counting on from where it
    stood, and stands behind the last value that was offered. *)
Theorem enumerate_push {V X S I : Type} `{!Subscriber V X S (I * Z)} (s : S) i c (xs : list I) :
  (0 <= c < 2 ^ 64)%Z ->
  push (Enumerate.mk (Some s) i c) xs ≈
  let! '(s', rest, go) := push s (enum_from c xs) in
  let k := length xs - length rest in
  ret (Enumerate.mk (Some s') i (u64 (c + Z.of_nat k)), drop k xs, go).
Proof.
  intros Hc.
  pose (f := fun (p : Enumerate.t S) (x : I) =>
    (Enumerate.mk (Enumerate.subscriber p) (Enumerate.index p) (u64 (Enumerate.count p + 1)),
     (x, Enumerate.count p))).
  pose (inv := fun p : Enumerate.t S => (0 <= Enumerate.count p < 2 ^ 64)%Z).
  assert (Hout : forall p ys, inv p -> mealy_out f p ys = enum_from (Enumerate.count p) ys).
  { intros p ys. revert p. induction ys as [|y ys IH]; intros p Hp; simpl; [done|].
    rewrite enum_from_cons, (u64_small (Enumerate.count p)) by exact Hp. f_equal. apply IH. apply u64_range. }
  assert (Hst : forall p ys, inv p -> mealy_state f p ys =
      Enumerate.mk (Enumerate.subscriber p) (Enumerate.index p) (u64 (Enumerate.count p + Z.of_nat (length ys)))).
  { intros p ys. revert p. induction ys as [|y ys IH]; intros p Hp; simpl.
    - rewrite Z.add_0_r, (u64_small (Enumerate.count p)) by exact Hp. by destruct p.
    - rewrite IH by (apply u64_range). simpl. f_equal. unfold u64. rewrite wrap_add_l. f_equal. lia. }
  change (Enumerate.mk (Some s) i c) with (with_subscriber (Some s) (Enumerate.mk (Some s) i c)).
  rewrite (stage_push_pure inv f); try done.
  - rewrite Hout by done. apply bind_ext_done. intros [[s' rest] go] w w' E. cbv zeta. rewrite Hst by done. simpl.
    apply push_suffix in E as (_ & Hl & _). unfold enum_from in Hl. rewrite length_imap in Hl.
    rewrite length_take_le by lia. done.
  - intros p x Hp. apply u64_range.
Qed.

(** ** [Take] *)

Section TakeFacts.
Context {V X S O : Type} `{!Subscriber V X S O}.

(** Below its maximum, [Take] counts and passes the value on. *)
Lemma take_on_next_below (s : S) i c n b (x : O) :
  (0 <= c < n)%Z -> (n < 2 ^ 64)%Z ->
  on_next (Take.mk (Some s) i c n b) x ≈
  let! '(s', go) := on_next s x in ret (Take.mk (Some s') i (c + 1) n b, go).
Proof.
  intros Hc Hn. simpl. unfold Take.on_next. simpl. rewrite usize_small by lia.
  destruct (Z.gtb_spec (c + 1) n); [lia|done].
Qed.

(** From its maximum on, it drops the value, completes its subscriber and
    refuses; whether it did so before makes no difference. *)
Lemma take_on_next_above (s : S) i c n b (x : O) :
  (0 <= n <= c)%Z -> (c + 1 < 2 ^ 64)%Z ->
  on_next (Take.mk (Some s) i c n b) x ≈
  let! s' := on_complete s false in ret (Take.mk (Some s') i (c + 1) n true, false).
Proof.
  intros Hc Hn. simpl. unfold Take.on_next. simpl. rewrite usize_small by lia.
  destruct (Z.gtb_spec (c + 1) n); [done|lia].
Qed.

(** Offered a list, [Take] passes on as much of it as fits, and completes
    its subscriber when there is one value more. *)
Lemma take_push_spec (s : S) i c n b (xs : list O) :
  (0 <= c <= n)%Z -> (n + 1 < 2 ^ 64)%Z ->
  push (Take.mk (Some s) i c n b) xs ≈
  let k := Z.to_nat (n - c) in
  let! '(s', rest, go) := push s (take k xs) in
  let sent := length (take k xs) - length rest in
  if (go : bool) then
    match drop k xs with
    | [] => ret (Take.mk (Some s') i (c + Z.of_nat (length xs)) n b, [], true)
    | _ :: ys =>
        let! s'' := on_complete s' false in
        ret (Take.mk (Some s'') i (n + 1) n true, ys, false)
    end
  else ret (Take.mk (Some s') i (c + Z.of_nat sent) n b, drop sent xs, false).
Proof.
  intros Hc Hn. revert s c Hc. induction xs as [|x xs IH]; intros s c Hc; cbv zeta.
  { rewrite take_nil, drop_nil. simpl. mret. by rewrite Z.add_0_r. }
  cbn [push]. destruct (Z.eq_dec c n) as [->|Hne].
  - rewrite Z.sub_diag. rewrite take_on_next_above by lia. cbn [Z.to_nat take drop push length]. mnorm. done.
  - rewrite take_on_next_below by lia. replace (Z.to_nat (n - c)) with (Datatypes.S (Z.to_nat (n - (c + 1)))) by lia.
    cbn [take drop push length]. mnorm. apply bind_ext. intros [s' go]. mnorm. destruct go.
    + rewrite IH by lia. cbv zeta. apply bind_ext_done. intros [[s1 rest] go] w w' E.
      apply push_suffix in E as (_ & Hl & _). rewrite Nat.sub_succ_l by done.
      destruct go; [case_match; [|done]|]; simpl; do 4 f_equal; lia.
    + mnorm. rewrite Nat.sub_succ_l, Nat.sub_diag by lia. simpl. done.
Qed.

(** C17: A source of [xs] through [Take n] runs to its end, delivers the first
    [n] values to a willing subscriber and completes it exactly once. *)
Theorem take_run (s : S) i n (xs : list O) fuel :
  (0 <= n)%Z -> (n + 1 < 2 ^ 64)%Z -> length xs < fuel ->
  run_loop fuel (IterPublisher.mk xs (Some (Take.mk (Some s) i 0 n false))) ≈
  let k := Z.to_nat n in
  let! '(s', rest, go) := push s (take k xs) in
  if (go : bool) then
    let! s'' := on_complete s' false in
    ret (IterPublisher.mk (drop (k + 1) xs)
           (Some (Take.mk (Some s'') i (Z.min (Z.of_nat (length xs)) (n + 1)) n (k <? length xs))))
  else
    let sent := length (take k xs) - length rest in
    ret (IterPublisher.mk (drop sent xs) (Some (Take.mk (Some s') i (Z.of_nat sent) n false))).
Proof.
  intros Hn Hmax Hf. rewrite run_loop_iter, take_push_spec by lia. cbv zeta. rewrite Z.sub_0_r. mnorm.
  apply bind_ext. intros [[s' rest] go]. destruct go; [|by mret].
  rewrite <- drop_drop. destruct (drop (Z.to_nat n) xs) as [|y ys] eqn:Hd; simpl.
  - mret. simpl. unfold default_pass_complete. simpl. mnorm. apply bind_ext. intros s''.
    assert (length xs <= Z.to_nat n) by (apply (f_equal length) in Hd; rewrite length_drop in Hd; simpl in Hd; lia).
    destruct (Nat.ltb_spec (Z.to_nat n) (length xs)); [lia|]. mret. meq_eq.
  - assert (Z.to_nat n < length xs) by (apply (f_equal length) in Hd; rewrite length_drop in Hd; simpl in Hd; lia).
    mnorm. apply bind_ext. intros s''. mret. destruct (Nat.ltb_spec (Z.to_nat n) (length xs)); [|lia].
    meq_eq.
Qed.

(** Driven on after it has refused, [Take] completes its subscriber again,
    once per value: nothing reads [notified]. *)
Theorem take_overdriven (s : S) i c n b (xs : list O) :
  (0 <= n <= c)%Z -> (c + Z.of_nat (length xs) < 2 ^ 64)%Z ->
  drive (Take.mk (Some s) i c n b) xs ≈
  let! s' := complete_times (length xs) s in
  ret (Take.mk (Some s') i (c + Z.of_nat (length xs)) n (b || (0 <? length xs))).
Proof.
  revert s c b. induction xs as [|x xs IH]; intros s c b Hc Hlen; simpl length in *.
  { simpl. mret. by rewrite Z.add_0_r, orb_false_r. }
  cbn [drive complete_times]. rewrite take_on_next_above by lia. mnorm.
  apply bind_ext. intros s'. mret. rewrite IH by lia. apply bind_ext. intros s''.
  rewrite orb_true_r. simpl. meq_eq.
Qed.

(** The count wraps around: a [Take] that has seen 2^64 - 1 values forwards
    the next one and starts counting from 0 again, whatever its maximum, so
    that one already full delivers again. *)
Theorem take_wraps (s : S) i n b (x : O) :
  (0 <= n)%Z ->
  on_next (Take.mk (Some s) i (2 ^ 64 - 1) n b) x ≈
  let! '(s', go) := on_next s x in ret (Take.mk (Some s') i 0 n b, go).
Proof.
  intros Hn. simpl. unfold Take.on_next. simpl. change (usize (2 ^ 64 - 1 + 1)) with 0%Z.
  destruct (Z.gtb_spec 0 n); [lia|done].
Qed.
End TakeFacts.

(** ** [Unzip] *)

Lemma unzip_on_next {V X S I : Type} `{!Subscriber V X S I} (s : S) i (a b : I) :
  on_next (Unzip.mk (Some s) i) (a, b) ≈
  let! '(s1, go0) := on_next s a in
  let! '(s2, go1) := on_next s1 b in
  ret (Unzip.mk (Some s2) i, go0 || go1).
Proof. done. Qed.

Section UnzipFacts.
Context {V X S I : Type} `{!Subscriber V X S I}.

Definition flatten (ps : list (I * I)) : list I := concat (map (fun p => [p.1; p.2]) ps).

(** In front of a subscriber that never refuses, [Unzip] delivers the
    flattened pairs in order. *)
Theorem unzip_push (s : S) i (ps : list (I * I)) :
  (forall (s : S) x w r w', on_next s x w = Done r w' -> r.2 = true) ->
  push (Unzip.mk (Some s) i) ps ≈
  let! '(s', _, _) := push s (flatten ps) in ret (Unzip.mk (Some s') i, [], true).
Proof.
  intros Hacc. revert s. induction ps as [|[a b] ps IH]; intros s; [done|].
  change (flatten ((a, b) :: ps)) with (a :: b :: flatten ps).
  cbn [push]. rewrite unzip_on_next. mnorm.
  apply (bind_ext_post (fun r => r.2 = true)); [apply Hacc|]. intros [s1 go1] Hgo1.
  simpl in Hgo1. subst. mnorm.
  apply (bind_ext_post (fun r => r.2 = true)); [apply Hacc|]. intros [s2 go2] Hgo2.
  simpl in Hgo2. subst. mret. apply IH.
Qed.

(** C40: A refusal of the second half alone is lost: with room for one value in a
    [Take] behind it, [Unzip] still asks for the next pair after the [Take]
    has completed its subscriber, and that pair completes it twice more. *)
Theorem unzip_loses_refusal (s : S) i j n b (x y : I) (p : I * I) (ps : list (I * I)) :
  (0 < n)%Z -> (n + 3 < 2 ^ 64)%Z ->
  (forall w r w', on_next s x w = Done r w' -> r.2 = true) ->
  push (Unzip.mk (Some (Take.mk (Some s) i (n - 1) n b)) j) ((x, y) :: p :: ps) ≈
  let! '(s', _) := on_next s x in
  let! s'' := complete_times 3 s' in
  ret (Unzip.mk (Some (Take.mk (Some s'') i (n + 3) n true)) j, ps, false).
Proof.
  intros Hn Hmax Hacc. destruct p as [z t]. cbn [push complete_times].
  rewrite unzip_on_next, take_on_next_below, !bind_assoc by lia.
  apply (bind_ext_post (fun r => r.2 = true)); [apply Hacc|]. intros [s1 go1] Hgo1.
  simpl in Hgo1. subst. mret. rewrite take_on_next_above, !bind_assoc by lia.
  apply bind_ext. intros s2. mret. cbn [orb].
  rewrite unzip_on_next, take_on_next_above, !bind_assoc by lia.
  apply bind_ext. intros s3. mret. rewrite take_on_next_above, !bind_assoc by lia.
  apply bind_ext. intros s4. mret. cbn [orb]. meq_eq.
Qed.
End UnzipFacts.

(** ** Concrete instances *)

(** A vector to collect into. *)
Definition vec {I : Type} (v : list I) : Collect.t I := Collect.mk None v.

Lemma map_run_witness :
  exists w', run_loop (V := unit) 4 (IterPublisher.mk [1; 2; 3]%Z
      (Some (Map.mk (fun x => ret (x * 10)%Z) (Some (vec [])) None))) (empty_world tt) =
    Done (IterPublisher.mk [] (Some (Map.mk (fun x => ret (x * 10)%Z) (Some (vec [10; 20; 30]%Z)) None))) w'.
Proof.
  eexists. refine (eq_trans (map_run _ (fun x => x * 10)%Z (vec []) None [1; 2; 3]%Z 4 _ _ (empty_world tt)) _).
  - by intros x w.
  - simpl. lia.
  - reflexivity.
Defined.

Lemma reduce_push_witness :
  exists w', push (V := unit) (Reduce.mk (fun t x => ret (t + x, t + x)%Z) (Some (vec [])) None 0%Z) [1; 2; 3]%Z (empty_world tt) =
    Done (Reduce.mk (fun t x => ret (t + x, t + x)%Z) (Some (vec [1; 3; 6]%Z)) None 6%Z, [], true) w'.
Proof.
  eexists. refine (eq_trans (reduce_push _ (fun t x => (t + x, t + x))%Z (vec []) None 0%Z [1; 2; 3]%Z _ (empty_world tt)) _).
  - by intros t x w.
  - reflexivity.
Defined.

Lemma enumerate_push_witness :
  exists w', push (V := unit) (Enumerate.mk (Some (vec [])) None (2 ^ 64 - 1)%Z) [7; 8]%Z (empty_world tt) =
    Done (Enumerate.mk (Some (vec [(7, 2 ^ 64 - 1); (8, 0)]%Z)) None 1%Z, [], true) w'.
Proof.
  eexists. refine (eq_trans (enumerate_push (vec []) None (2 ^ 64 - 1)%Z [7; 8]%Z _ (empty_world tt)) _).
  - lia.
  - vm_compute. reflexivity.
Defined.

Lemma take_run_witness :
  exists w', run_loop (V := unit) 5 (IterPublisher.mk [1; 2; 3; 4]%Z
      (Some (Take.mk (Some (Recorder.mk [] None)) None 0 2 false))) (empty_world tt) =
    Done (IterPublisher.mk [4]%Z
      (Some (Take.mk (Some (Recorder.mk [OnNext 1; OnNext 2; OnComplete false]%Z None)) None 3 2 true))) w'.
Proof.
  eexists. refine (eq_trans (take_run (Recorder.mk [] None) None 2 [1; 2; 3; 4]%Z 5 _ _ _ (empty_world tt)) _);
    [lia | lia | simpl; lia | reflexivity].
Defined.

Lemma take_overdriven_witness :
  exists w', drive (V := unit) (Take.mk (Some (Recorder.mk [] None)) None 2 2 true) [5; 6]%Z (empty_world tt) =
    Done (Take.mk (Some (Recorder.mk [OnComplete false; OnComplete false] None)) None 4 2 true) w'.
Proof.
  eexists. refine (eq_trans (take_overdriven (Recorder.mk [] None) None 2 2 true [5; 6]%Z _ _ (empty_world tt)) _);
    [lia | simpl; lia | reflexivity].
Defined.

Lemma take_wraps_witness :
  exists w', on_next (V := unit) (Take.mk (Some (Recorder.mk [] None)) None (2 ^ 64 - 1)%Z 2 true) 9%Z (empty_world tt) =
    Done (Take.mk (Some (Recorder.mk [OnNext 9%Z] None)) None 0 2 true, true) w'.
Proof.
  eexists. refine (eq_trans (take_wraps (Recorder.mk [] None) None 2 true 9%Z _ (empty_world tt)) _); [lia | reflexivity].
Defined.

Lemma unzip_push_witness :
  exists w', push (V := unit) (Unzip.mk (Some (vec [])) None) [(1, 2); (3, 4)]%Z (empty_world tt) =
    Done (Unzip.mk (Some (vec [1; 2; 3; 4]%Z)) None, [], true) w'.
Proof.
  eexists. refine (eq_trans (unzip_push (vec []) None [(1, 2); (3, 4)]%Z _ (empty_world tt)) _).
  - intros s x w r w' E. injection E as <- _. reflexivity.
  - reflexivity.
Defined.

Lemma unzip_loses_refusal_witness :
  exists w', push (V := unit) (Unzip.mk (Some (Take.mk (Some (Recorder.mk [] None)) None 0 1 false)) None)
      [(1, 2); (3, 4)]%Z (empty_world tt) =
    Done (Unzip.mk (Some (Take.mk (Some (Recorder.mk
      [OnNext 1%Z; OnComplete false; OnComplete false; OnComplete false] None)) None 4 1 true)) None, [], false) w'.
Proof.
  eexists. refine (eq_trans (unzip_loses_refusal (Recorder.mk [] None) None None 1%Z false 1%Z 2%Z (3, 4)%Z [] _ _ _ (empty_world tt)) _);
    [lia | lia | | reflexivity].
  intros w r w' E. injection E as <- _. reflexivity.
Defined.
