(* ===== verification/Signals.v ===== *)
(** * Signals along a pipeline

    What a subscriber is told, and when: the values and the single completion
    of a source; nothing at all through a processor without a subscriber;
    what the two ends of a queue report; what is passed on when a queue or a
    caller has gone away. *)

From S2P Require Import Prelude Effects Sendable Reactive Subscribers Processors Publishers Pipeline Stages.

(** ** Sources *)

(** The signals a source over [xs] sends to a subscriber that accepts [quota]
    values ([None]: any number). *)
Definition iter_signals {I : Type} (xs : list I) (quota : option nat) : list (Signal I) :=
  match quota with
  | Some q => if length xs <=? q then map OnNext xs ++ [OnComplete false]
              else map OnNext (take (q + 1) xs)
  | None => map OnNext xs ++ [OnComplete false]
  end.

Lemma recorder_push {V X I : Type} (sig : list (Signal I)) (q : option nat) (xs : list I) :
  push (V := V) (X := X) (Recorder.mk sig q) xs ≈
  match q with
  | Some n =>
      if length xs <=? n
      then ret (Recorder.mk (sig ++ map OnNext xs) (Some (n - length xs)), [], true)
      else ret (Recorder.mk (sig ++ map OnNext (take (n + 1) xs)) (Some 0), drop (n + 1) xs, false)
  | None => ret (Recorder.mk (sig ++ map OnNext xs) None, [], true)
  end.
Proof.
  revert sig q. induction xs as [|x xs IH]; intros sig q; simpl.
  { destruct q; simpl; by rewrite ?app_nil_r, ?Nat.sub_0_r. }
  destruct q as [[|n]|]; unfold Recorder.answer; simpl; mret; [done| |]; rewrite IH; simpl;
    [case_match|]; by rewrite <- app_assoc.
Qed.

(** C18: Running a source over a list, whatever the subscriber's quota: it stops,
    the values arrive in order and at most one past the quota, and completion
    arrives once, at the end, exactly when nothing was refused. *)
Theorem iter_run_signals {V X I : Type} (xs : list I) (q : option nat) fuel (w : World V X) :
  length xs < fuel ->
  exists p' w',
    run fuel (IterPublisher.mk xs (Some (Recorder.mk [] q))) w = Done p' w' /\
    (Recorder.signals <$> IterPublisher.subscriber p') = Some (iter_signals xs q) /\
    stdout w' = stdout w /\ chans w' = chans w /\ ext w' = ext w.
Proof.
  intros Hf. unfold run. unfold debug at 1. unfold log_at, bind at 1.
  set (w1 := mkWorld _ _ _ _).
  assert (E : exists p', run_loop fuel (IterPublisher.mk xs (Some (Recorder.mk [] q))) w1 = Done p' w1 /\
              (Recorder.signals <$> IterPublisher.subscriber p') = Some (iter_signals xs q)).
  { rewrite (run_loop_iter xs _ _ Hf w1). unfold bind at 1. rewrite (recorder_push [] q xs w1).
    unfold iter_signals. destruct q as [n|]; [destruct (length xs <=? n)|]; (eexists; split; [reflexivity|reflexivity]). }
  destruct E as (p' & E & Hs). unfold bind at 1. rewrite E. do 2 eexists. by splits.
Qed.

(** A source that repeats its value never finishes by itself. *)
Theorem repeat_never_stops {V X S O : Type} `{!Subscriber V X S O} `{!Clone O} (v : O) (s : S) (w : World V X) :
  (forall (s : S) x w, exists s' w', on_next s x w = Done (s', true) w') ->
  forall fuel, exists w', run fuel (Repeat.mk v (Some s)) w = OutOfFuel w'.
Proof.
  intros Hacc fuel. unfold run. unfold debug at 1. unfold log_at, bind at 1.
  set (w1 := mkWorld _ _ _ _).
  edestruct (run_loop_forever (fun p _ => exists s, p = Repeat.mk v (Some s))) as [w' E].
  2: by exists s.
  - intros p w2 [s2 ->]. destruct (Hacc s2 (clone v) w2) as (s3 & w3 & E).
    exists (Repeat.mk v (Some s3)), w3. split; [|by exists s3].
    simpl. unfold Repeat.next, bind. simpl. by rewrite E.
  - exists w'. unfold bind at 1. by rewrite E.
Qed.

(** ** Without a subscriber *)

(** A value offered to a processor that nothing is subscribed to is dropped,
    with no effect and a request for more; [Reduce] alone still runs its
    closure and keeps the new state. *)
Theorem unsubscribed_drops {V X S I O T Q : Type} `{!Subscriber V X S I} `{!Subscriber V X S O}
    `{!Subscriber V X S (I * Z)} `{!Debug I} `{!Clone I} `{!Clone T} `{!Sendable V X Q I}
    (f : I -> M V X O) (fb : I -> M V X bool) (fu : I -> M V X unit) (fv : I -> T -> M V X O)
    (fr : T -> I -> M V X (T * O)) (t : T) (q : Q) i c n b (x y : I) :
  on_next (DoDebug.mk (S := S) None i) x ≈ ret (DoDebug.mk None i, true) /\
  on_next (DebugWhile.mk (S := S) fb None i) x ≈ ret (DebugWhile.mk fb None i, true) /\
  on_next (Do.mk (S := S) fu None i) x ≈ ret (Do.mk fu None i, true) /\
  on_next (Map.mk (S := S) f None i) x ≈ ret (Map.mk f None i, true) /\
  on_next (MapVal1.mk (S := S) fv None i t) x ≈ ret (MapVal1.mk fv None i t, true) /\
  on_next (Enumerate.mk (S := S) None i c) x ≈ ret (Enumerate.mk None i c, true) /\
  on_next (Tee.mk (S := S) None i q) x ≈ ret (Tee.mk None i q, true) /\
  on_next (Unzip.mk (S := S) None i) (x, y) ≈ ret (Unzip.mk None i, true) /\
  on_next (Take.mk (S := S) None i c n b) x ≈ ret (Take.mk None i c n b, true) /\
  on_next (Reduce.mk (S := S) fr None i t) x ≈
    let! '(t', _) := fr t x in ret (Reduce.mk fr None i t', true).
Proof. repeat split; intros w; try reflexivity. Qed.

(** Completion and errors cannot be passed on without a subscriber: the macros
    panic, an error after it has been logged. *)
Theorem unsubscribed_signals_panic {V X P S O : Type} `{!Subscriber V X S O} `{!Link P S} (p : P) force err :
  subscriber_of p = None ->
  default_pass_complete (O := O) p force ≈ panic (V := V) (X := X) "on_complete called but I don't have a subscriber" /\
  default_pass_error (O := O) p err ≈
    let! _ := error "Error: {:?}" [err] in panic "on_error called but I don't have a subscriber".
Proof. intros Hp. unfold default_pass_complete, default_pass_error. by rewrite Hp. Qed.

(** Every processor is a publisher without a [next] of its own: running one is
    the panic of the default method. *)
Theorem processor_run_panics {V X S I O : Type} `{!Subscriber V X S O} `{!Subscriber V X S I} (f : I -> M V X O) s i c n b fuel w :
  let msg := "Unimplemented fn, presumably run() or next() is being attempted on a processor, not a publisher" in
  (exists w', run (Datatypes.S fuel) (Map.mk f s i) w = Panicked msg w') /\
  (exists w', run (Datatypes.S fuel) (Take.mk (S := S) s i c n b) w = Panicked msg w') /\
  (exists w', run (Datatypes.S fuel) (Unzip.mk (S := S) s i) w = Panicked msg w').
Proof. repeat split; by eexists. Qed.

(** ** The ends of a queue *)

(** [try_next] never waits for the queue, and it is [next] in every situation
    but one: on an empty queue with a live sender [next] waits, while
    [try_next] does nothing and asks to be called again. *)
Theorem coupler_try_next {V X S : Type} `{!Subscriber V X S V} (p : Coupler.t S) (s : S) (w : World V X) ch :
  Coupler.subscriber p = Some s -> chans w !! rx_chan (Coupler.data_rx p) = Some ch ->
  if bool_decide (ch_queue ch = []) && (0 <? ch_senders ch)
  then next p w = Blocked w /\ try_next p w = Done (p, true) w
  else try_next p w = next p w.
Proof.
  intros Hs Hc. simpl. unfold Coupler.next, Coupler.try_next, bind, recv, try_recv.
  rewrite Hs, Hc. destruct (ch_queue ch) as [|v q]; simpl; [|done].
  by destruct (ch_senders ch).
Qed.

(** [Tee] ignores what became of its copy: with the queue open the value is in
    it before the subscriber is asked, with the queue closed it is not, and
    either way the subscriber gets the value and gives the answer. *)
Theorem tee_passes_on {V X S : Type} `{!Subscriber V X S V} `{!Clone V} (s : S) i c (v : V) (w : World V X) ch :
  chans w !! c = Some ch -> ch_bound ch = None ->
  on_next (Tee.mk (Some s) i (mkSender c)) v w =
  (let! '(s', go) := on_next s v in ret (Tee.mk (Some s') i (mkSender c), go))
  (if ch_receiver ch
   then with_chans w (<[c := mkChan (ch_queue ch ++ [clone v]) (ch_senders ch) true None]> (chans w))
   else w).
Proof.
  intros Hc Hb. simpl. unfold Tee.on_next. simpl. unfold Sender_send. simpl. unfold bind at 1 2.
  destruct (ch_receiver ch) eqn:Hr.
  - assert (Hf : chan_full ch = false) by (unfold chan_full; by rewrite Hb).
    rewrite (chan_send_open c _ w ch Hc Hr Hf), Hb. done.
  - by rewrite (chan_send_closed c _ w ch Hc Hr).
Qed.

(** The printing stages change nothing of what is delivered: [DoDebug] prints
    every value and [DebugWhile] the ones its predicate holds of, before the
    subscriber gets all of them. *)
Theorem debug_stages_print {V X I : Type} `{!Debug I} (P : I -> bool) (v xs : list I) i j (w : World V X) :
  let after (lines : list string) := mkWorld (stdout w ++ lines) (log w) (chans w) (ext w) in
  push (DoDebug.mk (Some (Collect.mk i v)) j) xs w =
    Done (DoDebug.mk (Some (Collect.mk i (v ++ xs))) j, [], true) (after (map debug_fmt xs)) /\
  push (DebugWhile.mk (fun x => ret (P x)) (Some (Collect.mk i v)) j) xs w =
    Done (DebugWhile.mk (fun x => ret (P x)) (Some (Collect.mk i (v ++ xs))) j, [], true)
         (after (map debug_fmt (filter P xs))).
Proof.
  revert v w. induction xs as [|x xs IH]; intros v w; simpl.
  { rewrite !app_nil_r. by destruct w. }
  unfold DoDebug.on_next, DebugWhile.on_next. simpl. unfold println, bind, ret. simpl.
  rewrite filter_cons. split.
  - destruct (IH (v ++ [x]) (mkWorld (stdout w ++ [debug_fmt x]) (log w) (chans w) (ext w))) as [E _].
    unfold bind, ret in E. rewrite E. simpl. by rewrite <- !app_assoc.
  - destruct (P x) eqn:HP; simpl.
    + destruct (IH (v ++ [x]) (mkWorld (stdout w ++ [debug_fmt x]) (log w) (chans w) (ext w))) as [_ E].
      unfold bind, ret in E. rewrite E. simpl. by rewrite <- !app_assoc.
    + destruct (IH (v ++ [x]) w) as [_ E]. unfold bind, ret in E. rewrite E. simpl. by rewrite <- !app_assoc.
Qed.

(** ** Concrete instances *)

Lemma iter_run_signals_witness :
  exists p' w', run (V := unit) 4 (IterPublisher.mk [1; 2; 3]%Z (Some (Recorder.mk [] (Some 1)))) (empty_world tt) = Done p' w' /\
    (Recorder.signals <$> IterPublisher.subscriber p') = Some [OnNext 1; OnNext 2]%Z.
Proof.
  destruct (iter_run_signals [1; 2; 3]%Z (Some 1) 4 (empty_world (V := unit) tt) ltac:(simpl; lia)) as (p' & w' & E & Hs & _).
  exists p', w'. split; [exact E|exact Hs].
Defined.

Lemma repeat_never_stops_witness :
  exists w', run (V := unit) 100 (Repeat.mk 5%Z (Some (vec (I := Z) []))) (empty_world tt) = OutOfFuel w'.
Proof.
  refine (repeat_never_stops 5%Z (vec []) (empty_world tt) _ 100).
  intros s x w. by do 2 eexists.
Defined.

Lemma unsubscribed_signals_panic_witness :
  exists w', on_error (I := Z) (Take.mk (S := Collect.t Z) None None 0 3 false) "eof" (empty_world (V := unit) tt) =
    Panicked "on_error called but I don't have a subscriber" w'.
Proof.
  eexists. destruct (unsubscribed_signals_panic (V := unit) (X := unit) (O := Z)
    (Link0 := Take.Link_Take) (P := Take.t (Collect.t Z)) (S := Collect.t Z) (Take.mk (S := Collect.t Z) None None 0 3 false) false "eof" eq_refl) as [_ E].
  refine (eq_trans (E (empty_world tt)) _). reflexivity.
Defined.

(** A world with one open queue, at 0. *)
Definition one_queue {V : Type} (q : list V) (senders : nat) (receiver : bool) : World V unit :=
  mkWorld [] [] {[ 0 := mkChan q senders receiver None ]} tt.

Lemma coupler_try_next_witness :
  let p := Coupler.mk (mkReceiver 0) (Some (vec [])) in
  next p (one_queue (V := Z) [] 1 true) = Blocked (one_queue [] 1 true) /\
  try_next p (one_queue (V := Z) [] 1 true) = Done (p, true) (one_queue [] 1 true).
Proof.
  exact (coupler_try_next (Coupler.mk (mkReceiver 0) (Some (vec []))) (vec []) (one_queue (V := Z) [] 1 true)
    (mkChan [] 1 true None) eq_refl eq_refl).
Defined.

Lemma tee_passes_on_witness :
  exists w', on_next (Tee.mk (Some (vec [])) None (mkSender 0)) 7%Z (one_queue [3%Z] 1 true) =
      Done (Tee.mk (Some (vec [7%Z])) None (mkSender 0), true) w' /\
    chans w' !! 0 = Some (mkChan [3%Z; 7%Z] 1 true None).
Proof.
  eexists. split.
  - refine (eq_trans (tee_passes_on (vec []) None 0 7%Z (one_queue [3%Z] 1 true)
      (mkChan [3%Z] 1 true None) eq_refl eq_refl) _). reflexivity.
  - reflexivity.
Defined.
