(* ===== verification/Threads.v ===== *)
(** * Two threads joined by a queue

    The decoupled pipeline of src/src/lib.rs: a source thread runs a chain that
    ends in a [Decoupler], a sink thread runs a [Coupler] on the other end of
    the queue.  A thread is a publisher run to its end, then dropped; each of
    its steps is one [next], which performs a single queue operation.  The
    theorems hold for every interleaving of the two threads' steps. *)

From S2P Require Import Prelude Effects Sendable Reactive Subscribers Processors Publishers Pipeline.

(** ** What the two chains promise *)

(** The subscriber [s] is a chain that ends in queue [c]: it sends [h x] and
    answers whether that worked; completion does not touch the queues or the
    output; dropping it drops the one sender. *)
Record Sink {V X S I : Type} `{!Subscriber V X S I} (c : nat) (h : I -> V) (s : S) : Prop := {
  sink_next : forall x,
    on_next s x ≈ let! r := chan_send c (h x) in
                  ret (s, match r with Ok _ => true | Err _ => false end);
  sink_complete : forall f w, exists w',
    on_complete s f w = Done s w' /\ chans w' = chans w /\ stdout w' = stdout w;
  sink_drop : drop_box s ≈ chan_drop_sender c
}.

(** What can be seen of a subscriber that never refuses: [obs] grows by one
    item per value and by [obs_end] at completion, whatever the queues and the
    log hold. *)
Class Observer (V X S T : Type) `{!Subscriber V X S V} := {
  obs : S -> World V X -> list T;
  obs_item : V -> T;
  obs_end : list T;
  obs_inv : S -> Prop;
  obs_frame : forall s w w', stdout w = stdout w' -> obs s w = obs s w';
  obs_next : forall s v w, obs_inv s -> exists s' w',
    on_next s v w = Done (s', true) w' /\ obs_inv s' /\
    obs s' w' = obs s w ++ [obs_item v] /\ chans w' = chans w;
  obs_complete : forall s w, obs_inv s -> exists s' w',
    on_complete s false w = Done s' w' /\ obs_inv s' /\
    obs s' w' = obs s w ++ obs_end /\ chans w' = chans w;
  obs_drop : forall s w, exists w', drop_box s w = Done tt w' /\ chans w' = chans w /\ stdout w' = stdout w
}.

(** ** The two threads *)

Inductive Thread (P : Type) := Running (p : P) | Finished (p : P).
Arguments Running {P} p.
Arguments Finished {P} p.

(** The end of a thread's body: the last line of [run], then the boxes it
    owns go out of scope. *)
Definition finish {V X P : Type} (drop : P -> M V X unit) (p : P) : M V X unit :=
  let! _ := debug "Done with loop" [] in drop p.

(** One iteration of a thread's loop.  A [next] that waits, or panics, is no
    step. *)
Inductive thread_step {V X P S : Type} `{!Publisher V X P S} (drop : P -> M V X unit) :
    Thread P * World V X -> Thread P * World V X -> Prop :=
| thread_next p p' w w' :
    next p w = Done (p', true) w' ->
    thread_step drop (Running p, w) (Running p', w')
| thread_end p p' w w1 w2 :
    next p w = Done (p', false) w1 -> finish drop p' w1 = Done tt w2 ->
    thread_step drop (Running p, w) (Finished p', w2).

(** What a thread's closure captured is dropped after the locals of its body:
    senders it made its clones from. *)
Definition drop_captured {V X : Type} (env : list Sender) : M V X unit :=
  foldr (fun q rest => let! _ := drop_q (Item := V) q in rest) (ret tt) env.

Definition drop_source {V X P S I : Type} `{!Subscriber V X S I} `{!Link P S} (env : list Sender) (p : P) : M V X unit :=
  let! _ := drop_link p in drop_captured env.

Section System.
Context {V X It I S1 S2 : Type} `{!Iterator V X It I} `{!Subscriber V X S1 I} `{!Subscriber V X S2 V}.

Record Sys := mkSys {
  source : Thread (IterPublisher.t It S1);
  sink : Thread (Coupler.t S2);
  world : World V X
}.

Inductive step (env : list Sender) : Sys -> Sys -> Prop :=
| source_step p q w p' w' :
    thread_step (drop_source env) (p, w) (p', w') -> step env (mkSys p q w) (mkSys p' q w')
| sink_step p q w q' w' :
    thread_step drop_coupler (q, w) (q', w') -> step env (mkSys p q w) (mkSys p q' w').

(** Both threads at the start of their loops, over an empty queue [c] of bound
    [b], with the chain's sender, those the source captured, and its receiver. *)
Definition start (env : list Sender) (c : nat) (b : option nat) (s1 : S1) (s2 : S2) (it : It) (w : World V X) : Sys :=
  mkSys (Running (IterPublisher.mk it (Some s1))) (Running (Coupler.mk (mkReceiver c) (Some s2)))
        (with_chans w (<[c := mkChan [] (S (length env)) true b]> (chans w))).
End System.
Arguments Sys V X It S1 S2 : clear implicits.

(** ** Chains that end in a queue *)

Section SinkFacts.
Context {V X I O S : Type}.

Lemma decoupler_sink c i :
  Sink (V := V) (X := X) c id (Decoupler.mk (I := V) i (mkSender c)).
Proof.
  split; simpl.
  - intros x. unfold Decoupler.on_next. simpl. unfold Sender_send. simpl. mnorm.
    apply bind_ext. intros [?|[e]]; by mret.
  - intros f w. by eexists.
  - done.
Qed.

Lemma map_sink `{!Subscriber V X S O} c (h : O -> V) (fn : I -> M V X O) (g : I -> O) (s : S) i :
  (forall x, fn x ≈ ret (g x)) -> Sink c h s -> Sink c (h ∘ g) (Map.mk fn (Some s) i).
Proof.
  intros Hfn [Hn Hc Hd]. split; simpl.
  - intros x. unfold Map.on_next. simpl. rewrite Hfn. mret. rewrite Hn. mnorm.
    apply bind_ext. intros [?|?]; by mret.
  - intros f w. unfold default_pass_complete. simpl. destruct (Hc f w) as (w' & E & ? & ?).
    exists w'. unfold bind. by rewrite E.
  - unfold drop_link. simpl. done.
Qed.

Lemma decoupler_sync_sink c i :
  Sink (V := V) (X := X) c id (Decoupler.mk (I := V) i (mkSyncSender c)).
Proof.
  split; simpl.
  - intros x. unfold Decoupler.on_next. simpl. unfold SyncSender_send. simpl. mnorm.
    apply bind_ext. intros [?|[e]]; by mret.
  - intros f w. by eexists.
  - done.
Qed.
End SinkFacts.

(** ** Subscribers whose deliveries can be seen *)

Ltac solve_observer :=
  intros;
  repeat match goal with s : Recorder.t _ |- _ => destruct s end; simpl in *; subst;
  first [ done
        | by eexists
        | do 2 eexists; rewrite ?app_nil_r; by repeat split ].

Section Observers.
Context {V X : Type}.

#[export] Program Instance Observer_Collect : Observer V X (Collect.t V) V := {
  obs s _ := Collect.val s;
  obs_item := id;
  obs_end := [];
  obs_inv _ := True
}.
Solve All Obligations with solve_observer.

#[export] Program Instance Observer_Stdout `{!Display V} : Observer V X (StdoutSubscriber.t V) string := {
  obs _ w := stdout w;
  obs_item := display;
  obs_end := [];
  obs_inv _ := True
}.
Solve All Obligations with solve_observer.

#[export] Program Instance Observer_Recorder : Observer V X (Recorder.t V) (Signal V) := {
  obs s _ := Recorder.signals s;
  obs_item := OnNext;
  obs_end := [OnComplete false];
  obs_inv s := Recorder.quota s = None
}.
Solve All Obligations with solve_observer.
End Observers.

(** ** One step of either thread *)

(** Whether a queue of bound [b] that holds [q] is within it, and whether it
    could take more: a bound of zero leaves a sender waiting for ever. *)
Definition within {V : Type} (b : option nat) (q : list V) : Prop :=
  match b with Some n => length q <= n | None => True end.
Definition has_room (b : option nat) (len : nat) : bool :=
  match b with Some n => len <? n | None => true end.

Lemma chan_full_room {V : Type} (q : list V) n r b :
  chan_full (mkChan q n r b) = negb (has_room b (length q)).
Proof. unfold chan_full, has_room. simpl. destruct b as [k|]; [|done]. apply Nat.leb_antisym. Qed.

Lemma within_send {V : Type} b (q : list V) v : has_room b (length q) = true -> within b (q ++ [v]).
Proof.
  unfold has_room, within. destruct b as [n|]; [|done]. rewrite Nat.ltb_lt, length_app. simpl. lia.
Qed.

Lemma within_recv {V : Type} b (q : list V) v : within b (v :: q) -> within b q.
Proof. unfold within. destruct b as [n|]; [|done]. simpl. lia. Qed.

(** A full queue holds something. *)
Lemma full_nonempty {V : Type} b (q : list V) : b <> Some 0 -> has_room b (length q) = false -> q <> [].
Proof. intros Hb Hf ->. destruct b as [[|n]|]; simpl in Hf; done. Qed.

Section Steps.
Context {V X It I T S1 S2 : Type} `{!Iterator V X It I} `{!Subscriber V X S1 I} `{!Subscriber V X S2 V} `{!Observer V X S2 T}.
Context (c : nat) (b : option nat).
Implicit Types w : World V X.

Section Source.
Context (h : I -> V) (s1 : S1) (Hsink : Sink c h s1).
Context (env : list Sender) (Henv : Forall (fun q => tx_chan q = c) env).

Lemma drop_captured_at (qs : list Sender) queue n w :
  Forall (fun q => tx_chan q = c) qs -> chans w !! c = Some (mkChan queue (length qs + n) true b) ->
  exists w', drop_captured qs w = Done tt w' /\ chans w' !! c = Some (mkChan queue n true b) /\ stdout w' = stdout w.
Proof.
  intros Hqs. revert w. induction Hqs as [|q qs Hq _ IH]; intros w Hc; simpl; [by exists w|].
  unfold bind, chan_drop_sender, alter_chan. rewrite Hq.
  destruct (IH (with_chans w (alter (fun ch => mkChan (ch_queue ch) (pred (ch_senders ch)) (ch_receiver ch) (ch_bound ch)) c (chans w))))
    as (w' & E & Hc' & Hout).
  { simpl. by rewrite lookup_alter, decide_True, Hc. }
  by exists w'.
Qed.

Lemma source_more it x todo queue n w :
  Yields V X it (x :: todo) ->
  chans w !! c = Some (mkChan queue n true b) -> has_room b (length queue) = true ->
  exists it', Yields V X it' todo /\
  next (IterPublisher.mk it (Some s1)) w =
  Done (IterPublisher.mk it' (Some s1), true)
       (with_chans w (<[c := mkChan (queue ++ [h x]) n true b]> (chans w))).
Proof.
  intros Hy Hc Hroom. destruct (yields_cons_next it x todo s1 Hy) as (it' & Hy' & E).
  exists it'. split; [done|]. rewrite (E w). unfold bind at 1.
  rewrite (sink_next c h s1 Hsink x w). unfold bind.
  by rewrite (chan_send_open _ _ _ _ Hc) by (rewrite ?chan_full_room, ?Hroom; done).
Qed.

Lemma source_waits it x todo queue n w :
  Yields V X it (x :: todo) ->
  chans w !! c = Some (mkChan queue n true b) -> has_room b (length queue) = false ->
  next (IterPublisher.mk it (Some s1)) w = Blocked w.
Proof.
  intros Hy Hc Hroom. destruct (yields_cons_next it x todo s1 Hy) as (it' & _ & E). rewrite (E w). unfold bind at 1.
  rewrite (sink_next c h s1 Hsink x w). unfold bind, chan_send. rewrite Hc. cbn [ch_receiver].
  by rewrite chan_full_room, Hroom.
Qed.

Lemma source_over it queue n w :
  Yields V X it [] -> chans w !! c = Some (mkChan queue (S (length env + n)) true b) ->
  exists p w1 w2, next (IterPublisher.mk it (Some s1)) w = Done (p, false) w1 /\
    finish (drop_source env) p w1 = Done tt w2 /\
    chans w2 !! c = Some (mkChan queue n true b) /\ stdout w2 = stdout w.
Proof.
  intros Hy Hc. destruct (yields_nil_next it s1 Hy) as (it' & En).
  destruct (sink_complete c h s1 Hsink false w) as (w1 & E & Hch & Hout).
  set (w1' := with_chans (mkWorld (stdout w1) (log w1 ++ [mkLog LDebug "Done with loop" []]) (chans w1) (ext w1))
    (alter (fun ch => mkChan (ch_queue ch) (pred (ch_senders ch)) (ch_receiver ch) (ch_bound ch)) c (chans w1))).
  destruct (drop_captured_at env queue n w1' Henv) as (w2 & E2 & Hc2 & Hout2).
  { unfold w1'. simpl. by rewrite lookup_alter, decide_True, Hch, Hc. }
  exists (IterPublisher.mk it' (Some s1)), w1, w2. split; [|split; [|split]].
  - rewrite (En w). unfold bind. by rewrite E.
  - unfold finish, debug, log_at, bind at 1, drop_source, drop_link, bind. simpl.
    rewrite (sink_drop c h s1 Hsink). exact E2.
  - done.
  - rewrite Hout2. exact Hout.
Qed.

(** What a step of the source does: it sends its next value, which needs room,
    or ends and gives up its senders. *)
Lemma source_step_inv it todo queue n w t w' :
  Yields V X it todo -> chans w !! c = Some (mkChan queue (S (length env + n)) true b) ->
  thread_step (drop_source env) (Running (IterPublisher.mk it (Some s1)), w) (t, w') ->
  match todo with
  | x :: todo' => has_room b (length queue) = true /\
      (exists it', Yields V X it' todo' /\ t = Running (IterPublisher.mk it' (Some s1))) /\
      w' = with_chans w (<[c := mkChan (queue ++ [h x]) (S (length env + n)) true b]> (chans w))
  | [] => (exists p, t = Finished p) /\
      chans w' !! c = Some (mkChan queue n true b) /\ stdout w' = stdout w
  end.
Proof.
  intros Hy Hc Hstep. destruct todo as [|x todo].
  - destruct (source_over _ _ _ _ Hy Hc) as (p1 & w3 & w4 & E' & Ef' & Hc' & Hout).
    inversion Hstep; subst; same_outcome; eauto.
  - destruct (has_room b (length queue)) eqn:Hroom.
    + destruct (source_more _ _ _ _ _ _ Hy Hc Hroom) as (it' & Hy' & E'). inversion Hstep; subst; same_outcome; eauto.
    + pose proof (source_waits _ _ _ _ _ _ Hy Hc Hroom) as E'. inversion Hstep; subst; by same_outcome.
Qed.

(** A source at its end can step, and one with a value when there is room. *)
Lemma source_can_step it todo queue n w :
  Yields V X it todo -> chans w !! c = Some (mkChan queue (S (length env + n)) true b) ->
  todo = [] \/ has_room b (length queue) = true ->
  exists t w', thread_step (drop_source env) (Running (IterPublisher.mk it (Some s1)), w) (t, w').
Proof.
  intros Hy Hc Hroom. destruct todo as [|x todo].
  - destruct (source_over _ _ _ _ Hy Hc) as (p & w1 & w2 & E & Ef & _). do 2 eexists. by eapply thread_end.
  - destruct Hroom as [|Hroom]; [done|]. destruct (source_more _ _ _ _ _ _ Hy Hc Hroom) as (it' & _ & E).
    do 2 eexists. eapply thread_next. exact E.
Qed.
End Source.

Lemma sink_more v queue n (s2 : S2) w :
  chans w !! c = Some (mkChan (v :: queue) n true b) -> obs_inv s2 ->
  exists s2' w', next (Coupler.mk (mkReceiver c) (Some s2)) w = Done (Coupler.mk (mkReceiver c) (Some s2'), true) w' /\
    obs_inv s2' /\ obs s2' w' = obs s2 w ++ [obs_item v] /\
    chans w' = <[c := mkChan queue n true b]> (chans w).
Proof.
  intros Hc Hs.
  destruct (obs_next s2 v (with_chans w (<[c := mkChan queue n true b]> (chans w))) Hs)
    as (s2' & w' & E & Hs' & Ho & Hch).
  exists s2', w'. splits; [|by rewrite Ho, (obs_frame s2 _ w)].
  simpl. unfold Coupler.next. simpl. unfold bind, recv at 1. simpl. rewrite Hc. simpl. by rewrite E.
Qed.

Lemma sink_over (s2 : S2) w :
  chans w !! c = Some (mkChan [] 0 true b) -> obs_inv s2 ->
  exists s2' w1 w2, next (Coupler.mk (mkReceiver c) (Some s2)) w = Done (Coupler.mk (mkReceiver c) (Some s2'), false) w1 /\
    finish drop_coupler (Coupler.mk (mkReceiver c) (Some s2')) w1 = Done tt w2 /\
    obs s2' w2 = obs s2 w ++ obs_end /\ chans w2 !! c = Some (mkChan [] 0 false b).
Proof.
  intros Hc Hs.
  destruct (obs_complete s2 (mkWorld (stdout w) (log w ++ [mkLog LInfo "The other end of the coupler queue went away" []]) (chans w) (ext w)) Hs)
    as (s2' & w1 & E & Hs' & Ho & Hch).
  destruct (obs_drop s2' (with_chans (mkWorld (stdout w1) (log w1 ++ [mkLog LDebug "Done with loop" []]) (chans w1) (ext w1))
    (alter (fun ch => mkChan [] (ch_senders ch) false (ch_bound ch)) c (chans w1)))) as (w2 & E2 & Hch2 & Hout).
  exists s2', w1, w2. split; [|split; [|split]].
  - simpl. unfold Coupler.next. simpl. unfold bind, recv at 1. simpl. rewrite Hc. simpl. by rewrite E.
  - exact E2.
  - rewrite (obs_frame s2' w2 w1) by exact Hout. rewrite Ho. f_equal. by apply obs_frame.
  - rewrite Hch2. simpl. rewrite lookup_alter, decide_True, Hch by done. simpl. by rewrite Hc.
Qed.

Lemma sink_waits (s2 : S2) n w :
  chans w !! c = Some (mkChan [] (S n) true b) ->
  next (Coupler.mk (mkReceiver c) (Some s2)) w = Blocked w.
Proof.
  intros Hc. simpl. unfold Coupler.next. simpl. unfold bind, recv at 1. simpl. by rewrite Hc.
Qed.

(** What a step of the sink does: it must wait for a value or the end. *)
Lemma sink_step_inv queue n (s2 : S2) w t w' :
  chans w !! c = Some (mkChan queue n true b) -> obs_inv s2 ->
  thread_step drop_coupler (Running (Coupler.mk (mkReceiver c) (Some s2)), w) (t, w') ->
  match queue with
  | v :: queue' => exists s2', t = Running (Coupler.mk (mkReceiver c) (Some s2')) /\ obs_inv s2' /\
      obs s2' w' = obs s2 w ++ [obs_item v] /\ chans w' = <[c := mkChan queue' n true b]> (chans w)
  | [] => n = 0 /\ (exists s2', t = Finished (Coupler.mk (mkReceiver c) (Some s2')) /\
      obs s2' w' = obs s2 w ++ obs_end) /\ chans w' !! c = Some (mkChan [] 0 false b)
  end.
Proof.
  intros Hc Hi Hstep. destruct queue as [|v queue].
  - destruct n as [|n].
    + destruct (sink_over s2 w Hc Hi) as (s2' & w3 & w4 & E' & Ef' & Ho & Hc').
      inversion Hstep; subst; same_outcome; eauto 6.
    + pose proof (sink_waits s2 _ _ Hc) as E'. inversion Hstep; subst; by same_outcome.
  - destruct (sink_more _ _ _ _ _ Hc Hi) as (s2' & w3 & E' & Hi' & Ho & Hch).
    inversion Hstep; subst; same_outcome; eauto.
Qed.

Lemma sink_can_step queue n (s2 : S2) w :
  chans w !! c = Some (mkChan queue n true b) -> obs_inv s2 -> queue <> [] \/ n = 0 ->
  exists t w', thread_step drop_coupler (Running (Coupler.mk (mkReceiver c) (Some s2)), w) (t, w').
Proof.
  intros Hc Hi Hq. destruct queue as [|v queue].
  - destruct Hq as [|Hn]; [done|]. subst.
    destruct (sink_over s2 w Hc Hi) as (s2' & w1 & w2 & E & Ef & _). do 2 eexists. by eapply thread_end.
  - destruct (sink_more _ _ _ _ _ Hc Hi) as (s2' & w' & E & _). do 2 eexists. by eapply thread_next.
Qed.
End Steps.

(** ** Every interleaving delivers everything, once, in order *)

Section Deliver.
Context {V X It I T S1 S2 : Type} `{!Iterator V X It I} `{!Subscriber V X S1 I} `{!Subscriber V X S2 V} `{!Observer V X S2 T}.
Context (c : nat) (b : option nat) (Hb : b <> Some 0).
Context (h : I -> V) (s1 : S1) (Hsink : Sink c h s1) (target : list T).
Context (env : list Sender) (Henv : Forall (fun q => tx_chan q = c) env).

(** The states the two threads go through, with the number of steps they may
    still take: both at work; the source done and its senders dropped; both
    done.  What was seen, what is queued and what is to come always add up to
    the target. *)
Inductive phase : nat -> Sys V X It S1 S2 -> Prop :=
| phase_both it todo queue s2 w :
    Yields V X it todo ->
    chans w !! c = Some (mkChan queue (S (length env)) true b) -> within b queue -> obs_inv s2 ->
    obs s2 w ++ map obs_item (queue ++ map h todo) = target ->
    phase (2 * length todo + length queue + 2)
      (mkSys (Running (IterPublisher.mk it (Some s1))) (Running (Coupler.mk (mkReceiver c) (Some s2))) w)
| phase_drain p queue s2 w :
    chans w !! c = Some (mkChan queue 0 true b) -> within b queue -> obs_inv s2 ->
    obs s2 w ++ map obs_item queue = target ->
    phase (S (length queue)) (mkSys (Finished p) (Running (Coupler.mk (mkReceiver c) (Some s2))) w)
| phase_done p q s2 w :
    chans w !! c = Some (mkChan [] 0 false b) ->
    Coupler.subscriber q = Some s2 -> obs s2 w = target ++ obs_end ->
    phase 0 (mkSys (Finished p) (Finished q) w).

(** One step of either thread leads to a phase with less left to do. *)
Lemma step_phase k (y y' : Sys V X It S1 S2) : phase k y -> step env y y' -> exists k', k' < k /\ phase k' y'.
Proof.
  intros Hp Hstep. destruct Hp as [it todo queue s2 w Hy Hc Hr Hi Hsum | p queue s2 w Hc Hr Hi Hsum | p q s2 w _ _ _];
    inversion Hstep as [? ? ? t w' Ht | ? ? ? t w' Ht]; subst; clear Hstep.
  - rewrite <- (Nat.add_0_r (length env)) in Hc.
    apply (source_step_inv c b h s1 Hsink env Henv _ _ _ _ _ _ _ Hy Hc) in Ht. rewrite Nat.add_0_r in Ht.
    destruct todo as [|x todo].
    + destruct Ht as ([p ->] & Hc' & Hout). eexists. split; [|eapply phase_drain; [done..|]]; [simpl; lia|].
      simpl in *. rewrite app_nil_r in Hsum. by rewrite (obs_frame s2 w' w).
    + destruct Ht as (Hroom & (it' & Hy' & ->) & ->).
      eexists. split; [|eapply phase_both; [done|by apply lookup_insert_eq|by apply within_send|done|]].
      * rewrite length_app. simpl. lia.
      * by rewrite (obs_frame s2 _ w), <- app_assoc.
  - apply (sink_step_inv c b _ _ _ _ _ _ Hc Hi) in Ht. destruct queue as [|v queue]; [by destruct Ht|].
    destruct Ht as (s2' & -> & Hi' & Ho & Hch).
    eexists. split; [|eapply phase_both; [done|rewrite Hch; by apply lookup_insert_eq|by eapply within_recv|done|]].
    * simpl. lia.
    * by rewrite Ho, <- app_assoc.
  - inversion Ht.
  - apply (sink_step_inv c b _ _ _ _ _ _ Hc Hi) in Ht. destruct queue as [|v queue].
    + destruct Ht as (_ & (s2' & -> & Ho) & Hc'). exists 0. split; [lia|].
      eapply phase_done; [done..|]. simpl in *. rewrite app_nil_r in Hsum. by rewrite Ho, Hsum.
    + destruct Ht as (s2' & -> & Hi' & Ho & Hch). eexists. split; [|eapply phase_drain;
        [rewrite Hch; by apply lookup_insert_eq | by eapply within_recv | done |]]; [simpl; lia|].
      by rewrite Ho, <- app_assoc.
  - inversion Ht.
  - inversion Ht.
Qed.

(** Until both threads are done, one of them can step. *)
Lemma phase_progress k (y : Sys V X It S1 S2) :
  phase k y ->
  (exists y', step env y y') \/
  exists p q s2, source y = Finished p /\ sink y = Finished q /\
    Coupler.subscriber q = Some s2 /\ obs s2 (world y) = target ++ obs_end /\
    chans (world y) !! c = Some (mkChan [] 0 false b).
Proof.
  intros [it todo queue s2 w Hy Hc Hr Hi Hsum | p queue s2 w Hc Hr Hi Hsum | p q s2 w Hc Hq Ho].
  - left. destruct (has_room b (length queue)) eqn:Hroom.
    + rewrite <- (Nat.add_0_r (length env)) in Hc.
      destruct (source_can_step c b h s1 Hsink env Henv it todo queue 0 w Hy Hc) as (t & w' & Ht); [by right|].
      eexists. by eapply source_step.
    + destruct (sink_can_step c b queue _ s2 w Hc Hi) as (t & w' & Ht); [left; by eapply full_nonempty|].
      eexists. by eapply sink_step.
  - left. destruct (sink_can_step c b queue _ s2 w Hc Hi) as (t & w' & Ht); [by right|].
    eexists. by eapply sink_step.
  - right. eauto 10.
Qed.

Lemma phase_within k (y : Sys V X It S1 S2) :
  phase k y -> exists ch, chans (world y) !! c = Some ch /\ ch_bound ch = b /\ within b (ch_queue ch).
Proof.
  intros []; eexists; (split; [done|]); (split; [done|]); simpl; [done..|]. unfold within. destruct b; simpl; [lia|done].
Qed.
End Deliver.

(** Everything about the executions of the two threads. *)
Lemma deliver_all {V X It I T S1 S2 : Type} `{!Iterator V X It I} `{!Subscriber V X S1 I} `{!Subscriber V X S2 V} `{!Observer V X S2 T}
    (env : list Sender) (c : nat) (b : option nat) (h : I -> V) (s1 : S1) (s2 : S2) (it : It) (xs : list I) (w : World V X) n y :
  b <> Some 0 -> Forall (fun q => tx_chan q = c) env -> Sink c h s1 -> obs_inv s2 -> Yields V X it xs ->
  nsteps (step env) n (start env c b s1 s2 it w) y ->
  exists k, n + k <= 2 * length xs + 2 /\
  phase c b h s1 (obs s2 w ++ map (obs_item ∘ h) xs) env k y.
Proof.
  intros Hb He Hs Hi Hxs Hn. set (target := obs s2 w ++ map (obs_item ∘ h) xs).
  assert (H0 : phase c b h s1 target env (2 * length xs + 0 + 2) (start env c b s1 s2 it w)).
  { eapply (phase_both _ _ _ _ _ _ _ _ []); [done | by apply lookup_insert_eq | destruct b; simpl; [lia|done] | done |].
    rewrite (obs_frame s2 _ w) by done. simpl. by rewrite map_map. }
  rewrite Nat.add_0_r in H0. clear Hb Hi Hxs. revert H0. generalize (2 * length xs + 2) as k.
  induction Hn as [|n x y z Hxy _ IH]; intros k Hk; [by exists k|].
  destruct (step_phase c b h s1 Hs target env He k x y Hk Hxy) as (k1 & Hlt & Hy).
  destruct (IH k1 Hy) as (k2 & Hle & Hz). exists k2. split; [lia|done].
Qed.

(** C7: From any start, whatever the scheduler does, whatever the bound of
    the queue (not zero), and however many further senders the source's
    closure holds until its end: at most [2 * length xs + 2] steps are possible; the
    queue never holds more than its bound; until both threads are done one of
    them can step; and when both are done the subscriber of the [Coupler] has
    seen exactly the values the source had, through the chain, in order, then
    its completion, and the queue is empty and closed at both ends. *)
Theorem threads_deliver {V X It I T S1 S2 : Type} `{!Iterator V X It I} `{!Subscriber V X S1 I} `{!Subscriber V X S2 V} `{!Observer V X S2 T}
    (env : list Sender) (c : nat) (b : option nat) (h : I -> V) (s1 : S1) (s2 : S2) (it : It) (xs : list I) (w : World V X) n y :
  b <> Some 0 -> Forall (fun q => tx_chan q = c) env -> Sink c h s1 -> obs_inv s2 -> Yields V X it xs ->
  nsteps (step env) n (start env c b s1 s2 it w) y ->
  n <= 2 * length xs + 2 /\
  (exists ch, chans (world y) !! c = Some ch /\ ch_bound ch = b /\ within b (ch_queue ch)) /\
  ((exists y', step env y y') \/
   exists p q s2', source y = Finished p /\ sink y = Finished q /\ Coupler.subscriber q = Some s2' /\
     obs s2' (world y) = obs s2 w ++ map (obs_item ∘ h) xs ++ obs_end /\
     chans (world y) !! c = Some (mkChan [] 0 false b)).
Proof.
  intros Hb He Hs Hi Hxs Hn. destruct (deliver_all env c b h s1 s2 it xs w n y Hb He Hs Hi Hxs Hn) as (k & Hle & Hy).
  split; [lia|]. split; [by eapply phase_within|]. rewrite app_assoc. by eapply phase_progress.
Qed.

(** When the receiving end is gone, the chain's next send fails and the source
    stops there, with the rest of its values unsent. *)
Theorem closed_queue_stops_source {V X I S1 : Type} `{!Subscriber V X S1 I} c (h : I -> V) (s1 : S1) x (xs : list I) (w : World V X) ch fuel :
  Sink c h s1 -> chans w !! c = Some ch -> ch_receiver ch = false ->
  run_loop (Datatypes.S fuel) (IterPublisher.mk (x :: xs) (Some s1)) w = Done (IterPublisher.mk xs (Some s1)) w.
Proof.
  intros Hs Hc Hr. cbn [run_loop]. unfold bind at 1. rewrite (iter_next_some x xs s1 w).
  unfold bind at 1. rewrite (sink_next c h s1 Hs x w). unfold bind. by rewrite (chan_send_closed _ _ _ _ Hc Hr).
Qed.

(** ** Concrete instances *)

(** The source chain of the crate's example: two maps, then the queue. *)
Lemma example_sink :
  Sink (V := Z) (X := unit) 0 (id ∘ (fun i => i + 2)%Z ∘ (fun i => i * 10)%Z)
    (Map.mk (fun i => ret (i * 10)%Z)
      (Some (Map.mk (fun i => ret (i + 2)%Z) (Some (Decoupler.mk None (mkSender 0))) (Some 0%Z))) (Some 0%Z)).
Proof. by apply map_sink, map_sink, decoupler_sink. Qed.

Lemma threads_deliver_witness :
  exists y', step [mkSender 0] (start [mkSender 0] 0 (Some 1)
    (Map.mk (fun i => ret (i * 10)%Z)
      (Some (Map.mk (fun i => ret (i + 2)%Z) (Some (Decoupler.mk None (mkSender 0))) (Some 0%Z))) (Some 0%Z))
    (Recorder.mk (I := Z) [] None) (mkRange 0 3) (empty_world tt)) y'.
Proof.
  destruct (threads_deliver (Observer0 := Observer_Recorder) [mkSender 0] 0 (Some 1) _
    (Map.mk (fun i => ret (i * 10)%Z)
      (Some (Map.mk (fun i => ret (i + 2)%Z) (Some (Decoupler.mk None (mkSender 0))) (Some 0%Z))) (Some 0%Z))
    (Recorder.mk (I := Z) [] None) (mkRange 0 3) [0; 1; 2]%Z
    (empty_world tt) 0 _ ltac:(done) ltac:(by repeat constructor) example_sink eq_refl (yields_range 0 3) (nsteps_O _ _)) as (_ & _ & [H | (p & q & s2 & H & _)]).
  - exact H.
  - discriminate H.
Defined.

Lemma closed_queue_stops_source_witness :
  let w : World Z unit := mkWorld [] [] {[ 0 := mkChan [4%Z] 1 false None ]} tt in
  run_loop 1 (IterPublisher.mk [1; 2]%Z (Some (Decoupler.mk None (mkSender 0)))) w =
  Done (IterPublisher.mk [2]%Z (Some (Decoupler.mk None (mkSender 0)))) w.
Proof.
  intros w. exact (closed_queue_stops_source 0 id (Decoupler.mk None (mkSender 0)) 1%Z [2]%Z w (mkChan [4%Z] 1 false None) 0
    (decoupler_sink 0 None) eq_refl eq_refl).
Defined.
