(* ===== verification/FanIn.v ===== *)
(** * Many threads on one queue

    [Decoupler]s built on clones of one sender (src/src/subscriber.rs) share
    their queue, as do the connections the engine accepts on one listener:
    several source threads run chains that end in the queue, one thread runs
    the [Coupler] on its other end.  What the sink sees is an interleaving of
    what the sources sent. *)

From S2P Require Import Prelude Effects Sendable Reactive Subscribers Processors Publishers Pipeline Threads.

(** ** Interleavings *)

(** [out] takes all the elements of the lists [yss], always from the front of
    one of them. *)
Inductive Merge {A : Type} : list (list A) -> list A -> Prop :=
| merge_done yss : Forall (fun ys => ys = []) yss -> Merge yss []
| merge_take yss i y ys out :
    yss !! i = Some (y :: ys) -> Merge (<[i := ys]> yss) out -> Merge yss (y :: out).

(** An element added to the end of one list may come last. *)
Lemma merge_snoc {A : Type} (yss : list (list A)) out i ys y :
  Merge yss out -> yss !! i = Some ys -> Merge (<[i := ys ++ [y]]> yss) (out ++ [y]).
Proof.
  intros Hm. revert i ys. induction Hm as [yss Hnil | yss j z zs out Hj Hm IH]; intros i ys Hi.
  - rewrite (Forall_lookup_1 _ _ _ _ Hnil Hi). simpl. apply (merge_take _ i y []).
    + apply list_lookup_insert_eq. by eapply lookup_lt_Some.
    + rewrite list_insert_insert_eq. apply merge_done. by apply Forall_insert.
  - simpl. destruct (decide (i = j)) as [->|Hne].
    + assert (ys = z :: zs) as -> by congruence.
      apply (merge_take _ j z (zs ++ [y])).
      * apply list_lookup_insert_eq. by eapply lookup_lt_Some.
      * rewrite list_insert_insert_eq. specialize (IH j zs). rewrite list_insert_insert_eq in IH.
        apply IH, list_lookup_insert_eq. by eapply lookup_lt_Some.
    + apply (merge_take _ j z zs).
      * by rewrite list_lookup_insert_ne.
      * rewrite list_insert_insert_ne by done. apply IH. by rewrite list_lookup_insert_ne.
Qed.

Lemma concat_insert_perm {A : Type} (yss : list (list A)) i y ys :
  yss !! i = Some (y :: ys) -> concat yss ≡ₚ y :: concat (<[i := ys]> yss).
Proof.
  revert i. induction yss as [|zs yss IH]; intros [|i] Hi; simplify_eq/=; [done|].
  rewrite (IH i Hi). by rewrite Permutation_middle.
Qed.

(** Nothing is lost, nothing is invented ... *)
Lemma merge_perm {A : Type} (yss : list (list A)) out : Merge yss out -> out ≡ₚ concat yss.
Proof.
  induction 1 as [yss Hnil | yss i y ys out Hi _ IH].
  - induction Hnil as [|ys yss -> _ IH]; simpl; [done|exact IH].
  - rewrite (concat_insert_perm yss i y ys Hi). by rewrite IH.
Qed.

(** ... and the elements of each list keep their order. *)
Lemma merge_sublist {A : Type} (yss : list (list A)) out j zs :
  Merge yss out -> yss !! j = Some zs -> zs `sublist_of` out.
Proof.
  intros Hm. revert zs. induction Hm as [yss Hnil | yss i y ys out Hi _ IH]; intros zs Hj.
  - by rewrite (Forall_lookup_1 _ _ _ _ Hnil Hj).
  - destruct (decide (j = i)) as [->|Hne].
    + assert (zs = y :: ys) as -> by congruence. apply sublist_skip, IH, list_lookup_insert_eq. by eapply lookup_lt_Some.
    + apply sublist_cons, IH. by rewrite list_lookup_insert_ne.
Qed.

(** One summand changes. *)
Lemma sum_insert {A : Type} (f : A -> nat) (l : list A) i x y :
  l !! i = Some x -> sum_list_with f (<[i := y]> l) + f x = sum_list_with f l + f y.
Proof. revert i. induction l as [|z l IH]; intros [|i] Hi; simplify_eq/=; [lia|]. specialize (IH i Hi). lia. Qed.

(** ** The threads *)

Section FanIn.
Context {V X I T S1 S2 : Type} `{!Subscriber V X S1 I} `{!Subscriber V X S2 V} `{!Observer V X S2 T}.

Record Fan := mkFan {
  sources : list (Thread (IterPublisher.t (list I) S1));
  fsink : Thread (Coupler.t S2);
  fworld : World V X
}.

Inductive fan_step : Fan -> Fan -> Prop :=
| fan_source i ps p q w p' w' :
    ps !! i = Some p -> thread_step (drop_source []) (p, w) (p', w') ->
    fan_step (mkFan ps q w) (mkFan (<[i := p']> ps) q w')
| fan_sink ps q w q' w' :
    thread_step drop_coupler (q, w) (q', w') -> fan_step (mkFan ps q w) (mkFan ps q' w').

(** Each source has its chain and its values, all have a clone of the one
    sender. *)
Definition fan_start (c : nat) (b : option nat) (srcs : list (S1 * list I)) (s2 : S2) (w : World V X) : Fan :=
  mkFan (map (fun '(s1, xs) => Running (IterPublisher.mk xs (Some s1))) srcs)
        (Running (Coupler.mk (mkReceiver c) (Some s2)))
        (with_chans w (<[c := mkChan [] (length srcs) true b]> (chans w))).

Definition running (p : Thread (IterPublisher.t (list I) S1)) : nat :=
  match p with Running _ => 1 | Finished _ => 0 end.

(** The steps a source may still take, and the values they queue. *)
Definition todo_of (p : Thread (IterPublisher.t (list I) S1)) : nat :=
  match p with Running p => 2 * length (IterPublisher.iter p) + 1 | Finished _ => 0 end.

Context (c : nat) (b : option nat) (Hb : b <> Some 0).
Context (h : I -> V) (srcs : list (S1 * list I)) (Hsrcs : Forall (fun s => Sink c h s.1) srcs).
Context (base : list T).

(** A source, with its values and those it has sent. *)
Inductive source_ok : S1 * list I * list I -> Thread (IterPublisher.t (list I) S1) -> Prop :=
| source_running s1 sent todo :
    source_ok (s1, sent ++ todo, sent) (Running (IterPublisher.mk todo (Some s1)))
| source_finished s1 xs p : source_ok (s1, xs, xs) (Finished p).

Definition sent_of (g : S1 * list I * list I) : list V := map h g.2.

Inductive fan_phase : Fan -> Prop :=
| fan_on gs ps queue s2 w got :
    Forall2 source_ok gs ps -> map fst gs = srcs ->
    chans w !! c = Some (mkChan queue (sum_list_with running ps) true b) -> within b queue -> obs_inv s2 ->
    obs s2 w ++ map obs_item queue = base ++ map obs_item got -> Merge (map sent_of gs) got ->
    fan_phase (mkFan ps (Running (Coupler.mk (mkReceiver c) (Some s2))) w)
| fan_over ps q s2 w got :
    Forall (fun p => running p = 0) ps -> chans w !! c = Some (mkChan [] 0 false b) ->
    Coupler.subscriber q = Some s2 -> obs s2 w = base ++ map obs_item got ++ obs_end ->
    Merge (map (fun s => map h s.2) srcs) got ->
    fan_phase (mkFan ps (Finished q) w).

Definition fan_work (y : Fan) : nat :=
  sum_list_with todo_of (sources y) +
  match fsink y with
  | Running _ => 1 + match chans (fworld y) !! c with Some ch => length (ch_queue ch) | None => 0 end
  | Finished _ => 0
  end.

(** When no source runs, every one has sent all it had. *)
Lemma all_sent gs ps :
  Forall2 source_ok gs ps -> sum_list_with running ps = 0 ->
  map sent_of gs = map (fun s => map h s.2) (map fst gs) /\ Forall (fun p => running p = 0) ps.
Proof.
  induction 1 as [|g p gs ps Hg _ IH]; simpl; intros Hsum; [done|].
  destruct Hg; simpl in Hsum; [lia|]. destruct (IH Hsum) as [E Hf]. split; [|by constructor].
  unfold sent_of at 1. simpl. by rewrite E.
Qed.

Lemma source_sink (gs : list (S1 * list I * list I)) i s1 xs (sent : list I) : map fst gs = srcs -> gs !! i = Some (s1, xs, sent) -> Sink c h s1.
Proof.
  intros Hg Hi. apply (Forall_lookup_1 _ srcs i (s1, xs) Hsrcs). rewrite <- Hg.
  change (map fst gs) with (fst <$> gs). by rewrite list_lookup_fmap, Hi.
Qed.

(** What a step of a source keeps, and the work it does. *)
Lemma fan_source_phase gs ps i g p t queue s2 w w' got :
  Forall2 source_ok gs ps -> map fst gs = srcs ->
  chans w !! c = Some (mkChan queue (sum_list_with running ps) true b) -> within b queue -> obs_inv s2 ->
  obs s2 w ++ map obs_item queue = base ++ map obs_item got -> Merge (map sent_of gs) got ->
  gs !! i = Some g -> ps !! i = Some p -> source_ok g p -> thread_step (drop_source []) (p, w) (t, w') ->
  let q := Running (Coupler.mk (mkReceiver c) (Some s2)) in
  fan_phase (mkFan (<[i := t]> ps) q w') /\ fan_work (mkFan (<[i := t]> ps) q w') < fan_work (mkFan ps q w).
Proof.
  intros Hok Hg Hc Hr Hi Hsum Hm Hgi Hp Hgp Ht q.
  pose proof (sum_insert running ps i p t Hp) as Hrun. pose proof (sum_insert todo_of ps i p t Hp) as Hwork.
  destruct Hgp as [s1 sent todo|]; [|by inversion Ht].
  pose proof (source_sink gs i _ _ _ Hg Hgi) as Hsink. unfold fan_work. simpl. rewrite Hc.
  destruct (sum_list_with running ps) as [|n] eqn:En; [pose proof (sum_insert running ps i _ (Finished (IterPublisher.mk todo (Some s1))) Hp); simpl in *; lia|].
  apply (source_step_inv c b h s1 Hsink [] (Forall_nil_2 _) _ _ _ _ _ _ _ (yields_list todo) Hc) in Ht. rewrite ?En in *. destruct todo as [|x todo].
  - destruct Ht as ([p' ->] & Hc' & Hout). rewrite Hc'. simpl in *. rewrite app_nil_r in Hgi. split; [|lia].
    apply (fan_on (<[i := (s1, sent, sent)]> gs) _ queue s2 w' got); [| |rewrite Hc'; do 2 f_equal; lia|done..| |].
    + apply Forall2_insert; [done|constructor].
    + by rewrite list_insert_id.
    + by rewrite (obs_frame s2 w' w).
    + by rewrite list_insert_id.
  - destruct Ht as (Hroom & (it' & Hy & ->) & ->). apply (yields_list_inv w) in Hy as ->. simpl in *. rewrite lookup_insert_eq. simpl. rewrite length_app. split; [|simpl; lia].
    apply (fan_on (<[i := (s1, sent ++ x :: todo, sent ++ [x])]> gs) _ (queue ++ [h x]) s2 _ (got ++ [h x]));
      [| |simpl; rewrite lookup_insert_eq; do 2 f_equal; lia|by apply within_send|done| |].
    + apply Forall2_insert; [done|]. rewrite (cons_middle x), app_assoc. constructor.
    + change (map fst ?l) with (fst <$> l). rewrite list_fmap_insert, <- Hg. apply list_insert_id.
      by rewrite list_lookup_fmap, Hgi.
    + rewrite (obs_frame s2 _ w), !map_app, !app_assoc by done. by rewrite Hsum.
    + change (map sent_of ?l) with (sent_of <$> l). rewrite list_fmap_insert. unfold sent_of at 1. simpl. rewrite map_app.
      apply merge_snoc; [done|]. by rewrite list_lookup_fmap, Hgi.
Qed.

(** The same for the sink. *)
Lemma fan_sink_phase gs ps t queue s2 w w' got :
  Forall2 source_ok gs ps -> map fst gs = srcs ->
  chans w !! c = Some (mkChan queue (sum_list_with running ps) true b) -> within b queue -> obs_inv s2 ->
  obs s2 w ++ map obs_item queue = base ++ map obs_item got -> Merge (map sent_of gs) got ->
  thread_step drop_coupler (Running (Coupler.mk (mkReceiver c) (Some s2)), w) (t, w') ->
  fan_phase (mkFan ps t w') /\
  fan_work (mkFan ps t w') < fan_work (mkFan ps (Running (Coupler.mk (mkReceiver c) (Some s2))) w).
Proof.
  intros Hok Hg Hc Hr Hi Hsum Hm Ht. apply (sink_step_inv c b _ _ _ _ _ _ Hc Hi) in Ht.
  unfold fan_work. simpl. rewrite Hc. destruct queue as [|v queue].
  - destruct Ht as (Hn & (s2' & -> & Ho) & Hc'). split; [|simpl; lia].
    destruct (all_sent gs ps Hok Hn) as [E Hf]. rewrite E, Hg in Hm.
    apply (fan_over ps _ s2' w' got); [done..| |done]. simpl in Hsum. rewrite app_nil_r in Hsum. by rewrite Ho, Hsum, app_assoc.
  - destruct Ht as (s2' & -> & Hi' & Ho & Hch). rewrite Hch, lookup_insert_eq. split; [|simpl; lia].
    apply (fan_on gs ps queue s2' w' got); [done..| |by eapply within_recv|done| |done].
    + rewrite Hch. by apply lookup_insert_eq.
    + by rewrite Ho, <- app_assoc.
Qed.

Lemma fan_step_phase (y y' : Fan) : fan_phase y -> fan_step y y' -> fan_phase y' /\ fan_work y' < fan_work y.
Proof.
  intros Hp Hstep. destruct Hp as [gs ps queue s2 w got Hok Hg Hc Hr Hi Hsum Hm | ps q s2 w got Hf _ _ _ _];
    inversion Hstep as [i ? p ? ? t w' Hp Ht | ? ? ? t w' Ht]; subst; clear Hstep.
  - destruct (Forall2_lookup_r _ _ _ _ _ Hok Hp) as (g & Hgi & Hgp). by eapply fan_source_phase.
  - by eapply fan_sink_phase.
  - exfalso. pose proof (Forall_lookup_1 _ _ _ _ Hf Hp). destruct p; [done|by inversion Ht].
  - inversion Ht.
Qed.

(** Until all are done, someone can step. *)
Lemma fan_progress (y : Fan) :
  fan_phase y ->
  (exists y', fan_step y y') \/
  Forall (fun p => running p = 0) (sources y) /\
  exists q s2 got, fsink y = Finished q /\ Coupler.subscriber q = Some s2 /\
    obs s2 (fworld y) = base ++ map obs_item got ++ obs_end /\ Merge (map (fun s => map h s.2) srcs) got /\
    chans (fworld y) !! c = Some (mkChan [] 0 false b).
Proof.
  intros [gs ps queue s2 w got Hok Hg Hc Hr Hi Hsum Hm | ps q s2 w got Hf Hc Hq Ho Hm].
  - left. destruct (decide (queue <> [] \/ sum_list_with running ps = 0)) as [Hq|Hq].
    { destruct (sink_can_step c b queue _ s2 w Hc Hi Hq) as (t & w' & Ht). eexists. by eapply fan_sink. }
    assert (Hrun : exists i p, ps !! i = Some p /\ running p <> 0).
    { assert (Hpos : sum_list_with running ps <> 0) by tauto. clear -Hpos.
      induction ps as [|p ps IH]; simpl in *; [done|]. destruct p as [p|p].
      - exists 0, (Running p). by simpl.
      - destruct (IH Hpos) as (i & p' & ? & ?). by exists (S i), p'. }
    destruct Hrun as (i & p & Hp & Hrp). destruct (Forall2_lookup_r _ _ _ _ _ Hok Hp) as (g & Hgi & Hgp).
    destruct Hgp as [s1 sent todo|]; [|done].
    assert (queue = []) as -> by (destruct queue; [done|exfalso; apply Hq; by left]).
    destruct (sum_list_with running ps) as [|n]; [tauto|].
    destruct (source_can_step c b h s1 (source_sink gs i _ _ _ Hg Hgi) [] (Forall_nil_2 _) todo todo [] n w (yields_list todo) Hc) as (t & w' & Ht).
    { right. destruct b as [[|m]|]; done. }
    eexists. by eapply fan_source.
  - right. split; [done|]. exists q, s2, got. by splits.
Qed.
End FanIn.
Arguments Fan V X I S1 S2 : clear implicits.

(** C13: Any number of threads, each with its own chain and values, may
    send to one queue of any bound but zero: whatever the scheduler does,
    every execution is finite, until all are done some thread can step, and
    when all are done the subscriber of the [Coupler] has seen an interleaving
    of what the chains sent, each source's values in order, then its
    completion, and the queue is empty and closed at both ends. *)
Theorem fan_in_delivers {V X I T S1 S2 : Type} `{!Subscriber V X S1 I} `{!Subscriber V X S2 V} `{!Observer V X S2 T}
    (c : nat) (b : option nat) (h : I -> V) (srcs : list (S1 * list I)) (s2 : S2) (w : World V X) n y :
  b <> Some 0 -> Forall (fun s => Sink c h s.1) srcs -> obs_inv s2 ->
  nsteps fan_step n (fan_start c b srcs s2 w) y ->
  n <= 2 * sum_list_with (fun s => length s.2) srcs + length srcs + 1 /\
  ((exists y', fan_step y y') \/
   exists q s2' got, fsink y = Finished q /\ Coupler.subscriber q = Some s2' /\
     Merge (map (fun s => map h s.2) srcs) got /\
     obs s2' (fworld y) = obs s2 w ++ map obs_item got ++ obs_end /\
     chans (fworld y) !! c = Some (mkChan [] 0 false b)).
Proof.
  intros Hb Hs Hi Hn. set (base := obs s2 w).
  assert (H0 : fan_phase c b h srcs base (fan_start c b srcs s2 w)).
  { apply (fan_on c b h srcs base (map (fun s => (s, [])) srcs) _ [] s2 _ []); [| | |destruct b; simpl; [lia|done]|done| |].
    - clear. induction srcs as [|[s1 xs] srcs IH]; constructor; [apply (source_running s1 []) | exact IH].
    - rewrite map_map. apply map_id.
    - simpl. rewrite lookup_insert_eq. do 2 f_equal. clear. induction srcs as [|[] srcs IH]; simpl; [done|by f_equal].
    - simpl. rewrite !app_nil_r. by apply obs_frame.
    - apply merge_done. rewrite map_map. by apply Forall_map, Forall_true. }
  assert (Hw0 : fan_work c (fan_start c b srcs s2 w) <= 2 * sum_list_with (fun s => length s.2) srcs + length srcs + 1).
  { unfold fan_work. simpl. rewrite lookup_insert_eq. simpl. clear. induction srcs as [|[] srcs IH]; simpl in *; lia. }
  assert (H1 : n + fan_work c y <= fan_work c (fan_start c b srcs s2 w) /\ fan_phase c b h srcs base y).
  { clear -Hs Hn H0. induction Hn as [|n x y z Hxy _ IH]; [by split|].
    destruct (fan_step_phase c b h srcs Hs base x y H0 Hxy) as [Hy Hw].
    destruct (IH Hy) as [Hle Hz]. split; [lia|done]. }
  destruct H1 as [Hle Hy]. split; [lia|].
  destruct (fan_progress c b Hb h srcs Hs base y Hy) as [|(_ & q & s2' & got & Hrest)]; [by left|].
  right. exists q, s2', got. destruct Hrest as (? & ? & ? & ? & ?). by splits.
Qed.

(** ** A concrete instance: two sources, with one map each *)

Definition plus_one : Map.t Z unit Z Z (Decoupler.t SyncSender Z) :=
  Map.mk (fun i => ret (i + 1)%Z) (Some (Decoupler.mk None (mkSyncSender 0))) None.

Lemma plus_one_sink : Sink 0 (id ∘ (fun i => i + 1)%Z) plus_one.
Proof. apply map_sink; [done|apply decoupler_sync_sink]. Qed.

Lemma fan_in_delivers_witness :
  exists y', fan_step (fan_start 0 (Some 1) [(plus_one, [1; 2]%Z); (plus_one, [7]%Z)]
    (Recorder.mk (I := Z) [] None) (empty_world (X := unit) tt)) y'.
Proof.
  destruct (fan_in_delivers (Observer0 := Observer_Recorder) 0 (Some 1) (id ∘ (fun i => i + 1)%Z)
    [(plus_one, [1; 2]%Z); (plus_one, [7]%Z)] (Recorder.mk (I := Z) [] None) (empty_world tt) 0 _
    ltac:(done)
    ltac:(constructor; [exact plus_one_sink|constructor; [exact plus_one_sink|constructor]])
    eq_refl (nsteps_O _ _)) as (_ & [H | (q & s2 & got & H & _)]).
  - exact H.
  - discriminate H.
Defined.
