(* ===== verification/Scheduler.v ===== *)
(** * The fixed-rate loop: src/src/scheduler.rs

    [fixed_loop rate f] calls [f] until it answers [false], sleeping after
    each call for what is left of the period.  The clock
    ([time::precise_time_ns]), [libc::nanosleep] and the creation of the
    (unused) timer are parameters; one unit of fuel per iteration. *)

From S2P Require Import Prelude Effects.

Record timespec := mkTimespec { tv_sec : Z; tv_nsec : Z }.

Class ClockOps (V X : Type) := {
  precise_time_ns : M V X Z;
  nanosleep : timespec -> M V X unit;
  timer_new : M V X (result unit string)
}.

(** Signed division truncates; only a zero divisor panics here, as
    [1_000_000_000 / -1] does not overflow. *)
Definition i64_div {V X : Type} (a b : Z) : M V X Z :=
  if (b =? 0)%Z then panic "attempted to divide by zero" else ret (Z.quot a b).

Section FixedLoop.
Context {V X F : Type} `{!ClockOps V X}.
(** [F] is what the [FnMut] closure captures. *)
Context (f : F -> M V X (F * bool)).

(** After a call that started at [start] and asks for more. *)
Definition rest_of_period (loop_time_ns start : Z) : M V X unit :=
  let! now := precise_time_ns in
  let span := as_i64 (as_i64 now - start) in
  match checked_sub_i64 loop_time_ns span with
  | Some diff => nanosleep (mkTimespec 0 diff)
  | None => ret tt
  end.

Fixpoint fixed_iter (fuel : nat) (loop_time_ns : Z) (st : F) : M V X F :=
  match fuel with
  | O => out_of_fuel
  | S fuel' =>
      let! start := precise_time_ns in
      let! '(st', go) := f st in
      if go then
        let! _ := rest_of_period loop_time_ns (as_i64 start) in
        fixed_iter fuel' loop_time_ns st'
      else ret st'
  end.

Definition fixed_loop (fuel : nat) (rate : Z) (st : F) : M V X F :=
  let! _ := debug "Starting loop" [] in
  let! t := timer_new in
  let! _ := unwrap t in
  let! loop_time_ns := i64_div 1000000000 (as_i64 rate) in
  let! st' := fixed_iter fuel loop_time_ns st in
  let! _ := debug "Done with loop" [] in
  ret st'.
End FixedLoop.

(** ** A recorded clock

    The third-party calls as a script: the clock's readings in order, and the
    sleeps asked for so far. *)
Record Clock := mkClock { readings : list Z; sleeps : list timespec }.

#[export] Instance ClockOps_script {V : Type} : ClockOps V Clock := {
  precise_time_ns := fun w =>
    match readings (ext w) with
    | t :: ts => Done t (mkWorld (stdout w) (log w) (chans w) (mkClock ts (sleeps (ext w))))
    | [] => Done 0%Z w
    end;
  nanosleep ts := fun w =>
    Done tt (mkWorld (stdout w) (log w) (chans w) (mkClock (readings (ext w)) (sleeps (ext w) ++ [ts])));
  timer_new := ret (Ok tt)
}.

(** ** Facts *)

(** What [nanosleep] accepts: any other [tv_nsec] is [EINVAL], and no sleep. *)
Definition valid_timespec (ts : timespec) : Prop := (0 <= tv_nsec ts < 1000000000)%Z.

#[export] Instance valid_timespec_dec ts : Decision (valid_timespec ts).
Proof. unfold valid_timespec. apply _. Defined.

(** The period of a rate, in nanoseconds. *)
Definition period (rate : Z) : Z := Z.quot 1000000000 rate.

Lemma period_bounds rate : (1 <= rate)%Z -> (0 <= period rate <= 1000000000)%Z.
Proof.
  intros Hr. unfold period. split; [apply Z.quot_pos; lia|].
  rewrite Z.quot_div_nonneg by lia. apply Z.div_le_upper_bound; lia.
Qed.

Lemma period_max rate : (1 <= rate)%Z -> period rate = 1000000000%Z <-> rate = 1%Z.
Proof.
  intros Hr. unfold period. rewrite Z.quot_div_nonneg by lia. split; [|by intros ->].
  intros E. destruct (Z.eq_dec rate 1%Z) as [|Hne]; [done|].
  assert (1000000000 / rate <= 1000000000 / 2)%Z by (apply Z.div_le_compat_l; lia).
  change (1000000000 / 2)%Z with 500000000%Z in *. lia.
Qed.

Section Sleep.
Context {V X : Type} `{!ClockOps V X}.

(** With a clock that does not run backwards the code asks for a sleep after
    every call, of the period minus the time the call took. *)
Lemma rest_of_period_spec rate start now (w w1 : World V X) :
  (1 <= rate)%Z -> (0 <= start <= now)%Z -> (now < 2 ^ 63)%Z ->
  precise_time_ns w = Done now w1 ->
  rest_of_period (period rate) start w = nanosleep (mkTimespec 0 (period rate - (now - start))) w1.
Proof.
  intros Hr Hs Hn Hw. pose proof (period_bounds rate Hr). unfold rest_of_period, bind. rewrite Hw.
  rewrite (as_i64_small now), as_i64_small by lia. unfold checked_sub_i64, in_i64.
  destruct (Z.leb_spec (- 2 ^ 63) (period rate - (now - start))); [|lia].
  destruct (Z.ltb_spec (period rate - (now - start)) (2 ^ 63)); [done|lia].
Qed.

(** So the request is never longer than the period; it is one [nanosleep]
    accepts exactly when the call kept within the period and, at one call
    per second, took some time.  When a call overran, [checked_sub] does not
    notice and the request is negative. *)
Theorem sleep_request rate start now (w w1 : World V X) :
  (1 <= rate)%Z -> (0 <= start <= now)%Z -> (now < 2 ^ 63)%Z ->
  precise_time_ns w = Done now w1 ->
  exists ts, rest_of_period (period rate) start w = nanosleep ts w1 /\
    (tv_nsec ts <= period rate)%Z /\
    (valid_timespec ts <-> (now - start <= period rate)%Z /\ ~ (rate = 1 /\ now = start)%Z) /\
    ((period rate < now - start)%Z -> (tv_nsec ts < 0)%Z).
Proof.
  intros Hr Hs Hn Hw. eexists. split; [by apply rest_of_period_spec|].
  pose proof (period_bounds rate Hr). pose proof (period_max rate Hr) as Hmax.
  unfold valid_timespec. simpl. splits; try lia.
Qed.

(** A rate of zero panics before the first call. *)
Theorem fixed_loop_rate_zero {F : Type} (f : F -> M V X (F * bool)) fuel st (w w1 : World V X) :
  timer_new (mkWorld (stdout w) (log w ++ [mkLog LDebug "Starting loop" []]) (chans w) (ext w)) = Done (Ok tt) w1 ->
  fixed_loop f fuel 0 st w = Panicked "attempted to divide by zero" w1.
Proof. intros E. unfold fixed_loop, debug, log_at, bind at 1. unfold bind at 1. by rewrite E. Qed.

(** The loop ends as soon as its body does, however the clock behaves. *)
Theorem fixed_iter_stops {F : Type} (f : F -> M V X (F * bool)) (left : F -> nat) fuel period st (w : World V X) :
  (forall w, exists t w', precise_time_ns w = Done t w') ->
  (forall ts w, exists w', nanosleep ts w = Done tt w') ->
  (forall st w, exists st' go w', f st w = Done (st', go) w' /\ (go = true -> left st' < left st)) ->
  left st < fuel ->
  exists st' w', fixed_iter f fuel period st w = Done st' w'.
Proof.
  intros Hclock Hsleep Hf. revert st w. induction fuel as [|fuel IH]; intros st w Hfuel; [lia|].
  simpl. unfold bind. destruct (Hclock w) as (t & w1 & ->).
  destruct (Hf st w1) as (st' & go & w2 & -> & Hgo). destruct go; [|by do 2 eexists].
  assert (Hrest : exists w3, rest_of_period period (as_i64 t) w2 = Done tt w3).
  { unfold rest_of_period, bind. destruct (Hclock w2) as (t' & w3 & ->).
    case_match; [apply Hsleep | by eexists]. }
  destruct Hrest as [w3 ->]. apply IH. specialize (Hgo eq_refl). lia.
Qed.
End Sleep.

(** ** The whole loop against a recorded clock *)

(** The readings of calls that start and end at the given times. *)
Definition call_readings (calls : list (Z * Z)) : list Z := concat (map (fun c => [c.1; c.2]) calls).

(** A body that counts down and refuses at zero. *)
Definition countdown {V X : Type} (n : nat) : M V X (nat * bool) :=
  ret (pred n, negb (n =? 0)).


(** ** Concrete instances *)

Definition at_time (t : Z) : World unit Clock := empty_world (mkClock [t] []).

(** Ten calls per second; the call took 300 ms. *)
Lemma sleep_request_witness :
  exists ts, rest_of_period (period 10) 0 (at_time 300000000) = nanosleep ts (empty_world (mkClock [] [])) /\
    (tv_nsec ts < 0)%Z /\ ~ valid_timespec ts.
Proof.
  destruct (sleep_request (ClockOps0 := ClockOps_script) 10 0 300000000 (at_time 300000000) (empty_world (mkClock [] []))
    ltac:(lia) ltac:(lia) ltac:(lia) eq_refl) as (ts & E & _ & _ & Hneg).
  assert (H : (tv_nsec ts < 0)%Z) by (apply Hneg; reflexivity).
  exists ts. split; [exact E|]. split; [exact H|]. unfold valid_timespec. lia.
Defined.

Lemma fixed_loop_rate_zero_witness :
  exists w', fixed_loop countdown 5 0 3 (at_time 0) = Panicked "attempted to divide by zero" w'.
Proof. eexists. exact (fixed_loop_rate_zero (ClockOps0 := ClockOps_script) countdown 5 3 (at_time 0) _ eq_refl). Defined.

Lemma fixed_iter_stops_witness :
  exists st' w', fixed_iter countdown 4 100 3 (at_time 0) = Done st' w'.
Proof.
  refine (fixed_iter_stops (ClockOps0 := ClockOps_script) countdown id 4 100 3 (at_time 0) _ _ _ _).
  - intros w. simpl. case_match; by do 2 eexists.
  - intros ts w. by eexists.
  - intros st w. do 3 eexists. split; [reflexivity|]. destruct st; simpl; [done|]. lia.
  - simpl. lia.
Defined.

