(* ===== verification/Mmap.v ===== *)
(** * The journal allocator's core: [MappedRegion::allocate] of
    src/src/mmap_allocator.rs

    The offset of the next free slot lives in the mapped file's header and is
    advanced by a compare-and-swap loop that any number of threads may run.
    Each atomic action of [allocate] is one transition of a thread
    ([alloc_step]); [allocate] runs them to the end for one thread alone, and
    [sys_step] interleaves those of many.  The line logged when the file is
    full is left out. *)

From S2P Require Import Prelude.

Local Open Scope Z_scope.

(** ** Constants and layout *)

Definition ALIGN : Z := 8.            (* size_of_val(&0us) *)
Definition MAGIC : Z := 0x42424242.
Definition HEADER_SIZE : Z := 24.     (* size_of::<MMapHeader>(): three 8-byte fields *)

Record MMapHeader := mkHeader { magic : Z; current : Z; hdr_total_size : Z }.

Record MappedRegion := mkRegion {
  addr : Z;
  total_size : Z;
  fd : Z;
  header : Z;
  count : Z
}.

(** [((x - 1) | ( *ALIGN - 1)) + 1] in [usize] arithmetic. *)
Definition round_up (x : Z) : Z := usize (Z.lor (usize (x - 1)) (ALIGN - 1) + 1).

(** The slot after one of [size] bytes at [offset]. *)
Definition next_slot (offset size : Z) : Z := round_up (usize (offset + size)).

(** ** One call of [allocate] as transitions of a thread *)

Inductive pc :=
| AtStart (size align : Z)       (* on entry: the alignment check *)
| AtLoad (size : Z)              (* offset = current.load() *)
| AtCas (size offset : Z)        (* current.compare_and_swap(offset, newval) *)
| AtCheck (size offset : Z)      (* offset > self.total_size *)
| AtCount (size offset : Z)      (* self.count.fetch_add(1) *)
| Returned (size : Z) (ptr : Z)  (* the pointer; 0 is null *)
| AlignPanic.

(** What the threads share: the header's [current], the region's [count]. *)
Record Shared := mkShared { sh_current : Z; sh_count : Z }.

#[export] Instance pc_eq_dec : EqDecision pc.
Proof. solve_decision. Defined.

Section Region.
Context (self : MappedRegion).

Definition alloc_step (sh : Shared) (t : pc) : Shared * pc :=
  match t with
  | AtStart size align => (sh, if align =? ALIGN then AtLoad size else AlignPanic)
  | AtLoad size => (sh, AtCas size (sh_current sh))
  | AtCas size offset =>
      let newval := next_slot offset size in
      if sh_current sh =? offset
      then (mkShared newval (sh_count sh), AtCheck size offset)
      else (sh, AtLoad size)
  | AtCheck size offset =>
      (sh, if offset >? total_size self then Returned size 0 else AtCount size offset)
  | AtCount size offset =>
      (mkShared (sh_current sh) (usize (sh_count sh + 1)), Returned size (usize (addr self + offset)))
  | Returned _ _ | AlignPanic => (sh, t)
  end.

Definition finished (t : pc) : bool :=
  match t with Returned _ _ | AlignPanic => true | _ => false end.

(** One thread alone, to the end of the call. *)
Fixpoint run_alloc (fuel : nat) (sh : Shared) (t : pc) : option (Shared * pc) :=
  if finished t then Some (sh, t)
  else match fuel with
       | O => None
       | S fuel' => let '(sh', t') := alloc_step sh t in run_alloc fuel' sh' t'
       end.

Definition allocate (fuel : nat) (sh : Shared) (size align : Z) : option (Shared * pc) :=
  run_alloc fuel sh (AtStart size align).

Definition num_allocated (sh : Shared) : Z := sh_count sh.

(** [Allocator::deallocate] does nothing: blocks are never reused. *)
Definition deallocate (sh : Shared) (_ptr _len _align : Z) : Shared := sh.

(** ** Many threads *)

Definition Sys : Type := Shared * list pc.

Inductive sys_step : Sys -> Sys -> Prop :=
| do_step sh ts i t sh' t' :
    ts !! i = Some t -> finished t = false -> alloc_step sh t = (sh', t') ->
    sys_step (sh, ts) (sh', <[i := t']> ts).
End Region.

(** Calls of the given sizes, all on entry. *)
Definition entry (sizes : list Z) : list pc := map (fun size => AtStart size ALIGN) sizes.

(** ** Rounding *)

(** The next multiple of 8. *)
Definition round8 (x : Z) : Z := 8 * ((x + 7) / 8).

Lemma lor_7 x : 0 <= x -> Z.lor x 7 = 8 * (x / 8) + 7.
Proof.
  intros Hx. pose proof (Z.add_lor_land x 7) as E.
  change 7 with (Z.ones 3) in E at 2. rewrite Z.land_ones in E by lia.
  change (2 ^ 3) with 8 in E. pose proof (Z.div_mod x 8 ltac:(lia)). lia.
Qed.

Lemma round8_bounds x : x <= round8 x < x + 8.
Proof. unfold round8. pose proof (Z.div_mod (x + 7) 8 ltac:(lia)). pose proof (Z.mod_pos_bound (x + 7) 8 ltac:(lia)). lia. Qed.

Lemma round8_mod x : round8 x mod 8 = 0.
Proof. unfold round8. rewrite Z.mul_comm. by apply Z.mod_mul. Qed.

Lemma round8_add c x : c mod 8 = 0 -> round8 (c + x) = c + round8 x.
Proof.
  intros Hc. unfold round8. pose proof (Z.div_mod c 8 ltac:(lia)) as E. rewrite Hc in E.
  replace (c + x + 7) with (x + 7 + (c / 8) * 8) by lia. rewrite Z.div_add by lia. lia.
Qed.

(** The bit trick rounds up to a multiple of 8, for every [usize]. *)
Lemma round_up_round8 x : 0 <= x < 2 ^ 64 -> round_up x = usize (round8 x).
Proof.
  intros Hx. unfold round_up, ALIGN. change (8 - 1) with 7. destruct (Z.eq_dec x 0) as [->|Hne]; [done|].
  rewrite (usize_small (x - 1)) by lia. rewrite lor_7 by lia. f_equal. unfold round8.
  replace (x + 7) with (x - 1 + 1 * 8) by lia. rewrite Z.div_add by lia. lia.
Qed.

Lemma next_slot_round8 offset size :
  offset mod 8 = 0 -> 0 <= offset -> 0 <= size -> offset + round8 size < 2 ^ 64 ->
  next_slot offset size = offset + round8 size.
Proof.
  intros Hm Ho Hs Hb. pose proof (round8_bounds size). unfold next_slot.
  rewrite usize_small by lia. rewrite round_up_round8 by lia. rewrite round8_add by done.
  apply usize_small. lia.
Qed.

(** The rounding of the code is the next multiple of the alignment (for the
    last seven values of the type, the next multiple modulo 2^64: zero). *)
Theorem round_up_is_next_multiple x :
  0 <= x < 2 ^ 64 ->
  round_up x mod ALIGN = 0 /\
  (x <= 2 ^ 64 - ALIGN -> x <= round_up x < x + ALIGN) /\
  (2 ^ 64 - ALIGN < x -> round_up x = 0).
Proof.
  intros Hx. rewrite round_up_round8 by done. unfold ALIGN.
  pose proof (round8_bounds x). pose proof (round8_mod x) as Hm.
  pose proof (Z.div_mod (round8 x) 8 ltac:(lia)) as E. rewrite Hm in E.
  splits.
  - unfold usize, wrap. rewrite E, Z.add_0_r. change (2 ^ 64) with (8 * 2 ^ 61).
    rewrite Zmult_mod_distr_l, Z.mul_comm. by apply Z.mod_mul.
  - rewrite usize_small by lia. lia.
  - rewrite usize_small by lia. lia.
  - intros Hl. assert (round8 x = 2 ^ 64) as -> by lia. done.
Qed.

(** ** One thread *)

(** Alone, a call of [allocate] needs five transitions: it fails on an
    alignment other than 8, and otherwise takes the slot at [current], counts
    it and returns its address, or, when the slot starts past the end of the
    file, leaves it taken and returns null. *)
Theorem allocate_spec self sh size align fuel :
  (5 <= fuel)%nat ->
  allocate self fuel sh size align =
  if align =? ALIGN then
    let offset := sh_current sh in
    let newval := next_slot offset size in
    if offset >? total_size self
    then Some (mkShared newval (sh_count sh), Returned size 0)
    else Some (mkShared newval (usize (sh_count sh + 1)), Returned size (usize (addr self + offset)))
  else Some (sh, AlignPanic).
Proof.
  intros Hf. do 5 (destruct fuel as [|fuel]; [lia|]).
  unfold allocate. simpl. destruct (align =? ALIGN); simpl; [|by destruct fuel].
  rewrite Z.eqb_refl. simpl. destruct (sh_current sh >? total_size self); simpl; by destruct fuel.
Qed.

(** C39: The end-of-file test looks at the start of the slot only: the last slot
    handed out may reach past the end of the file. *)
Theorem allocate_overruns self sh size fuel :
  (5 <= fuel)%nat -> 0 < addr self -> addr self + sh_current sh < 2 ^ 64 ->
  0 <= sh_current sh <= total_size self -> total_size self < sh_current sh + size ->
  exists sh' p, allocate self fuel sh size ALIGN = Some (sh', Returned size p) /\
    p <> 0 /\ addr self + total_size self < p + size.
Proof.
  intros Hf Ha Hb Hc Ht. rewrite allocate_spec by done. simpl.
  destruct (Z.gtb_spec (sh_current sh) (total_size self)); [lia|].
  do 2 eexists. split; [done|]. rewrite usize_small by lia. lia.
Qed.

(** ** Many threads *)

Section Slots.
Context (c0 : Z).

(** The slots taken so far, newest first, as (thread, offset, size): they
    tile the file from [c0] to the current offset. *)
Inductive taken : list (nat * Z * Z) -> Z -> Prop :=
| taken_none : taken [] c0
| taken_more i c size log : taken log c -> taken ((i, c, size) :: log) (c + round8 size).

Hypothesis c0_aligned : c0 mod 8 = 0.

Lemma taken_bounds log c :
  taken log c -> Forall (fun e => 0 <= e.2) log ->
  c mod 8 = 0 /\ c0 <= c /\
  forall e, e ∈ log -> e.1.2 mod 8 = 0 /\ c0 <= e.1.2 /\ e.1.2 + round8 e.2 <= c.
Proof.
  intros Ht. induction Ht as [|i c size log Ht IH]; intros Hs.
  { split; [done|]. split; [lia|]. by intros e ?%not_elem_of_nil. }
  inversion Hs as [|? ? Hsize Hs']; subst. simpl in Hsize. destruct (IH Hs') as (Hm & Hc & Hlog).
  pose proof (round8_bounds size). split; [|split].
  - rewrite <- round8_add by done. apply round8_mod.
  - lia.
  - intros e [->|He]%elem_of_cons; simpl; [by splits; lia|].
    destruct (Hlog e He) as (? & ? & ?). by splits; lia.
Qed.

(** Slots of different entries do not overlap. *)
Lemma taken_disjoint log c e1 e2 :
  taken log c -> Forall (fun e => 0 <= e.2) log -> e1 ∈ log -> e2 ∈ log -> e1 <> e2 ->
  e1.1.2 + round8 e1.2 <= e2.1.2 \/ e2.1.2 + round8 e2.2 <= e1.1.2.
Proof.
  intros Ht. induction Ht as [|i c size log Ht IH]; intros Hs H1 H2 Hne; [by apply not_elem_of_nil in H1|].
  inversion Hs as [|? ? Hsize Hs']; subst.
  destruct (taken_bounds _ _ Ht Hs') as (_ & _ & Hlog).
  apply elem_of_cons in H1 as [->|H1]; apply elem_of_cons in H2 as [->|H2]; simpl; [done| | |].
  - right. apply Hlog, H2.
  - left. apply Hlog, H1.
  - by apply IH.
Qed.
End Slots.

Section Concurrent.
Context (self : MappedRegion) (c0 k0 : Z) (sizes : list Z).

Definition slot_end : Z := c0 + sumZ round8 sizes.
Hypothesis c0_aligned : c0 mod 8 = 0.
Hypothesis c0_pos : 0 < c0.
Hypothesis sizes_pos : Forall (fun size => 0 <= size) sizes.
Hypothesis addr_pos : 0 < addr self.
Hypothesis no_wrap : addr self + slot_end < 2 ^ 64.

(** What a thread may still take. *)
Definition pending (t : pc) : Z :=
  match t with
  | AtStart size _ | AtLoad size | AtCas size _ => round8 size
  | _ => 0
  end.

(** Whether a thread has been counted. *)
Definition counted (t : pc) : Z :=
  match t with Returned _ p => if p =? 0 then 0 else 1 | _ => 0 end.

Definition thread_ok (log : list (nat * Z * Z)) (i : nat) (t : pc) : Prop :=
  match t with
  | AtStart size align => 0 <= size /\ align = ALIGN
  | AtLoad size | AtCas size _ => 0 <= size
  | AtCheck size offset => (i, offset, size) ∈ log
  | AtCount size offset => (i, offset, size) ∈ log /\ offset <= total_size self
  | Returned size p => exists offset, (i, offset, size) ∈ log /\
      if p =? 0 then total_size self < offset else p = addr self + offset /\ offset <= total_size self
  | AlignPanic => False
  end.

Definition log_ok (log : list (nat * Z * Z)) (ts : list pc) (c : Z) : Prop :=
  taken c0 log c /\ Forall (fun e => 0 <= e.2) log /\
  forall i t, ts !! i = Some t -> thread_ok log i t.

Record inv (y : Sys) : Prop := {
  inv_log : exists log, log_ok log y.2 (sh_current y.1);
  inv_room : sh_current y.1 + sumZ pending y.2 = slot_end;
  inv_count : sh_count y.1 = usize (k0 + sumZ counted y.2)
}.

Lemma thread_ok_mono log log' i t : log ⊆ log' -> thread_ok log i t -> thread_ok log' i t.
Proof. intros Hsub. destruct t; simpl; try done; [apply Hsub|intros [? ?]; eauto|intros (offset & ? & ?); eauto]. Qed.

Lemma pending_nonneg log (ts : list pc) :
  (forall i t, ts !! i = Some t -> thread_ok log i t) -> forall t, t ∈ ts -> 0 <= pending t.
Proof.
  intros Hok t (i & Hi)%list_elem_of_lookup. specialize (Hok i t Hi).
  destruct t as [size ?|size|size ?| | | |]; simpl in *; try done; pose proof (round8_bounds size); lia.
Qed.

(** The invariant after one thread has moved from [t] to [t']. *)
Lemma inv_move sh sh' (ts : list pc) i t t' log log' :
  ts !! i = Some t -> inv (sh, ts) -> log_ok log ts (sh_current sh) ->
  log ⊆ log' -> taken c0 log' (sh_current sh') -> Forall (fun e => 0 <= e.2) log' ->
  thread_ok log' i t' ->
  sh_current sh' + pending t' = sh_current sh + pending t ->
  sh_count sh' = sh_count sh /\ counted t' = counted t \/
    sh_count sh' = usize (sh_count sh + 1) /\ counted t' = counted t + 1 ->
  inv (sh', <[i := t']> ts).
Proof.
  intros Hi [_ Hroom Hcount] (_ & _ & Hok) Hsub Ht Hpos Hok' Hp Hc. simpl in *. split; simpl.
  - exists log'. split; [done|]. split; [done|]. intros j u Hj.
    destruct (decide (i = j)) as [<-|Hne].
    + rewrite list_lookup_insert_eq in Hj by (by eapply lookup_lt_Some). by simplify_eq.
    + rewrite list_lookup_insert_ne in Hj by done. eauto using thread_ok_mono.
  - rewrite (sumZ_insert _ _ _ _ _ Hi). lia.
  - rewrite (sumZ_insert _ _ _ _ _ Hi). destruct Hc as [[-> ->]|[-> ->]]; rewrite Hcount.
    + f_equal. lia.
    + unfold usize. rewrite wrap_add_l. f_equal. lia.
Qed.

Lemma inv_step y y' : inv y -> sys_step self y y' -> inv y'.
Proof.
  intros Hinv Hstep. destruct Hstep as [sh ts i t sh' t' Hi Hf Hs].
  pose proof Hinv as [(log & Hlog) Hroom _]. pose proof Hlog as (Ht & Hpos & Hok).
  pose proof (Hok i t Hi) as Hti. pose proof (taken_bounds c0 c0_aligned _ _ Ht Hpos) as (Hm & Hc & Hin).
  pose proof (pending_nonneg log ts Hok) as Hpend. simpl in *.
  pose proof (sumZ_lookup _ _ _ _ Hpend Hi) as Hle. pose proof (sumZ_nonneg _ _ Hpend) as Hnn.
  destruct t as [size align|size|size offset|size offset|size offset| |]; try discriminate; simpl in Hs, Hti, Hle.
  - destruct Hti as [Hsz ->]. simplify_eq. eapply (inv_move sh' sh' ts i _ _ log log); eauto.
  - simplify_eq. eapply (inv_move sh' sh' ts i _ _ log log); eauto.
  - destruct (Z.eqb_spec (sh_current sh) offset) as [<-|Hne]; simplify_eq.
    + assert (Hnew : next_slot (sh_current sh) size = sh_current sh + round8 size)
        by (apply next_slot_round8; lia).
      eapply (inv_move sh _ ts i _ _ log ((i, sh_current sh, size) :: log)); eauto; simpl.
      * by apply list_subseteq_cons_l || intros ? ?; by constructor.
      * rewrite Hnew. by constructor.
      * by left.
      * lia.
    + eapply (inv_move sh' sh' ts i _ _ log log); eauto.
  - destruct (Z.gtb_spec offset (total_size self)); simplify_eq;
      eapply (inv_move sh' sh' ts i _ _ log log); eauto; simpl; [by exists offset|].
    split; [done|lia].
  - destruct Hti as [Hti Htot]. simplify_eq. pose proof (Hin _ Hti) as (_ & Ho & Hend). simpl in *.
    pose proof (round8_bounds size) as Hr8.
    assert (0 <= size) by (by eapply Forall_forall in Hpos; [|exact Hti]).
    rewrite (usize_small (addr self + offset)) by lia.
    assert (Hnz : (addr self + offset =? 0) = false) by lia.
    eapply (inv_move sh _ ts i _ _ log log); eauto; simpl; rewrite Hnz; [by exists offset|right; split; [done|lia]].
Qed.

Lemma inv_entry : inv (mkShared c0 (usize k0), entry sizes).
Proof.
  split; simpl.
  - exists []. split; [constructor|]. split; [done|]. intros i t Hi. unfold entry in Hi.
    apply list_lookup_fmap_Some in Hi as (size & -> & Hi). simpl. split; [|done].
    by eapply Forall_lookup_1 in sizes_pos.
  - unfold entry. by rewrite sumZ_map.
  - unfold entry. rewrite sumZ_map. f_equal. clear. induction sizes as [|z l IH]; simpl in *; lia.
Qed.

Lemma inv_reachable y : rtc (sys_step self) (mkShared c0 (usize k0), entry sizes) y -> inv y.
Proof.
  intros Hr. remember (mkShared c0 (usize k0), entry sizes) as y0 eqn:E.
  assert (Hy0 : inv y0) by (subst; apply inv_entry). clear E.
  induction Hr; eauto using inv_step.
Qed.
End Concurrent.


(** ** The retry loop makes progress *)

(** How far a thread is from its end while nobody interferes; a thread about
    to fail its compare-and-swap has to load again. *)
Definition weight (cur : Z) (t : pc) : Z :=
  match t with
  | AtStart _ _ => 5
  | AtLoad _ => 4
  | AtCas _ offset => if cur =? offset then 3 else 5
  | AtCheck _ _ => 2
  | AtCount _ _ => 1
  | Returned _ _ | AlignPanic => 0
  end.

(** Threads that have yet to swap successfully. *)
Definition cas_left (t : pc) : Z :=
  match t with AtStart _ _ | AtLoad _ | AtCas _ _ => 1 | _ => 0 end.

Definition effort (y : Sys) : Z :=
  sumZ (weight (sh_current y.1)) y.2 + 2 * Z.of_nat (length y.2) * sumZ cas_left y.2.

Lemma weight_bounds cur t : 0 <= weight cur t <= 5.
Proof. destruct t; simpl; try lia. case_match; lia. Qed.

Lemma cas_left_bounds t : 0 <= cas_left t <= 1.
Proof. destruct t; simpl; lia. Qed.

Lemma effort_nonneg y : 0 <= effort y.
Proof.
  unfold effort. pose proof (sumZ_nonneg (weight (sh_current y.1)) y.2 ltac:(intros; apply weight_bounds)).
  pose proof (sumZ_nonneg cas_left y.2 ltac:(intros; apply cas_left_bounds)). nia.
Qed.

(** A successful swap may make every other thread retry, and there are only
    as many successful swaps as threads. *)
Lemma effort_decreases self y y' : sys_step self y y' -> effort y' < effort y.
Proof.
  intros [sh ts i t sh' t' Hi Hf Hs]. unfold effort. simpl.
  rewrite length_insert, !(sumZ_insert _ _ _ _ _ Hi).
  pose proof (lookup_lt_Some _ _ _ Hi) as Hlen.
  destruct t as [size align|size|size offset|size offset|size offset| |]; try discriminate; simpl in Hs.
  - simplify_eq. destruct (align =? ALIGN); simpl; nia.
  - simplify_eq. simpl. rewrite Z.eqb_refl. lia.
  - destruct (Z.eqb_spec (sh_current sh) offset) as [E|E]; simplify_eq; simpl.
    + pose proof (sumZ_le_add (weight (next_slot (sh_current sh) size)) (weight (sh_current sh)) 2 ts) as Hsum.
      rewrite ?Z.eqb_refl. pose proof (weight_bounds (next_slot (sh_current sh) size) (AtCas size (sh_current sh))) as Hw.
      assert (3 <= if next_slot (sh_current sh) size =? sh_current sh then 3 else 5) by (case_match; lia).
      assert (forall u, u ∈ ts -> weight (next_slot (sh_current sh) size) u <= weight (sh_current sh) u + 2).
      { intros u _. destruct u; simpl; try lia. repeat case_match; lia. }
      specialize (Hsum ltac:(done)). lia.
    + rewrite ?(proj2 (Z.eqb_neq _ _) E). lia.
  - simplify_eq. destruct (offset >? total_size self); simpl; lia.
  - simplify_eq. simpl. lia.
Qed.

(** C16: No call of [allocate] is retried for ever: under any scheduler [n] calls
    take at most 2n² + 5n atomic actions altogether, and until all of them
    have returned some thread can act. *)
Theorem allocate_lock_free self sh (reqs : list (Z * Z)) k y :
  let n := length reqs in
  nsteps (sys_step self) k (sh, map (fun r => AtStart r.1 r.2) reqs) y ->
  (k <= 2 * n * n + 5 * n)%nat /\
  ((exists y', sys_step self y y') \/ Forall (fun t => finished t = true) y.2).
Proof.
  intros n Hn. split.
  - pose proof (nsteps_measure (sys_step self) (fun y => Z.to_nat (effort y))) as Hm.
    specialize (Hm ltac:(intros a b Hab; pose proof (effort_decreases _ _ _ Hab); pose proof (effort_nonneg b); cbv beta; lia) _ _ _ Hn).
    assert (E : effort (sh, map (fun r => AtStart r.1 r.2) reqs) = 2 * Z.of_nat n * Z.of_nat n + 5 * Z.of_nat n).
    { unfold effort. simpl. rewrite length_map, !sumZ_map. simpl. fold n.
      assert (forall d, sumZ (fun _ : Z * Z => d) reqs = d * Z.of_nat n) as Hconst.
      { intros d. unfold n. clear. induction reqs as [|r l IH]; simpl in *; lia. }
      rewrite !Hconst. lia. }
    cbv beta in Hm. rewrite E in Hm. lia.
  - destruct (decide (Forall (fun t => finished t = true) y.2)) as [|Hex]; [by right|left].
    apply not_Forall_Exists in Hex; [|apply _]. apply Exists_exists in Hex as (t & Hin & Hf).
    apply list_elem_of_lookup in Hin as [i Hi]. destruct y as [sh' ts]. simpl in *.
    destruct (alloc_step self sh' t) as [sh2 t2] eqn:Es. eexists. econstructor; [done| |done].
    by destruct (finished t).
Qed.

(** ** Concrete instances *)

Lemma round_up_is_next_multiple_witness : round_up 47 = 48.
Proof.
  destruct (round_up_is_next_multiple 47 ltac:(lia)) as (Hm & Hr & _).
  specialize (Hr ltac:(unfold ALIGN; lia)). unfold ALIGN in *.
  pose proof (Z.div_mod (round_up 47) 8 ltac:(lia)). lia.
Defined.

(** A one-kilobyte file mapped at 4096, as the boundary test has it. *)
Definition one_k : MappedRegion := mkRegion 4096 1024 3 4096 0.

Lemma allocate_spec_witness :
  allocate one_k 5 (mkShared 24 0) 48 8 = Some (mkShared 72 1, Returned 48 4120).
Proof. refine (eq_trans (allocate_spec one_k (mkShared 24 0) 48 8 5 _) _); [lia | reflexivity]. Defined.

(** The 21st object of the boundary test ends 8 bytes past the file. *)
Lemma allocate_overruns_witness :
  exists sh' p, allocate one_k 5 (mkShared 984 20) 48 ALIGN = Some (sh', Returned 48 p) /\
    p <> 0 /\ 4096 + 1024 < p + 48.
Proof. refine (allocate_overruns one_k (mkShared 984 20) 48 5 _ _ _ _ _); simpl; lia. Defined.

Definition two_calls : Sys := (mkShared 24 (usize 0), entry [20; 5]).

(** A scheduler: which thread moves next, for as long as it can. *)
Fixpoint sched (self : MappedRegion) (turns : list nat) (y : Sys) : Sys :=
  match turns with
  | [] => y
  | i :: turns' =>
      match y.2 !! i with
      | Some t => if finished t then sched self turns' y
                  else let '(sh', t') := alloc_step self y.1 t in sched self turns' (sh', <[i := t']> y.2)
      | None => sched self turns' y
      end
  end.

Lemma sched_reachable self turns y : rtc (sys_step self) y (sched self turns y).
Proof.
  revert y. induction turns as [|i turns IH]; intros [sh ts]; simpl; [done|].
  destruct (ts !! i) as [t|] eqn:Hi; [|done]. destruct (finished t) eqn:Hf; [done|].
  destruct (alloc_step self sh t) as [sh' t'] eqn:Hs. eapply rtc_l; [by econstructor | apply IH].
Qed.

(** Both load the same offset; the second loses the race and loads again. *)
Definition race : Sys := sched one_k [0; 1; 0; 1; 0; 1; 1; 1; 0; 0; 1; 1]%nat two_calls.


Lemma allocate_lock_free_witness :
  exists y', sys_step one_k two_calls y'.
Proof.
  destruct (allocate_lock_free one_k (mkShared 24 (usize 0)) [(20, 8); (5, 8)] 0 two_calls (nsteps_O _ _)) as [_ [H|H]].
  - exact H.
  - inversion H as [|? ? H1 _]. discriminate H1.
Defined.
