(* ===== verification/MmapFile.v ===== *)
(** * Creating, loading and dropping a mapped region:
    [MappedRegion::new], [load] and [drop] of src/src/mmap_allocator.rs

    The system calls of the [nix] crate and the accesses to the mapped header
    through a raw pointer are parameters. *)

From S2P Require Import Prelude Effects Mmap.

(** Each call with the arguments the code varies; the flags are the same at
    every call site.  Errors are the [errno] descriptions. *)
Class NixOps (V X : Type) := {
  nix_open : string -> M V X (result Z string);
  nix_ftruncate : Z -> Z -> M V X (result unit string);
  nix_st_size : Z -> M V X (result Z string);            (* fstat(fd).st_size *)
  nix_mmap : Z -> Z -> M V X (result Z string);          (* length, fd *)
  nix_madvise : Z -> Z -> M V X (result unit string);    (* address, length *)
  nix_munmap : Z -> Z -> M V X (result unit string);
  nix_msync : Z -> Z -> M V X (result unit string);
  nix_close : Z -> M V X (result unit string);
  write_header : Z -> MMapHeader -> M V X unit;          (* *ptr = header *)
  read_header : Z -> M V X MMapHeader
}.

(** [impl fmt::Show for MMapHeader]. *)
Definition show_header (h : MMapHeader) : string :=
  ("MMapHeader[current: " ++ pretty (current h) ++ ", total_size: " ++ pretty (hdr_total_size h) ++ "]")%string.

(** The text of [load]'s error. *)
Definition load_failure (basepath : string) (st_size : Z) (h : MMapHeader) : string :=
  ("Failed to load data file, " ++ debug_str basepath ++ ". Reported sizes do not match: file size: " ++
   pretty st_size ++ ", header size " ++ pretty (hdr_total_size h))%string.

Section File.
Context {V X : Type} `{!NixOps V X}.

(** [as u64] of a signed size. *)
Definition new (basepath : string) (total_size : Z) : M V X (result MappedRegion string) :=
  let! r := nix_open basepath in
  let! fd := unwrap r in
  let! r := nix_ftruncate fd (as_i64 total_size) in
  let! _ := unwrap r in
  let! r := nix_mmap total_size fd in
  let! ptr := unwrap r in
  let! adv := nix_madvise ptr total_size in
  let! _ := match adv with
            | Ok _ => ret tt
            | Err e =>
                let! _ := error "Failed to advise mmap to alloc {:?} bytes at {:?} - error: {:?}"
                            [pretty total_size; pretty ptr; e] in
                let! r := nix_munmap ptr total_size in
                let! _ := unwrap r in
                let! r := nix_close fd in
                unwrap r
            end in
  let offset := round_up HEADER_SIZE in
  let headerptr := ptr in
  let! _ := write_header headerptr (mkHeader MAGIC offset total_size) in
  ret (Ok (mkRegion ptr total_size fd headerptr 0)).

Definition load (basepath : string) : M V X (result MappedRegion string) :=
  let! r := nix_open basepath in
  let! fd := unwrap r in
  let! r := nix_st_size fd in
  let! st_size := unwrap r in
  let! r := nix_mmap (u64 st_size) fd in
  let! ptr := unwrap r in
  let headerptr := ptr in
  let! header := read_header headerptr in
  let! _ := debug "Mmap File loaded: {:?}" [show_header header] in
  if negb (magic header =? MAGIC)%Z && negb (hdr_total_size header =? u64 st_size)%Z then
    let! r := nix_munmap ptr (u64 st_size) in
    let! _ := unwrap r in
    let! r := nix_close fd in
    let! _ := unwrap r in
    ret (Err (load_failure basepath st_size header))
  else ret (Ok (mkRegion ptr (hdr_total_size header) fd headerptr 0)).

(** [Drop]: every failure is ignored. *)
Definition drop_region (self : MappedRegion) : M V X unit :=
  let! _ := nix_msync (addr self) (total_size self) in
  let! _ := nix_munmap (addr self) (total_size self) in
  let! _ := nix_close (fd self) in
  ret tt.
End File.

(** ** Facts *)

Section FileFacts.
Context {V X : Type} `{!NixOps V X}.

(** When every call succeeds, [new] writes a header with nothing allocated
    but the header itself, aligned, and returns the region it describes. *)
Theorem new_initialises path size p f (w w1 w2 w3 w4 w5 : World V X) :
  nix_open path w = Done (Ok f) w1 -> nix_ftruncate f (as_i64 size) w1 = Done (Ok tt) w2 ->
  nix_mmap size f w2 = Done (Ok p) w3 -> nix_madvise p size w3 = Done (Ok tt) w4 ->
  write_header p (mkHeader MAGIC HEADER_SIZE size) w4 = Done tt w5 ->
  new path size w = Done (Ok (mkRegion p size f p 0)) w5 /\ (HEADER_SIZE mod ALIGN = 0)%Z.
Proof.
  intros E1 E2 E3 E4 E5. split; [|done]. unfold new, bind, ret, unwrap.
  follow E1.
  follow E2. follow E3. follow E4.
  change (round_up HEADER_SIZE) with HEADER_SIZE. by follow E5.
Qed.

(** When [madvise] fails, [new] unmaps the file and closes it, and then
    writes the header through the address that is no longer mapped: it never
    answers [Err], and where such a write faults it never returns. *)
Theorem new_writes_after_unmap path size p f e (w w1 w2 w3 w4 w5 w6 : World V X) :
  nix_open path w = Done (Ok f) w1 -> nix_ftruncate f (as_i64 size) w1 = Done (Ok tt) w2 ->
  nix_mmap size f w2 = Done (Ok p) w3 -> nix_madvise p size w3 = Done (Err e) w4 ->
  nix_munmap p size (mkWorld (stdout w4)
    (log w4 ++ [mkLog LError "Failed to advise mmap to alloc {:?} bytes at {:?} - error: {:?}" [pretty size; pretty p; e]])
    (chans w4) (ext w4)) = Done (Ok tt) w5 ->
  nix_close f w5 = Done (Ok tt) w6 ->
  new path size w = (let! _ := write_header p (mkHeader MAGIC HEADER_SIZE size) in
                     ret (Ok (mkRegion p size f p 0))) w6.
Proof.
  intros E1 E2 E3 E4 E5 E6. unfold new, bind, ret, unwrap, error, log_at.
  follow E1. follow E2. follow E3. follow E4. follow E5. follow E6. by change (round_up HEADER_SIZE) with HEADER_SIZE.
Qed.

End FileFacts.

(** ** A file system with one file

    The third-party calls over one file that holds a header: its size, the
    header written in it, and whether it is mapped.  [advise] is what
    [madvise] answers; a write to an address that is not mapped faults. *)
Record OneFile := mkFile { f_size : Z; f_header : MMapHeader; f_mapped : bool; f_advise : bool }.

Definition one_file_map {V : Type} (b : bool) : M V OneFile unit := fun w =>
  Done tt (mkWorld (stdout w) (log w) (chans w)
             (mkFile (f_size (ext w)) (f_header (ext w)) b (f_advise (ext w)))).

#[export] Instance NixOps_OneFile {V : Type} : NixOps V OneFile := {
  nix_open _ := ret (Ok 3%Z);
  nix_ftruncate _ n := fun w =>
    Done (Ok tt) (mkWorld (stdout w) (log w) (chans w)
                    (mkFile n (f_header (ext w)) (f_mapped (ext w)) (f_advise (ext w))));
  nix_st_size _ := fun w => Done (Ok (f_size (ext w))) w;
  nix_mmap _ _ := let! _ := one_file_map true in ret (Ok 4096%Z);
  nix_madvise _ _ := fun w => Done (if f_advise (ext w) then Ok tt else Err "EINVAL"%string) w;
  nix_munmap _ _ := let! _ := one_file_map false in ret (Ok tt);
  nix_msync _ _ := ret (Ok tt);
  nix_close _ := ret (Ok tt);
  write_header _ h := fun w =>
    if f_mapped (ext w)
    then Done tt (mkWorld (stdout w) (log w) (chans w) (mkFile (f_size (ext w)) h true (f_advise (ext w))))
    else Panicked "segmentation fault" w;
  read_header _ := fun w =>
    if f_mapped (ext w) then Done (f_header (ext w)) w else Panicked "segmentation fault" w
}.

(** ** Concrete instances *)

Definition blank (advise : bool) : World unit OneFile :=
  empty_world (mkFile 0 (mkHeader 0 0 0) false advise).

Lemma new_initialises_witness :
  exists w', new "journal" 1024 (blank true) = Done (Ok (mkRegion 4096 1024 3 4096 0)) w' /\
    f_header (ext w') = mkHeader MAGIC 24 1024.
Proof.
  eexists. split.
  - exact (proj1 (new_initialises (NixOps0 := NixOps_OneFile) "journal" 1024 4096 3 (blank true) _ _ _ _ _ eq_refl eq_refl eq_refl eq_refl eq_refl)).
  - reflexivity.
Defined.

Lemma new_writes_after_unmap_witness :
  exists w', new "journal" 1024 (blank false) = Panicked "segmentation fault" w'.
Proof.
  eexists. refine (eq_trans (new_writes_after_unmap (NixOps0 := NixOps_OneFile) "journal" 1024 4096 3 _ (blank false) _ _ _ _ _ _
    eq_refl eq_refl eq_refl eq_refl eq_refl eq_refl) _). reflexivity.
Defined.

