(* ===== verification/Journal.v ===== *)
(** * The journal over several runs: src/src/mmap_allocator.rs

    A run of the program opens the file with [MappedRegion::new] or [load],
    allocates, and drops the region; the header's [current] stays in the file.
    Allocated one after the other, over as many runs as there are, blocks get
    consecutive slots; past the end of the file every call answers null. *)

From S2P Require Import Prelude Effects Mmap MmapFile.

Local Open Scope Z_scope.

(** One thread that allocates blocks of the given sizes; the pointers. *)
Fixpoint allocate_all (self : MappedRegion) (fuel : nat) (sh : Shared) (sizes : list Z) : option (Shared * list Z) :=
  match sizes with
  | [] => Some (sh, [])
  | size :: sizes' =>
      match allocate self fuel sh size ALIGN with
      | Some (sh1, Returned _ p) =>
          match allocate_all self fuel sh1 sizes' with
          | Some (sh2, ps) => Some (sh2, p :: ps)
          | None => None
          end
      | _ => None
      end
  end.

(** The reference: consecutive slots, each as long as its size rounded up,
    and the pointer for a slot. *)
Fixpoint slots (c : Z) (sizes : list Z) : list Z :=
  match sizes with
  | [] => []
  | size :: sizes' => c :: slots (c + round8 size) sizes'
  end.
Definition slots_end (c : Z) (sizes : list Z) : Z := c + sumZ round8 sizes.
Definition block (self : MappedRegion) (offset : Z) : Z :=
  if offset >? total_size self then 0 else usize (addr self + offset).
Definition inside (self : MappedRegion) (offsets : list Z) : nat :=
  length (filter (fun offset => offset <= total_size self) offsets).

Lemma slots_app c sizes sizes' : slots c (sizes ++ sizes') = slots c sizes ++ slots (slots_end c sizes) sizes'.
Proof.
  unfold slots_end. revert c. induction sizes as [|s sizes IH]; intros c; simpl; [by rewrite Z.add_0_r|].
  rewrite IH. by rewrite Z.add_assoc.
Qed.

Lemma slots_end_app c sizes sizes' : slots_end c (sizes ++ sizes') = slots_end (slots_end c sizes) sizes'.
Proof.
  unfold slots_end. induction sizes as [|s sizes IH]; simpl; lia.
Qed.

Lemma round8_nonneg size : 0 <= size -> 0 <= round8 size.
Proof. intros Hs. pose proof (round8_bounds size). lia. Qed.

Lemma slots_end_mono c sizes : Forall (fun s => 0 <= s) sizes -> c <= slots_end c sizes.
Proof.
  intros Hs. unfold slots_end. pose proof (sumZ_nonneg round8 sizes) as Hn. cut (0 <= sumZ round8 sizes); [lia|].
  apply Hn. intros s Hin. apply round8_nonneg. by eapply Forall_forall in Hs.
Qed.

Lemma slots_end_mod c sizes : c mod 8 = 0 -> slots_end c sizes mod 8 = 0.
Proof.
  unfold slots_end. intros Hc. induction sizes as [|s sizes IH]; simpl; [by rewrite Z.add_0_r|].
  rewrite Z.add_assoc, (Z.add_comm c), <- Z.add_assoc, <- Zplus_mod_idemp_l, round8_mod. exact IH.
Qed.

(** What one call does, when its slot does not reach the end of [usize]. *)
Lemma allocate_slot self sh size fuel :
  (5 <= fuel)%nat -> sh_current sh mod 8 = 0 -> 0 <= sh_current sh -> 0 <= size ->
  sh_current sh + round8 size < 2 ^ 64 ->
  allocate self fuel sh size ALIGN =
    Some (mkShared (sh_current sh + round8 size)
            (if sh_current sh >? total_size self then sh_count sh else usize (sh_count sh + 1)),
          Returned size (block self (sh_current sh))).
Proof.
  intros Hf Hm Hc Hs Hb. do 5 (destruct fuel as [|fuel]; [lia|]). unfold allocate, block. simpl.
  rewrite Z.eqb_refl. simpl. rewrite (next_slot_round8 _ size Hm Hc Hs Hb).
  destruct (sh_current sh >? total_size self); simpl; by destruct fuel.
Qed.

Lemma allocate_all_slots self fuel sh sizes :
  (5 <= fuel)%nat -> sh_current sh mod 8 = 0 -> 0 <= sh_current sh -> Forall (fun s => 0 <= s) sizes ->
  slots_end (sh_current sh) sizes < 2 ^ 64 -> 0 <= sh_count sh < 2 ^ 64 ->
  allocate_all self fuel sh sizes =
    Some (mkShared (slots_end (sh_current sh) sizes)
            (usize (sh_count sh + Z.of_nat (inside self (slots (sh_current sh) sizes)))),
          map (block self) (slots (sh_current sh) sizes)).
Proof.
  intros Hf Hm Hc Hs. revert sh Hm Hc. induction Hs as [|size sizes Hsize Hs IH]; intros sh Hm Hc Hend Hcount.
  - simpl. unfold slots_end. simpl. rewrite !Z.add_0_r, usize_small by lia. by destruct sh.
  - assert (Hnext : slots_end (sh_current sh + round8 size) sizes = slots_end (sh_current sh) (size :: sizes)).
    { unfold slots_end. simpl. lia. }
    pose proof (slots_end_mono (sh_current sh + round8 size) sizes Hs) as Hmono.
    simpl. rewrite allocate_slot by (done || lia). rewrite IH; cbn [sh_current sh_count]; [| |pose proof (round8_nonneg size Hsize); lia|lia|].
    + rewrite Hnext. unfold inside. rewrite filter_cons. simpl. do 3 f_equal.
      destruct (Z.gtb_spec (sh_current sh) (total_size self)).
      * by rewrite decide_False by lia.
      * rewrite decide_True by lia. unfold usize. rewrite wrap_add_l. f_equal. simpl length. lia.
    + rewrite <- Zplus_mod_idemp_l, Hm, Z.add_0_l. apply round8_mod.
    + destruct (_ >? _); [done|]. apply usize_range.
Qed.

(** C26: A region allocates blocks of any sizes, one after the other, at
    consecutive slots from [current] on; those that start past the end of the
    file are null; [count] grows by the number of the others. *)
Theorem allocations_consecutive self fuel sh sizes :
  (5 <= fuel)%nat -> sh_current sh mod 8 = 0 -> 0 <= sh_current sh -> Forall (fun s => 0 <= s) sizes ->
  slots_end (sh_current sh) sizes < 2 ^ 64 -> 0 <= sh_count sh < 2 ^ 64 ->
  exists sh', allocate_all self fuel sh sizes = Some (sh', map (block self) (slots (sh_current sh) sizes)) /\
    sh_current sh' = slots_end (sh_current sh) sizes /\
    num_allocated sh' = usize (num_allocated sh + Z.of_nat (inside self (slots (sh_current sh) sizes))).
Proof.
  intros Hf Hm Hc Hs He Hn. rewrite allocate_all_slots by done. eexists. by splits.
Qed.

(** ** The next run *)

Section Reload.
Context {V X : Type} `{!NixOps V X}.

Lemma load_accepts path p f st h (w w1 w2 w3 w4 : World V X) :
  nix_open path w = Done (Ok f) w1 -> nix_st_size f w1 = Done (Ok st) w2 ->
  nix_mmap (u64 st) f w2 = Done (Ok p) w3 -> read_header p w3 = Done h w4 -> magic h = MAGIC ->
  exists w5, load path w = Done (Ok (mkRegion p (hdr_total_size h) f p 0)) w5.
Proof.
  intros E1 E2 E3 E4 Hm. eexists. unfold load, bind, ret, unwrap, debug, log_at.
  follow E1. follow E2. follow E3. follow E4. by rewrite Hm.
Qed.

(** A run that created the file and allocated [sizes1], then another
    that loads it and allocates [sizes2]: the second run's blocks are in the
    slots that one run over all the sizes would have given them, so that no
    block of one overlaps a block of the other, and its count starts from
    zero. *)
Theorem reload_continues path p1 f1 p f st size sizes1 sizes2 sh1 ps1 fuel (w w1 w2 w3 w4 : World V X) :
  let region1 := mkRegion p1 size f1 p1 0 in
  let header0 := mkHeader MAGIC HEADER_SIZE size in
  (5 <= fuel)%nat -> Forall (fun s => 0 <= s) (sizes1 ++ sizes2) -> slots_end HEADER_SIZE (sizes1 ++ sizes2) < 2 ^ 64 ->
  allocate_all region1 fuel (mkShared (current header0) (count region1)) sizes1 = Some (sh1, ps1) ->
  nix_open path w = Done (Ok f) w1 -> nix_st_size f w1 = Done (Ok st) w2 ->
  nix_mmap (u64 st) f w2 = Done (Ok p) w3 ->
  read_header p w3 = Done (mkHeader MAGIC (sh_current sh1) size) w4 ->
  exists region2 w5 sh2, load path w = Done (Ok region2) w5 /\ total_size region2 = size /\ addr region2 = p /\
    allocate_all region2 fuel (mkShared (sh_current sh1) (count region2)) sizes2 =
      Some (sh2, map (block region2) (drop (length sizes1) (slots HEADER_SIZE (sizes1 ++ sizes2)))) /\
    ps1 = map (block region1) (take (length sizes1) (slots HEADER_SIZE (sizes1 ++ sizes2))).
Proof.
  intros region1 header0 Hf Hs He E1 Eo Es Em Er. apply Forall_app in Hs as [Hs1 Hs2].
  assert (Hlen : length (slots HEADER_SIZE sizes1) = length sizes1).
  { generalize HEADER_SIZE as c. clear. induction sizes1 as [|s sizes IH]; intros c; simpl; [done|by rewrite IH]. }
  rewrite slots_end_app in He. pose proof (slots_end_mono (slots_end HEADER_SIZE sizes1) sizes2 Hs2).
  pose proof (slots_end_mono HEADER_SIZE sizes1 Hs1) as Hh. unfold HEADER_SIZE in Hh at 1.
  rewrite (allocate_all_slots region1 fuel) in E1; cbn [sh_current sh_count current header0 region1 count]; try (done || lia).
  cbn [sh_current current header0] in E1. injection E1 as <- <-. cbn [sh_current] in Er |- *.
  destruct (load_accepts path p f st _ w w1 w2 w3 w4 Eo Es Em Er eq_refl) as (w5 & El).
  do 3 eexists. split; [exact El|]. split; [done|]. split; [done|]. split.
  - rewrite (allocate_all_slots _ fuel); cbn [sh_current sh_count count]; try (done || lia).
    + by rewrite slots_app, drop_app_length'.
    + by apply slots_end_mod.
  - by rewrite slots_app, take_app_length'.
Qed.
End Reload.

(** ** The boundary test: blocks of 48 bytes in a file of 1024 *)

Definition one_k : MappedRegion := mkRegion 4096 1024 3 4096 0.

(** 21 blocks, then null; the last block ends 8 bytes past the file. *)
Lemma allocations_consecutive_witness :
  exists sh ps, allocate_all one_k 5 (mkShared HEADER_SIZE 0) (replicate 22 48) = Some (sh, ps) /\
    forallb (fun p => negb (p =? 0)) (take 21 ps) = true /\ drop 21 ps = [0] /\ num_allocated sh = 21 /\
    nth 20 ps 0 + 48 = 4096 + 1024 + 8.
Proof.
  destruct (allocations_consecutive one_k 5 (mkShared HEADER_SIZE 0) (replicate 22 48)) as (sh & E & _ & Hn).
  - lia.
  - reflexivity.
  - done.
  - repeat constructor; lia.
  - vm_compute. reflexivity.
  - simpl. lia.
  - do 2 eexists. split; [exact E|]. rewrite Hn. vm_compute. by splits.
Defined.

(** The file as the first run of the test left it: the second run gets null. *)
Lemma reload_continues_witness :
  exists region sh w', load "journal" (empty_world (V := unit) (mkFile 1024 (mkHeader MAGIC 1080 1024) false true)) = Done (Ok region) w' /\
    allocate_all region 5 (mkShared 1080 (count region)) [48] = Some (sh, [0]).
Proof.
  destruct (reload_continues (NixOps0 := NixOps_OneFile) "journal" 4096 3 4096 3 1024 1024 (replicate 22 48) [48]
    (mkShared 1080 21) (map (block one_k) (slots HEADER_SIZE (replicate 22 48))) 5
    (empty_world (V := unit) (mkFile 1024 (mkHeader MAGIC 1080 1024) false true)) _ _ _ _
    ltac:(lia) ltac:(repeat constructor; lia) ltac:(vm_compute; reflexivity) ltac:(vm_compute; reflexivity)
    eq_refl eq_refl eq_refl eq_refl) as (region & w' & sh & El & Ht & _ & Ea & _).
  exists region, sh, w'. split; [exact El|]. refine (eq_trans Ea _).
    change (drop _ _) with [1080]. unfold block. simpl map. rewrite Ht. reflexivity.
Defined.
