(* ===== verification/JournalTest.v ===== *)
(** * The tests of the allocator: src/src/mmap_allocator.rs

    [allocate] on a region in memory, for one thread: it reads and writes the
    header through the mapping.  The test [mmap_allocator_basic] stores a
    hundred objects in a new file, loads it again and stores another hundred;
    [mmap_allocator_boundaries] fills a file of one kilobyte, finds it full,
    and finds it full again after loading it anew.  That they pass, and what
    the file then holds, is proved for any system that keeps what is written
    to a mapped file. *)

From S2P Require Import Prelude Effects Mmap MmapFile Journal.

Local Open Scope Z_scope.

(** [TestObject]: five words, two bytes and one. *)
Record TestObject := mkTestObject { v1 : Z; v2 : Z; v3 : Z; v4 : Z; v5 : Z; v6 : Z; v7 : Z }.

(** [*foo = object], through a pointer into the mapping. *)
Class ObjectOps (V X : Type) := { write_object : Z -> TestObject -> M V X unit }.

Section Test.
Context {V X : Type} `{!NixOps V X} `{!ObjectOps V X}.

Definition with_count (n : Z) (self : MappedRegion) : MappedRegion :=
  mkRegion (addr self) (total_size self) (fd self) (header self) n.

(** [MappedRegion::allocate] when no other thread runs. *)
Definition allocate_at (self : MappedRegion) (size align : Z) : M V X (MappedRegion * Z) :=
  let! h := read_header (header self) in
  match allocate self 5 (mkShared (current h) (count self)) size align with
  | Some (sh, Returned _ p) =>
      let! _ := write_header (header self) (mkHeader (magic h) (sh_current sh) (hdr_total_size h)) in
      ret (with_count (sh_count sh) self, p)
  | Some (_, AlignPanic) => panic "User requested alignment of {:?} but we only have {:?}"
  | _ => out_of_fuel
  end.

(** [impl Allocator for MappedRegion] passes on. *)
Definition Allocator_allocate (self : MappedRegion) (size align : Z) : M V X (MappedRegion * Z) := allocate_at self size align.

(** [mem::size_of::<TestObject>()]: padded to the alignment of its words. *)
Definition TEST_OBJECT : Z := 48.

Definition assert (b : bool) : M V X unit := if b then ret tt else panic "assertion failed".

(** [n] allocations, none of which may be null. *)
Fixpoint fill_region (n : nat) (region : MappedRegion) : M V X MappedRegion :=
  match n with
  | O => ret region
  | S n' =>
      let! '(region, foo) := allocate_at region TEST_OBJECT 8 in
      let! _ := assert (negb (foo =? 0)) in
      fill_region n' region
  end.

(** The test; making its directory and removing its file are left out. *)
Definition mmap_allocator_boundaries : M V X unit :=
  let one_k := 1024 in
  let! r := new "./target/data/test_alloc2.db" one_k in
  let! region := unwrap r in
  let! region := fill_region (Z.to_nat (one_k / TEST_OBJECT)) region in
  let! '(region, foo) := allocate_at region TEST_OBJECT 8 in
  let! _ := assert (foo =? 0) in
  let! _ := drop_region region in
  let! r := load "./target/data/test_alloc2.db" in
  let! region := unwrap r in
  let! '(region, foo) := allocate_at region TEST_OBJECT 8 in
  let! _ := assert (foo =? 0) in
  drop_region region.

(** [TestObject { v1: i, .., v6: i as u16, v7: i as u8 }]. *)
Definition test_object (i : Z) : TestObject := mkTestObject i i i i i (wrap 16 i) (wrap 8 i).

(** One object for each [i], made from [f i]. *)
Fixpoint store_objects (f : Z -> Z) (l : list Z) (region : MappedRegion) : M V X MappedRegion :=
  match l with
  | [] => ret region
  | i :: l' =>
      let! '(region, foo) := allocate_at region TEST_OBJECT 8 in
      let! _ := write_object foo (test_object (f i)) in
      store_objects f l' region
  end.

Definition mmap_allocator_basic : M V X unit :=
  let two_jigabytes := u64 (1024 * 1024 * 1024 * 2) in
  let! _ := println ("TestObject is " ++ pretty TEST_OBJECT ++ " bytes or " ++ pretty (round_up TEST_OBJECT) ++ " rounded") in
  let! r := new "./target/data/test_alloc.db" two_jigabytes in
  let! region := unwrap r in
  let! region := store_objects id (seqZ 0 100) region in
  let! _ := drop_region region in
  let! r := load "./target/data/test_alloc.db" in
  let! region := unwrap r in
  let! region := store_objects (fun i => as_i64 (i * i)) (seqZ 0 100) region in
  let! _ := assert (total_size region =? two_jigabytes) in
  drop_region region.

(** ** A system that keeps its files *)

(** The file as the program can see it: the header at its start, its size,
    where it is mapped, and the objects behind the header, by their offsets. *)
Record FileView := mkView { v_header : MMapHeader; v_size : Z; v_at : option Z; v_objects : gmap Z TestObject }.

Class FileLaws := {
  file : X -> FileView;
  open_law : forall path w, exists f w', nix_open path w = Done (Ok f) w' /\ file (ext w') = file (ext w);
  ftruncate_law : forall f n w, exists w', nix_ftruncate f n w = Done (Ok tt) w' /\ v_size (file (ext w')) = n;
  st_size_law : forall f w, exists w', nix_st_size f w = Done (Ok (v_size (file (ext w)))) w' /\ file (ext w') = file (ext w);
  mmap_law : forall n f w, 0 <= n < 2 ^ 32 -> exists p w', nix_mmap n f w = Done (Ok p) w' /\ 0 < p /\ p + n < 2 ^ 64 /\
    file (ext w') = mkView (v_header (file (ext w))) (v_size (file (ext w))) (Some p) (v_objects (file (ext w)));
  madvise_law : forall p n w, v_at (file (ext w)) = Some p ->
    exists w', nix_madvise p n w = Done (Ok tt) w' /\ file (ext w') = file (ext w);
  munmap_law : forall p n w, v_at (file (ext w)) = Some p -> exists w', nix_munmap p n w = Done (Ok tt) w' /\
    file (ext w') = mkView (v_header (file (ext w))) (v_size (file (ext w))) None (v_objects (file (ext w)));
  msync_law : forall p n w, exists r w', nix_msync p n w = Done r w' /\ file (ext w') = file (ext w);
  close_law : forall f w, exists r w', nix_close f w = Done r w' /\ file (ext w') = file (ext w);
  write_header_law : forall p h w, v_at (file (ext w)) = Some p -> exists w', write_header p h w = Done tt w' /\
    file (ext w') = mkView h (v_size (file (ext w))) (Some p) (v_objects (file (ext w)));
  read_header_law : forall p w, v_at (file (ext w)) = Some p -> exists w',
    read_header p w = Done (v_header (file (ext w))) w' /\ file (ext w') = file (ext w);
  write_object_law : forall p n o w, v_at (file (ext w)) = Some p -> HEADER_SIZE <= n -> n + TEST_OBJECT <= v_size (file (ext w)) ->
    exists objs w', write_object (p + n) o w = Done tt w' /\
      file (ext w') = mkView (v_header (file (ext w))) (v_size (file (ext w))) (Some p) objs /\ objs !! n = Some o /\
      forall m, m + TEST_OBJECT <= n \/ n + TEST_OBJECT <= m -> objs !! m = v_objects (file (ext w)) !! m
}.
Context `{!FileLaws}.
Implicit Types w : World V X.

(** The journal's file, mapped at [p], with [n] bytes given out, the header
    included, and the region a program has of it. *)
Definition journal (p n total : Z) (objs : gmap Z TestObject) : FileView := mkView (mkHeader MAGIC n total) total (Some p) objs.
Definition region_at (p total : Z) (region : MappedRegion) : Prop :=
  addr region = p /\ header region = p /\ total_size region = total.

Lemma new_journal path size w :
  0 <= size < 2 ^ 32 -> exists region p objs w', new path size w = Done (Ok region) w' /\
    file (ext w') = journal p HEADER_SIZE size objs /\ region_at p size region /\ count region = 0 /\ 0 < p /\ p + size < 2 ^ 64.
Proof.
  intros Hs. destruct (open_law path w) as (f & w1 & E1 & H1).
  destruct (ftruncate_law f (as_i64 size) w1) as (w2 & E2 & H2).
  destruct (mmap_law size f w2 Hs) as (p & w3 & E3 & Hp & Hb & H3).
  destruct (madvise_law p size w3) as (w4 & E4 & H4); [by rewrite H3|].
  destruct (write_header_law p (mkHeader MAGIC HEADER_SIZE size) w4) as (w5 & E5 & H5); [by rewrite H4, H3|].
  exists (mkRegion p size f p 0), p, (v_objects (file (ext w4))), w5. split; [|split; [|by splits]].
  - unfold new, bind, ret, unwrap. follow E1. follow E2. follow E3. follow E4.
    change (round_up HEADER_SIZE) with HEADER_SIZE. by follow E5.
  - rewrite H5, H4, H3. simpl. rewrite H2, as_i64_small by lia. done.
Qed.

Lemma allocate_journal region size p n total objs w :
  file (ext w) = journal p n total objs -> region_at p total region ->
  n mod 8 = 0 -> 0 <= n -> 0 <= size -> n + round8 size < 2 ^ 64 ->
  exists k w', allocate_at region size 8 w = Done (with_count k region, block region n) w' /\
    file (ext w') = journal p (n + round8 size) total objs.
Proof.
  intros Hf (Ha & Hh & Ht) Hm Hn Hs Hb.
  destruct (read_header_law (header region) w) as (w1 & E1 & H1); [by rewrite Hf, Hh|]. rewrite Hf in E1. simpl in E1.
  set (h' := mkHeader MAGIC (n + round8 size) total).
  destruct (write_header_law (header region) h' w1) as (w2 & E2 & H2); [by rewrite H1, Hf, Hh|].
  eexists _, w2. split; [|by rewrite H2, H1, Hf, Hh].
  unfold allocate_at, bind at 1. rewrite E1. change 8 with ALIGN.
  rewrite allocate_slot by (done || simpl; lia). cbn [sh_current sh_count current hdr_total_size magic].
  unfold bind. fold h'. by rewrite E2.
Qed.

(** A block that starts inside the file is at its offset from the mapping. *)
Lemma block_inside region p total n :
  region_at p total region -> 0 <= n <= total -> 0 < p -> p + total < 2 ^ 64 -> block region n = p + n.
Proof.
  intros (Ha & _ & Ht) Hn Hp Hb. unfold block. rewrite Ht, Ha. destruct (Z.gtb_spec n total); [lia|]. by rewrite usize_small by lia.
Qed.

(** As many allocations as fit give blocks, none of them null. *)
Lemma fill_journal k region p n total objs w :
  file (ext w) = journal p n total objs -> region_at p total region -> n mod 8 = 0 -> 0 <= n ->
  0 < p -> p + total < 2 ^ 64 -> 0 <= total < 2 ^ 32 -> n + TEST_OBJECT * Z.of_nat k <= total + TEST_OBJECT ->
  exists c w', fill_region k region w = Done (with_count c region) w' /\
    file (ext w') = journal p (n + TEST_OBJECT * Z.of_nat k) total objs.
Proof.
  revert region n w. induction k as [|k IH]; intros region n w Hf Hr Hm Hn Ha Hb Hsize Hroom.
  - exists (count region), w. rewrite Z.mul_0_r, Z.add_0_r. split; [by destruct region|done].
  - unfold TEST_OBJECT in *. change (round8 48) with 48 in *.
    destruct (allocate_journal region 48 p n total objs w Hf Hr Hm Hn ltac:(lia)) as (c & w1 & E1 & H1); [change (round8 48) with 48; lia|].
    change (round8 48) with 48 in H1.
    assert (Hblock : negb (block region n =? 0) = true).
    { rewrite (block_inside region p total n Hr) by lia. by destruct (Z.eqb_spec (p + n) 0); [lia|]. }
    destruct (IH (with_count c region) (n + 48) w1 H1 Hr) as (c' & w2 & E2 & H2); try (done || lia).
    { rewrite <- Zplus_mod_idemp_l, Hm. done. }
    exists c', w2. split.
    + cbn [fill_region]. unfold bind at 1. unfold TEST_OBJECT. rewrite E1. unfold bind at 1, assert. by rewrite Hblock.
    + rewrite H2. f_equal. lia.
Qed.

(** When nothing fits any more, null. *)
Lemma full_journal region p n total objs w :
  file (ext w) = journal p n total objs -> region_at p total region -> n mod 8 = 0 -> 0 <= total < n -> n < 2 ^ 32 ->
  exists c w', allocate_at region TEST_OBJECT 8 w = Done (with_count c region, 0) w' /\
    file (ext w') = journal p (n + TEST_OBJECT) total objs.
Proof.
  intros Hf Hr Hm Hn Hb. unfold TEST_OBJECT.
  destruct (allocate_journal region 48 p n total objs w Hf Hr Hm ltac:(lia)) as (c & w1 & E1 & H1);
    [lia|change (round8 48) with 48; lia|].
  exists c, w1. split; [|done]. rewrite E1. unfold block. destruct Hr as (_ & _ & ->). by rewrite (proj2 (Z.gtb_lt _ _)) by lia.
Qed.

(** Objects are stored one behind the other, and none of them over another
    or over what was there before. *)
Lemma store_journal f l region p n total objs w :
  file (ext w) = journal p n total objs -> region_at p total region -> n mod 8 = 0 -> HEADER_SIZE <= n ->
  0 < p -> p + total < 2 ^ 64 -> 0 <= total < 2 ^ 32 -> n + TEST_OBJECT * Z.of_nat (length l) <= total ->
  exists c objs' w', store_objects f l region w = Done (with_count c region) w' /\
    file (ext w') = journal p (n + TEST_OBJECT * Z.of_nat (length l)) total objs' /\
    (forall k i, l !! k = Some i -> objs' !! (n + TEST_OBJECT * Z.of_nat k) = Some (test_object (f i))) /\
    (forall m, m + TEST_OBJECT <= n -> objs' !! m = objs !! m).
Proof.
  unfold HEADER_SIZE. revert region n objs w. induction l as [|i l IH]; intros region n objs w Hf Hr Hm Hn Ha Hb Hsize Hroom.
  - exists (count region), objs, w. rewrite Z.mul_0_r, Z.add_0_r. split; [by destruct region|]. by split.
  - unfold TEST_OBJECT in *. cbn [length] in Hroom.
    destruct (allocate_journal region 48 p n total objs w Hf Hr Hm ltac:(lia) ltac:(lia)) as (c & w1 & E1 & H1); [change (round8 48) with 48; lia|].
    change (round8 48) with 48 in H1. rewrite (block_inside region p total n Hr) in E1 by lia.
    destruct (write_object_law p n (test_object (f i)) w1) as (objs1 & w2 & E2 & H2 & Hnew & Hold); [by rewrite H1|done|rewrite H1; simpl; unfold TEST_OBJECT; lia|].
    rewrite H1 in H2, Hold. cbn [journal v_header v_size v_objects] in H2, Hold.
    destruct (IH (with_count c region) (n + 48) objs1 w2 H2 Hr) as (c' & objs2 & w3 & E3 & H3 & Hnew' & Hold'); try (done || lia).
    { rewrite <- Zplus_mod_idemp_l, Hm. done. }
    exists c', objs2, w3. split; [|split; [|split]].
    + cbn [store_objects]. unfold bind at 1. unfold TEST_OBJECT. rewrite E1. unfold bind at 1. by rewrite E2.
    + rewrite H3. f_equal. simpl length. lia.
    + intros [|k] j Hk; simpl in Hk.
      * injection Hk as ->. rewrite Z.mul_0_r, Z.add_0_r, Hold' by lia. exact Hnew.
      * rewrite <- (Hnew' k j Hk). f_equal. lia.
    + intros m Hm'. rewrite Hold' by lia. apply Hold. left. exact Hm'.
Qed.

(** Dropping a region unmaps the file and leaves it as it is ... *)
Lemma drop_journal region p n total objs w :
  file (ext w) = journal p n total objs -> region_at p total region -> exists w', drop_region region w = Done tt w' /\
    file (ext w') = mkView (mkHeader MAGIC n total) total None objs.
Proof.
  intros Hf (Ha & _ & _). destruct (msync_law (addr region) (total_size region) w) as (r1 & w1 & E1 & H1).
  destruct (munmap_law (addr region) (total_size region) w1) as (w2 & E2 & H2); [by rewrite H1, Hf, Ha|].
  destruct (close_law (fd region) w2) as (r3 & w3 & E3 & H3).
  exists w3. split; [|by rewrite H3, H2, H1, Hf]. unfold drop_region, bind. by rewrite E1, E2, E3.
Qed.

(** ... and loading it again maps it as it was. *)
Lemma load_journal path n total objs w :
  file (ext w) = mkView (mkHeader MAGIC n total) total None objs -> 0 <= total < 2 ^ 32 ->
  exists region p w', load path w = Done (Ok region) w' /\ file (ext w') = journal p n total objs /\
    region_at p total region /\ 0 < p /\ p + total < 2 ^ 64.
Proof.
  intros Hf Ht. destruct (open_law path w) as (f & w1 & E1 & H1).
  destruct (st_size_law f w1) as (w2 & E2 & H2). rewrite H1, Hf in E2. simpl in E2.
  destruct (mmap_law (u64 total) f w2) as (p & w3 & E3 & Hp & Hb & H3); [rewrite u64_small; lia|].
  destruct (read_header_law p w3) as (w4 & E4 & H4); [by rewrite H3|]. rewrite H3 in E4. simpl in E4. rewrite H2, H1, Hf in E4. simpl in E4.
  exists (mkRegion p total f p 0), p. eexists. split; [|split; [|split; [by splits|]]].
  - unfold load, bind, ret, unwrap, debug, log_at. follow E1. follow E2. follow E3. follow E4. simpl. reflexivity.
  - simpl. rewrite H4, H3. simpl. by rewrite H2, H1, Hf.
  - rewrite u64_small in Hb by lia. done.
Qed.

(** C35: On every system that keeps what is written to a mapped file, the
    boundary test passes: 21 blocks fit into its file, the next is null, and
    null is what a second run gets. *)
Theorem boundary_test_passes w : exists w', mmap_allocator_boundaries w = Done tt w'.
Proof.
  destruct (new_journal "./target/data/test_alloc2.db" 1024 w ltac:(lia)) as (r1 & p1 & o1 & w1 & E1 & H1 & T1 & _ & A1 & B1).
  destruct (fill_journal 21 r1 p1 HEADER_SIZE 1024 o1 w1 H1 T1 eq_refl) as (c2 & w2 & E2 & H2);
    [unfold HEADER_SIZE, TEST_OBJECT; lia..|]. change (HEADER_SIZE + TEST_OBJECT * Z.of_nat 21) with 1032 in H2.
  destruct (full_journal (with_count c2 r1) p1 1032 1024 o1 w2 H2 T1 eq_refl) as (c3 & w3 & E3 & H3); [lia..|].
  change (1032 + TEST_OBJECT) with 1080 in H3.
  destruct (drop_journal (with_count c3 (with_count c2 r1)) p1 1080 1024 o1 w3 H3 T1) as (w4 & E4 & H4).
  destruct (load_journal "./target/data/test_alloc2.db" 1080 1024 o1 w4 H4 ltac:(lia)) as (r5 & p5 & w5 & E5 & H5 & T5 & _).
  destruct (full_journal r5 p5 1080 1024 o1 w5 H5 T5 eq_refl) as (c6 & w6 & E6 & H6); [lia..|].
  destruct (drop_journal (with_count c6 r5) p5 _ _ o1 w6 H6 T5) as (w7 & E7 & _).
  exists w7. unfold mmap_allocator_boundaries, bind, ret, unwrap, assert.
  follow E1. change (Z.to_nat (1024 / TEST_OBJECT)) with 21%nat. follow E2. follow E3.
  change (0 =? 0) with true. cbn beta iota delta [ret]. follow E4. follow E5. follow E6. exact E7.
Qed.

(** The offsets of the objects of the two runs. *)
Definition first_run (i : Z) : Z := HEADER_SIZE + TEST_OBJECT * i.
Definition second_run (i : Z) : Z := HEADER_SIZE + TEST_OBJECT * (100 + i).

(** C36: On every such system the basic test passes, and what it leaves in the
    file are all two hundred objects: those of the first run, which the
    second did not touch, and behind them those of the second. *)
Theorem basic_test_passes w : exists w' objs, mmap_allocator_basic w = Done tt w' /\
  file (ext w') = mkView (mkHeader MAGIC (HEADER_SIZE + TEST_OBJECT * 200) (2 ^ 31)) (2 ^ 31) None objs /\
  forall i, 0 <= i < 100 -> objs !! first_run i = Some (test_object i) /\ objs !! second_run i = Some (test_object (i * i)).
Proof.
  set (w0 := mkWorld (stdout w ++ ["TestObject is 48 bytes or 48 rounded"%string]) (log w) (chans w) (ext w)).
  destruct (new_journal "./target/data/test_alloc.db" (2 ^ 31) w0 ltac:(lia)) as (r1 & p1 & o1 & w1 & E1 & H1 & T1 & _ & A1 & B1).
  destruct (store_journal id (seqZ 0 100) r1 p1 HEADER_SIZE (2 ^ 31) o1 w1 H1 T1 eq_refl) as (c2 & o2 & w2 & E2 & H2 & N2 & _);
    rewrite ?length_seqZ; [unfold HEADER_SIZE, TEST_OBJECT; lia..|]. rewrite length_seqZ in H2.
  change (HEADER_SIZE + TEST_OBJECT * Z.of_nat (Z.to_nat 100)) with 4824 in H2.
  destruct (drop_journal (with_count c2 r1) p1 4824 (2 ^ 31) o2 w2 H2 T1) as (w3 & E3 & H3).
  destruct (load_journal "./target/data/test_alloc.db" 4824 (2 ^ 31) o2 w3 H3 ltac:(lia)) as (r4 & p4 & w4 & E4 & H4 & T4 & A4 & B4).
  destruct (store_journal (fun i => as_i64 (i * i)) (seqZ 0 100) r4 p4 4824 (2 ^ 31) o2 w4 H4 T4 eq_refl) as (c5 & o5 & w5 & E5 & H5 & N5 & K5);
    rewrite ?length_seqZ; [unfold HEADER_SIZE, TEST_OBJECT; lia..|]. rewrite length_seqZ in H5.
  change (4824 + TEST_OBJECT * Z.of_nat (Z.to_nat 100)) with (HEADER_SIZE + TEST_OBJECT * 200) in H5.
  destruct (drop_journal (with_count c5 r4) p4 _ _ o5 w5 H5 T4) as (w6 & E6 & H6).
  exists w6, o5. split; [|split; [exact H6|]].
  - unfold mmap_allocator_basic. cbv zeta. change (u64 (1024 * 1024 * 1024 * 2)) with (2 ^ 31).
    unfold bind, ret, unwrap, assert. change (println _ w) with (Done (V := V) (X := X) tt w0). cbn beta iota. follow E1. follow E2. follow E3. follow E4. follow E5.
    destruct T4 as (_ & _ & T4). cbn [total_size with_count]. rewrite T4, Z.eqb_refl. exact E6.
  - intros i Hi. assert (Hat : seqZ 0 100 !! Z.to_nat i = Some i) by (apply lookup_seqZ; lia). unfold first_run, second_run. split.
    + rewrite K5 by (unfold HEADER_SIZE, TEST_OBJECT; lia). pose proof (N2 _ _ Hat) as HN. unfold id in HN. rewrite <- HN. f_equal. unfold TEST_OBJECT. lia.
    + pose proof (N5 _ _ Hat) as HN. cbv beta in HN. rewrite as_i64_small in HN by nia. rewrite <- HN. f_equal. unfold HEADER_SIZE, TEST_OBJECT. lia.
Qed.
End Test.

(** ** A one-file system that keeps its file *)

Definition on_file {V B : Type} (f : FileView -> FileView * B) : M V FileView B := fun w =>
  Done (f (ext w)).2 (mkWorld (stdout w) (log w) (chans w) (f (ext w)).1).
Definition at_mapping {V B : Type} (p : Z) (m : Z -> M V FileView B) : M V FileView B := fun w =>
  match v_at (ext w) with Some base => m (p - base) w | None => Panicked "segmentation fault" w end.

#[export] Instance NixOps_kept {V : Type} : NixOps V FileView := {
  nix_open _ := ret (Ok 3);
  nix_ftruncate _ n := on_file (fun x => (mkView (v_header x) n (v_at x) ∅, Ok tt));
  nix_st_size _ := on_file (fun x => (x, Ok (v_size x)));
  nix_mmap _ _ := on_file (fun x => (mkView (v_header x) (v_size x) (Some 4096) (v_objects x), Ok 4096));
  nix_madvise _ _ := ret (Ok tt);
  nix_munmap _ _ := on_file (fun x => (mkView (v_header x) (v_size x) None (v_objects x), Ok tt));
  nix_msync _ _ := ret (Ok tt);
  nix_close _ := ret (Ok tt);
  write_header p h := at_mapping p (fun _ => on_file (fun x => (mkView h (v_size x) (v_at x) (v_objects x), tt)));
  read_header p := at_mapping p (fun _ => on_file (fun x => (x, v_header x)))
}.
#[export] Instance ObjectOps_kept {V : Type} : ObjectOps V FileView := {
  write_object p o := at_mapping p (fun n => on_file (fun x => (mkView (v_header x) (v_size x) (v_at x) (<[n := o]> (v_objects x)), tt)))
}.

#[export] Program Instance FileLaws_kept {V : Type} : FileLaws (V := V) (X := FileView) := { file x := x }.
Next Obligation. intros V path w. by do 2 eexists. Qed.
Next Obligation. intros V f n w. eexists. by split. Qed.
Next Obligation. intros V f w. eexists. split; [reflexivity|]. by destruct w as [? ? ? []]. Qed.
Next Obligation. intros V n f w Hn. do 2 eexists. split; [reflexivity|]. split; [lia|]. split; [lia|done]. Qed.
Next Obligation. intros V p n w _. by eexists. Qed.
Next Obligation. intros V p n w _. eexists. by split. Qed.
Next Obligation. intros V p n w. by do 2 eexists. Qed.
Next Obligation. intros V f w. by do 2 eexists. Qed.
Next Obligation. intros V p h w Hm. simpl in *. unfold at_mapping. rewrite Hm. eexists. split; [reflexivity|]. simpl. by rewrite Hm. Qed.
Next Obligation. intros V p w Hm. simpl in *. unfold at_mapping. rewrite Hm. eexists. split; [reflexivity|]. by destruct w as [? ? ? []]. Qed.
Next Obligation.
  intros V p n o w Hm _ _. simpl in *. unfold at_mapping. rewrite Hm. replace (p + n - p) with n by lia. do 2 eexists. split; [reflexivity|].
  simpl. rewrite Hm. split; [done|]. split; [apply lookup_insert_eq|]. intros m Hne. apply lookup_insert_ne. unfold TEST_OBJECT in Hne. lia.
Qed.

Definition blank_file : World unit FileView := empty_world (mkView (mkHeader 0 0 0) 0 None ∅).

Lemma boundary_test_passes_witness : exists w', mmap_allocator_boundaries blank_file = Done tt w'.
Proof. exact (boundary_test_passes (H := FileLaws_kept) blank_file). Defined.

Lemma basic_test_passes_witness : exists w', mmap_allocator_basic blank_file = Done tt w' /\
  v_objects (ext w') !! second_run 99 = Some (mkTestObject 9801 9801 9801 9801 9801 9801 73).
Proof.
  destruct (basic_test_passes (H := FileLaws_kept) blank_file) as (w' & objs & E & H & Hobj).
  exists w'. split; [exact E|]. simpl in H. rewrite H. exact (proj2 (Hobj 99 ltac:(lia))).
Defined.
