(* ===== verification/MemberFn.v ===== *)
(** * Bound methods: src/src/memberfn.rs

    A closure over a shared reference to an object and the object it is to be
    called with.  The file is not part of the crate's module list. *)

From S2P Require Import Prelude Effects.

Record MemberFn0 (V X T R : Type) := mkMemberFn0 { fun0 : T -> M V X R; obj0 : T }.
Record MemberFn1 (V X T R A0 : Type) := mkMemberFn1 { fun1 : T -> A0 -> M V X R; obj1 : T }.
Record MemberFn2 (V X T R A0 A1 : Type) := mkMemberFn2 { fun2 : T -> A0 -> A1 -> M V X R; obj2 : T }.
Arguments mkMemberFn0 {V X T R} _ _.
Arguments fun0 {V X T R} _ _.
Arguments obj0 {V X T R} _.
Arguments mkMemberFn1 {V X T R A0} _ _.
Arguments fun1 {V X T R A0} _ _ _.
Arguments obj1 {V X T R A0} _.
Arguments mkMemberFn2 {V X T R A0 A1} _ _.
Arguments fun2 {V X T R A0 A1} _ _ _ _.
Arguments obj2 {V X T R A0 A1} _.

Section Def.
Context {V X T R A0 A1 : Type}.

Definition new0 (o : T) (f : T -> M V X R) : MemberFn0 V X T R := mkMemberFn0 f o.
Definition call0 (self : MemberFn0 V X T R) : M V X R := fun0 self (obj0 self).

Definition new1 (o : T) (f : T -> A0 -> M V X R) : MemberFn1 V X T R A0 := mkMemberFn1 f o.
Definition call1 (self : MemberFn1 V X T R A0) (arg : A0) : M V X R := fun1 self (obj1 self) arg.

Definition new2 (o : T) (f : T -> A0 -> A1 -> M V X R) : MemberFn2 V X T R A0 A1 := mkMemberFn2 f o.
Definition call2 (self : MemberFn2 V X T R A0 A1) (arg0 : A0) (arg1 : A1) : M V X R :=
  fun2 self (obj2 self) arg0 arg1.
End Def.

(** The file's own example. *)
Record Foo := mkFoo { foo_x : Z }.
Definition winning (self : Foo) (a : Z) : Z := usize (a + foo_x self).

Definition main {V X : Type} : M V X unit :=
  let bar := mkFoo 10 in
  let binding := new1 bar (fun f a => ret (winning f a)) in
  let! r := call1 binding 10%Z in
  println ("result: " ++ pretty r).

Example main_prints {V X : Type} (w : World V X) : main w = println "result: 20" w.
Proof. reflexivity. Qed.

Example binding_call {V X : Type} (w : World V X) :
  call1 (new1 (mkFoo 10) (fun f a => ret (winning f a))) 10%Z w = Done 20%Z w.
Proof. reflexivity. Qed.
