(* ===== verification/Protocol.v ===== *)
(** * Framing protocols: src/src/protocol.rs and the macro [protocol_size!]

    [BufProtocol<S>] cuts a buffer into blocks of the size [S] names.  The
    reference-counted buffers are the iobuf crate's: an interface with the
    laws its documentation gives. *)

From S2P Require Import Prelude Effects.
From Stdlib Require Export Strings.Byte.

(** [AROIobuf]: a window of bytes.  Lengths are [u32]. *)
Class Iobuf (A : Type) := {
  iob_len : A -> Z;
  as_window_slice : A -> list byte;
  split_at : A -> Z -> result (A * A) unit;
  iob_advance : A -> Z -> result A unit
}.

Class IobufLaws (A : Type) `{!Iobuf A} : Prop := {
  iob_len_window : forall b, iob_len b = Z.of_nat (length (as_window_slice b));
  split_at_ok : forall b n, (0 <= n <= iob_len b)%Z -> exists b1 b2,
    split_at b n = Ok (b1, b2) /\
    as_window_slice b1 = take (Z.to_nat n) (as_window_slice b) /\
    as_window_slice b2 = drop (Z.to_nat n) (as_window_slice b);
  split_at_err : forall b n, (iob_len b < n)%Z -> split_at b n = Err tt;
  iob_advance_ok : forall b n, (0 <= n <= iob_len b)%Z -> exists b',
    iob_advance b n = Ok b' /\ as_window_slice b' = drop (Z.to_nat n) (as_window_slice b)
}.

(** [trait Protocol]: [append] looks at the unread bytes and may take a
    message off their front, with the rest and the number of bytes taken. *)
Class Protocol (V X T A Out : Type) := {
  proto_new : T;
  append : T -> A -> M V X (T * option (Out * A * Z))
}.

(** [trait HasSize], and [protocol_size!(name = value)]. *)
Class HasSize (S : Type) := size : Z.
Arguments size S {_}.

Definition protocol_size (name : Type) (value : Z) : HasSize name := value.

Module BufProtocol.
Record t (S : Type) := mk {}.
Arguments mk {S}.

Section Def.
Context {V X A S : Type} `{!Iobuf A} `{!HasSize S}.

Definition new : t S := mk.

Definition append (self : t S) (buf : A) : M V X (t S * option (A * A * Z)) :=
  let bufsz := size S in
  if (bufsz <=? iob_len buf)%Z then
    let! '(a, b) := unwrap (split_at buf bufsz) in
    ret (self, Some (a, b, bufsz))
  else ret (self, None).

#[global] Instance Protocol_BufProtocol : Protocol V X (t S) A A := {
  proto_new := new;
  append := append
}.
End Def.
End BufProtocol.

(** A block is taken exactly when there are enough bytes, it is the front of
    the buffer, the rest is what follows, and [split_at] never fails. *)
Theorem buf_append_spec {V X A S : Type} `{!Iobuf A} `{!IobufLaws A} `{!HasSize S} (p : BufProtocol.t S) (buf : A) (w : World V X) :
  (0 <= size S)%Z ->
  if (size S <=? iob_len buf)%Z then
    exists a b, append (Out := A) p buf w = Done (p, Some (a, b, size S)) w /\
      as_window_slice a ++ as_window_slice b = as_window_slice buf /\
      iob_len a = size S
  else append (Out := A) p buf w = Done (p, None) w.
Proof.
  cbn [append BufProtocol.Protocol_BufProtocol]. unfold BufProtocol.append, bind, unwrap, ret.
  generalize (size S). intros n Hs.
  destruct (Z.leb_spec n (iob_len buf)) as [Hle|Hlt]; [|done].
  destruct (split_at_ok buf n) as (a & b & -> & Ha & Hb); [lia|].
  exists a, b. split; [done|]. rewrite Ha, Hb, take_drop. split; [done|].
  rewrite iob_len_window in Hle. rewrite iob_len_window, Ha.
  rewrite length_take_le by lia. lia.
Qed.

(** Plain byte lists are such buffers. *)
#[export] Instance Iobuf_list : Iobuf (list byte) := {
  iob_len b := Z.of_nat (length b);
  as_window_slice b := b;
  split_at b n :=
    if (0 <=? n)%Z && (n <=? Z.of_nat (length b))%Z
    then Ok (take (Z.to_nat n) b, drop (Z.to_nat n) b) else Err tt;
  iob_advance b n :=
    if (0 <=? n)%Z && (n <=? Z.of_nat (length b))%Z
    then Ok (drop (Z.to_nat n) b) else Err tt
}.

#[export] Instance IobufLaws_list : IobufLaws (list byte).
Proof.
  split; simpl; intros.
  - done.
  - destruct (Z.leb_spec 0 n), (Z.leb_spec n (Z.of_nat (length b))); try lia. simpl. by do 2 eexists.
  - destruct (Z.leb_spec n (Z.of_nat (length b))); [lia|]. by rewrite andb_false_r.
  - destruct (Z.leb_spec 0 n), (Z.leb_spec n (Z.of_nat (length b))); try lia. simpl. by eexists.
Qed.

(** ** Concrete instances *)

Inductive Four := FourBytes.
#[export] Instance HasSize_Four : HasSize Four := protocol_size Four 4.

Lemma buf_append_spec_witness :
  exists a b, append (V := unit) (X := unit) (Out := list byte) (BufProtocol.mk (S := Four)) [x01; x02; x03; x04; x05] (empty_world tt) =
    Done (BufProtocol.mk, Some (a, b, 4%Z)) (empty_world tt) /\ a ++ b = [x01; x02; x03; x04; x05].
Proof.
  destruct (buf_append_spec (BufProtocol.mk (S := Four)) [x01; x02; x03; x04; x05] (empty_world (V := unit) (X := unit) tt)) as (a & b & E & Hw & _).
  - unfold size, HasSize_Four, protocol_size. lia.
  - exists a, b. split; [exact E | exact Hw].
Defined.
