(* ===== verification/Chains.v ===== *)
(** * The crate's example: [main] of src/src/lib.rs

    The example's three threads.  The last one builds the chain source, [Map],
    [Map], [StdoutSubscriber] from the end to the source; the first two build
    the same chain cut by a queue, with a [Decoupler] and a [Coupler].  What
    they do as they are written, and what they print when they are run. *)

From S2P Require Import Prelude Effects Sendable Reactive Subscribers Processors Publishers Pipeline Threads.

Section Example.
Context {V X : Type}.

(** [isize] arithmetic wraps around. *)
Definition isize (z : Z) : Z := as_i64 z.
Definition times10 (i : Z) : M V X Z := ret (isize (i * 10)).
Definition plus2 (i : Z) : M V X Z := ret (isize (i + 2)).

Definition map2_t : Type := Map.t V X Z Z (StdoutSubscriber.t Z).
Definition map1_t : Type := Map.t V X Z Z map2_t.

(** The body of the last thread of [main], for any range: it builds the
    chain and returns. *)
Definition main_local (a b : Z) : M V X (IterPublisher.t Range map1_t) :=
  let sub := StdoutSubscriber.new in
  let map1 := Map.new times10 in
  let map2 := Map.new plus2 in
  let iter := IterPublisher.new (mkRange a b) in
  let! map2 := subscribe map2 sub in
  let! map1 := subscribe map1 map2 in
  subscribe iter map1.

Definition built (a b : Z) : IterPublisher.t Range map1_t :=
  IterPublisher.mk (mkRange a b)
    (Some (Map.mk times10 (Some (Map.mk plus2 (Some (StdoutSubscriber.mk None)) (Some 0%Z))) (Some 0%Z))).

Lemma run_loop_built (n : nat) a fuel (w : World V X) :
  n < fuel ->
  exists w', run_loop fuel (built a (a + Z.of_nat n)) w = Done (built (a + Z.of_nat n) (a + Z.of_nat n)) w' /\
    stdout w' = stdout w ++ map (fun i => display (isize (isize (i * 10) + 2))) (seqZ a (Z.of_nat n)) /\
    chans w' = chans w /\ ext w' = ext w.
Proof.
  revert a fuel w. induction n as [|n IH]; intros a fuel w Hf; (destruct fuel as [|fuel]; [lia|]); cbn [run_loop].
  - rewrite Z.add_0_r. cbn [seqZ]. unfold bind at 1. simpl next. unfold IterPublisher.next, built. simpl.
    unfold bind at 1, iter_next, Iterator_Range. simpl. rewrite Z.ltb_irrefl.
    eexists. split; [reflexivity|]. simpl. by rewrite app_nil_r.
  - unfold bind at 1. simpl next. unfold IterPublisher.next, built. simpl.
    unfold bind at 1, iter_next, Iterator_Range. simpl.
    destruct (Z.ltb_spec a (a + Z.of_nat (S n))) as [_|]; [|lia].
    set (w1 := mkWorld (stdout w ++ [display (isize (isize (a * 10) + 2))]) (log w) (chans w) (ext w)).
    destruct (IH (a + 1)%Z fuel w1 ltac:(lia)) as (w' & E & Hout & Hch & Hx).
    replace (a + 1 + Z.of_nat n)%Z with (a + Z.of_nat (S n))%Z in E by lia.
    exists w'. split; [exact E|]. rewrite Hout. unfold w1. simpl. rewrite <- app_assoc. simpl.
    rewrite (seqZ_cons a (Z.of_nat (S n))) by lia. simpl. split; [|done].
    do 3 f_equal. by rewrite Nat2Z.inj_succ, Z.pred_succ, Z.add_1_r.
Qed.

(** The chain, built and then run to its end, prints [10 * i + 2] for each
    [i] of the range, in order; without a call of [run], as in the example's
    source, nothing is printed. *)
Theorem main_local_prints (n : nat) a (w : World V X) :
  exists p w1, main_local a (a + Z.of_nat n) w = Done p w1 /\ stdout w1 = stdout w /\
    exists p' w2, run (n + 1) p w1 = Done p' w2 /\
      stdout w2 = stdout w ++ map (fun i => display (isize (isize (i * 10) + 2))) (seqZ a (Z.of_nat n)).
Proof.
  exists (built a (a + Z.of_nat n)). eexists. split; [reflexivity|]. split; [done|].
  unfold run. unfold debug at 1. unfold log_at, bind at 1.
  destruct (run_loop_built n a (n + 1) (mkWorld (stdout w) ((log w ++ [mkLog LDebug "on_subscribe called" []]) ++ [mkLog LDebug "Starting loop" []]) (chans w) (ext w)) ltac:(lia))
    as (w' & E & Hout & _).
  do 2 eexists. split; [unfold bind at 1; simpl; rewrite E; reflexivity|]. exact Hout.
Qed.
End Example.

(** ** The decoupled pair of threads *)

Section Decoupled.
Context {X : Type}.

Definition gen2_t : Type := Map.t Z X Z Z (Decoupler.t Sender Z).
Definition gen1_t : Type := Map.t Z X Z Z gen2_t.

(** The bodies of the closures [out] and [gen], up to the end of their
    scopes, for any range. *)
Definition out_body (drx : Receiver) : M Z X (Coupler.t (StdoutSubscriber.t Z)) :=
  let sub := StdoutSubscriber.new in
  let rec := Coupler.new drx in
  subscribe rec sub.

Definition gen_body (a b : Z) (dtx : Sender) : M Z X (IterPublisher.t Range gen1_t) :=
  let it := mkRange a b in
  let! tx := clone_q (Item := Z) dtx in
  let q := Decoupler.new tx in
  let map1 := Map.new times10 in
  let map2 := Map.new plus2 in
  let iter := IterPublisher.new it in
  let! map2 := subscribe map2 q in
  let! map1 := subscribe map1 map2 in
  subscribe iter map1.

(** The closures as they are: at the end of its scope, [rec] is dropped with
    the receiver; [iter] is dropped with the cloned sender, then the closure
    with the sender it captured. *)
Definition main_out (drx : Receiver) : M Z X unit :=
  let! rec := out_body drx in drop_coupler rec.
Definition main_gen (a b : Z) (dtx : Sender) : M Z X unit :=
  let! iter := gen_body a b dtx in drop_source (S := gen1_t) (I := Z) [dtx] iter.

(** The two threads as the example runs them, in either order: neither calls
    [run], so that nothing is sent and nothing printed, and both ends of the
    queue are gone. *)
Theorem main_threads_silent (a b : Z) (w : World Z X) :
  let c := fresh (dom (chans w)) in
  let silent m := exists w', m w = Done tt w' /\ stdout w' = stdout w /\ chans w' !! c = Some (mkChan [] 0 false None) in
  silent (let! '(dtx, drx) := channel in let! _ := main_out drx in main_gen a b dtx) /\
  silent (let! '(dtx, drx) := channel in let! _ := main_gen a b dtx in main_out drx).
Proof.
  split; (eexists; split; [reflexivity|]; split; [done|]); simpl;
    by rewrite ?lookup_alter, ?decide_True, ?lookup_insert_eq by done.
Qed.

(** The chain of [gen] ends in the queue. *)
Lemma gen_sink c :
  Sink (V := Z) (X := X) c (id ∘ (fun i => isize (i + 2)) ∘ (fun i => isize (i * 10)))
    (Map.mk times10 (Some (Map.mk plus2 (Some (Decoupler.mk None (mkSender c))) (Some 0%Z))) (Some 0%Z)).
Proof. by apply map_sink, map_sink, decoupler_sink. Qed.

End Decoupled.
