(* ===== verification/Example.v ===== *)
(** * The whole [main] of the crate's example: src/src/lib.rs

    The main thread makes the queue, starts the threads of Chains.v, pauses
    twice and returns, which ends the process whatever the others are doing.
    Here this is a transition system in which the four threads take turns in
    any order and the clock goes on at any time. *)

From S2P Require Import Prelude Effects Sendable Reactive Subscribers Processors Publishers Pipeline Threads Chains.

Section Main.
Context {X : Type}.
Implicit Types w : World Z X.

(** ** A spawned closure *)

(** Not spawned yet; spawned with what it captured; its statements done, its
    locals alive; at its end; or unwound. *)
Inductive Spawned (B P : Type) := Unborn | Ready (env : B) | Built (env : B) (p : P) | Gone | Unwound.
Arguments Unborn {B P}.
Arguments Ready {B P} env.
Arguments Built {B P} env p.
Arguments Gone {B P}.
Arguments Unwound {B P}.

Inductive spawned_step {B P : Type} (body : B -> M Z X P) (leave : B -> P -> M Z X unit) :
    Spawned B P -> World Z X -> Spawned B P -> World Z X -> Prop :=
| spawned_body env p w w' : body env w = Done p w' -> spawned_step body leave (Ready env) w (Built env p) w'
| spawned_leave env p w w' : leave env p w = Done tt w' -> spawned_step body leave (Built env p) w Gone w'
| spawned_body_panics env msg w w' : body env w = Panicked msg w' -> spawned_step body leave (Ready env) w Unwound w'
| spawned_leave_panics env p msg w w' : leave env p w = Panicked msg w' -> spawned_step body leave (Built env p) w Unwound w'.

Definition can_go_on {B P : Type} (next : Spawned B P -> World Z X -> Spawned B P -> World Z X -> Prop) (s : Spawned B P) w : Prop :=
  match s with Unborn | Gone => True | _ => exists s' w', next s w s' w' end.

Abbreviation Out := (Spawned Receiver (Coupler.t (StdoutSubscriber.t Z))).
Abbreviation Gen := (Spawned Sender (IterPublisher.t Range (gen1_t (X := X)))).
Abbreviation Local := (Spawned unit (IterPublisher.t Range (map1_t (V := Z) (X := X)))).

Abbreviation out_step := (spawned_step (fun drx => out_body drx) (fun _ rec => drop_coupler rec)).
Abbreviation gen_step := (spawned_step (gen_body 0 20) (fun dtx iter => drop_source (S := gen1_t) (I := Z) [dtx] iter)).
Abbreviation local_step := (spawned_step (fun _ : unit => main_local 0 20) (fun _ iter => drop_source (S := map1_t) (I := Z) [] iter)).

(** ** The main thread *)

(** Where it is.  [Timer::new] of the standard library asks the system for a
    timer, which may fail. *)
Inductive Pc :=
| AtChannel
| AtSpawnOut (dtx : Sender) (drx : Receiver)
| AtSpawnGen (dtx : Sender)
| AtTimer
| AtSleep | Sleeping (until : Z)
| AtSpawnLocal
| AtSleep2 | Sleeping2 (until : Z)
| Exited
| Aborted.

Record Process := mkProcess { pc : Pc; out : Out; gen : Gen; local : Local; clock : Z; world : World Z X }.

(** One statement of [main]; [t] is the system's answer to [Timer::new], the
    clock counts milliseconds. *)
Inductive main_step (t : result unit unit) : Process -> Process -> Prop :=
| main_channel o g l z w dtx drx w' :
    channel w = Done (dtx, drx) w' ->
    main_step t (mkProcess AtChannel o g l z w) (mkProcess (AtSpawnOut dtx drx) o g l z w')
| main_spawn_out dtx drx g l z w :
    main_step t (mkProcess (AtSpawnOut dtx drx) Unborn g l z w) (mkProcess (AtSpawnGen dtx) (Ready drx) g l z w)
| main_spawn_gen dtx o l z w :
    main_step t (mkProcess (AtSpawnGen dtx) o Unborn l z w) (mkProcess AtTimer o (Ready dtx) l z w)
| main_timer o g l z w w' :
    unwrap t w = Done tt w' -> main_step t (mkProcess AtTimer o g l z w) (mkProcess AtSleep o g l z w')
| main_no_timer o g l z w msg w' :
    unwrap t w = Panicked msg w' -> main_step t (mkProcess AtTimer o g l z w) (mkProcess Aborted o g l z w')
| main_sleep o g l z w :
    main_step t (mkProcess AtSleep o g l z w) (mkProcess (Sleeping (z + 1000)) o g l z w)
| main_wake o g l until z w :
    (until <= z)%Z -> main_step t (mkProcess (Sleeping until) o g l z w) (mkProcess AtSpawnLocal o g l z w)
| main_spawn_local o g z w :
    main_step t (mkProcess AtSpawnLocal o g Unborn z w) (mkProcess AtSleep2 o g (Ready tt) z w)
| main_sleep2 o g l z w :
    main_step t (mkProcess AtSleep2 o g l z w) (mkProcess (Sleeping2 (z + 1000)) o g l z w)
| main_wake2 o g l until z w :
    (until <= z)%Z -> main_step t (mkProcess (Sleeping2 until) o g l z w) (mkProcess Exited o g l z w).

(** The process: until its main thread is at its end, any thread may be next. *)
Definition alive (p : Pc) : bool := match p with Exited | Aborted => false | _ => true end.

Inductive process_step (t : result unit unit) : Process -> Process -> Prop :=
| step_main s s' : main_step t s s' -> process_step t s s'
| step_out p o g l z w o' w' :
    alive p = true -> out_step o w o' w' -> process_step t (mkProcess p o g l z w) (mkProcess p o' g l z w')
| step_gen p o g l z w g' w' :
    alive p = true -> gen_step g w g' w' -> process_step t (mkProcess p o g l z w) (mkProcess p o g' l z w')
| step_local p o g l z w l' w' :
    alive p = true -> local_step l w l' w' -> process_step t (mkProcess p o g l z w) (mkProcess p o g l' z w')
| step_tick p o g l z z' w :
    alive p = true -> (z <= z')%Z -> process_step t (mkProcess p o g l z w) (mkProcess p o g l z' w).

Definition example_start (z : Z) w : Process := mkProcess AtChannel Unborn Unborn Unborn z w.

(** ** What holds throughout *)

Section Invariant.
Context (t : result unit unit) (z0 : Z) (w0 : World Z X).
Abbreviation c := (fresh (dom (chans w0))).

(** How far the main thread is, which says which threads have been started. *)
Definition progress (p : Pc) : nat :=
  match p with
  | AtChannel => 0 | AtSpawnOut _ _ => 1 | AtSpawnGen _ => 2 | AtTimer => 3 | AtSleep => 4 | Sleeping _ => 5
  | AtSpawnLocal => 6 | AtSleep2 => 7 | Sleeping2 _ => 8 | Exited => 9 | Aborted => 3
  end.

(** What main holds, and how far the clock is. *)
Definition main_holds (p : Pc) (z : Z) : Prop :=
  match p with
  | AtChannel => True
  | AtSpawnOut dtx drx => dtx = mkSender c /\ drx = mkReceiver c
  | AtSpawnGen dtx => dtx = mkSender c
  | AtSleep => t = Ok tt
  | Sleeping until => t = Ok tt /\ (z0 + 1000 <= until)%Z
  | AtSpawnLocal | AtSleep2 => t = Ok tt /\ (z0 + 1000 <= z)%Z
  | Sleeping2 until => t = Ok tt /\ (z0 + 2000 <= until)%Z
  | Exited => t = Ok tt /\ (z0 + 2000 <= z)%Z
  | Aborted => t = Err tt
  | _ => True
  end.

Definition born {B P} (s : Spawned B P) : bool := match s with Unborn => false | _ => true end.

(** Every sender of the queue is held by main, by the closure [gen] or by its
    chain, the receiver by main or by the closure [out]. *)
Definition senders (g : Gen) : nat := match g with Gone => 0 | Built _ _ => 2 | _ => 1 end.
Definition listening (o : Out) : bool := match o with Gone => false | _ => true end.

Definition held {B P} (env : B) (p : P) (s : Spawned B P) : Prop :=
  match s with Ready e => e = env | Built e q => e = env /\ q = p | Unwound => False | _ => True end.

Definition out_built : Coupler.t (StdoutSubscriber.t Z) := Coupler.mk (mkReceiver c) (Some (StdoutSubscriber.mk None)).
Definition gen_built : IterPublisher.t Range (gen1_t (X := X)) :=
  IterPublisher.mk (mkRange 0 20)
    (Some (Map.mk times10 (Some (Map.mk plus2 (Some (Decoupler.mk None (mkSender c))) (Some 0%Z))) (Some 0%Z))).

Record example_inv (s : Process) : Prop := {
  ei_clock : (z0 <= clock s)%Z;
  ei_main : main_holds (pc s) (clock s);
  ei_born : born (out s) = (2 <=? progress (pc s)) /\ born (gen s) = (3 <=? progress (pc s)) /\ born (local s) = (7 <=? progress (pc s));
  ei_out : held (mkReceiver c) out_built (out s);
  ei_gen : held (mkSender c) gen_built (gen s);
  ei_local : held tt (built 0 20) (local s);
  ei_queue : 1 <= progress (pc s) -> chans (world s) !! c = Some (mkChan [] (senders (gen s)) (listening (out s)) None);
  ei_others : forall i, i <> c -> chans (world s) !! i = chans w0 !! i;
  ei_first : progress (pc s) = 0 -> chans (world s) = chans w0;
  ei_silent : stdout (world s) = stdout w0 /\ ext (world s) = ext w0
}.

(** ** What each statement does *)

Lemma spawned_goes_on {B P} (body : B -> M Z X P) leave env p s w :
  held env p s -> (forall w, exists w', body env w = Done p w') -> (forall w, exists w', leave env p w = Done tt w') ->
  can_go_on (spawned_step body leave) s w.
Proof.
  intros Hs Hb Hl. destruct (Hb w) as (w1 & E1), (Hl w) as (w2 & E2). destruct s; simpl in *; destruct_and?; subst; try done.
  - exists (Built env p), w1. by apply spawned_body.
  - exists Gone, w2. by eapply spawned_leave.
Qed.

Lemma gen_runs w : exists w', gen_body 0 20 (mkSender c) w = Done gen_built w'.
Proof. eexists. unfold gen_body, bind. simpl. reflexivity. Qed.

Lemma out_step_inv o w o' w' (l : nat) :
  held (mkReceiver c) out_built o -> out_step o w o' w' ->
  born o = true /\ born o' = true /\ held (mkReceiver c) out_built o' /\ stdout w' = stdout w /\ ext w' = ext w /\
  (forall i, i <> c -> chans w' !! i = chans w !! i) /\
  (chans w !! c = Some (mkChan [] l (listening o) None) -> chans w' !! c = Some (mkChan [] l (listening o') None)).
Proof.
  intros Ho Hst. destruct Hst; simpl in Ho; destruct_and?; subst; try done.
  - match goal with E : out_body _ _ = _ |- _ => injection E as <- <- end. by repeat split.
  - match goal with E : drop_coupler _ _ = _ |- _ => injection E as <- end. simpl. repeat split; try done.
    + intros i Hi. by rewrite lookup_alter_ne.
    + intros E. by rewrite lookup_alter, decide_True, E by done.
Qed.

Lemma gen_step_inv g w g' w' (b : bool) :
  held (mkSender c) gen_built g -> gen_step g w g' w' ->
  born g = true /\ born g' = true /\ held (mkSender c) gen_built g' /\ stdout w' = stdout w /\ ext w' = ext w /\
  (forall i, i <> c -> chans w' !! i = chans w !! i) /\
  (chans w !! c = Some (mkChan [] (senders g) b None) -> chans w' !! c = Some (mkChan [] (senders g') b None)).
Proof.
  intros Hg Hst. destruct Hst; simpl in Hg; destruct_and?; subst; try done.
  - match goal with E : gen_body _ _ _ _ = _ |- _ => injection E as <- <- end. simpl. repeat split; try done.
    + intros i Hi. by rewrite lookup_alter_ne.
    + intros E. by rewrite lookup_alter, decide_True, E by done.
  - match goal with E : drop_source _ _ _ = _ |- _ => injection E as <- end. simpl. repeat split; try done.
    + intros i Hi. by rewrite !lookup_alter_ne.
    + intros E. by rewrite !lookup_alter, !decide_True, E by done.
Qed.

Lemma local_step_inv l w l' w' :
  held tt (built 0 20) l -> local_step l w l' w' ->
  born l = true /\ born l' = true /\ held tt (built 0 20) l' /\ stdout w' = stdout w /\ ext w' = ext w /\ chans w' = chans w.
Proof.
  intros Hl Hst. destruct Hst; simpl in Hl; destruct_and?; subst; try done.
  - match goal with E : main_local _ _ _ = _ |- _ => injection E as <- <- end. by repeat split.
  - match goal with E : drop_source _ _ _ = _ |- _ => injection E as <- end. by repeat split.
Qed.

Lemma main_channel_inv o g l z w dtx drx w' :
  example_inv (mkProcess AtChannel o g l z w) -> channel w = Done (dtx, drx) w' ->
  example_inv (mkProcess (AtSpawnOut dtx drx) o g l z w').
Proof.
  intros [Hz Hm (Bo & Bg & Bl) Ho Hg Hl Hq Hx Hf [Hs He]]. simpl in *. specialize (Hf eq_refl).
  unfold channel, new_chan, bind. rewrite Hf. intros [= <- <- <-]. destruct o, g; try done. split; simpl; try done.
  - intros _. by rewrite lookup_insert_eq.
  - intros i Hi. by rewrite lookup_insert_ne.
Qed.

Lemma example_main_step s s' : example_inv s -> main_step t s s' -> example_inv s'.
Proof.
  intros Hs Hst. destruct Hst; [by eapply main_channel_inv|..]; destruct Hs as [Hz Hm (Bo & Bg & Bl) Ho Hg Hl Hq Hx Hf [Hs He]];
    simpl in *; destruct_and?; subst; try (destruct t as [[]|[]] eqn:Et; unfold unwrap, ret, panic in *; simplify_eq);
    (split; simpl; [lia|try done; split; try done; lia|done|done|done|done|intros; apply Hq; lia|done|done|done]).
Qed.

Lemma example_process_step s s' : example_inv s -> process_step t s s' -> example_inv s'.
Proof.
  intros Hs Hst. destruct Hst; [by eapply example_main_step|..]; destruct Hs as [Hz Hm (Bo & Bg & Bl) Ho Hg Hl Hq Hx Hf [Hs He]]; simpl in *.
  - destruct (out_step_inv _ _ _ _ (senders g) Ho ltac:(eassumption)) as (B1 & B2 & H1 & H2 & H3 & H4 & H5).
    rewrite B1 in Bo. split; simpl; rewrite ?B2, ?H2, ?H3; auto.
    + intros i Hi. by rewrite H4, Hx.
    + intros E. by rewrite E in Bo.
  - destruct (gen_step_inv _ _ _ _ (listening o) Hg ltac:(eassumption)) as (B1 & B2 & H1 & H2 & H3 & H4 & H5).
    rewrite B1 in Bg. split; simpl; rewrite ?B2, ?H2, ?H3; auto.
    + intros i Hi. by rewrite H4, Hx.
    + intros E. by rewrite E in Bg.
  - destruct (local_step_inv _ _ _ _ Hl ltac:(eassumption)) as (B1 & B2 & H1 & H2 & H3 & H4).
    rewrite B1 in Bl. split; simpl; rewrite ?B2, ?H2, ?H3, ?H4; auto.
  - split; simpl; auto; [lia|]. destruct p; simpl in *; destruct_and?; split_and?; try done; lia.
Qed.

Lemma example_start_inv : example_inv (example_start z0 w0).
Proof. split; simpl; try done. lia. Qed.

Lemma example_inv_rtc s : rtc (process_step t) (example_start z0 w0) s -> example_inv s.
Proof. apply (rtc_ind_r (fun s => example_inv s)); [apply example_start_inv|]. intros ?? _ ??; by eapply example_process_step. Qed.

(** Once the clock is far enough, the main thread's next statement. *)
Lemma main_goes_on s :
  example_inv s -> alive (pc s) = true ->
  exists s', rtc (process_step t) s s' /\ (alive (pc s') = false \/ progress (pc s) < progress (pc s')).
Proof.
  destruct s as [p o g l z w]. intros [Hz Hm (Bo & Bg & Bl) Ho Hg Hl Hq Hx Hf [Hs He]] Ha; simpl in *.
  assert (Hone : forall s', main_step t (mkProcess p o g l z w) s' -> alive (pc s') = false \/ progress p < progress (pc s') ->
    exists s', rtc (process_step t) (mkProcess p o g l z w) s' /\ (alive (pc s') = false \/ progress p < progress (pc s'))).
  { intros s' Hst Hp. exists s'. split; [by apply rtc_once, step_main|done]. }
  assert (Hwait : forall z', exists z'', (z' <= z'')%Z /\ process_step t (mkProcess p o g l z w) (mkProcess p o g l z'' w)).
  { intros z'. exists (Z.max z z'). split; [lia|]. apply step_tick; [done|lia]. }
  destruct p; simpl in *; try done.
  - eapply Hone; [eapply main_channel; reflexivity|simpl; lia].
  - destruct o; try done. eapply Hone; [eapply main_spawn_out|simpl; lia].
  - destruct g; try done. eapply Hone; [eapply main_spawn_gen|simpl; lia].
  - destruct t as [[]|[]] eqn:Et; eapply Hone; [eapply main_timer; reflexivity|simpl; lia|eapply main_no_timer; reflexivity|by left].
  - eapply Hone; [eapply main_sleep|simpl; lia].
  - destruct (Hwait until) as (z' & Hle & Hst). eexists. split; [|right].
    + eapply rtc_l; [exact Hst|]. by apply rtc_once, step_main, main_wake.
    + simpl. lia.
  - destruct l; try done. eapply Hone; [eapply main_spawn_local|simpl; lia].
  - eapply Hone; [eapply main_sleep2|simpl; lia].
  - destruct (Hwait until) as (z' & Hle & Hst). eexists. split; [|left].
    + eapply rtc_l; [exact Hst|]. by apply rtc_once, step_main, main_wake2.
    + done.
Qed.

(** So the process can always come to its end. *)
Lemma main_can_end s :
  example_inv s -> exists s', rtc (process_step t) s s' /\ alive (pc s') = false.
Proof.
  remember (9 - progress (pc s)) as n eqn:En. revert s En.
  induction (lt_wf n) as [n _ IH]. intros s -> Hs. destruct (alive (pc s)) eqn:Ha; [|by exists s].
  destruct (main_goes_on s Hs Ha) as (s1 & H1 & [He|Hp]); [by exists s1|].
  assert (progress (pc s1) <= 9) by (destruct (pc s1); simpl; lia).
  destruct (IH (9 - progress (pc s1)) ltac:(lia) s1 eq_refl) as (s2 & H2 & He).
  { eapply (rtc_ind_r (fun s => example_inv s)); [exact Hs| |exact H1]. intros ?? _ ??; by eapply example_process_step. }
  exists s2. split; [by etrans|done].
Qed.
End Invariant.

(** C34: Whatever the scheduler and the clock do, and whether or not the system
    has a timer to give: the process prints nothing and no thread of it
    panics but the main thread, and that only for want of a timer; a thread
    that was spawned can go on until it is done; the queue
    never holds a message, and both its ends are gone once the two threads
    that share it are; the process can always come to its end, and when the
    main thread returns two seconds have passed. *)
Theorem example_every_schedule (t : result unit unit) (z : Z) w (s : Process) :
  rtc (process_step t) (example_start z w) s ->
  let c := fresh (dom (chans w)) in
  stdout (world s) = stdout w /\
  (out s <> Unwound /\ gen s <> Unwound /\ local s <> Unwound /\ (pc s = Aborted -> t = Err tt)) /\
  (forall ch, chans (world s) !! c = Some ch -> ch_queue ch = []) /\
  (out s = Gone -> gen s = Gone -> chans (world s) !! c = Some (mkChan [] 0 false None)) /\
  can_go_on out_step (out s) (world s) /\ can_go_on gen_step (gen s) (world s) /\ can_go_on local_step (local s) (world s) /\
  (exists s', rtc (process_step t) s s' /\ alive (pc s') = false) /\
  (pc s = Exited -> (z + 2000 <= clock s)%Z).
Proof.
  intros Hr c. apply example_inv_rtc in Hr. pose proof (main_can_end t z w s Hr) as Hend.
  destruct Hr as [Hz Hm (Bo & Bg & Bl) Ho Hg Hl Hq Hx Hf [Hs He]]. split; [done|]. splits.
  - intros E. by rewrite E in Ho.
  - intros E. by rewrite E in Hg.
  - intros E. by rewrite E in Hl.
  - intros E. by rewrite E in Hm.
  - intros ch Hch. destruct (decide (progress (pc s) = 0)) as [E|].
    + unfold c in Hch. rewrite (Hf E) in Hch. by apply elem_of_dom_2, is_fresh in Hch.
    + fold c in Hq. rewrite Hq in Hch by lia. by simplify_eq.
  - intros Eo Eg. fold c in Hq. rewrite Hq, Eo, Eg; [done|]. rewrite Eo in Bo. destruct (pc s); simpl in *; try done; lia.
  - eapply spawned_goes_on; [exact Ho|intros ?; eexists; reflexivity..].
  - eapply spawned_goes_on; [exact Hg|apply gen_runs|intros ?; eexists; reflexivity].
  - eapply spawned_goes_on; [exact Hl|intros ?; eexists; reflexivity..].
  - intros E. rewrite E in Hm. by destruct Hm.
Qed.
End Main.
Arguments Unborn {B P}.
Arguments Ready {B P} env.
Arguments Built {B P} env p.
Arguments Gone {B P}.
Arguments Unwound {B P}.

(** ** A run to the end *)

(** The two threads at their ends before main's first pause is over, the third
    still at work when the process ends. *)
Tactic Notation "main_turn" uconstr(rule) := eapply rtc_l; [apply step_main; eapply rule; try reflexivity; try lia|].
Tactic Notation "body_turn" uconstr(who) uconstr(rule) := eapply rtc_l; [eapply who; [reflexivity|eapply rule; unfold gen_body, bind; simpl; reflexivity]|].
Tactic Notation "later" constr(z) := eapply (rtc_l _ _ (mkProcess _ _ _ _ z _)); [apply step_tick; [reflexivity|lia]|].

Lemma example_run : exists w,
  rtc (process_step (Ok tt)) (example_start (X := unit) 0 (empty_world tt))
    (mkProcess Exited Gone Gone (Built tt (built 0 20)) 2500 w).
Proof.
  eexists. unfold example_start.
  main_turn main_channel. main_turn main_spawn_out. main_turn main_spawn_gen.
  body_turn step_out spawned_body. main_turn main_timer. main_turn main_sleep. later 1000%Z.
  body_turn step_out spawned_leave. main_turn main_wake. main_turn main_spawn_local.
  main_turn main_sleep2. later 2500%Z. body_turn step_local spawned_body.
  body_turn step_gen spawned_body. body_turn step_gen spawned_leave.
  main_turn main_wake2. apply rtc_refl.
Qed.

Lemma example_every_schedule_witness :
  exists s : Process (X := unit), pc s = Exited /\ stdout (world s) = [] /\ (2000 <= clock s)%Z /\
    chans (world s) !! 0 = Some (mkChan [] 0 false None).
Proof.
  destruct example_run as (w & Hr). eexists (mkProcess _ _ _ _ _ w). split; [reflexivity|].
  destruct (example_every_schedule (X := unit) (Ok tt) 0 (empty_world tt) _ Hr) as (Ho & _ & _ & Hc & _ & _ & _ & _ & Hz).
  split; [exact Ho|]. split; [by apply Hz|]. by apply Hc.
Defined.
