(* ===== verification/Mio.v ===== *)
(** * The interfaces of the networking code's third-party types

    mio's event loop, sockets and slab, and iobuf's append buffer: the
    operations src/src/reactor.rs calls, and the documented laws the theorems
    of Outbound.v, Inbound.v and Engine.v rely on.  Nothing here is defined; MioModel.v gives a
    concrete model of every interface. *)

From S2P Require Import Prelude Effects Protocol.

(** A token names a socket of the event loop. *)
Abbreviation Token := Z.

(** [{:?}] of a token. *)
Definition debug_token (t : Token) : string := ("Token(" ++ pretty t ++ ")")%string.

(** ** [mio::util::Slab] *)

(** [slab_get] is [get] (and what [get_mut] points at), [slab_set] a write
    through the reference [get_mut] gives. *)
Class SlabOps (Slab : Type -> Type) := {
  slab_new_starting_at : forall {T}, Token -> Z -> Slab T;
  slab_insert : forall {T}, Slab T -> T -> result (Token * Slab T) T;
  slab_contains : forall {T}, Slab T -> Token -> bool;
  slab_get : forall {T}, Slab T -> Token -> option T;
  slab_set : forall {T}, Slab T -> Token -> T -> Slab T;
  slab_remove : forall {T}, Slab T -> Token -> Slab T;
  (** The range of tokens a slab gives out, for the statement of its laws. *)
  slab_start : forall {T}, Slab T -> Z;
  slab_capacity : forall {T}, Slab T -> Z
}.

Class SlabLaws (Slab : Type -> Type) `{!SlabOps Slab} : Prop := {
  slab_new_laws : forall T tok cap,
    slab_start (slab_new_starting_at (T := T) tok cap) = tok /\
    slab_capacity (slab_new_starting_at (T := T) tok cap) = cap /\
    forall t, slab_get (slab_new_starting_at (T := T) tok cap) t = None;
  slab_insert_laws : forall T (s : Slab T) x tok s', slab_insert s x = Ok (tok, s') ->
    (slab_start s <= tok < slab_start s + slab_capacity s)%Z /\
    slab_get s tok = None /\ slab_get s' tok = Some x /\
    (forall t, t <> tok -> slab_get s' t = slab_get s t) /\
    slab_start s' = slab_start s /\ slab_capacity s' = slab_capacity s;
  (** An insertion fails only when no token is free, and hands the item back. *)
  slab_insert_err : forall T (s : Slab T) x y, slab_insert s x = Err y ->
    y = x /\ forall t, (slab_start s <= t < slab_start s + slab_capacity s)%Z -> is_Some (slab_get s t);
  slab_contains_get : forall T (s : Slab T) t,
    slab_contains s t = bool_decide (is_Some (slab_get s t));
  slab_set_laws : forall T (s : Slab T) t x, is_Some (slab_get s t) ->
    slab_get (slab_set s t x) t = Some x /\
    (forall t', t' <> t -> slab_get (slab_set s t x) t' = slab_get s t') /\
    slab_start (slab_set s t x) = slab_start s /\ slab_capacity (slab_set s t x) = slab_capacity s;
  slab_remove_laws : forall T (s : Slab T) t,
    slab_get (slab_remove s t) t = None /\
    (forall t', t' <> t -> slab_get (slab_remove s t) t' = slab_get s t') /\
    slab_start (slab_remove s t) = slab_start s /\ slab_capacity (slab_remove s t) = slab_capacity s
}.

(** Dropping a slab drops the items in it, each once. *)
Class SlabItems (Slab : Type -> Type) := slab_items : forall {T}, Slab T -> list T.

Class SlabItemsLaws (Slab : Type -> Type) `{!SlabOps Slab} `{!SlabItems Slab} : Prop :=
  slab_items_law : forall T (s : Slab T), exists ts, NoDup ts /\
    (forall t, t ∈ ts <-> is_Some (slab_get s t)) /\ slab_items s = omap (slab_get s) ts.

(** ** iobuf's [AppendBuf] *)

(** A buffer that is filled from the front.  [ab_len] is the room left,
    [ab_written] (not an operation) the bytes written so far. *)
Class AppendBufOps (Alloc AB A : Type) := {
  ab_new : Z -> AB;
  ab_new_with_allocator : Z -> Alloc -> AB;
  ab_len : AB -> Z;
  ab_window : AB -> list byte;
  ab_advance : AB -> Z -> result AB unit;
  ab_write_window : AB -> list byte -> AB;   (* a write through as_mut_window_slice *)
  ab_fill : AB -> list byte -> AB;
  atomic_slice_pos_from_begin : AB -> Z -> Z -> result A unit;
  ab_written : AB -> list byte
}.

Class AppendBufLaws (Alloc AB A : Type) `{!Iobuf A} `{!AppendBufOps Alloc AB A} : Prop := {
  ab_new_laws : forall n, (0 <= n)%Z -> ab_len (ab_new n) = n /\ ab_written (ab_new n) = [];
  ab_new_with_laws : forall n al, (0 <= n)%Z ->
    ab_len (ab_new_with_allocator n al) = n /\ ab_written (ab_new_with_allocator n al) = [];
  ab_len_nonneg : forall b, (0 <= ab_len b)%Z;
  ab_fill_laws : forall b bs, (Z.of_nat (length bs) <= ab_len b)%Z ->
    ab_written (ab_fill b bs) = ab_written b ++ bs /\
    ab_len (ab_fill b bs) = (ab_len b - Z.of_nat (length bs))%Z;
  atomic_slice_laws : forall b pos n, (0 <= pos)%Z -> (0 <= n)%Z ->
    (pos + n <= Z.of_nat (length (ab_written b)))%Z ->
    exists a, atomic_slice_pos_from_begin b pos n = Ok a /\
      as_window_slice a = take (Z.to_nat n) (drop (Z.to_nat pos) (ab_written b))
}.
Arguments ab_new Alloc {AB A _} _.
Arguments ab_new_with_allocator {Alloc AB A _} _ _.
Arguments ab_len Alloc {AB} A {_} _.
Arguments ab_window Alloc {AB} A {_} _.
Arguments ab_advance Alloc {AB} A {_} _ _.
Arguments ab_write_window Alloc {AB} A {_} _ _.
Arguments ab_fill Alloc {AB} A {_} _ _.
Arguments atomic_slice_pos_from_begin Alloc {AB A _} _ _ _.
Arguments ab_written Alloc {AB} A {_} _.

(** ** mio's event loop and sockets *)

Class MioTypes := {
  TcpSocket : Type;
  TcpAcceptor : Type;
  MioError : Type;
  Timeout : Type;
  Interest : Type;
  ReadHint : Type;
  IpAddr : Type;
  mio_error_fmt : MioError -> string;
  HUP : Interest;
  READABLE : Interest;
  WRITABLE : Interest;
  interest_or : Interest -> Interest -> Interest;      (* [|], and what [insert] stores *)
  hint_contains_hup : ReadHint -> bool
}.

#[export] Instance Debug_MioError `{!MioTypes} : Debug MioError := mio_error_fmt.

Inductive NonBlock (A : Type) := Ready (a : A) | WouldBlock.
Arguments Ready {A} a.
Arguments WouldBlock {A}.

(** [struct EventLoopConfig]. *)
Record EventLoopConfig := mkEventLoopConfig {
  io_poll_timeout_ms : Z;
  notify_capacity : Z;
  messages_per_tick : Z;
  timer_tick_ms : Z;
  timer_wheel_size : Z;
  timer_capacity : Z
}.

(** mio's traits [Buf] and [MutBuf], through which a socket empties and fills
    the buffers of the code. *)
Class Buf (V X B : Type) := {
  buf_remaining : B -> Z;
  buf_bytes : B -> list byte;
  buf_advance : B -> Z -> M V X B
}.
Class MutBuf (B : Type) := mut_bytes_write : B -> list byte -> B.

(** [StreamBuf] and [ReadBuf] stand for the two types of the code that
    implement mio's [Buf].  The event loop's own state is third-party state. *)
Class MioOps (V X StreamBuf ReadBuf Sender : Type) `{!MioTypes} := {
  get_host_addresses : string -> M V X (result (list IpAddr) string);
  tcp_v4 : M V X (result TcpSocket MioError);
  sock_close : TcpSocket -> M V X unit;           (* drop glue: the descriptor is closed *)
  acceptor_close : TcpAcceptor -> M V X unit;
  sock_connect : TcpSocket -> IpAddr -> Z -> M V X (result unit MioError);
  sock_bind : TcpSocket -> IpAddr -> Z -> M V X (result TcpSocket MioError);
  sock_listen : TcpSocket -> Z -> M V X (result TcpAcceptor MioError);
  accept : TcpAcceptor -> M V X (result (NonBlock TcpSocket) MioError);
  sock_write : TcpSocket -> StreamBuf -> M V X (StreamBuf * result (NonBlock Z) MioError);
  sock_read : TcpSocket -> ReadBuf -> M V X (ReadBuf * result (NonBlock Z) MioError);
  register_conn : TcpSocket -> Token -> Interest -> M V X (result unit MioError);
  register_listener : TcpAcceptor -> Token -> Interest -> M V X (result unit MioError);
  reregister_conn : TcpSocket -> Token -> Interest -> M V X (result unit MioError);
  reregister_listener : TcpAcceptor -> Token -> Interest -> M V X (result unit MioError);
  el_configured : EventLoopConfig -> M V X (result unit MioError);
  el_shutdown : M V X unit;
  el_timeout : Token -> Z -> M V X (result Timeout MioError);
  clear_timeout : Timeout -> M V X unit;
  el_channel : M V X Sender
}.
