(* ===== verification/StreamBuf.v ===== *)
(** * Addressed buffers: the message types of src/src/reactor.rs

    [StreamBuf] travels to the event loop, [ProtoMsg] away from it, [ReadBuf]
    is what a socket reads into.  The last two implement the traits through
    which mio fills and empties buffers. *)

From S2P Require Import Prelude Effects Protocol Mio.

(** [struct StreamBuf(AROIobuf, Token)], [struct ProtoMsg<T>(T, Token)],
    [struct ReadBuf(AppendBuf)]. *)
Record StreamBuf (A : Type) := mkStreamBuf { sb_buf : A; sb_tok : Token }.
Arguments mkStreamBuf {A} _ _.
Arguments sb_buf {A} _.
Arguments sb_tok {A} _.

Record ProtoMsg (T : Type) := mkProtoMsg { pm_item : T; pm_tok : Token }.
Arguments mkProtoMsg {T} _ _.
Arguments pm_item {T} _.
Arguments pm_tok {T} _.

Record ReadBuf (AB : Type) := mkReadBuf { rb_buf : AB }.
Arguments mkReadBuf {AB} _.
Arguments rb_buf {AB} _.

#[export] Instance Clone_StreamBuf {A : Type} `{!Clone A} : Clone (StreamBuf A) :=
  fun self => mkStreamBuf (clone (sb_buf self)) (sb_tok self).

Section Impls.
Context {V X Alloc AB A : Type} `{!Iobuf A} `{!AppendBufOps Alloc AB A}.

Definition StreamBuf_remaining (self : StreamBuf A) : Z := usize (iob_len (sb_buf self)).
Definition StreamBuf_bytes (self : StreamBuf A) : list byte := as_window_slice (sb_buf self).
Definition StreamBuf_advance (self : StreamBuf A) (cnt : Z) : M V X (StreamBuf A) :=
  let! b := unwrap (iob_advance (sb_buf self) (u32 cnt)) in
  ret (mkStreamBuf b (sb_tok self)).

#[export] Instance Buf_StreamBuf : Buf V X (StreamBuf A) := {
  buf_remaining := StreamBuf_remaining;
  buf_bytes := StreamBuf_bytes;
  buf_advance := StreamBuf_advance
}.

Definition ReadBuf_remaining (self : ReadBuf AB) : Z := usize (ab_len Alloc A (rb_buf self)).
Definition ReadBuf_bytes (self : ReadBuf AB) : list byte := ab_window Alloc A (rb_buf self).
Definition ReadBuf_advance (self : ReadBuf AB) (cnt : Z) : M V X (ReadBuf AB) :=
  let! b := unwrap (ab_advance Alloc A (rb_buf self) (u32 cnt)) in
  ret (mkReadBuf b).
Definition ReadBuf_mut_bytes (self : ReadBuf AB) (bs : list byte) : ReadBuf AB :=
  mkReadBuf (ab_write_window Alloc A (rb_buf self) bs).

#[export] Instance Buf_ReadBuf : Buf V X (ReadBuf AB) := {
  buf_remaining := ReadBuf_remaining;
  buf_bytes := ReadBuf_bytes;
  buf_advance := ReadBuf_advance
}.
#[export] Instance MutBuf_ReadBuf : MutBuf (ReadBuf AB) := ReadBuf_mut_bytes.
End Impls.

(** ** Facts *)

(** [advance] as mio calls it, with no more than [remaining]: it drops bytes
    off the front, keeps the address, and its [unwrap] cannot fail. *)
Lemma StreamBuf_advance_ok {V X A : Type} `{!Iobuf A} `{!IobufLaws A} (b : StreamBuf A) n (w : World V X) :
  (0 <= n <= iob_len (sb_buf b))%Z -> (iob_len (sb_buf b) < 2 ^ 32)%Z ->
  exists b', StreamBuf_advance b n w = Done b' w /\ sb_tok b' = sb_tok b /\
    StreamBuf_bytes b' = drop (Z.to_nat n) (StreamBuf_bytes b).
Proof.
  intros Hn Hlen. unfold StreamBuf_advance. rewrite u32_small by lia.
  destruct (iob_advance_ok (sb_buf b) n Hn) as (b' & -> & Hw).
  eexists. split; [reflexivity|]. by split.
Qed.
