(* ===== verification/NetStream.v ===== *)
(** * One end of a connection: src/src/net_stream.rs

    A [NetStream] is what a client of the reactor holds: the event loop's
    sender, the receiver of the connection's messages, and the connection's
    token.  A [NetStreamer] makes it a subscriber (of outgoing buffers) and a
    publisher (of incoming messages). *)

From S2P Require Import Prelude Effects Sendable Reactive Protocol Mio StreamBuf.

Module NetStream.
(** The receiver is shared through an [Arc]: a copy names the same queue. *)
Record t (Sender : Type) := mk { dtx : Sender; drx : Receiver; tok : Token }.
Arguments mk {Sender} _ _ _.
Arguments dtx {Sender} _.
Arguments drx {Sender} _.
Arguments tok {Sender} _.

Section Def.
Context {V X Sender A : Type} `{!EventLoopSenderOps V X Sender (StreamBuf A)}.

(** [dtx] is cloned into the struct, then the argument goes out of scope. *)
Definition new (tok : Token) (drx : Receiver) (dtx : Sender) : M V X (t Sender) :=
  let! dtx' := els_clone dtx in
  let! _ := els_drop dtx in
  ret (mk dtx' drx tok).

(** [#[derive(Clone)]]. *)
Definition clone (self : t Sender) : M V X (t Sender) :=
  let! dtx' := els_clone (dtx self) in
  ret (mk dtx' (drx self) (tok self)).
End Def.
End NetStream.

Module NetStreamer.
Record t (Sender S : Type) := mk { stream : NetStream.t Sender; subscriber : option S }.
Arguments mk {Sender S} _ _.
Arguments stream {Sender S} _.
Arguments subscriber {Sender S} _.

#[global] Program Instance Link_NetStreamer {Sender S} : Link (t Sender S) S := {
  subscriber_of := subscriber;
  with_subscriber o self := mk (stream self) o
}.
Solve All Obligations with by intros; destruct_and?; try destruct p.

Section Def.
Context {U X Sender A S : Type}.
Context `{!EventLoopSenderOps (ProtoMsg U) X Sender (StreamBuf A)} `{!Subscriber (ProtoMsg U) X S (ProtoMsg U)}.

(** [impl Subscriber]: an outgoing buffer takes the stream's address. *)
Definition on_next (self : t Sender S) (x : StreamBuf A) : M (ProtoMsg U) X (t Sender S * bool) :=
  let! r := els_send (NetStream.dtx (stream self)) (mkStreamBuf (sb_buf x) (NetStream.tok (stream self))) in
  match r with
  | Ok _ => ret (self, true)
  | Err _ => ret (self, false)
  end.

(** [impl Publisher]. *)
Definition subscribe (self : t Sender S) (s : S) : M (ProtoMsg U) X (t Sender S) := link_subscribe self s.

Definition next (self : t Sender S) : M (ProtoMsg U) X (t Sender S * bool) :=
  match subscriber self with
  | Some s =>
      let! r := recv (NetStream.drx (stream self)) in
      match r with
      | Ok d =>
          let! '(s', go) := Reactive.on_next s d in
          ret (mk (stream self) (Some s'), go)
      | Err _ =>
          let! s' := on_complete s false in
          ret (mk (stream self) (Some s'), false)
      end
  | None =>
      let! _ := error "My subscriber went away" [] in ret (self, false)
  end.

(** The drop glue: the sender, the last reference to the receiver, then
    the subscriber. *)
Definition drop_streamer (self : t Sender S) : M (ProtoMsg U) X unit :=
  let! _ := els_drop (NetStream.dtx (stream self)) in
  let! _ := drop_receiver (NetStream.drx (stream self)) in
  drop_link self.

#[global] Instance Subscriber_NetStreamer : Subscriber (ProtoMsg U) X (t Sender S) (StreamBuf A) := {
  on_next := on_next;
  on_subscribe self _ := default_on_subscribe self 0%Z;
  on_error := default_on_error;
  on_complete := default_on_complete;
  drop_box := drop_streamer
}.

#[global] Instance Publisher_NetStreamer : Publisher (ProtoMsg U) X (t Sender S) S := {
  subscribe := subscribe;
  next := next;
  try_next := default_try_next
}.
End Def.
End NetStreamer.

(** ** Facts *)

Section Facts.
Context {U X Sender A S : Type}.
Context `{!EventLoopSenderOps (ProtoMsg U) X Sender (StreamBuf A)} `{!Subscriber (ProtoMsg U) X S (ProtoMsg U)}.
Implicit Types w : World (ProtoMsg U) X.

(** The address a buffer carries is replaced by the stream's own, so that the
    event loop hands it to that connection whoever produced it, and a failed
    send is reported as a refusal. *)
Theorem netstreamer_readdresses (self : NetStreamer.t Sender S) (x y : StreamBuf A) w :
  sb_buf x = sb_buf y ->
  on_next self x w = on_next self y w /\
  forall r w', els_send (NetStream.dtx (NetStreamer.stream self))
      (mkStreamBuf (sb_buf x) (NetStream.tok (NetStreamer.stream self))) w = Done r w' ->
    on_next self x w = Done (self, match r with Ok _ => true | Err _ => false end) w'.
Proof.
  intros Hxy. simpl. unfold NetStreamer.on_next. rewrite <- Hxy. split; [done|].
  intros r w' E. unfold bind. rewrite E. by destruct r.
Qed.

(** [next] takes one message off the connection's queue: it waits while the
    connection is open and idle, hands a message to the subscriber, and
    completes the subscriber once the connection has gone and its messages
    have been read. *)
Theorem netstreamer_next (st : NetStream.t Sender) (s : S) w ch :
  chans w !! rx_chan (NetStream.drx st) = Some ch ->
  next (NetStreamer.mk st (Some s)) w =
  match ch_queue ch, ch_senders ch with
  | v :: q, n =>
      (let! '(s', go) := on_next s v in ret (NetStreamer.mk st (Some s'), go))
      (with_chans w (<[rx_chan (NetStream.drx st) := mkChan q n (ch_receiver ch) (ch_bound ch)]> (chans w)))
  | [], O => (let! s' := on_complete s false in ret (NetStreamer.mk st (Some s'), false)) w
  | [], Datatypes.S _ => Blocked w
  end.
Proof.
  intros Hc. simpl. unfold NetStreamer.next. simpl. unfold bind at 1, recv. rewrite Hc.
  destruct (ch_queue ch) as [|v q]; simpl; [|done]. by destruct (ch_senders ch).
Qed.
End Facts.

(** ** Concrete instances *)

Section Instances.
Abbreviation Bytes := (list byte).

(** An event loop that keeps its mail while it runs. *)
#[local] Instance mailbox_sender : EventLoopSenderOps (ProtoMsg Z) (option (list (StreamBuf Bytes))) unit (StreamBuf Bytes) := {
  els_send _ m := fun w => match ext w with
    | Some mail => Done (Ok tt) (mkWorld (stdout w) (log w) (chans w) (Some (mail ++ [m])))
    | None => Done (Err m) w
    end;
  els_clone := ret;
  els_drop _ := ret tt
}.

(** A subscriber that keeps the tokens it sees. *)
#[local] Instance token_keeper : Subscriber (ProtoMsg Z) (option (list (StreamBuf Bytes))) (list Token) (ProtoMsg Z) := {
  on_next s m := ret (s ++ [pm_tok m], true);
  on_subscribe := default_on_subscribe;
  on_error := default_on_error;
  on_complete := default_on_complete;
  drop_box _ := ret tt
}.

Definition to_300 : NetStreamer.t unit (list Token) :=
  NetStreamer.mk (NetStream.mk tt (mkReceiver 0) 300) (Some []).

Lemma netstreamer_readdresses_witness :
  exists w', on_next to_300 (mkStreamBuf [x01] 7) (empty_world (Some [])) = Done (to_300, true) w' /\
    ext w' = Some [mkStreamBuf [x01] 300].
Proof.
  destruct (netstreamer_readdresses to_300 (mkStreamBuf [x01] 7) (mkStreamBuf [x01] 8) (empty_world (Some [])) eq_refl) as [_ H].
  eexists. split; [exact (H (Ok tt) _ eq_refl)|reflexivity].
Defined.

Lemma netstreamer_next_witness :
  exists w', next to_300 (mkWorld [] [] {[ 0 := mkChan [mkProtoMsg 5%Z 256] 1 true (Some 4) ]} None) =
    Done (NetStreamer.mk (NetStream.mk tt (mkReceiver 0) 300) (Some [256%Z]), true) w'.
Proof.
  eexists. exact (netstreamer_next (NetStream.mk tt (mkReceiver 0) 300) []
    (mkWorld [] [] {[ 0 := mkChan [mkProtoMsg 5%Z 256] 1 true (Some 4) ]} None) (mkChan [mkProtoMsg 5%Z 256] 1 true (Some 4)) eq_refl).
Defined.
End Instances.
