(* ===== verification/Reactor.v ===== *)
(** * The network engine: src/src/reactor.rs

    [EngineInner] keeps the listeners, the timeouts and the connections of one
    event loop, each in a slab, and handles the loop's events.  The event loop
    itself is mio's: its state is third-party state, its operations those of
    Mio.v.  A reference into a slab is a lookup and a write back.

    Two loops are written with fuel: a write queue is drained until the socket
    refuses, and a read buffer is cut into messages until the protocol finds
    no more. *)

From S2P Require Import Prelude Effects Sendable Protocol Mio StreamBuf NetStream.

(** ** [struct Connection] *)

Record Connection `{!MioTypes} (A AB T : Type) := mkConn {
  sock : TcpSocket;
  outbuf : list (StreamBuf A);
  interest : Interest;
  conn_tx : SyncSender;
  marker : Z;
  proto : T;
  buf : ReadBuf AB
}.
Arguments mkConn {_ A AB T} _ _ _ _ _ _ _.
Arguments sock {_ A AB T} _.
Arguments outbuf {_ A AB T} _.
Arguments interest {_ A AB T} _.
Arguments conn_tx {_ A AB T} _.
Arguments marker {_ A AB T} _.
Arguments proto {_ A AB T} _.
Arguments buf {_ A AB T} _.

(** ** [struct NetEngineConfig] and [struct EngineInner] *)

Record NetEngineConfig (Alloc : Type) := mkConfig {
  queue_size : Z;
  read_buf_sz : Z;
  min_read_buf_sz : Z;
  max_connections : Z;
  poll_timeout_ms : Z;
  allocator : option Alloc
}.
Arguments mkConfig {Alloc} _ _ _ _ _ _.
Arguments queue_size {Alloc} _.
Arguments read_buf_sz {Alloc} _.
Arguments min_read_buf_sz {Alloc} _.
Arguments max_connections {Alloc} _.
Arguments poll_timeout_ms {Alloc} _.
Arguments allocator {Alloc} _.

(** [CB] is the type of the boxed timer callbacks. *)
Record EngineInner `{!MioTypes} (Slab : Type -> Type) (Alloc A AB T CB : Type) := mkInner {
  listeners : Slab (TcpAcceptor * SyncSender)%type;
  timeouts : Slab (CB * option Timeout)%type;
  conns : Slab (Connection A AB T);
  config : NetEngineConfig Alloc
}.
Arguments mkInner {_ Slab Alloc A AB T CB} _ _ _ _.
Arguments listeners {_ Slab Alloc A AB T CB} _.
Arguments timeouts {_ Slab Alloc A AB T CB} _.
Arguments conns {_ Slab Alloc A AB T CB} _.
Arguments config {_ Slab Alloc A AB T CB} _.

(** [FnMut(&mut Reactor) -> bool]; the reactor is third-party state. *)
Class TimerCB (V X CB : Type) := call_mut : CB -> M V X (CB * bool).

(** mio's trait [Handler], as the events it is called with, and the two loops
    that call it. *)
Inductive Event (Tok Hint Msg : Type) :=
| EvReadable (token : Tok) (hint : Hint)
| EvWritable (token : Tok)
| EvNotify (msg : Msg)
| EvTimeout (token : Tok).
Arguments EvReadable {Tok Hint Msg} _ _.
Arguments EvWritable {Tok Hint Msg} _.
Arguments EvNotify {Tok Hint Msg} _.
Arguments EvTimeout {Tok Hint Msg} _.

Class EventLoopRun (V X H Ev E : Type) := {
  el_run : (H -> Ev -> M V X H) -> H -> M V X (result H E);
  el_run_once : (H -> Ev -> M V X H) -> H -> M V X (result H E)
}.

(** [v[0]] of a vector. *)
Definition index0 {V X B : Type} (l : list B) : M V X B :=
  match l with
  | b :: _ => ret b
  | [] => panic "index out of bounds: the len is 0 but the index is 0"
  end.

Section Reactor.
Context {X Alloc AB A T Out CB Sender : Type} {Slab : Type -> Type}.
Abbreviation V := (ProtoMsg Out).
Context `{!MioTypes} `{!Iobuf A} `{!AppendBufOps Alloc AB A} `{!SlabOps Slab}.
Context `{!MioOps V X (StreamBuf A) (ReadBuf AB) Sender} `{!Protocol V X T A Out} `{!TimerCB V X CB}.
Context `{!EventLoopSenderOps V X Sender (StreamBuf A)}.
Abbreviation Conn := (Connection A AB T).
Abbreviation Inner := (EngineInner Slab Alloc A AB T CB).

Definition new_buf (sz : Z) (calloc : option Alloc) : ReadBuf AB :=
  match calloc with
  | Some alloc => mkReadBuf (ab_new_with_allocator (A := A) sz alloc)
  | None => mkReadBuf (ab_new Alloc (A := A) sz)
  end.

(** ** [impl Connection] *)

Definition Connection_new (s : TcpSocket) (tx : SyncSender) (rbuf : ReadBuf AB) : Conn :=
  mkConn s [] HUP tx 0 (proto_new (V := V) (X := X) (A := A) (Out := Out)) rbuf.

Definition with_outbuf (o : list (StreamBuf A)) (c : Conn) : Conn :=
  mkConn (sock c) o (interest c) (conn_tx c) (marker c) (proto c) (buf c).
Definition with_interest (i : Interest) (c : Conn) : Conn :=
  mkConn (sock c) (outbuf c) i (conn_tx c) (marker c) (proto c) (buf c).
Definition with_buf (b : ReadBuf AB) (c : Conn) : Conn :=
  mkConn (sock c) (outbuf c) (interest c) (conn_tx c) (marker c) (proto c) b.

(** The loop [while writable && self.outbuf.len() > 0]. *)
Fixpoint drain_loop (fuel : nat) (self : Conn) : M V X Conn :=
  match fuel with
  | O => out_of_fuel
  | S fuel' =>
      match outbuf self with
      | [] => ret self
      | front :: rest =>
          let sz := usize (iob_len (sb_buf front)) in
          let! '(front', result) := sock_write (sock self) front in
          match result with
          | Ok (Ready n) =>
              let! _ := debug "Wrote {:?} out of {:?} bytes to socket" [pretty n; pretty sz] in
              if (n =? sz)%Z then drain_loop fuel' (with_outbuf rest self)
              else drain_loop fuel' (with_outbuf (front' :: rest) self)
          | Ok WouldBlock =>
              let! _ := debug "Got Writable event for socket, but failed to write any bytes" [] in
              ret (with_outbuf (front' :: rest) self)
          | Err e =>
              let! _ := error "error writing to socket: {:?}" [debug_fmt e] in
              ret (with_outbuf (front' :: rest) self)
          end
      end
  end.

Definition drain_write_queue_to_socket (fuel : nat) (self : Conn) : M V X (Conn * Z) :=
  let! self' := drain_loop fuel self in
  ret (self', Z.of_nat (length (outbuf self'))).

Definition read (self : Conn) : M V X (Conn * result (NonBlock Z) MioError) :=
  let! '(b, r) := sock_read (sock self) (buf self) in
  ret (with_buf b self, r).

(** The drop glue of a connection: its fields in order. *)
Definition drop_conn (self : Conn) : M V X unit :=
  let! _ := sock_close (sock self) in
  drop_q (Item := V) (conn_tx self).

(** ** [impl EngineInner] *)

Definition EngineInner_new (cfg : NetEngineConfig Alloc) : Inner :=
  mkInner (slab_new_starting_at 0 128)
          (slab_new_starting_at 129 255)
          (slab_new_starting_at 256 (usize (max_connections cfg + 256)))
          cfg.

Definition with_conns (cs : Slab Conn) (self : Inner) : Inner :=
  mkInner (listeners self) (timeouts self) cs (config self).
Definition with_listeners (ls : Slab (TcpAcceptor * SyncSender)%type) (self : Inner) : Inner :=
  mkInner ls (timeouts self) (conns self) (config self).
Definition with_timeouts (ts : Slab (CB * option Timeout)%type) (self : Inner) : Inner :=
  mkInner (listeners self) ts (conns self) (config self).

(** What [connect] does once the connection is in the slab, under [tok].
    [rx] is dropped on the branches that do not return it. *)
Definition connect_at (hostname : string) (port : Z) (ip : IpAddr) (tok : Token) (rx : Receiver) (self : Inner) :
    M V X (result (NetStream.t Sender) string) :=
  let! c := unwrap_opt (slab_get (conns self) tok) in
  let! r := register_conn (sock c) tok READABLE in
  match r with
  | Ok _ =>
      let! r := sock_connect (sock c) ip (wrap 16 port) in
      match r with
      | Ok _ =>
          let! _ := debug "Connected to server for token {:?}" [debug_token tok] in
          let! chan := el_channel in
          let! dtx := els_clone chan in
          let! st := NetStream.new tok rx dtx in
          let! _ := els_drop chan in
          ret (Ok st)
      | Err e =>
          let! _ := drop_receiver rx in
          ret (Err ("Failed to connect to " ++ debug_str hostname ++ ":" ++ pretty port ++ ", error: " ++ debug_fmt e)%string)
      end
  | Err e =>
      let! _ := drop_receiver rx in
      ret (Err ("Failed to register with the event loop, error: " ++ debug_fmt e)%string)
  end.

Definition connect (self : Inner) (hostname : string) (port : Z) :
    M V X (Inner * result (NetStream.t Sender) string) :=
  let! r := get_host_addresses hostname in
  let! ips := unwrap r in
  let! ip := index0 ips in
  let! r := tcp_v4 in
  match r with
  | Ok s =>
      let! '(tx, rx) := sync_channel (Z.to_nat (queue_size (config self))) in
      let rbuf := new_buf (read_buf_sz (config self)) (allocator (config self)) in
      match slab_insert (conns self) (Connection_new s tx rbuf) with
      | Ok (tok, cs) =>
          let self' := with_conns cs self in
          let! res := connect_at hostname port ip tok rx self' in
          ret (self', res)
      | Err c =>
          let! _ := drop_conn c in
          let! _ := drop_receiver rx in
          ret (self, Err "Failed to insert into connection slab"%string)
      end
  | Err e => ret (self, Err ("Failed to create new socket, error:" ++ debug_fmt e)%string)
  end.

(** What [listen] does with the acceptor. *)
Definition listen_with (a : TcpAcceptor) (self : Inner) : M V X (Inner * result Receiver string) :=
  let! '(tx, rx) := sync_channel (Z.to_nat (queue_size (config self))) in
  match slab_insert (listeners self) (a, tx) with
  | Ok (token, ls) =>
      let self' := with_listeners ls self in
      let! l := unwrap_opt (slab_get ls token) in
      let! r := register_listener l.1 token READABLE in
      match r with
      | Ok _ => ret (self', Ok rx)
      | Err e =>
          let! _ := drop_receiver rx in
          ret (self', Err ("event registration failed: " ++ debug_fmt e)%string)
      end
  | Err l =>
      let! _ := acceptor_close l.1 in
      let! _ := drop_q (Item := V) l.2 in
      let! _ := drop_receiver rx in
      ret (self, Err "failed to insert into listener slab"%string)
  end.

Definition listen (self : Inner) (addr : string) (port : Z) : M V X (Inner * result Receiver string) :=
  let! r := get_host_addresses addr in
  let! ips := unwrap r in
  let! ip := index0 ips in
  let! r := tcp_v4 in
  match r with
  | Ok s =>
      let! r := sock_bind s ip (wrap 16 port) in
      match r with
      | Ok l =>
          let! r := sock_listen l 255 in
          match r with
          | Ok a => listen_with a self
          | Err e => ret (self, Err ("Failed to listen to socket " ++ debug_str addr ++ ":" ++ pretty port ++ ", error:" ++ debug_fmt e)%string)
          end
      | Err e => ret (self, Err ("Failed to bind to " ++ debug_str addr ++ ":" ++ pretty port ++ ", error:" ++ debug_fmt e)%string)
      end
  | Err e => ret (self, Err ("Failed to create TCP socket, error:" ++ debug_fmt e)%string)
  end.

(** ** [impl Handler for EngineInner] *)

(** The branch of [readable] for a listener. *)
Definition readable_listener (self : Inner) (token : Token) : M V X Inner :=
  let! '(list, tx) := unwrap_opt (slab_get (listeners self) token) in
  let! r := accept list in
  let! self' :=
    match r with
    | Ok (Ready s) =>
        let rbuf := new_buf (read_buf_sz (config self)) (allocator (config self)) in
        let! tx' := clone_q (Item := V) tx in
        match slab_insert (conns self) (Connection_new s tx' rbuf) with
        | Ok (tok, cs) =>
            let! c := unwrap_opt (slab_get cs tok) in
            let! r := register_conn (sock c) tok (interest_or READABLE HUP) in
            let! _ := unwrap r in
            let! _ := debug "readable accepted socket for token {:?}" [debug_token tok] in
            ret (with_conns cs self)
        | Err c =>
            let! _ := error "Failed to insert into Slab" [] in
            let! _ := drop_conn c in
            ret self
        end
    | Ok WouldBlock => let! _ := error "Failed to accept socket: {:?}" ["Ok(WouldBlock)"%string] in ret self
    | Err e => let! _ := error "Failed to accept socket: {:?}" [("Err(" ++ debug_fmt e ++ ")")%string] in ret self
    end in
  let! r := reregister_listener list token READABLE in
  let! _ := unwrap r in
  ret self'.

(** The inner [loop] of [readable]: cut messages off the front of [abuf] and
    send them on; a queue that is gone is not noticed. *)
Fixpoint frame_loop (fuel : nat) (token : Token) (abuf : A) (c : Conn) : M V X (A * Conn) :=
  match fuel with
  | O => out_of_fuel
  | S fuel' =>
      let! '(proto', o) := append (proto c) abuf in
      match o with
      | None => ret (abuf, mkConn (sock c) (outbuf c) (interest c) (conn_tx c) (marker c) proto' (buf c))
      | Some (item, remaining, consumed) =>
          let! _ := send (conn_tx c) (mkProtoMsg item token) in
          frame_loop fuel' token remaining
            (mkConn (sock c) (outbuf c) (interest c) (conn_tx c) (u32 (marker c + consumed)) proto' (buf c))
      end
  end.

(** After the loop: a nearly full buffer is replaced. *)
Definition renew_buf (cfg : NetEngineConfig Alloc) (abuf : A) (c : Conn) : Conn :=
  if (ab_len Alloc A (rb_buf (buf c)) <? u32 (min_read_buf_sz cfg))%Z then
    let newbuf := new_buf (read_buf_sz cfg) (allocator cfg) in
    let newbuf' := if (iob_len abuf >? 0)%Z
                   then mkReadBuf (ab_fill Alloc A (rb_buf newbuf) (as_window_slice abuf))
                   else newbuf in
    mkConn (sock c) (outbuf c) (interest c) (conn_tx c) 0 (proto c) newbuf'
  else c.

(** The branch of [readable] for a connection, up to the hint. *)
Definition readable_conn (fuel : nat) (cfg : NetEngineConfig Alloc) (token : Token) (c : Conn) : M V X Conn :=
  let! '(c, r) := read c in
  match r with
  | Ok (Ready n) =>
      let! _ := debug "read {:?} bytes" [pretty n] in
      let! abuf := unwrap (atomic_slice_pos_from_begin Alloc (A := A) (rb_buf (buf c)) (marker c) (as_i64 n)) in
      let! '(abuf', c) := frame_loop fuel token abuf c in
      ret (renew_buf cfg abuf' c)
  | Ok WouldBlock =>
      let! _ := debug "Got Readable event for socket, but failed to write any bytes" [] in ret c
  | Err e =>
      let! _ := error "error reading from socket: {:?}" [debug_fmt e] in ret c
  end.

Definition readable (fuel : nat) (self : Inner) (token : Token) (hint : ReadHint) : M V X Inner :=
  let! _ := debug "mio_processor::readable top, token: {:?}" [debug_token token] in
  if slab_contains (listeners self) token then readable_listener self token
  else
    match slab_get (conns self) token with
    | None =>
        let! _ := error "Got a readable event for token {:?}, but it is not present in MioHandler connections"
                    [debug_token token] in
        ret self
    | Some c =>
        let! c := readable_conn fuel (config self) token c in
        if hint_contains_hup hint then
          let! _ := drop_conn c in
          ret (with_conns (slab_remove (conns self) token) self)
        else
          let c := with_interest (interest_or (interest c) READABLE) c in
          let! r := reregister_conn (sock c) token (interest c) in
          let! _ := unwrap r in
          ret (with_conns (slab_set (conns self) token c) self)
    end.

(** The tail that [writable] and [notify] share. *)
Definition drain_and_rearm (fuel : nat) (token : Token) (c : Conn) : M V X Conn :=
  let! '(c, remaining) := drain_write_queue_to_socket fuel c in
  if (remaining >? 0)%Z then
    let c := with_interest (interest_or (interest c) WRITABLE) c in
    let! r := reregister_conn (sock c) token (interest c) in
    let! _ := unwrap r in
    ret c
  else ret c.

Definition writable (fuel : nat) (self : Inner) (token : Token) : M V X Inner :=
  let! _ := debug "mio_processor::writable, token: {:?}" [debug_token token] in
  match slab_get (conns self) token with
  | Some c =>
      let! c := drain_and_rearm fuel token c in
      ret (with_conns (slab_set (conns self) token c) self)
  | None => ret self
  end.

Definition notify (fuel : nat) (self : Inner) (msg : StreamBuf A) : M V X Inner :=
  let tok := sb_tok msg in
  match slab_get (conns self) tok with
  | Some c =>
      let c := with_outbuf (outbuf c ++ [msg]) c in
      let! c := drain_and_rearm fuel tok c in
      ret (with_conns (slab_set (conns self) tok c) self)
  | None => ret self
  end.

(** [Handler::timeout]. *)
Definition on_timeout (self : Inner) (tok : Token) : M V X Inner :=
  let! '(cb, handle) := unwrap_opt (slab_get (timeouts self) tok) in
  let! '(cb', go) := call_mut cb in
  let self' := with_timeouts (slab_set (timeouts self) tok (cb', handle)) self in
  if go then ret self'
  else
    let! h := unwrap_opt handle in
    let! _ := clear_timeout h in
    ret self'.

(** ** [impl NetEngine]: the engine over the event loop of the world *)

Definition event_loop_config (queue_sz timeout : Z) : EventLoopConfig :=
  mkEventLoopConfig timeout queue_sz 512 100 1024 65536.

Definition configured (cfg : NetEngineConfig Alloc) : M V X Inner :=
  let! r := el_configured (event_loop_config (queue_size cfg) (poll_timeout_ms cfg)) in
  let! _ := unwrap r in
  ret (EngineInner_new cfg).

Definition default_config : NetEngineConfig Alloc := mkConfig 524288 1536 64 10240 100 None.
Definition NetEngine_new : M V X Inner := configured default_config.

Definition channel : M V X Sender := el_channel.

(** [NetEngine::timeout]. *)
Definition set_timeout (self : Inner) (timeout : Z) (callback : CB) : M V X Inner :=
  let! '(tok, ts) := unwrap (slab_insert (Slab := Slab) (timeouts self) (callback, None)) in
  let! r := el_timeout tok timeout in
  let! handle := unwrap r in
  let! e := unwrap_opt (slab_get ts tok) in
  ret (with_timeouts (slab_set ts tok (e.1, Some handle)) self).

Definition shutdown : M V X unit := el_shutdown.

(** [impl Handler]: what the event loop calls for each event. *)
Definition handle (fuel : nat) (self : Inner) (ev : Event Token ReadHint (StreamBuf A)) : M V X Inner :=
  match ev with
  | EvReadable token hint => readable fuel self token hint
  | EvWritable token => writable fuel self token
  | EvNotify msg => notify fuel self msg
  | EvTimeout token => on_timeout self token
  end.

(** [NetEngine::run] and [run_once] give the engine to the event loop; what
    the loop hands back is dropped by the caller. *)
Context `{!EventLoopRun V X Inner (Event Token ReadHint (StreamBuf A)) MioError}.

Definition run (fuel : nat) (self : Inner) : M V X Inner :=
  let! r := el_run (handle fuel) self in
  unwrap (result_map_err (fun _ => tt) r).
Definition run_once (fuel : nat) (self : Inner) : M V X Inner :=
  let! r := el_run_once (handle fuel) self in
  unwrap (result_map_err (fun _ => tt) r).
End Reactor.
