(* ===== verification/MioModel.v ===== *)
(** * A concrete model of the networking interfaces of Mio.v

    The slab is a finite map that gives out its smallest free token; an append
    buffer is what was written and the window still to write; a socket is a
    number, and the network a script: what arrives on each socket, how much
    each write takes, what left.  It instantiates every interface of Mio.v and
    discharges the laws, so the theorems about the engine can be applied and
    the handlers run. *)

From S2P Require Import Prelude Effects Sendable Protocol Mio StreamBuf.

(** ** The slab *)

Record GSlab (T : Type) := mkSlab { gs_start : Z; gs_cap : Z; gs_map : gmap Z T }.
Arguments mkSlab {T} _ _ _.
Arguments gs_start {T} _.
Arguments gs_cap {T} _.
Arguments gs_map {T} _.

(** The smallest free token among the [n] from [t] on. *)
Fixpoint first_free {T : Type} (n : nat) (t : Z) (m : gmap Z T) : option Z :=
  match n with
  | O => None
  | S n' => match m !! t with None => Some t | Some _ => first_free n' (t + 1) m end
  end.

#[export] Instance SlabOps_GSlab : SlabOps GSlab := {
  slab_new_starting_at T tok cap := mkSlab tok cap ∅;
  slab_insert T s x :=
    match first_free (Z.to_nat (gs_cap s)) (gs_start s) (gs_map s) with
    | Some t => Ok (t, mkSlab (gs_start s) (gs_cap s) (<[t := x]> (gs_map s)))
    | None => Err x
    end;
  slab_contains T s t := bool_decide (is_Some (gs_map s !! t));
  slab_get T s t := gs_map s !! t;
  slab_set T s t x := mkSlab (gs_start s) (gs_cap s) (<[t := x]> (gs_map s));
  slab_remove T s t := mkSlab (gs_start s) (gs_cap s) (delete t (gs_map s));
  slab_start T := gs_start;
  slab_capacity T := gs_cap
}.

Lemma first_free_some {T : Type} n t (m : gmap Z T) t' :
  first_free n t m = Some t' -> (t <= t' < t + Z.of_nat n)%Z /\ m !! t' = None.
Proof.
  revert t. induction n as [|n IH]; intros t; simpl; [done|].
  destruct (m !! t) eqn:E; intros H.
  - apply IH in H as [? ?]. split; [lia|done].
  - simplify_eq. split; [lia|done].
Qed.

Lemma first_free_none {T : Type} n t (m : gmap Z T) t' :
  first_free n t m = None -> (t <= t' < t + Z.of_nat n)%Z -> is_Some (m !! t').
Proof.
  revert t. induction n as [|n IH]; intros t; simpl; [lia|].
  destruct (m !! t) eqn:E; [|done]. intros H Ht. destruct (decide (t' = t)) as [->|Hne]; [by eexists|].
  apply (IH _ H). lia.
Qed.

#[export] Instance SlabLaws_GSlab : SlabLaws GSlab.
Proof.
  split; simpl.
  - intros T tok cap. split; [done|]. split; [done|]. intros t. apply lookup_empty.
  - intros T s x tok s'. case_match eqn:E; [|done]. intros H. simplify_eq/=.
    apply first_free_some in E as [Hr Hn]. rewrite lookup_insert_eq. splits; try lia.
    intros t Ht. by rewrite lookup_insert_ne.
  - intros T s x y. case_match eqn:E; [done|]. intros H. simplify_eq/=. split; [done|]. intros t Ht.
    apply (first_free_none _ _ _ _ E). lia.
  - done.
  - intros T s t x _. rewrite lookup_insert_eq. splits. intros t' Ht. by rewrite lookup_insert_ne.
  - intros T s t. rewrite lookup_delete_eq. splits. intros t' Ht. by rewrite lookup_delete_ne.
Qed.

#[export] Instance SlabItems_GSlab : SlabItems GSlab := fun T s => (map_to_list (gs_map s)).*2.

#[export] Instance SlabItemsLaws_GSlab : SlabItemsLaws GSlab.
Proof.
  intros T s. exists (map_to_list (gs_map s)).*1. split; [apply NoDup_fst_map_to_list|]. split.
  - intros t. cbn. rewrite list_elem_of_fmap. split.
    + intros ([t' x] & -> & Hx%elem_of_map_to_list). by eexists.
    + intros [x Hx]. exists (t, x). split; [done|]. by apply elem_of_map_to_list.
  - unfold slab_items, SlabItems_GSlab. cbn.
    assert (H : forall l, (forall t x, (t, x) ∈ l -> gs_map s !! t = Some x) -> l.*2 = omap (fun t => gs_map s !! t) l.*1).
    { induction l as [|[t x] l IH]; intros Hl; [done|]. cbn. rewrite (Hl t x) by apply list_elem_of_here.
      f_equal. apply IH. intros. apply Hl. by apply list_elem_of_further. }
    apply H. intros t x Hx. by apply elem_of_map_to_list.
Qed.

(** ** The append buffer *)

Record Append := mkAppend { ap_written : list byte; ap_room : list byte }.

Definition ap_new (n : Z) : Append := mkAppend [] (replicate (Z.to_nat n) x00).

(** A write through the window, and the move of the window past it. *)
Definition ap_write (b : Append) (bs : list byte) : Append :=
  mkAppend (ap_written b) (take (length (ap_room b)) bs ++ drop (length bs) (ap_room b)).
Definition ap_advance (b : Append) (n : Z) : result Append unit :=
  if ((0 <=? n) && (n <=? Z.of_nat (length (ap_room b))))%Z
  then Ok (mkAppend (ap_written b ++ take (Z.to_nat n) (ap_room b)) (drop (Z.to_nat n) (ap_room b)))
  else Err tt.
Definition ap_fill (b : Append) (bs : list byte) : Append :=
  match ap_advance (ap_write b bs) (Z.of_nat (length bs)) with Ok b' => b' | Err _ => b end.
Definition ap_slice (b : Append) (pos n : Z) : result (list byte) unit :=
  if ((0 <=? pos) && (0 <=? n) && (pos + n <=? Z.of_nat (length (ap_written b))))%Z
  then Ok (take (Z.to_nat n) (drop (Z.to_nat pos) (ap_written b)))
  else Err tt.

#[export] Instance AppendBufOps_Append {Alloc : Type} : AppendBufOps Alloc Append (list byte) := {
  ab_new := ap_new;
  ab_new_with_allocator n _ := ap_new n;
  ab_len b := Z.of_nat (length (ap_room b));
  ab_window := ap_room;
  ab_advance := ap_advance;
  ab_write_window := ap_write;
  ab_fill := ap_fill;
  atomic_slice_pos_from_begin := ap_slice;
  ab_written := ap_written
}.

(** Writing what fits and moving past it appends it. *)
Lemma ap_write_advance b bs :
  length bs <= length (ap_room b) ->
  ap_advance (ap_write b bs) (Z.of_nat (length bs)) =
    Ok (mkAppend (ap_written b ++ bs) (drop (length bs) (ap_room b))).
Proof.
  intros Hle. unfold ap_advance, ap_write. simpl. rewrite (take_ge bs) by lia.
  rewrite length_app, length_drop. destruct (Z.leb_spec 0 (Z.of_nat (length bs))); [|lia].
  destruct (Z.leb_spec (Z.of_nat (length bs)) (Z.of_nat (length bs + (length (ap_room b) - length bs)))); [|lia].
  simpl. by rewrite Nat2Z.id, take_app_length, drop_app_length.
Qed.

#[export] Instance AppendBufLaws_Append {Alloc : Type} : AppendBufLaws Alloc Append (list byte).
Proof.
  split; simpl.
  - intros n Hn. rewrite length_replicate. split; [lia|done].
  - intros n _ Hn. rewrite length_replicate. split; [lia|done].
  - intros b. lia.
  - intros b bs Hle. unfold ap_fill. rewrite ap_write_advance by lia. simpl. rewrite length_drop. split; [done|lia].
  - intros b pos n Hp Hn Hle. unfold ap_slice.
    destruct (Z.leb_spec 0 pos), (Z.leb_spec 0 n), (Z.leb_spec (pos + n) (Z.of_nat (length (ap_written b)))); try lia.
    simpl. by eexists.
Qed.

(** ** The network *)

(** Interests and hints as bit masks; hang-up is bit 3. *)
#[export] Instance MioTypes_model : MioTypes := {
  TcpSocket := Z;
  TcpAcceptor := Z;
  MioError := string;
  Timeout := Z;
  Interest := Z;
  ReadHint := Z;
  IpAddr := Z;
  mio_error_fmt e := e;
  HUP := 8%Z;
  READABLE := 1%Z;
  WRITABLE := 2%Z;
  interest_or := Z.lor;
  hint_contains_hup h := Z.testbit h 3
}.

(** What arrives on each socket; how much each write on it takes; what left;
    the sockets waiting to be accepted; the next free socket; the ones closed;
    what was sent to the event loop; whether it registers, and whether a
    [connect] works. *)
Record Net := mkNet {
  incoming : gmap Z (list (list byte));
  takes : gmap Z (list Z);
  outgoing : gmap Z (list byte);
  waiting : list Z;
  fresh_sock : Z;
  closed : list Z;
  mailbox : list (StreamBuf (list byte));
  registers : bool;
  connects : bool
}.

Definition lookup_list {B : Type} (m : gmap Z (list B)) (s : Z) : list B := default [] (m !! s).

Section Net.
Context {V : Type}.

Definition on_net {B : Type} (f : Net -> Net * B) : M V Net B := fun w =>
  let '(x, b) := f (ext w) in Done b (mkWorld (stdout w) (log w) (chans w) x).

Definition set_incoming i x := mkNet i (takes x) (outgoing x) (waiting x) (fresh_sock x) (closed x) (mailbox x) (registers x) (connects x).
Definition set_output t o x := mkNet (incoming x) t o (waiting x) (fresh_sock x) (closed x) (mailbox x) (registers x) (connects x).
Definition set_waiting l x := mkNet (incoming x) (takes x) (outgoing x) l (fresh_sock x) (closed x) (mailbox x) (registers x) (connects x).
Definition set_fresh n x := mkNet (incoming x) (takes x) (outgoing x) (waiting x) n (closed x) (mailbox x) (registers x) (connects x).
Definition set_closed l x := mkNet (incoming x) (takes x) (outgoing x) (waiting x) (fresh_sock x) l (mailbox x) (registers x) (connects x).
Definition set_mailbox l x := mkNet (incoming x) (takes x) (outgoing x) (waiting x) (fresh_sock x) (closed x) l (registers x) (connects x).

(** A write takes as much as the script says, and of a buffer that is not
    empty something; without a script it would block. *)
Definition net_write (s : Z) (b : StreamBuf (list byte)) : M V Net (StreamBuf (list byte) * result (NonBlock Z) string) :=
  let! x := get_ext in
  match lookup_list (takes x) s with
  | [] => ret (b, Ok WouldBlock)
  | q :: qs =>
      let n := Z.min (Z.max 1 q) (Z.of_nat (length (sb_buf b))) in
      let! _ := put_ext (set_output (<[s := qs]> (takes x))
                  (<[s := lookup_list (outgoing x) s ++ take (Z.to_nat n) (sb_buf b)]> (outgoing x)) x) in
      ret (mkStreamBuf (drop (Z.to_nat n) (sb_buf b)) (sb_tok b), Ok (Ready n))
  end.

(** A read takes the next chunk, or the part of it there is room for. *)
Definition net_read (s : Z) (b : ReadBuf Append) : M V Net (ReadBuf Append * result (NonBlock Z) string) :=
  let! x := get_ext in
  match lookup_list (incoming x) s with
  | [] => ret (b, Ok WouldBlock)
  | chunk :: more =>
      let n := length (ap_room (rb_buf b)) in
      let now := take n chunk in
      let later := match drop n chunk with [] => more | rest => rest :: more end in
      let! _ := put_ext (set_incoming (<[s := later]> (incoming x)) x) in
      ret (mkReadBuf (ap_fill (rb_buf b) now), Ok (Ready (Z.of_nat (length now))))
  end.

Definition answer (b : bool) : result unit string := if b then Ok tt else Err "refused"%string.

#[export] Instance MioOps_model : MioOps V Net (StreamBuf (list byte)) (ReadBuf Append) unit := {
  get_host_addresses _ := ret (Ok [127%Z]);
  tcp_v4 := on_net (fun x => (set_fresh (fresh_sock x + 1)%Z x, Ok (fresh_sock x)));
  sock_close s := on_net (fun x => (set_closed (closed x ++ [s]) x, tt));
  acceptor_close s := on_net (fun x => (set_closed (closed x ++ [s]) x, tt));
  sock_connect _ _ _ := on_net (fun x => (x, answer (connects x)));
  sock_bind s _ _ := ret (Ok s);
  sock_listen s _ := ret (Ok s);
  accept _ := on_net (fun x => match waiting x with
                               | [] => (x, Ok WouldBlock)
                               | s :: more => (set_waiting more x, Ok (Ready s))
                               end);
  sock_write := net_write;
  sock_read := net_read;
  register_conn _ _ _ := on_net (fun x => (x, answer (registers x)));
  register_listener _ _ _ := on_net (fun x => (x, answer (registers x)));
  reregister_conn _ _ _ := ret (Ok tt);
  reregister_listener _ _ _ := ret (Ok tt);
  el_configured _ := ret (Ok tt);
  el_shutdown := ret tt;
  el_timeout _ ms := ret (Ok ms);
  clear_timeout _ := ret tt;
  el_channel := ret tt
}.

#[export] Instance EventLoopSenderOps_model : EventLoopSenderOps V Net unit (StreamBuf (list byte)) := {
  els_send _ m := on_net (fun x => (set_mailbox (mailbox x ++ [m]) x, Ok tt));
  els_clone s := ret s;
  els_drop _ := ret tt
}.

#[export] Program Instance EventLoopSenderLaws_model :
    EventLoopSenderLaws V Net unit (StreamBuf (list byte)) := {
  mail := mailbox
}.
Next Obligation. intros q m w. eexists. split; [reflexivity|]. by splits. Qed.
Next Obligation. intros q w. eexists. split; [reflexivity|]. by splits. Qed.
End Net.

(** A quiet network. *)
Definition quiet : Net := mkNet ∅ ∅ ∅ [] 3 [] [] true true.
