(* ===== verification/Echo.v ===== *)
(** * The echo server of the integration test: src/test/test.rs

    The chain the test's server thread runs between the queue of its listener
    and the event loop: every message is stamped, counted, traced every ten
    thousandth time, and sent back out of the connection [token] names. *)

From S2P Require Import Prelude Effects Sendable Reactive Subscribers Processors Publishers Scheduler Protocol Mio StreamBuf MioModel.

Section Echo.
Context {X Els A : Type}.
Abbreviation Msg := (ProtoMsg A).
Abbreviation V := (ProtoMsg A).
Context `{!EventLoopSenderOps V X Els (StreamBuf A)} `{!ClockOps V X} `{!Debug ((Msg * Z) * Z)}.

(** ** The closures and the chain *)

Definition stamp (tup : Msg) : M V X (Msg * Z) := let! t := precise_time_ns in ret (tup, t).
Definition every_10000th (x : (Msg * Z) * Z) : M V X bool := ret (x.2 mod 10000 =? 0)%Z.
Definition readdress (x : (Msg * Z) * Z) (t : Token) : M V X (StreamBuf A) := ret (mkStreamBuf (pm_item x.1.1) t).

Definition map2_t : Type := MapVal1.t V X ((Msg * Z) * Z) Token (StreamBuf A) (Decoupler.t Els (StreamBuf A)).
Definition trace_t : Type := DebugWhile.t V X ((Msg * Z) * Z) map2_t.
Definition red_t : Type := Enumerate.t trace_t.
Definition map1_t : Type := Map.t V X Msg (Msg * Z) red_t.

(** The body of the thread up to [rec.run()]. *)
Definition echo (srv_rx : Receiver) (dtx : Els) (token : Token) : M V X (Coupler.t map1_t) :=
  let rec := Coupler.new srv_rx in
  let map1 := Map.new stamp in
  let red := Enumerate.new in
  let trace := DebugWhile.new every_10000th in
  let map2 := MapVal1.new token readdress in
  let sen := Decoupler.new dtx in
  let! _ := println "before the thingy" in
  let! map2 := subscribe map2 sen in
  let! trace := subscribe trace map2 in
  let! red := subscribe red trace in
  let! map1 := subscribe map1 red in
  subscribe rec map1.

(** ** What it does *)

(** What the code relies on besides the event loop's sender: the clock
    answers, and touches neither the queues nor the output. *)
Context `{!EventLoopSenderLaws V X Els (StreamBuf A)}.
Class ClockLaws : Prop :=
  clock_law : forall w : World V X, exists t w', precise_time_ns w = Done t w' /\
    chans w' = chans w /\ stdout w' = stdout w /\ mail (ext w') = mail (ext w).
Context `{!ClockLaws}.

(** The chain with [c] messages seen. *)
Definition chain (srv_rx : Receiver) (dtx : Els) (token : Token) (c : Z) : Coupler.t map1_t :=
  Coupler.mk srv_rx (Some (Map.mk stamp (Some (Enumerate.mk (Some
    (DebugWhile.mk every_10000th (Some (MapVal1.mk readdress (Some (Decoupler.mk None dtx)) (Some 0%Z) token)) (Some 0%Z)))
    (Some 0%Z) c)) (Some 0%Z))).

(** The messages among [n] that are traced, the first of them numbered [c]. *)
Definition traced (c : Z) (n : nat) : nat := length (filter (fun i => (i mod 10000 = 0)%Z) (seqZ c (Z.of_nat n))).

(** What has become of the world: [ms] were sent back to [token], [k] lines
    were printed. *)
Definition echoed (token : Token) (ms : list Msg) (k : nat) (w w' : World V X) : Prop :=
  mail (ext w') = mail (ext w) ++ map (fun m => mkStreamBuf (pm_item m) token) ms /\
  exists lines, stdout w' = stdout w ++ lines /\ length lines = k.

Lemma echoed_trans token m1 m2 k1 k2 w1 w2 w3 :
  echoed token m1 k1 w1 w2 -> echoed token m2 k2 w2 w3 -> echoed token (m1 ++ m2) (k1 + k2) w1 w3.
Proof.
  intros [M1 (l1 & S1 & L1)] [M2 (l2 & S2 & L2)]. split.
  - by rewrite M2, M1, map_app, app_assoc.
  - exists (l1 ++ l2). rewrite S2, S1, length_app. split; [by rewrite app_assoc|lia].
Qed.

Lemma traced_S c n : traced c (S n) = traced c 1 + traced (c + 1) n.
Proof.
  unfold traced. rewrite !(seqZ_cons c) by lia. rewrite !filter_cons.
  replace (Z.pred (Z.of_nat (S n))) with (Z.of_nat n) by lia. rewrite <- Z.add_1_r.
  change (Z.pred (Z.of_nat 1)) with 0%Z. simpl. destruct (decide (c mod 10000 = 0)%Z); simpl; lia.
Qed.

Lemma traced_1 c : traced c 1 = if (c mod 10000 =? 0)%Z then 1 else 0.
Proof.
  unfold traced. rewrite seqZ_cons, filter_cons by lia.
  destruct (Z.eqb_spec (c mod 10000) 0); [by rewrite decide_True|by rewrite decide_False].
Qed.

(** One message through the chain, up to the sender's answer: it is stamped,
    counted, perhaps printed, and given to the event loop for [token]. *)
Lemma echo_one_calls rx dtx token c m q n b (w : World V X) :
  chans w !! rx_chan rx = Some (mkChan (m :: q) n true b) ->
  exists t w1 w2 w3, precise_time_ns w1 = Done t w2 /\ ext w1 = ext w /\ ext w3 = ext w2 /\
    chans w3 = <[rx_chan rx := mkChan q n true b]> (chans w) /\
    (exists l, stdout w3 = stdout w ++ l /\ length l = traced c 1) /\
    next (chain rx dtx token c) w =
      (let! r := els_send dtx (mkStreamBuf (pm_item m) token) in
       ret (chain rx dtx token (u64 (c + 1)), match r with Ok _ => true | Err _ => false end)) w3.
Proof.
  intros Hq. set (w1 := with_chans w (<[rx_chan rx := mkChan q n true b]> (chans w))).
  destruct (clock_law w1) as (t & w2 & Et & Hc2 & Hs2 & Hm2).
  set (w3 := if (c mod 10000 =? 0)%Z
             then mkWorld (stdout w2 ++ [debug_fmt (m, t, c)]) (log w2) (chans w2) (ext w2) else w2).
  exists t, w1, w2, w3. split; [done|]. split; [done|].
  assert (H3 : chans w3 = chans w2 /\ ext w3 = ext w2 /\ exists l, stdout w3 = stdout w2 ++ l /\ length l = traced c 1).
  { unfold w3. rewrite traced_1. destruct (c mod 10000 =? 0)%Z; simpl.
    - split; [done|]. split; [done|]. by eexists.
    - split; [done|]. split; [done|]. exists []. by rewrite app_nil_r. }
  destruct H3 as (Hc3 & He3 & l & Hs3 & Hl). split; [done|]. split; [by rewrite Hc3, Hc2|]. split; [exists l; by rewrite Hs3, Hs2|].
  simpl next at 1. unfold Coupler.next, bind at 1, recv. simpl. rewrite Hq. simpl. fold w1.
  unfold bind, Map.on_next, bind. simpl. unfold stamp, bind. rewrite Et. simpl.
  unfold Enumerate.on_next, bind. simpl. unfold DebugWhile.on_next, bind. simpl.
  assert (Hprint : (if (c mod 10000 =? 0)%Z then println (debug_fmt (m, t, c)) else ret tt) w2 = Done tt w3).
  { unfold w3. by destruct (c mod 10000 =? 0)%Z. }
  rewrite Hprint. unfold MapVal1.on_next, bind. simpl. unfold Decoupler.on_next, bind. simpl.
  unfold EventLoopSender_send, bind. by destruct (els_send _ _ _) as [[]| | |].
Qed.

Lemma echo_one rx dtx token c m q n b (w : World V X) :
  chans w !! rx_chan rx = Some (mkChan (m :: q) n true b) ->
  exists w', next (chain rx dtx token c) w = Done (chain rx dtx token (u64 (c + 1)), true) w' /\
    chans w' = <[rx_chan rx := mkChan q n true b]> (chans w) /\ echoed token [m] (traced c 1) w w'.
Proof.
  intros Hq. destruct (echo_one_calls rx dtx token c m q n b w Hq) as (t & w1 & w2 & w3 & Et & E1 & E3 & Hc3 & (l & Hs3 & Hl) & E).
  destruct (els_send_law dtx (mkStreamBuf (pm_item m) token) w3) as (w4 & Es & Hc4 & Hs4 & Hm4).
  destruct (clock_law w1) as (t' & w2' & Et' & _ & _ & Hm2). rewrite Et in Et'. injection Et' as <- <-.
  exists w4. split; [rewrite E; unfold bind; by rewrite Es|]. split; [by rewrite Hc4|].
  split; [by rewrite Hm4, E3, Hm2, E1|]. exists l. by rewrite Hs4, Hs3.
Qed.

(** A queue that is empty and closed ends the chain. *)
Lemma echo_closed rx dtx token c b (w : World V X) :
  chans w !! rx_chan rx = Some (mkChan [] 0 true b) ->
  exists w', next (chain rx dtx token c) w = Done (chain rx dtx token c, false) w' /\
    chans w' = chans w /\ stdout w' = stdout w /\ ext w' = ext w.
Proof.
  intros Hq. simpl next. unfold Coupler.next, bind, recv. simpl. rewrite Hq. simpl. by eexists.
Qed.

End Echo.

(** ** Concrete instances *)

Section Instances.
Abbreviation Block := (list byte).
#[local] Instance still_clock : ClockOps (ProtoMsg Block) Net := {
  precise_time_ns := ret 7%Z;
  nanosleep _ := ret tt;
  timer_new := ret (Ok tt)
}.
#[local] Instance show_traced : Debug ((ProtoMsg Block * Z) * Z) := fun x => pretty x.2.

#[local] Instance ClockLaws_still : ClockLaws (X := Net) (Els := unit) (A := Block).
Proof. intros w. do 2 eexists. by splits. Qed.

Definition two_waiting : World (ProtoMsg Block) Net :=
  mkWorld [] [] {[ 0 := mkChan [mkProtoMsg [x41] 256; mkProtoMsg [x42] 257] 0 true None ]} quiet.

End Instances.
