(* ===== verification/Outbound.v ===== *)
(** * What the engine sends: the write queues of src/src/reactor.rs

    The bytes of the messages given to [notify] reach the sockets of their
    connections complete, once and in order, however little each write takes.
    The theorems are stated against the promises of a socket and of the event
    loop; MioModel.v keeps them. *)

From S2P Require Import Prelude Effects Sendable Protocol Mio StreamBuf NetStream Reactor MioModel.

(** ** What the code relies on *)

(** What a socket has sent so far is visible in the third-party state.  A
    write either takes a prefix of the buffer, which is not empty if the
    buffer is not, or takes nothing and says so; it keeps the address, the
    queues and the other sockets. *)
Class SockLaws (V X A AB Sender : Type) `{!MioTypes} `{!Iobuf A} `{!MioOps V X (StreamBuf A) (ReadBuf AB) Sender} := {
  sent : X -> TcpSocket -> list byte;
  sock_write_law : forall s b (w : World V X), exists b' r w',
    sock_write s b w = Done (b', r) w' /\ sb_tok b' = sb_tok b /\ chans w' = chans w /\
    (forall s', s' <> s -> sent (ext w') s' = sent (ext w) s') /\
    match r with
    | Ok (Ready n) =>
        (0 <= n <= iob_len (sb_buf b) /\ (0 < iob_len (sb_buf b) -> 0 < n))%Z /\
        as_window_slice (sb_buf b') = drop (Z.to_nat n) (as_window_slice (sb_buf b)) /\
        sent (ext w') s = sent (ext w) s ++ take (Z.to_nat n) (as_window_slice (sb_buf b))
    | _ => as_window_slice (sb_buf b') = as_window_slice (sb_buf b) /\ sent (ext w') s = sent (ext w) s
    end;
  (** A registered socket can be registered again, and that sends nothing. *)
  reregister_law : forall s t i (w : World V X), exists w',
    reregister_conn s t i w = Done (Ok tt) w' /\ chans w' = chans w /\
    forall s', sent (ext w') s' = sent (ext w) s'
}.

(** ** Write queues *)

Section Queue.
Context {A : Type} `{!Iobuf A} `{!IobufLaws A}.

(** The bytes still to be written, and the work a queue can take. *)
Definition pending (o : list (StreamBuf A)) : list byte := concat (map StreamBuf_bytes o).
Definition weight (o : list (StreamBuf A)) : nat := sum_list (map (fun b => S (length (StreamBuf_bytes b))) o).

(** No buffer of the queue is empty. *)
Definition solid (o : list (StreamBuf A)) : Prop := Forall (fun b => StreamBuf_bytes b <> []) o.

(** A queue of buffers that are not empty holds no more buffers than bytes. *)
Lemma solid_weight o : solid o -> weight o <= 2 * length (pending o).
Proof.
  unfold weight, pending. induction 1 as [|b o Hb _ IH]; simpl; [lia|]. rewrite length_app.
  destruct (StreamBuf_bytes b); [done|simpl in *; lia].
Qed.

Lemma solid_empty o : solid o -> pending o = [] -> o = [].
Proof. destruct 1 as [|b o Hb _]; [done|]. unfold pending. simpl. intros [? _]%app_eq_nil. done. Qed.

(** Buffers of a length the code can hold. *)
Definition fits (b : StreamBuf A) : Prop := (iob_len (sb_buf b) < 2 ^ 32)%Z.

Lemma iob_usize b : fits b -> usize (iob_len (sb_buf b)) = Z.of_nat (length (StreamBuf_bytes b)).
Proof.
  unfold fits, StreamBuf_bytes. rewrite iob_len_window. intros Hf. apply usize_small. lia.
Qed.

Lemma pending_cons b o : pending (b :: o) = StreamBuf_bytes b ++ pending o.
Proof. done. Qed.

Lemma weight_app o o' : weight (o ++ o') = weight o + weight o'.
Proof. unfold weight. induction o as [|b o IH]; simpl; [done|]. lia. Qed.

Lemma pending_app o o' : pending (o ++ o') = pending o ++ pending o'.
Proof. unfold pending. by rewrite map_app, concat_app. Qed.
End Queue.

#[export] Hint Rewrite @pending_cons @weight_app @pending_app : rx_rw.

Section Outbound.
Context {X Alloc AB A T Out CB Sender : Type} {Slab : Type -> Type}.
Abbreviation V := (ProtoMsg Out).
Context `{!MioTypes} `{!Iobuf A} `{!IobufLaws A} `{!AppendBufOps Alloc AB A}.
Context `{!SlabOps Slab} `{!SlabLaws Slab}.
Context `{!MioOps V X (StreamBuf A) (ReadBuf AB) Sender} `{!SockLaws V X A AB Sender}.
Abbreviation Conn := (Connection A AB T).
Abbreviation Inner := (EngineInner Slab Alloc A AB T CB).
Implicit Types w : World V X.

(** From [c] to [c'] only the write queue and the interest have changed, and
    the socket has sent exactly what the queue has lost. *)
Record drained (c c' : Conn) w w' : Prop := {
  dr_sock : sock c' = sock c;
  dr_tx : conn_tx c' = conn_tx c;
  dr_marker : marker c' = marker c;
  dr_proto : proto c' = proto c;
  dr_buf : buf c' = buf c;
  dr_bytes : exists bs, sent (ext w') (sock c) = sent (ext w) (sock c) ++ bs /\
                        pending (outbuf c) = bs ++ pending (outbuf c');
  dr_others : forall s, s <> sock c -> sent (ext w') s = sent (ext w) s;
  dr_weight : weight (outbuf c') <= weight (outbuf c);
  dr_fits : Forall fits (outbuf c');
  dr_solid : solid (outbuf c) -> solid (outbuf c');
  dr_chans : chans w' = chans w
}.

Lemma drained_refl c w : Forall fits (outbuf c) -> drained c c w w.
Proof. split; try done. exists []. by rewrite app_nil_r. Qed.

Lemma drained_trans c1 c2 c3 w1 w2 w3 :
  drained c1 c2 w1 w2 -> drained c2 c3 w2 w3 -> drained c1 c3 w1 w3.
Proof.
  intros [] []. split; try congruence.
  - destruct dr_bytes0 as (b1 & E1 & P1), dr_bytes1 as (b2 & E2 & P2). exists (b1 ++ b2).
    rewrite <- dr_sock0 at 1. rewrite E2, dr_sock0, E1, P1, P2. by rewrite !app_assoc.
  - intros s Hs. rewrite dr_others1 by congruence. by apply dr_others0.
  - lia.
  - auto.
Qed.

(** One write and what the loop makes of its answer. *)
Lemma drain_write (c : Conn) front rest w :
  outbuf c = front :: rest -> Forall fits (outbuf c) ->
  exists front' r w1, sock_write (sock c) front w = Done (front', r) w1 /\
    match r with
    | Ok (Ready n) => forall l,
        let o := if (n =? usize (iob_len (sb_buf front)))%Z then rest else front' :: rest in
        drained c (with_outbuf o c) w (mkWorld (stdout w1) l (chans w1) (ext w1)) /\
        weight o < weight (outbuf c)
    | _ => forall l, drained c (with_outbuf (front' :: rest) c) w (mkWorld (stdout w1) l (chans w1) (ext w1))
    end.
Proof.
  intros Ho Hfit. destruct (sock_write_law (sock c) front w) as (front' & r & w1 & E & Ht & Hch & Hoth & Hr).
  exists front', r, w1. split; [done|]. rewrite Ho in Hfit. inversion Hfit as [|? ? Hf Hrest]; subst.
  pose proof (iob_usize front Hf) as Hlen. pose proof (iob_len_window (sb_buf front)) as Hlw.
  unfold fits in Hf. unfold StreamBuf_bytes in *.
  assert (Hsame : as_window_slice (sb_buf front') = as_window_slice (sb_buf front) -> sent (ext w1) (sock c) = sent (ext w) (sock c) ->
    forall l, drained c (with_outbuf (front' :: rest) c) w (mkWorld (stdout w1) l (chans w1) (ext w1))).
  { intros Hb Hs l. split; simpl; try done; rewrite ?Ho.
    - exists []. rewrite !pending_cons. unfold StreamBuf_bytes. by rewrite Hs, Hb, app_nil_r.
    - unfold weight. simpl. unfold StreamBuf_bytes. rewrite Hb. lia.
    - constructor; [|done]. unfold fits. by rewrite iob_len_window, Hb, <- iob_len_window.
    - unfold solid, StreamBuf_bytes. by rewrite !Forall_cons, Hb. }
  destruct r as [[n|]|e]; [|by apply Hsame; apply Hr..].
  destruct Hr as ([Hn Hpos] & Hb & Hs). intros l. rewrite Hlen. simpl.
  destruct (Z.eqb_spec n (Z.of_nat (length (as_window_slice (sb_buf front))))) as [->|Hne].
  - rewrite Nat2Z.id in *. rewrite take_ge in Hs by done. split.
    + split; simpl; try done; rewrite ?Ho.
      * by exists (StreamBuf_bytes front).
      * unfold weight. simpl. lia.
      * unfold solid. rewrite Forall_cons. by intros [_ ?].
    + rewrite Ho. unfold weight. simpl. lia.
  - assert (Hlt : length (as_window_slice (sb_buf front')) < length (as_window_slice (sb_buf front))).
    { rewrite Hb, length_drop. lia. }
    split.
    + split; simpl; try done; rewrite ?Ho.
      * eexists. split; [exact Hs|]. rewrite !pending_cons. unfold StreamBuf_bytes.
        by rewrite Hb, app_assoc, take_drop.
      * unfold weight. simpl. unfold StreamBuf_bytes. lia.
      * constructor; [|done]. unfold fits. rewrite iob_len_window. lia.
      * unfold solid, StreamBuf_bytes. rewrite !Forall_cons, Hb. intros [_ Hs']. split; [|done].
        intros Hnil. apply (f_equal length) in Hnil. rewrite length_drop in Hnil. simpl in Hnil. lia.
    + rewrite Ho. unfold weight. simpl. unfold StreamBuf_bytes. lia.
Qed.

Lemma drain_loop_drains fuel (c : Conn) w :
  Forall fits (outbuf c) -> weight (outbuf c) < fuel ->
  exists c' w', drain_loop fuel c w = Done c' w' /\ drained c c' w w' /\ interest c' = interest c.
Proof.
  revert c w. induction fuel as [|fuel IH]; intros c w Hfit Hfuel; [lia|]. simpl.
  destruct (outbuf c) as [|front rest] eqn:Ho.
  { exists c, w. split; [done|]. split; [|done]. apply drained_refl. by rewrite Ho. }
  rewrite <- Ho in *. destruct (drain_write c front rest w Ho Hfit) as (front' & r & w1 & E & Hr).
  unfold bind at 1. rewrite E. destruct r as [[n|]|e]; simpl.
  - unfold bind, debug, log_at. specialize (Hr (log w1 ++ [mkLog LDebug "Wrote {:?} out of {:?} bytes to socket"
      [pretty n; pretty (usize (iob_len (sb_buf front)))]])). simpl in Hr. destruct Hr as [Hd Hlt].
    destruct (n =? usize (iob_len (sb_buf front)))%Z;
      (edestruct IH as (c' & w' & E' & Hd' & Hi'); [exact (dr_fits _ _ _ _ Hd)|simpl; lia|];
       exists c', w'; split; [exact E'|]; split; [by eapply drained_trans|exact Hi']).
  - unfold bind, debug, log_at, ret. do 2 eexists. split; [reflexivity|]. split; [apply Hr|done].
  - unfold bind, error, log_at, ret. do 2 eexists. split; [reflexivity|]. split; [apply Hr|done].
Qed.

(** C21: Draining ends, with a fuel of one more than the bytes and buffers
    queued; it writes a prefix of the queued bytes, in order, and keeps the
    rest; and it answers the number of buffers left. *)
Theorem drain_write_queue fuel (c : Conn) w :
  Forall fits (outbuf c) -> weight (outbuf c) < fuel ->
  exists c' w' bs, drain_write_queue_to_socket fuel c w = Done (c', Z.of_nat (length (outbuf c'))) w' /\
    sent (ext w') (sock c) = sent (ext w) (sock c) ++ bs /\
    pending (outbuf c) = bs ++ pending (outbuf c') /\
    (forall s, s <> sock c -> sent (ext w') s = sent (ext w) s) /\
    c' = with_outbuf (outbuf c') c.
Proof.
  intros Hfit Hfuel. destruct (drain_loop_drains fuel c w Hfit Hfuel) as (c' & w' & E & [] & Hi).
  destruct dr_bytes0 as (bs & Hs & Hp). exists c', w', bs.
  unfold drain_write_queue_to_socket, bind. rewrite E. splits. destruct c, c'. simpl in *. by subst.
Qed.

(** ** The handlers that drain *)

Lemma drain_and_rearm_drains fuel tok (c : Conn) w :
  Forall fits (outbuf c) -> weight (outbuf c) < fuel ->
  exists c' w', drain_and_rearm fuel tok c w = Done c' w' /\ drained c c' w w' /\
    interest c' = if decide (outbuf c' = []) then interest c else interest_or (interest c) WRITABLE.
Proof.
  intros Hfit Hfuel. destruct (drain_loop_drains fuel c w Hfit Hfuel) as (c' & w1 & E & Hd & Hi).
  unfold drain_and_rearm, drain_write_queue_to_socket, bind, ret. rewrite E.
  destruct (Z.gtb_spec (Z.of_nat (length (outbuf c'))) 0) as [Hlen|Hlen].
  - simpl. destruct (reregister_law (sock c') tok (interest_or (interest c') WRITABLE) w1) as (w' & -> & Hch & Hsent).
    simpl. do 2 eexists. split; [reflexivity|]. split.
    + destruct Hd. split; simpl; try done; [|intros; rewrite Hsent; auto|congruence].
      by rewrite Hsent.
    + simpl. rewrite decide_False; [by rewrite Hi|]. intros Hnil. rewrite Hnil in Hlen. simpl in Hlen. lia.
  - exists c', w1. split; [done|]. split; [done|]. rewrite decide_True; [done|].
    destruct (outbuf c'); [done|simpl in Hlen; lia].
Qed.
(** A handler that touches nothing but the connection at [t]: seen from any
    connection, its socket and what it has sent or will send. *)
Definition out_bytes (c : Conn) w : list byte := sent (ext w) (sock c) ++ pending (outbuf c).

(** Connections have sockets of their own, and buffers the code can hold. *)
Record out_ok (self : Inner) : Prop := {
  ok_sockets : forall t1 t2 c1 c2, slab_get (conns self) t1 = Some c1 ->
    slab_get (conns self) t2 = Some c2 -> t1 <> t2 -> sock c1 <> sock c2;
  ok_fits : forall t c, slab_get (conns self) t = Some c -> Forall fits (outbuf c)
}.

(** What a message, or none, adds to the connection it is addressed to. *)
Definition added (o : list (StreamBuf A)) (t : Token) : list byte :=
  pending (filter (fun m => sb_tok m = t) o).

(** What the outgoing side leaves of a connection, and of the engine. *)
Definition kept (c c' : Conn) : Prop :=
  sock c' = sock c /\ conn_tx c' = conn_tx c /\ marker c' = marker c /\ proto c' = proto c /\ buf c' = buf c.

Lemma kept_trans (c1 c2 c3 : Conn) : kept c1 c2 -> kept c2 c3 -> kept c1 c3.
Proof. unfold kept. intuition congruence. Qed.

(** What has become of a write queue [q] to which at most [o] was added. *)
Definition queued (q o q' : list (StreamBuf A)) : Prop :=
  weight q' <= weight q + weight o /\ (solid q -> solid o -> solid q').

Lemma queued_refl q o : queued q o q.
Proof. split; [lia|done]. Qed.

Lemma queued_trans q1 q2 q3 o o' : queued q1 o q2 -> queued q2 o' q3 -> queued q1 (o ++ o') q3.
Proof.
  intros [W1 S1] [W2 S2]. split; [rewrite weight_app; lia|]. intros H1 [H2 H3]%Forall_app. auto.
Qed.

(** The queue of the connection at [t] is extended by [o] and drained. *)
Lemma drain_at fuel (self : Inner) t (c : Conn) (o : list (StreamBuf A)) w :
  out_ok self -> slab_get (conns self) t = Some c -> Forall (fun m => fits m /\ sb_tok m = t) o ->
  weight (outbuf c) + weight o < fuel ->
  exists c1 w', drain_and_rearm fuel t (with_outbuf (outbuf c ++ o) c) w = Done c1 w' /\
    let self' := with_conns (slab_set (conns self) t c1) self in
    out_ok self' /\
    (forall t' c', slab_get (conns self) t' = Some c' -> exists c2, slab_get (conns self') t' = Some c2 /\
      kept c' c2 /\ queued (outbuf c') o (outbuf c2) /\
      out_bytes c2 w' = out_bytes c' w ++ added o t') /\
    (forall t', is_Some (slab_get (conns self') t') -> is_Some (slab_get (conns self) t')) /\
    chans w' = chans w.
Proof.
  intros [Hsock Hfits] Hc Ho Hfuel.
  assert (Hf : Forall fits (outbuf (with_outbuf (outbuf c ++ o) c))).
  { simpl. apply Forall_app. split; [by eapply Hfits|]. eapply Forall_impl; [exact Ho|]. by intros ? [? _]. }
  destruct (drain_and_rearm_drains fuel t _ w Hf) as (c1 & w' & E & Hd & _); [simpl; by rewrite weight_app|].
  pose proof (dr_sock _ _ _ _ Hd) as Hs1. simpl in Hs1.
  exists c1, w'. split; [exact E|]. simpl.
  destruct (slab_set_laws _ (conns self) t c1) as (Hget & Hoth & _); [by eexists|].
  assert (Hadd : forall t', added o t' = if decide (t' = t) then pending o else []).
  { intros t'. unfold added. case_decide as Ht.
    - subst. f_equal. clear -Ho. induction Ho as [|m o [_ Hm] _ IH]; [done|]. rewrite filter_cons, decide_True by done. by rewrite IH.
    - clear -Ho Ht. induction Ho as [|m o [_ Hm] _ IH]; [done|]. rewrite filter_cons, decide_False by congruence. exact IH. }
  assert (Hview : forall t' c2, slab_get (slab_set (conns self) t c1) t' = Some c2 ->
    (t' = t /\ c2 = c1) \/ (t' <> t /\ slab_get (conns self) t' = Some c2)).
  { intros t' c2 H2. destruct (decide (t' = t)) as [->|Hne]; [left|right].
    - rewrite Hget in H2. by simplify_eq.
    - by rewrite Hoth in H2. }
  split; [split; simpl | split; [|split]].
  - intros t1 t2 d1 d2 H1 H2 Hne.
    destruct (Hview _ _ H1) as [[-> ->]|[? H1']]; destruct (Hview _ _ H2) as [[-> ->]|[? H2']]; try done; rewrite ?Hs1; eauto.
  - intros t' d Hd'. destruct (Hview _ _ Hd') as [[-> ->]|[? H']]; [by apply (dr_fits _ _ _ _ Hd)|eauto].
  - intros t' c' Hc'. rewrite Hadd. case_decide as Ht.
    + subst. rewrite Hc in Hc'. simplify_eq. exists c1. split; [exact Hget|]. split; [by destruct Hd|]. split.
      * pose proof (dr_weight _ _ _ _ Hd) as Hw. simpl in Hw. rewrite weight_app in Hw. split; [exact Hw|].
        intros H1 H2. apply (dr_solid _ _ _ _ Hd). by apply Forall_app.
      * destruct (dr_bytes _ _ _ _ Hd) as (bs & E1 & E2). simpl in *. unfold out_bytes.
        by rewrite Hs1, E1, <- !app_assoc, <- E2, pending_app.
    + exists c'. rewrite Hoth by done. split; [done|]. split; [by unfold kept|]. split; [apply queued_refl|]. unfold out_bytes.
      rewrite app_nil_r, (dr_others _ _ _ _ Hd); [done|]. simpl. by eapply Hsock.
  - intros t' [c2 Hc2]. destruct (Hview _ _ Hc2) as [[-> _]|[_ ?]]; by eexists.
  - apply (dr_chans _ _ _ _ Hd).
Qed.

(** ** Histories *)

(** The events that concern the outgoing side, and a history of them, as the
    event loop calls the handlers. *)
Inductive OutEvent := ENotify (m : StreamBuf A) | EWritable (t : Token).

Definition handle_out (fuel : nat) (self : Inner) (e : OutEvent) : M V X Inner :=
  match e with
  | ENotify m => notify fuel self m
  | EWritable t => writable fuel self t
  end.

Fixpoint handle_all (fuel : nat) (self : Inner) (es : list OutEvent) : M V X Inner :=
  match es with
  | [] => ret self
  | e :: es' => let! self' := handle_out fuel self e in handle_all fuel self' es'
  end.

(** The messages of a history. *)
Definition messages (es : list OutEvent) : list (StreamBuf A) :=
  flat_map (fun e => match e with ENotify m => [m] | EWritable _ => [] end) es.

(** What one event, and then a history, does for every connection. *)
Definition served (o : list (StreamBuf A)) (self self' : Inner) w w' : Prop :=
  out_ok self' /\
  (forall t c, slab_get (conns self) t = Some c -> exists c', slab_get (conns self') t = Some c' /\
    kept c c' /\ queued (outbuf c) o (outbuf c') /\
    out_bytes c' w' = out_bytes c w ++ added o t) /\
  (forall t, is_Some (slab_get (conns self') t) -> is_Some (slab_get (conns self) t)) /\
  chans w' = chans w /\ listeners self' = listeners self /\ config self' = config self.

Lemma added_app o o' t : added (o ++ o') t = added o t ++ added o' t.
Proof. unfold added. by rewrite filter_app, pending_app. Qed.

Lemma served_unseen (self : Inner) o l w :
  out_ok self -> (forall t, is_Some (slab_get (conns self) t) -> added o t = []) ->
  served o self self w (mkWorld (stdout w) l (chans w) (ext w)).
Proof.
  intros Hok Ho. split; [done|]. split; [|done].
  intros t c Hc. exists c. split; [done|]. split; [by unfold kept|]. split; [apply queued_refl|]. rewrite Ho by (by eexists). by rewrite app_nil_r.
Qed.

Lemma handle_out_serves fuel (self : Inner) e w :
  out_ok self -> Forall fits (messages [e]) ->
  (forall t c, slab_get (conns self) t = Some c -> weight (outbuf c) + weight (messages [e]) < fuel) ->
  exists self' w', handle_out fuel self e w = Done self' w' /\ served (messages [e]) self self' w w'.
Proof.
  intros Hok Hfit Hfuel. destruct e as [m|t]; simpl in *.
  - unfold notify. inversion Hfit as [|? ? Hm _]; subst. destruct (slab_get (conns self) (sb_tok m)) as [c|] eqn:Hc.
    + destruct (drain_at fuel self (sb_tok m) c [m] w Hok Hc) as (c1 & w' & E & Hserved); [by repeat constructor|eauto|].
      unfold bind. rewrite E. do 2 eexists. split; [reflexivity|]. destruct Hserved as (G1 & G2 & G3 & G4). exact (conj G1 (conj G2 (conj G3 (conj G4 (conj eq_refl eq_refl))))).
    + exists self, w. split; [done|].
      destruct w as [o l cs x]. apply (served_unseen self [m] l (mkWorld o l cs x) Hok).
      intros t [c' Hc']. unfold added. by rewrite filter_cons, decide_False by congruence.
  - unfold writable, debug, log_at, bind at 1. destruct (slab_get (conns self) t) as [c|] eqn:Hc.
    + destruct (drain_at fuel self t c [] (mkWorld (stdout w)
        (log w ++ [mkLog LDebug "mio_processor::writable, token: {:?}" [debug_token t]]) (chans w) (ext w)) Hok Hc)
        as (c1 & w' & E & Hserved); [done|eauto|]. rewrite app_nil_r in E.
      assert (Hw : with_outbuf (outbuf c) c = c) by (by destruct c). rewrite Hw in E.
      unfold bind. rewrite E. do 2 eexists. split; [reflexivity|]. destruct Hserved as (G1 & G2 & G3 & G4). exact (conj G1 (conj G2 (conj G3 (conj G4 (conj eq_refl eq_refl))))).
    + do 2 eexists. split; [reflexivity|]. by apply served_unseen.
Qed.

(** A whole history. *)
Lemma handle_all_serves fuel (self : Inner) (es : list OutEvent) w :
  out_ok self -> Forall fits (messages es) ->
  (forall t c, slab_get (conns self) t = Some c -> weight (outbuf c) + weight (messages es) < fuel) ->
  exists self' w', handle_all fuel self es w = Done self' w' /\ served (messages es) self self' w w'.
Proof.
  revert self w. induction es as [|e es IH]; intros self w Hok Hfit Hfuel.
  { exists self, w. split; [done|]. destruct w as [o l cs x]. by apply (served_unseen self [] l (mkWorld o l cs x)). }
  assert (Hm : messages (e :: es) = messages [e] ++ messages es) by (unfold messages; simpl; by rewrite app_nil_r).
  rewrite Hm in *. clear Hm.
  apply Forall_app in Hfit as [Hf1 Hf2]. setoid_rewrite weight_app in Hfuel.
  destruct (handle_out_serves fuel self e w Hok Hf1) as (s1 & w1 & E1 & Hok1 & Hs1 & Hd1 & Hc1 & Hl1 & Hg1).
  { intros t c Hc. specialize (Hfuel t c Hc). lia. }
  destruct (IH s1 w1 Hok1 Hf2) as (s2 & w2 & E2 & Hok2 & Hs2 & Hd2 & Hc2 & Hl2 & Hg2).
  { intros t c1 Ht1. destruct (Hd1 t) as [c Hc]; [by eexists|].
    destruct (Hs1 t c Hc) as (c1' & Hc1' & _ & [Hle _] & _). simplify_eq. specialize (Hfuel t c Hc). lia. }
  exists s2, w2. split; [simpl; unfold bind; by rewrite E1|].
  split; [done|]. split; [|split; [by eauto|split; [congruence|split; congruence]]].
  intros t c Hc. destruct (Hs1 t c Hc) as (c1 & H1 & K1 & W1 & B1). destruct (Hs2 t c1 H1) as (c2 & H2 & K2 & W2 & B2).
  exists c2. rewrite added_app. split; [done|]. split; [by eapply kept_trans|]. split; [by eapply queued_trans|].
  by rewrite B2, B1, <- app_assoc.
Qed.

(** C8: Whatever the sockets take at a time and however the events come, for
    every connection: what its socket has sent, followed by what is still in
    its queue, grows by exactly the bytes of the messages addressed to it, in
    the order they were given to [notify].  Messages for a token without a
    connection vanish. *)
Theorem output_in_order fuel (self : Inner) (es : list OutEvent) w :
  out_ok self -> Forall fits (messages es) ->
  (forall t c, slab_get (conns self) t = Some c -> weight (outbuf c) + weight (messages es) < fuel) ->
  exists self' w', handle_all fuel self es w = Done self' w' /\
    forall t c, slab_get (conns self) t = Some c -> exists c', slab_get (conns self') t = Some c' /\
      sent (ext w') (sock c) ++ pending (outbuf c') =
      sent (ext w) (sock c) ++ pending (outbuf c) ++ pending (filter (fun m => sb_tok m = t) (messages es)).
Proof.
  intros Hok Hfit Hfuel. destruct (handle_all_serves fuel self es w Hok Hfit Hfuel) as (self' & w' & E & _ & Hs & _).
  exists self', w'. split; [exact E|].
  intros t c Hc. destruct (Hs t c Hc) as (c' & Hc' & (Hk & _) & _ & Hb). exists c'. split; [exact Hc'|].
  unfold out_bytes, added in Hb. by rewrite Hk, <- app_assoc in Hb.
Qed.
End Outbound.

(** ** The model's sockets keep the promises *)

#[export] Program Instance SockLaws_model {Out : Type} :
    SockLaws (ProtoMsg Out) Net (list byte) Append unit := {
  sent x s := lookup_list (outgoing x) s
}.
Next Obligation.
  intros Out s b w. cbn [sock_write MioOps_model]. unfold net_write, bind, get_ext.
  destruct (lookup_list (takes (ext w)) s) as [|q qs]; [by do 3 eexists|].
  cbn [put_ext ret ext chans stdout outgoing set_output sb_buf sb_tok iob_len as_window_slice Iobuf_list].
  do 3 eexists. split; [reflexivity|]. split; [done|]. split; [done|]. split; [|split; [|split; [done|]]].
  - intros s' Hs. cbn. unfold lookup_list. by rewrite lookup_insert_ne.
  - lia.
  - cbn. unfold lookup_list at 1. by rewrite lookup_insert_eq.
Qed.
Next Obligation. intros Out s t i w. exists w. by splits. Qed.

(** ** Concrete instances *)

Section Instances.
#[local] Instance Protocol_unit : Protocol (ProtoMsg (list byte)) Net unit (list byte) (list byte) := {
  proto_new := tt;
  append p _ := ret (p, None)
}.
#[local] Instance TimerCB_unit : TimerCB (ProtoMsg (list byte)) Net unit := fun c => ret (c, true).

(** A network whose socket 3 takes two bytes, then one, then blocks. *)
Definition slow : World (ProtoMsg (list byte)) Net :=
  empty_world (mkNet ∅ {[ 3%Z := [2; 1]%Z ]} ∅ [] 4 [] [] true true).

Definition slow_conn (o : list (StreamBuf (list byte))) : Connection (list byte) Append unit :=
  mkConn (H := MioTypes_model) 3%Z o 8%Z (mkSyncSender 0) 0 tt (mkReadBuf (ap_new 8)).

Definition slow_engine : EngineInner (H := MioTypes_model) GSlab unit (list byte) Append unit unit :=
  mkInner (mkSlab 0 128 ∅) (mkSlab 129 255 ∅) (mkSlab 256 300 {[ 256%Z := slow_conn [] ]})
    (mkConfig 4 8 2 44 100 None).

Lemma drain_write_queue_witness :
  exists c' w' bs, drain_write_queue_to_socket 7 (slow_conn [mkStreamBuf [x01; x02; x03; x04] 256]) slow = Done (c', 1%Z) w' /\
    lookup_list (outgoing (ext w')) 3%Z = bs /\
    [x01; x02; x03; x04] = bs ++ pending (outbuf c').
Proof.
  destruct (drain_write_queue (SockLaws0 := SockLaws_model) (T := unit) 7
    (slow_conn [mkStreamBuf [x01; x02; x03; x04] 256]) slow) as (c' & w' & bs & E & Hs & Hp & _).
  - repeat constructor.
  - simpl. unfold weight. simpl. lia.
  - exists c', w', bs. pose proof E as E'. vm_compute in E'. simplify_eq. split; [exact E|]. split; [exact Hs|]. exact Hp.
Defined.

Lemma slow_only t c : slab_get (conns slow_engine) t = Some c -> t = 256%Z /\ c = slow_conn [].
Proof. cbn. rewrite lookup_singleton_Some. by intros [<- <-]. Qed.

Lemma output_in_order_witness :
  exists self' w' c', handle_all 20 slow_engine
      [ENotify (mkStreamBuf [x01; x02] 256); ENotify (mkStreamBuf [x09] 300);
       ENotify (mkStreamBuf [x03; x04] 256); EWritable 256] slow = Done self' w' /\
    slab_get (conns self') 256 = Some c' /\
    lookup_list (outgoing (ext w')) 3%Z ++ pending (outbuf c') = [x01; x02; x03; x04].
Proof.
  destruct (output_in_order (SockLaws0 := SockLaws_model) 20 slow_engine
      [ENotify (mkStreamBuf [x01; x02] 256); ENotify (mkStreamBuf [x09] 300);
       ENotify (mkStreamBuf [x03; x04] 256); EWritable 256] slow) as (self' & w' & E & Hs).
  - split.
    + intros t1 t2 c1 c2 [-> _]%slow_only [-> _]%slow_only. done.
    + intros t c [_ ->]%slow_only. constructor.
  - repeat constructor; unfold fits; simpl; lia.
  - intros t c [_ ->]%slow_only. unfold weight. simpl. lia.
  - destruct (Hs 256%Z (slow_conn []) eq_refl) as (c' & Hc' & Hb). exists self', w', c'.
    split; [exact E|]. split; [exact Hc'|]. exact Hb.
Defined.
End Instances.
