(* ===== verification/Inbound.v ===== *)
(** * What the engine receives: cutting reads into messages

    [readable] of src/src/reactor.rs appends what the socket had to the
    connection's buffer, cuts the new bytes into messages and sends these to
    the connection's queue.  Reads that end where a message ends are all
    delivered; of a read that does not, the code loses bytes. *)

From S2P Require Import Prelude Effects Sendable Protocol Mio StreamBuf NetStream Reactor MioModel.

(** ** What a protocol promises *)

(** [append] only looks at the bytes of its buffer; [frame] says what it
    finds: a message, seen through [view], and the number of bytes it took,
    at least one. *)
Class Framing (V X T A Out B : Type) `{!Iobuf A} `{!Protocol V X T A Out} := {
  view : Out -> B;
  frame : T -> list byte -> T * option (B * nat);
  frame_progress : forall p bs p' m n, frame p bs = (p', Some (m, n)) -> 0 < n <= length bs;
  append_frame : forall p a (w : World V X),
    match frame p (as_window_slice a) with
    | (p', None) => append p a w = Done (p', None) w
    | (p', Some (m, n)) => exists item rest,
        append p a w = Done (p', Some (item, rest, Z.of_nat n)) w /\
        view item = m /\ as_window_slice rest = drop n (as_window_slice a)
    end
}.

Section Frames.
Context {V X T A Out B : Type} `{!Iobuf A} `{!Protocol V X T A Out} `{!Framing V X T A Out B}.

(** The reference: the messages at the front of some bytes, the state of the
    protocol after them and the bytes left. *)
Fixpoint frames_fuel (fuel : nat) (p : T) (bs : list byte) : T * list B * list byte :=
  match fuel with
  | O => (p, [], bs)
  | S fuel' =>
      match frame p bs with
      | (p', None) => (p', [], bs)
      | (p', Some (m, n)) =>
          let '(p'', ms, rest) := frames_fuel fuel' p' (drop n bs) in (p'', m :: ms, rest)
      end
  end.
Definition frames (p : T) (bs : list byte) : T * list B * list byte := frames_fuel (S (length bs)) p bs.

Lemma frames_fuel_enough fuel p bs : length bs < fuel -> frames_fuel fuel p bs = frames p bs.
Proof.
  unfold frames. assert (Hany : forall f1 f2 q cs, length cs < f1 -> length cs < f2 -> frames_fuel f1 q cs = frames_fuel f2 q cs).
  { intros f1. induction f1 as [|f1 IH]; intros f2 q cs H1 H2; [lia|]. destruct f2 as [|f2]; [lia|]. simpl.
    destruct (frame q cs) as [q' [[m n]|]] eqn:E; [|done].
    pose proof (frame_progress _ _ _ _ _ E). rewrite (IH f2); [done| |]; rewrite length_drop; lia. }
  intros Hlen. apply Hany; lia.
Qed.

Lemma frames_some p bs p' m n :
  frame p bs = (p', Some (m, n)) ->
  frames p bs = let '(p'', ms, rest) := frames p' (drop n bs) in (p'', m :: ms, rest).
Proof.
  intros E. pose proof (frame_progress _ _ _ _ _ E). unfold frames at 1. cbn [frames_fuel]. rewrite E.
  by rewrite frames_fuel_enough by (rewrite length_drop; lia).
Qed.

Lemma frames_none p bs p' : frame p bs = (p', None) -> frames p bs = (p', [], bs).
Proof. intros E. unfold frames. simpl. by rewrite E. Qed.

(** What is left is a suffix: nothing is skipped between messages. *)
Lemma frames_rest p bs : exists k, k <= length bs /\ (frames p bs).2 = drop k bs.
Proof.
  unfold frames. generalize (S (length bs)) as fuel. intros fuel. revert p bs.
  induction fuel as [|fuel IH]; intros p bs; simpl; [exists 0; split; [lia|done]|].
  destruct (frame p bs) as [p' [[m n]|]] eqn:E; [|exists 0; split; [lia|done]].
  pose proof (frame_progress _ _ _ _ _ E). destruct (IH p' (drop n bs)) as (k & Hk & Ek).
  destruct (frames_fuel fuel p' (drop n bs)) as [[p'' ms] rest]. simpl in *. subst.
  rewrite length_drop in Hk. exists (n + k). rewrite drop_drop. split; [lia|done].
Qed.
End Frames.

(** ** What a socket promises about reading *)

(** What will arrive on each socket, read by read.  A read that has room for
    the next chunk appends it to the buffer; the queues, the output and the
    other sockets stay as they are, also when a socket is registered again. *)
Class RecvLaws (V X Alloc A AB Sender : Type) `{!MioTypes} `{!Iobuf A} `{!AppendBufOps Alloc AB A}
    `{!MioOps V X (StreamBuf A) (ReadBuf AB) Sender} := {
  arriving : X -> TcpSocket -> list (list byte);
  sock_read_law : forall s b (w : World V X) chunk more,
    arriving (ext w) s = chunk :: more ->
    (Z.of_nat (length chunk) <= ab_len Alloc A (rb_buf b))%Z ->
    exists b' w', sock_read s b w = Done (b', Ok (Ready (Z.of_nat (length chunk)))) w' /\
      ab_written Alloc A (rb_buf b') = ab_written Alloc A (rb_buf b) ++ chunk /\
      ab_len Alloc A (rb_buf b') = (ab_len Alloc A (rb_buf b) - Z.of_nat (length chunk))%Z /\
      chans w' = chans w /\ stdout w' = stdout w /\ arriving (ext w') s = more;
  reregister_quiet : forall s t i (w : World V X), exists w',
    reregister_conn s t i w = Done (Ok tt) w' /\ chans w' = chans w /\ stdout w' = stdout w /\
    forall s', arriving (ext w') s' = arriving (ext w) s';
  sock_close_quiet : forall s (w : World V X), exists w',
    sock_close s w = Done tt w' /\ chans w' = chans w /\ stdout w' = stdout w
}.

(** ** The framing loop against its reference *)

Section Inbound.
Context {X Alloc AB A T Out CB Sender B : Type} {Slab : Type -> Type}.
Abbreviation V := (ProtoMsg Out).
Context `{!MioTypes} `{!Iobuf A} `{!IobufLaws A} `{!AppendBufOps Alloc AB A} `{!AppendBufLaws Alloc AB A}.
Context `{!SlabOps Slab} `{!SlabLaws Slab} `{!MioOps V X (StreamBuf A) (ReadBuf AB) Sender}.
Context `{!Protocol V X T A Out} `{!Framing V X T A Out B}.
Abbreviation Conn := (Connection A AB T).
Abbreviation Inner := (EngineInner Slab Alloc A AB T CB).
Implicit Types w : World V X.

(** The queue of a connection, open, with room for [n] more messages. *)
Definition open_queue (c : nat) (q : list V) (n : nat) w : Prop :=
  exists senders bound, chans w !! c = Some (mkChan q senders true (Some bound)) /\ length q + n <= bound.

(** [w'] differs from [w] in queue [c], where [items] were added, the log
    and the third-party state. *)
Definition delivered (c : nat) (items : list V) w w' : Prop :=
  stdout w' = stdout w /\
  forall c', chans w' !! c' = if decide (c' = c)
    then (fun ch => mkChan (ch_queue ch ++ items) (ch_senders ch) (ch_receiver ch) (ch_bound ch)) <$> (chans w !! c)
    else chans w !! c'.

Lemma delivered_nil c w l x : delivered c [] w (mkWorld (stdout w) l (chans w) x).
Proof.
  split; [done|]. intros c'. simpl. case_decide as Hc; [subst|done].
  destruct (chans w !! c) as [[]|] eqn:E; [|done]. simpl. by rewrite app_nil_r.
Qed.

Lemma delivered_trans c i1 i2 w1 w2 w3 :
  delivered c i1 w1 w2 -> delivered c i2 w2 w3 -> delivered c (i1 ++ i2) w1 w3.
Proof.
  intros [S1 H1] [S2 H2]. split; [congruence|]. intros c'. rewrite H2. case_decide as Hc.
  - subst. rewrite H1, decide_True by done. destruct (chans w1 !! c) as [[]|]; [|done]. simpl. by rewrite app_assoc.
  - by rewrite H1, decide_False.
Qed.

Lemma send_delivers c q n (v : V) w :
  open_queue c q (S n) w ->
  exists w', chan_send c v w = Done (Ok tt) w' /\ delivered c [v] w w' /\ open_queue c (q ++ [v]) n w' /\ ext w' = ext w.
Proof.
  intros (senders & bound & Hc & Hroom). eexists. split; [|split; [|split]].
  - apply (chan_send_open c v w _ Hc); [done|]. unfold chan_full. simpl. apply Nat.leb_gt. lia.
  - split; [done|]. intros c'. simpl. case_decide as Hd; [subst|by rewrite lookup_insert_ne].
    by rewrite lookup_insert_eq, Hc.
  - exists senders, bound. simpl. rewrite lookup_insert_eq. split; [done|]. rewrite length_app. simpl. lia.
  - done.
Qed.

Definition with_framing (m : Z) (p : T) (c : Conn) : Conn :=
  mkConn (sock c) (outbuf c) (interest c) (conn_tx c) m p (buf c).

(** The loop cuts exactly the messages of the reference, sends them in
    order, and advances the marker by the bytes they took. *)
Lemma frame_loop_frames fuel tok (a : A) (c : Conn) w q :
  length (as_window_slice a) < fuel -> (0 <= marker c < 2 ^ 32)%Z ->
  let '(p', ms, rest) := frames (proto c) (as_window_slice a) in
  open_queue (stx_chan (conn_tx c)) q (length ms) w ->
  exists a' items w',
    frame_loop fuel tok a c w =
      Done (a', with_framing (u32 (marker c + Z.of_nat (length (as_window_slice a) - length rest))) p' c) w' /\
    as_window_slice a' = rest /\ map view items = ms /\
    delivered (stx_chan (conn_tx c)) (map (fun i => mkProtoMsg i tok) items) w w' /\ ext w' = ext w.
Proof.
  revert a c w q. induction fuel as [|fuel IH]; intros a c w q Hfuel Hm; [lia|]. cbn [frame_loop].
  pose proof (append_frame (proto c) a w) as Happ.
  destruct (frame (proto c) (as_window_slice a)) as [p' [[m n]|]] eqn:E.
  - rewrite (frames_some _ _ _ _ _ E). destruct Happ as (item & rest1 & Happ & Hview & Hrest).
    pose proof (frame_progress _ _ _ _ _ E) as Hn.
    set (c1 := with_framing (u32 (marker c + Z.of_nat n)) p' c).
    specialize (IH rest1 c1). rewrite Hrest in IH. change (proto c1) with p' in IH.
    pose proof (frames_rest p' (drop n (as_window_slice a))) as (k & Hk & Ek).
    destruct (frames p' (drop n (as_window_slice a))) as [[p2 ms] rest]. simpl in Ek. intros Hopen.
    destruct (send_delivers _ q (length ms) (mkProtoMsg item tok) w Hopen) as (w1 & Hs & Hd1 & Hopen1 & Hx1).
    destruct (IH w1 _ ltac:(rewrite length_drop; lia) (wrap_range 32 _ ltac:(lia)) Hopen1) as (a' & items & w' & Hl & Ha' & Hms & Hd2 & Hx2).
    exists a', (item :: items), w'. split; [|split; [done|split; [|split]]].
    + unfold bind at 1. rewrite Happ. unfold bind at 1. cbn [send Sendable_SyncSender]. unfold SyncSender_send, bind at 1.
      rewrite Hs. unfold ret at 1. change (mkConn _ _ _ _ _ _ _) with c1. rewrite Hl. f_equal. f_equal.
      unfold c1, with_framing. simpl. f_equal. subst rest. rewrite !length_drop in *. unfold u32. rewrite wrap_add_l. f_equal. lia.
    + simpl. by rewrite Hview, Hms.
    + simpl. eapply (delivered_trans _ [_]); [exact Hd1|exact Hd2].
    + congruence.
  - rewrite (frames_none _ _ _ E). intros _. unfold bind. rewrite Happ. exists a, [], w. split.
    { rewrite Nat.sub_diag, Z.add_0_r, u32_small by done. done. }
    split; [done|]. split; [done|]. split; [|done]. destruct w. apply delivered_nil.
Qed.
(** ** One read *)

Context `{!RecvLaws V X Alloc A AB Sender}.

Definition written (c : Conn) : list byte := ab_written Alloc A (rb_buf (buf c)).

(** The bytes behind the marker: those not yet made into messages. *)
Definition unread (c : Conn) : list byte := drop (Z.to_nat (marker c)) (written c).

(** Buffer sizes that make sense, as the defaults do. *)
Definition cfg_ok (cfg : NetEngineConfig Alloc) : Prop :=
  (0 <= min_read_buf_sz cfg)%Z /\ (2 * min_read_buf_sz cfg <= read_buf_sz cfg)%Z /\ (read_buf_sz cfg < 2 ^ 32)%Z.

(** The buffer is one of the configured size, with room for a small read,
    and the marker is inside what has been written. *)
Record conn_ok (cfg : NetEngineConfig Alloc) (c : Conn) : Prop := {
  marker_ok : (0 <= marker c <= Z.of_nat (length (written c)))%Z;
  size_ok : (ab_len Alloc A (rb_buf (buf c)) + Z.of_nat (length (written c)) = read_buf_sz cfg)%Z;
  room_ok : (min_read_buf_sz cfg <= ab_len Alloc A (rb_buf (buf c)))%Z
}.

Lemma new_buf_laws cfg :
  cfg_ok cfg -> ab_len Alloc A (rb_buf (new_buf (read_buf_sz cfg) (allocator cfg))) = read_buf_sz cfg /\
  ab_written Alloc A (rb_buf (new_buf (read_buf_sz cfg) (allocator cfg))) = [].
Proof.
  intros (H1 & H2 & H3). unfold new_buf. destruct (allocator cfg); simpl; [apply ab_new_with_laws|apply ab_new_laws]; lia.
Qed.

(** Whether so little room is left that the buffer is replaced. *)
Definition room (c : Conn) : Z := ab_len Alloc A (rb_buf (buf c)).
Definition nearly_full (cfg : NetEngineConfig Alloc) (c : Conn) : bool := (room c <? min_read_buf_sz cfg)%Z.

(** Replacing the buffer keeps what the framing loop left over, and nothing
    else of the bytes behind the marker. *)
Lemma renew_buf_ok cfg (a : A) (c : Conn) :
  cfg_ok cfg -> (0 <= marker c <= Z.of_nat (length (written c)))%Z ->
  (ab_len Alloc A (rb_buf (buf c)) + Z.of_nat (length (written c)) = read_buf_sz cfg)%Z ->
  (Z.of_nat (length (as_window_slice a)) <= min_read_buf_sz cfg)%Z ->
  let c' := renew_buf cfg a c in
  conn_ok cfg c' /\
  (if nearly_full cfg c
   then unread c' = as_window_slice a /\ (room c' = read_buf_sz cfg - Z.of_nat (length (as_window_slice a)))%Z
   else unread c' = unread c /\ room c' = room c) /\
  sock c' = sock c /\ conn_tx c' = conn_tx c /\ outbuf c' = outbuf c /\ interest c' = interest c /\ proto c' = proto c.
Proof.
  intros Hcfg Hm Hsize Ha. pose proof (new_buf_laws cfg Hcfg) as [Hl Hw]. destruct Hcfg as (H1 & H2 & H3).
  unfold renew_buf, nearly_full, room. rewrite u32_small by lia.
  destruct (Z.ltb_spec (ab_len Alloc A (rb_buf (buf c))) (min_read_buf_sz cfg));
    [|split; [by split|by splits]].
  rewrite iob_len_window. set (nb := new_buf _ _) in *.
  destruct (Z.gtb_spec (Z.of_nat (length (as_window_slice a))) 0) as [Hpos|Hpos].
  - destruct (ab_fill_laws (rb_buf nb) (as_window_slice a)) as [Fw Fl]; [lia|]. rewrite Hw in Fw. simpl in Fw.
    split; [split; unfold written; simpl; rewrite ?Fw, ?Fl; lia|]. split; [|splits].
    simpl. rewrite Fl, Hl. split; [|done]. unfold unread, written. simpl. rewrite Fw. apply drop_0.
  - split; [split; unfold written; simpl; rewrite ?Hw, ?Hl; simpl; lia|]. split; [|splits].
    destruct (as_window_slice a); [|simpl in Hpos; lia]. simpl. rewrite Hl, Z.sub_0_r. split; [|done].
    unfold unread, written. simpl. by rewrite Hw, drop_nil.
Qed.

(** The bytes a read of [chunk] is cut from: as many as were read, counted
    from the marker on. *)
Definition looked_at (c : Conn) (chunk : list byte) : list byte := take (length chunk) (unread c ++ chunk).

Lemma looked_at_length (c : Conn) chunk : length (looked_at c chunk) = length chunk.
Proof. unfold looked_at. rewrite length_take, length_app. lia. Qed.

Lemma open_queue_weaken c q n n' w w' :
  open_queue c q n w -> n' <= n -> chans w' = chans w -> open_queue c q n' w'.
Proof. intros (senders & bound & Hc & Hle) Hn Hw. exists senders, bound. rewrite Hw. split; [done|lia]. Qed.

Lemma open_queue_delivered c q n items w w' :
  open_queue c q (length items + n) w -> delivered c items w w' -> open_queue c (q ++ items) n w'.
Proof.
  intros (senders & bound & Hc & Hle) [_ Hd]. exists senders, bound. split.
  - rewrite Hd, decide_True, Hc by done. done.
  - rewrite length_app. lia.
Qed.

(** The slice [readable] takes of the buffer. *)
Lemma slice_looked_at (c : Conn) chunk b' :
  (0 <= marker c <= Z.of_nat (length (written c)))%Z -> (Z.of_nat (length chunk) < 2 ^ 63)%Z ->
  ab_written Alloc A (rb_buf b') = written c ++ chunk ->
  exists a, atomic_slice_pos_from_begin Alloc (A := A) (rb_buf b') (marker c) (as_i64 (Z.of_nat (length chunk))) = Ok a /\
    as_window_slice a = looked_at c chunk.
Proof.
  intros Hm Hlen Hw. rewrite as_i64_small by lia.
  destruct (atomic_slice_laws (rb_buf b') (marker c) (Z.of_nat (length chunk))) as (a & E & Ha); [lia..| |].
  { rewrite Hw, length_app. lia. }
  exists a. split; [exact E|]. rewrite Ha, Hw, Nat2Z.id. unfold looked_at, unread.
  by rewrite drop_app_le by lia.
Qed.

(** Where the marker ends up. *)
Lemma unread_framed (c : Conn) chunk b' p' rest k :
  (0 <= marker c <= Z.of_nat (length (written c)))%Z ->
  ab_written Alloc A (rb_buf b') = written c ++ chunk ->
  (Z.of_nat (length (written c ++ chunk)) < 2 ^ 32)%Z ->
  k <= length chunk -> rest = drop k (looked_at c chunk) ->
  let c' := with_framing (u32 (marker c + Z.of_nat (length chunk - length rest))) p' (with_buf b' c) in
  unread c' = rest ++ drop (length chunk) (unread c ++ chunk) /\
  (0 <= marker c' <= Z.of_nat (length (written c')))%Z.
Proof.
  intros Hm Hw Hlen Hk ->. assert (E : length chunk - length (drop k (looked_at c chunk)) = k).
  { rewrite length_drop, looked_at_length. lia. }
  rewrite E, u32_small by (rewrite length_app in Hlen; lia). unfold unread at 1, written. simpl. rewrite Hw. split.
  - rewrite Z2Nat.inj_add, Nat2Z.id, <- drop_drop by lia. rewrite (drop_app_le (written c)) by lia.
    unfold looked_at. fold (unread c). rewrite <- (take_drop (length chunk) (unread c ++ chunk)) at 1.
    apply drop_app_le. rewrite length_take, length_app. lia.
  - rewrite length_app. lia.
Qed.

(** What is behind the marker after a read: what the framing left over and
    the bytes that were not looked at; or, when little room is left and the
    buffer is replaced, only the former. *)
Definition left_over (cfg : NetEngineConfig Alloc) (c : Conn) (chunk rest : list byte) (c' : Conn) : Prop :=
  if (room c - Z.of_nat (length chunk) <? min_read_buf_sz cfg)%Z
  then unread c' = rest /\ (room c' = read_buf_sz cfg - Z.of_nat (length rest))%Z
  else unread c' = rest ++ drop (length chunk) (unread c ++ chunk) /\ (room c' = room c - Z.of_nat (length chunk))%Z.

Lemma readable_conn_cuts fuel cfg tok (c : Conn) w chunk more q extra :
  cfg_ok cfg -> conn_ok cfg c -> arriving (ext w) (sock c) = chunk :: more ->
  (Z.of_nat (length chunk) <= min_read_buf_sz cfg)%Z -> length chunk < fuel ->
  let '(p', ms, rest) := frames (proto c) (looked_at c chunk) in
  open_queue (stx_chan (conn_tx c)) q (length ms + extra) w ->
  exists c' items w', readable_conn fuel cfg tok c w = Done c' w' /\ map view items = ms /\
    delivered (stx_chan (conn_tx c)) (map (fun i => mkProtoMsg i tok) items) w w' /\
    conn_ok cfg c' /\ proto c' = p' /\ arriving (ext w') (sock c) = more /\
    left_over cfg c chunk rest c' /\
    sock c' = sock c /\ conn_tx c' = conn_tx c /\ outbuf c' = outbuf c.
Proof.
  intros Hcfg [Hm Hsize Hroom] Harr Hchunk Hfuel. pose proof Hcfg as (H1 & H2 & H3).
  destruct (sock_read_law (sock c) (buf c) w chunk more Harr) as (b' & w1 & Er & Hw & Hl & Hch1 & Hout1 & Harr1); [lia|].
  fold (written c) in Hw.
  destruct (slice_looked_at c chunk b' Hm ltac:(lia) Hw) as (a & Es & Ha).
  set (w2 := mkWorld (stdout w1) (log w1 ++ [mkLog LDebug "read {:?} bytes" [pretty (Z.of_nat (length chunk))]]) (chans w1) (ext w1)).
  pose proof (frames_rest (proto c) (looked_at c chunk)) as (k & Hk & Ek). rewrite looked_at_length in Hk.
  pose proof (frame_loop_frames fuel tok a (with_buf b' c) w2 q) as Hloop. rewrite Ha, looked_at_length in Hloop. simpl in Hloop.
  destruct (frames (proto c) (looked_at c chunk)) as [[p' ms] rest]. simpl in Ek. intros Hopen.
  destruct Hloop as (a' & items & w3 & El & Ha' & Hms & Hd & Hx); [done|simpl; lia| |].
  { eapply open_queue_weaken; [exact Hopen|lia|]. simpl. congruence. }
  destruct (unread_framed c chunk b' p' rest k Hm Hw) as [Hun Hm']; [rewrite length_app; lia|done..|].
  set (c2 := with_framing _ p' _) in *.
  assert (Hwr : written c2 = written c ++ chunk) by exact Hw.
  destruct (renew_buf_ok cfg a' c2 Hcfg Hm') as (Hok & Hun2 & Hs & Htx & Ho & _ & Hp).
  { rewrite Hwr, length_app. change (buf c2) with b'. rewrite Hl. lia. }
  { rewrite Ha', Ek, length_drop, looked_at_length. lia. }
  exists (renew_buf cfg a' c2), items, w3. split; [|split; [done|split; [|split; [done|split; [done|split; [|split]]]]]].
  - unfold readable_conn, bind at 1, read, bind at 1. rewrite Er. unfold ret at 1, debug, log_at, bind at 1. fold w2.
    unfold bind at 1. change (buf (with_buf b' c)) with b'. change (marker (with_buf b' c)) with (marker c).
    rewrite Es. unfold unwrap, ret at 1, bind at 1. rewrite El. done.
  - destruct Hd as [Hd1 Hd2]. split; [simpl in Hd1; congruence|]. intros c'. rewrite Hd2. simpl. by rewrite Hch1.
  - rewrite Hx. exact Harr1.
  - unfold left_over. unfold nearly_full, room in Hun2. change (buf c2) with b' in Hun2. rewrite Hl, Ha', Hun in Hun2. exact Hun2.
  - by rewrite Hs, Htx, Ho.
Qed.
(** ** The handler *)

Lemma delivered_quiet c items w w1 w' :
  delivered c items w w1 -> chans w' = chans w1 -> stdout w' = stdout w1 -> delivered c items w w'.
Proof. intros [H1 H2] Hc Hs. split; [congruence|]. intros c'. by rewrite Hc. Qed.

(** A connection's readable event without hang-up. *)
Lemma readable_step fuel (self : Inner) tok h (c : Conn) w chunk more q extra :
  slab_contains (listeners self) tok = false -> slab_get (conns self) tok = Some c ->
  hint_contains_hup h = false ->
  cfg_ok (config self) -> conn_ok (config self) c -> arriving (ext w) (sock c) = chunk :: more ->
  (Z.of_nat (length chunk) <= min_read_buf_sz (config self))%Z -> length chunk < fuel ->
  let '(p', ms, rest) := frames (proto c) (looked_at c chunk) in
  open_queue (stx_chan (conn_tx c)) q (length ms + extra) w ->
  exists c' items w', readable fuel self tok h w = Done (with_conns (slab_set (conns self) tok c') self) w' /\
    map view items = ms /\
    delivered (stx_chan (conn_tx c)) (map (fun i => mkProtoMsg i tok) items) w w' /\
    open_queue (stx_chan (conn_tx c)) (q ++ map (fun i => mkProtoMsg i tok) items) extra w' /\
    conn_ok (config self) c' /\ proto c' = p' /\ arriving (ext w') (sock c) = more /\
    left_over (config self) c chunk rest c' /\
    sock c' = sock c /\ conn_tx c' = conn_tx c /\ outbuf c' = outbuf c.
Proof.
  intros Hl Hc Hh Hcfg Hok Harr Hchunk Hfuel.
  set (w0 := mkWorld (stdout w) (log w ++ [mkLog LDebug "mio_processor::readable top, token: {:?}" [debug_token tok]]) (chans w) (ext w)).
  pose proof (readable_conn_cuts fuel (config self) tok c w0 chunk more q extra Hcfg Hok Harr Hchunk Hfuel) as Hcut.
  destruct (frames (proto c) (looked_at c chunk)) as [[p' ms] rest]. intros Hopen.
  destruct (Hcut Hopen) as (c1 & items & w1 & E & Hms & Hd & Hok1 & Hp & Ha & Hu & Hs & Htx & Ho).
  set (c2 := with_interest (interest_or (interest c1) READABLE) c1).
  destruct (reregister_quiet (sock c2) tok (interest c2) w1) as (w2 & Er & Hch & Hout & Harr2).
  assert (Hd' : delivered (stx_chan (conn_tx c)) (map (fun i => mkProtoMsg i tok) items) w w2).
  { eapply delivered_quiet; [|exact Hch|exact Hout]. exact Hd. }
  exists c2, items, w2. split; [|split; [done|split; [done|split; [|split; [|split; [done|split; [|split; [done|by splits]]]]]]]].
  - unfold readable, debug, log_at, bind at 1. fold w0. rewrite Hl, Hc, Hh. unfold bind at 1. rewrite E.
    unfold bind at 1. fold c2. rewrite Er. done.
  - eapply open_queue_delivered; [|exact Hd']. rewrite length_map, <- (length_map view), Hms. exact Hopen.
  - destruct Hok1. by split.
  - rewrite Harr2. exact Ha.
Qed.

(** [k] readable events in a row. *)
Fixpoint read_events (fuel : nat) (self : Inner) (tok : Token) (h : ReadHint) (k : nat) : M V X Inner :=
  match k with
  | O => ret self
  | S k' => let! self' := readable fuel self tok h in read_events fuel self' tok h k'
  end.

(** Reads each of which consists of whole messages, and the messages. *)
Fixpoint whole_reads (p : T) (chunks : list (list byte)) : option (T * list B) :=
  match chunks with
  | [] => Some (p, [])
  | chunk :: chunks' =>
      match frames p chunk with
      | (p', ms, []) =>
          match whole_reads p' chunks' with
          | Some (p'', ms') => Some (p'', ms ++ ms')
          | None => None
          end
      | _ => None
      end
  end.

(** What the theorems on several reads share: the token is a connection's,
    the reads are small, and enough fuel is there for each. *)
Record reading (fuel : nat) (self : Inner) (tok : Token) (h : ReadHint) (c : Conn) (chunks more : list (list byte)) w : Prop := {
  rd_listener : slab_contains (listeners self) tok = false;
  rd_conn : slab_get (conns self) tok = Some c;
  rd_open : hint_contains_hup h = false;
  rd_cfg : cfg_ok (config self);
  rd_ok : conn_ok (config self) c;
  rd_arriving : arriving (ext w) (sock c) = chunks ++ more;
  rd_small : Forall (fun chunk => (Z.of_nat (length chunk) <= min_read_buf_sz (config self))%Z /\ length chunk < fuel) chunks
}.

Lemma reading_next fuel (self : Inner) tok h c chunk chunks more w c' w' :
  reading fuel self tok h c (chunk :: chunks) more w ->
  conn_ok (config self) c' -> arriving (ext w') (sock c) = chunks ++ more -> sock c' = sock c ->
  reading fuel (with_conns (slab_set (conns self) tok c') self) tok h c' chunks more w'.
Proof.
  intros [Hl Hc Hh Hcfg Hok Ha Hs] Hok' Ha' Hs'. inversion Hs; subst.
  split; simpl; try done; [|by rewrite Hs']. by apply slab_set_laws.
Qed.

(** Reads of whole messages, with room for [extra] messages more: the
    connection is as at the start, ready for the next read. *)
Lemma read_events_deliver fuel (self : Inner) tok h (c : Conn) w chunks more q p' ms extra :
  reading fuel self tok h c chunks more w -> unread c = [] ->
  whole_reads (proto c) chunks = Some (p', ms) ->
  open_queue (stx_chan (conn_tx c)) q (length ms + extra) w ->
  exists self' c' items w', read_events fuel self tok h (length chunks) w = Done self' w' /\
    map view items = ms /\
    delivered (stx_chan (conn_tx c)) (map (fun i => mkProtoMsg i tok) items) w w' /\
    reading fuel self' tok h c' [] more w' /\ unread c' = [] /\ proto c' = p'.
Proof.
  revert self c w q ms. induction chunks as [|chunk chunks IH]; intros self c w q ms Hr Hu Hwhole Hopen; simpl in *.
  { simplify_eq. exists self, c, [], w. split; [done|]. split; [done|]. split; [destruct w; apply delivered_nil|done]. }
  pose proof (rd_small _ _ _ _ _ _ _ _ Hr) as Hsm. inversion Hsm as [|? ? [Hsz Hf] _]; subst.
  assert (Hlook : looked_at c chunk = chunk) by (unfold looked_at; rewrite Hu; apply firstn_all).
  destruct (frames (proto c) chunk) as [[p1 ms1] rest] eqn:Efr. destruct rest; [|done].
  destruct (whole_reads p1 chunks) as [[p2 ms2]|] eqn:Ewh; [|done]. simplify_eq.
  pose proof (readable_step fuel self tok h c w chunk (chunks ++ more) q (length ms2 + extra)) as Hstep.
  rewrite Hlook, Efr in Hstep. rewrite length_app, <- Nat.add_assoc in Hopen.
  destruct Hstep as (c1 & items1 & w1 & E1 & Hms1 & Hd1 & Hopen1 & Hok1 & Hp1 & Ha1 & Hu1 & Hs1 & Htx1 & _); try apply Hr; try done.
  destruct (IH _ c1 w1 (q ++ map (fun i => mkProtoMsg i tok) items1) ms2 (reading_next _ _ _ _ _ _ _ _ _ c1 w1 Hr Hok1 Ha1 Hs1))
    as (self2 & c2 & items2 & w2 & E2 & Hms2 & Hd2 & Hend).
  - unfold left_over in Hu1. rewrite Hu, drop_all in Hu1. by destruct (_ <? _)%Z, Hu1.
  - by rewrite Hp1.
  - by rewrite Htx1.
  - exists self2, c2, (items1 ++ items2), w2. split; [unfold bind; by rewrite E1|]. rewrite !map_app, Hms1, Hms2.
    split; [done|]. rewrite Htx1 in Hd2. split; [by eapply delivered_trans|done].
Qed.

(** C10: Every message of every read is in the connection's queue, once and in
    order, with the connection's token on it; nothing else is; and no byte is
    left unread. *)
Theorem reads_deliver fuel (self : Inner) tok h (c : Conn) w chunks more q p' ms :
  reading fuel self tok h c chunks more w -> unread c = [] ->
  whole_reads (proto c) chunks = Some (p', ms) ->
  open_queue (stx_chan (conn_tx c)) q (length ms) w ->
  exists self' items w', read_events fuel self tok h (length chunks) w = Done self' w' /\
    map view items = ms /\
    delivered (stx_chan (conn_tx c)) (map (fun i => mkProtoMsg i tok) items) w w' /\
    exists c', slab_get (conns self') tok = Some c' /\ unread c' = [] /\ proto c' = p'.
Proof.
  intros Hr Hu Hwhole Hopen. rewrite <- (Nat.add_0_r (length ms)) in Hopen.
  destruct (read_events_deliver fuel self tok h c w chunks more q p' ms 0 Hr Hu Hwhole Hopen)
    as (self' & c' & items & w' & E & Hms & Hd & Hr' & Hu' & Hp').
  exists self', items, w'. split; [done|]. split; [done|]. split; [done|].
  exists c'. split; [apply Hr'|done].
Qed.

(** C23: A message is only found in a read at least as long as itself: however
    many bytes arrive, as long as every read is shorter than the shortest
    message, no message is delivered. *)
Theorem short_reads_deliver_nothing fuel (self : Inner) tok h (c : Conn) w chunks more q shortest :
  (forall p bs, length bs < shortest -> exists p', frame p bs = (p', None)) ->
  reading fuel self tok h c chunks more w ->
  Forall (fun chunk => length chunk < shortest) chunks ->
  open_queue (stx_chan (conn_tx c)) q 0 w ->
  exists self' w', read_events fuel self tok h (length chunks) w = Done self' w' /\
    delivered (stx_chan (conn_tx c)) [] w w'.
Proof.
  intros Hshort. revert self c w. induction chunks as [|chunk chunks IH]; intros self c w Hr Hlens Hopen; simpl in *.
  { exists self, w. split; [done|]. destruct w. apply delivered_nil. }
  inversion Hlens as [|? ? Hlen Hlens']; subst.
  pose proof (rd_small _ _ _ _ _ _ _ _ Hr) as Hsm. inversion Hsm as [|? ? [Hsz Hf] _]; subst.
  destruct (Hshort (proto c) (looked_at c chunk)) as [p1 Hnone]; [by rewrite looked_at_length|].
  pose proof (readable_step fuel self tok h c w chunk (chunks ++ more) q 0) as Hstep.
  rewrite (frames_none _ _ _ Hnone) in Hstep.
  destruct Hstep as (c1 & items1 & w1 & E1 & Hms1 & Hd1 & Hopen1 & Hok1 & Hp1 & Ha1 & Hu1 & Hs1 & Htx1 & _); try apply Hr; try done.
  apply map_eq_nil in Hms1 as ->. simpl in *. rewrite app_nil_r in Hopen1. rewrite <- Htx1 in Hopen1.
  destruct (IH _ c1 w1 (reading_next _ _ _ _ _ _ _ _ _ c1 w1 Hr Hok1 Ha1 Hs1) Hlens' Hopen1) as (self2 & w2 & E2 & Hd2).
  exists self2, w2. split; [unfold bind; by rewrite E1|]. rewrite Htx1 in Hd2. by eapply (delivered_trans _ [] []).
Qed.

(** C22: A hang-up: the last messages are delivered, then the connection leaves
    the slab and its sender goes, so that whoever reads the queue sees its
    end after them. *)
Theorem hangup_closes fuel (self : Inner) tok h (c : Conn) w chunk more q p' ms rest senders bound :
  slab_contains (listeners self) tok = false -> slab_get (conns self) tok = Some c ->
  hint_contains_hup h = true ->
  cfg_ok (config self) -> conn_ok (config self) c -> arriving (ext w) (sock c) = chunk :: more ->
  (Z.of_nat (length chunk) <= min_read_buf_sz (config self))%Z -> length chunk < fuel ->
  frames (proto c) (looked_at c chunk) = (p', ms, rest) ->
  chans w !! stx_chan (conn_tx c) = Some (mkChan q senders true (Some bound)) -> length q + length ms <= bound ->
  exists self' items w', readable fuel self tok h w = Done self' w' /\ map view items = ms /\
    slab_get (conns self') tok = None /\
    (forall t, t <> tok -> slab_get (conns self') t = slab_get (conns self) t) /\
    chans w' !! stx_chan (conn_tx c) =
      Some (mkChan (q ++ map (fun i => mkProtoMsg i tok) items) (pred senders) true (Some bound)).
Proof.
  intros Hl Hc Hh Hcfg Hok Harr Hchunk Hfuel Hfr Hq Hroom.
  set (w0 := mkWorld (stdout w) (log w ++ [mkLog LDebug "mio_processor::readable top, token: {:?}" [debug_token tok]]) (chans w) (ext w)).
  pose proof (readable_conn_cuts fuel (config self) tok c w0 chunk more q 0 Hcfg Hok Harr Hchunk Hfuel) as Hcut.
  rewrite Hfr in Hcut.
  destruct Hcut as (c1 & items & w1 & E & Hms & Hd & Hok1 & Hp & Ha & Hu & Hs & Htx & Ho).
  { exists senders, bound. split; [exact Hq|lia]. }
  destruct (sock_close_quiet (sock c1) w1) as (w2 & Ecl & Hch & _).
  exists (with_conns (slab_remove (conns self) tok) self), items. eexists.
  split; [|split; [done|]].
  - unfold readable, debug, log_at, bind at 1. fold w0. rewrite Hl, Hc, Hh. unfold bind at 1. rewrite E.
    unfold bind at 1, drop_conn, bind at 1. rewrite Ecl. reflexivity.
  - simpl. destruct (slab_remove_laws _ (conns self) tok) as (Hnone & Hothers & _).
    split; [done|]. split; [done|]. destruct Hd as [_ Hd]. rewrite Htx, Hch, lookup_alter.
    rewrite decide_True by done. rewrite Hd, decide_True by done. simpl. by rewrite Hq.
Qed.
End Inbound.

(** ** Blocks of a fixed size are framed *)

Section Blocks.
Context {V X A S : Type} `{!Iobuf A} `{!IobufLaws A} `{!HasSize S}.
Hypothesis size_pos : (0 < size S)%Z.

Definition block_frame (p : BufProtocol.t S) (bs : list byte) : BufProtocol.t S * option (list byte * nat) :=
  if decide (Z.to_nat (size S) <= length bs)
  then (p, Some (take (Z.to_nat (size S)) bs, Z.to_nat (size S)))
  else (p, None).

Definition Framing_BufProtocol : Framing V X (BufProtocol.t S) A A (list byte).
Proof.
  refine {| view := as_window_slice; frame := block_frame |}.
  - intros p bs p' m n. unfold block_frame. case_decide; intros E; simplify_eq. lia.
  - intros p a w. unfold block_frame. cbn [append BufProtocol.Protocol_BufProtocol]. unfold BufProtocol.append.
    rewrite iob_len_window. case_decide as Hle.
    + destruct (Z.leb_spec (size S) (Z.of_nat (length (as_window_slice a)))); [|lia].
      destruct (split_at_ok a (size S)) as (a1 & a2 & -> & H1 & H2); [rewrite iob_len_window; lia|].
      exists a1, a2. rewrite Z2Nat.id by lia. by split.
    + destruct (Z.leb_spec (size S) (Z.of_nat (length (as_window_slice a)))); [lia|]. done.
Defined.

Lemma block_frame_short p bs : length bs < Z.to_nat (size S) -> exists p', block_frame p bs = (p', None).
Proof. intros Hlt. unfold block_frame. case_decide; [lia|by eexists]. Qed.
End Blocks.

(** ** The model keeps the promises *)

Lemma ap_fill_fits b bs :
  length bs <= length (ap_room b) ->
  ap_fill b bs = mkAppend (ap_written b ++ bs) (drop (length bs) (ap_room b)).
Proof. intros Hle. unfold ap_fill. by rewrite ap_write_advance. Qed.

#[export] Program Instance RecvLaws_model {Out Alloc : Type} :
    RecvLaws (ProtoMsg Out) Net Alloc (list byte) Append unit := {
  arriving x s := lookup_list (incoming x) s
}.
Next Obligation.
  intros Out Alloc s b w chunk more Harr Hroom. cbn [sock_read MioOps_model]. unfold net_read, bind, get_ext.
  cbn [ab_len AppendBufOps_Append] in *. rewrite Harr.
  rewrite (take_ge chunk), (drop_ge chunk) by lia. cbn [put_ext ret].
  do 2 eexists. split; [reflexivity|]. cbn. rewrite ap_fill_fits by lia. cbn. rewrite length_drop.
  split; [done|]. split; [lia|]. split; [done|]. split; [done|]. unfold lookup_list. by rewrite lookup_insert_eq.
Qed.
Next Obligation. intros Out Alloc s t i w. exists w. by splits. Qed.
Next Obligation. intros Out Alloc s w. eexists. split; [reflexivity|]. by split. Qed.

(** ** Concrete instances *)

Section Instances.
#[local] Instance TimerCB_none : TimerCB (ProtoMsg (list byte)) Net unit := fun c => ret (c, true).

Definition framing4 : Framing (ProtoMsg (list byte)) Net (BufProtocol.t Four) (list byte) (list byte) (list byte) :=
  Framing_BufProtocol (S := Four) ltac:(done).

(** A connection at token 256 on socket 3 with queue 0, and what arrives. *)
Definition four_conn : Connection (list byte) Append (BufProtocol.t Four) :=
  mkConn (H := MioTypes_model) 3%Z [] 8%Z (mkSyncSender 0) 0 BufProtocol.mk (mkReadBuf (ap_new 32)).

Definition four_engine : EngineInner (H := MioTypes_model) GSlab unit (list byte) Append (BufProtocol.t Four) unit :=
  mkInner (mkSlab 0 128 ∅) (mkSlab 129 255 ∅) (mkSlab 256 300 {[ 256%Z := four_conn ]})
    (mkConfig 4 32 16 44 100 None).

Definition arrives (chunks : list (list byte)) : World (ProtoMsg (list byte)) Net :=
  mkWorld [] [] {[ 0 := mkChan [] 1 true (Some 4) ]} (mkNet {[ 3%Z := chunks ]} ∅ ∅ [] 4 [] [] true true).

Lemma four_reading chunks :
  Forall (fun chunk => length chunk <= 16) chunks ->
  reading (RecvLaws0 := RecvLaws_model) 20 four_engine 256 0%Z four_conn chunks [] (arrives chunks).
Proof.
  intros Hs. split; try reflexivity.
  - repeat split; simpl; lia.
  - split; vm_compute; repeat split; discriminate.
  - by rewrite app_nil_r.
  - eapply Forall_impl; [exact Hs|]. intros chunk Hc. simpl in *. lia.
Qed.

(** Three blocks in two reads. *)
Definition blocks : list (list byte) :=
  [[x01; x02; x03; x04; x05; x06; x07; x08]; [x09; x0a; x0b; x0c]].

Lemma reads_deliver_witness :
  exists self' w', read_events 20 four_engine 256 0%Z 2 (arrives blocks) = Done self' w' /\
    (ch_queue <$> chans w' !! 0) =
      Some [mkProtoMsg [x01; x02; x03; x04] 256; mkProtoMsg [x05; x06; x07; x08] 256; mkProtoMsg [x09; x0a; x0b; x0c] 256].
Proof.
  destruct (reads_deliver (Framing0 := framing4) (RecvLaws0 := RecvLaws_model) 20 four_engine 256 0%Z four_conn
    (arrives blocks) blocks [] [] BufProtocol.mk [[x01; x02; x03; x04]; [x05; x06; x07; x08]; [x09; x0a; x0b; x0c]])
    as (self' & items & w' & E & Hms & (_ & Hd) & _).
  - apply four_reading. repeat constructor; simpl; lia.
  - reflexivity.
  - reflexivity.
  - exists 1, 4. split; [reflexivity|]. simpl. lia.
  - exists self', w'. split; [exact E|]. rewrite Hd. rewrite map_id in Hms. subst items. reflexivity.
Defined.

(** One block in reads of three bytes and one: it never comes out. *)
Lemma short_reads_deliver_nothing_witness :
  exists self' w', read_events 20 four_engine 256 0%Z 2 (arrives [[x01; x02; x03]; [x04]]) = Done self' w' /\
    (ch_queue <$> chans w' !! 0) = Some [].
Proof.
  destruct (short_reads_deliver_nothing (Framing0 := framing4) (RecvLaws0 := RecvLaws_model) 20 four_engine 256 0%Z four_conn
    (arrives [[x01; x02; x03]; [x04]]) [[x01; x02; x03]; [x04]] [] [] 4) as (self' & w' & E & _ & Hd).
  - intros p bs Hlt. by apply block_frame_short.
  - apply four_reading. repeat constructor; simpl; lia.
  - repeat constructor; simpl; lia.
  - exists 1, 4. split; [reflexivity|]. simpl. lia.
  - exists self', w'. split; [exact E|]. rewrite Hd. reflexivity.
Defined.

Lemma hangup_closes_witness :
  exists self' w', readable 20 four_engine 256 8%Z (arrives [[x01; x02; x03; x04]]) = Done self' w' /\
    slab_get (conns self') 256 = None /\
    chans w' !! 0 = Some (mkChan [mkProtoMsg [x01; x02; x03; x04] 256] 0 true (Some 4)).
Proof.
  destruct (hangup_closes (Framing0 := framing4) (RecvLaws0 := RecvLaws_model) 20 four_engine 256 8%Z four_conn
    (arrives [[x01; x02; x03; x04]]) [x01; x02; x03; x04] [] [] BufProtocol.mk [[x01; x02; x03; x04]] [] 1 4)
    as (self' & items & w' & E & Hms & Hnone & _ & Hq); try reflexivity.
  - repeat split; simpl; lia.
  - split; vm_compute; repeat split; discriminate.
  - simpl. lia.
  - simpl. lia.
  - simpl. lia.
  - exists self', w'. split; [exact E|]. split; [exact Hnone|]. rewrite map_id in Hms. subst items. exact Hq.
Defined.
End Instances.
