(* ===== verification/Engine.v ===== *)
(** * The engine's tables: slabs, queues and tokens over its whole life

    What [EngineInner] of src/src/reactor.rs keeps true of its three slabs
    whatever is called on it, what accepting does, and what happens to a
    slab's entry when [connect] fails. *)

From S2P Require Import Prelude Effects Sendable Protocol Mio StreamBuf NetStream Reactor MioModel.

(** ** Postconditions of computations that may not return *)

Definition yields {V X B : Type} (m : M V X B) (P : B -> Prop) : Prop :=
  forall w b w', m w = Done b w' -> P b.

Section Yields.
Context {V X : Type}.

Lemma yields_ret {B : Type} (b : B) (P : B -> Prop) : P b -> yields (V := V) (X := X) (ret b) P.
Proof. intros HP w b' w' E. unfold ret in E. by simplify_eq. Qed.

Lemma yields_bind {B C : Type} (Q : B -> Prop) (m : M V X B) (k : B -> M V X C) (P : C -> Prop) :
  yields m Q -> (forall b, Q b -> yields (k b) P) -> yields (bind m k) P.
Proof. intros Hm Hk w c w' (b & w1 & E1 & E2)%bind_done. eapply Hk; [by eapply Hm|exact E2]. Qed.

(** Whatever the first computation answers. *)
Lemma yields_skip {B C : Type} (m : M V X B) (k : B -> M V X C) (P : C -> Prop) :
  (forall b, yields (k b) P) -> yields (bind m k) P.
Proof. intros Hk. by apply (yields_bind (fun _ => True)). Qed.

Lemma yields_unwrap_opt {B C : Type} (o : option B) (k : B -> M V X C) (P : C -> Prop) :
  (forall b, o = Some b -> yields (k b) P) -> yields (bind (unwrap_opt o) k) P.
Proof.
  intros Hk w c w' (b & w1 & E1 & E2)%bind_done. destruct o as [b'|]; simpl in E1; [|done].
  unfold ret in E1. simplify_eq. by eapply Hk.
Qed.

Lemma yields_unwrap {B C E : Type} (r : result B E) (k : B -> M V X C) (P : C -> Prop) :
  (forall b, r = Ok b -> yields (k b) P) -> yields (bind (unwrap r) k) P.
Proof.
  intros Hk w c w' (b & w1 & E1 & E2)%bind_done. destruct r as [b'|]; simpl in E1; [|done].
  unfold ret in E1. simplify_eq. by eapply Hk.
Qed.
End Yields.

(** Step over everything the postcondition does not depend on. *)
Ltac yields_step :=
  lazymatch goal with
  | |- yields (ret _) _ => apply yields_ret
  | |- yields (bind (unwrap_opt _) _) _ => apply yields_unwrap_opt; intros ? ?
  | |- yields (bind (unwrap (slab_insert _ _)) _) _ => apply yields_unwrap; intros ? ?
  | |- yields (bind (bind _ _) _) _ => fail
  | |- yields (bind (match _ with _ => _ end) _) _ => fail
  | |- yields (bind _ _) _ => apply yields_skip; intros ?
  | |- yields (match ?x with _ => _ end) _ => destruct x eqn:?; simplify_eq
  end.
Ltac yields_steps := repeat yields_step; simpl.

Section Engine.
Context {X Alloc AB A T Out CB Sender : Type} {Slab : Type -> Type}.
Abbreviation V := (ProtoMsg Out).
Context `{!MioTypes} `{!Iobuf A} `{!AppendBufOps Alloc AB A} `{!SlabOps Slab} `{!SlabLaws Slab}.
Context `{!MioOps V X (StreamBuf A) (ReadBuf AB) Sender} `{!Protocol V X T A Out} `{!TimerCB V X CB}.
Context `{!EventLoopSenderOps V X Sender (StreamBuf A)}.
Abbreviation Conn := (Connection A AB T).
Abbreviation Inner := (EngineInner Slab Alloc A AB T CB).
Implicit Types w : World V X.

(** ** Everything that can be called on an engine *)

Inductive Call :=
| CConnect (hostname : string) (port : Z)
| CListen (addr : string) (port : Z)
| CTimeout (ms : Z) (callback : CB)
| Readable (token : Token) (hint : ReadHint)
| Writable (token : Token)
| Notify (msg : StreamBuf A)
| TimedOut (token : Token).

Definition exec (fuel : nat) (self : Inner) (call : Call) : M V X Inner :=
  match call with
  | CConnect hostname port => let! r := connect self hostname port in ret r.1
  | CListen addr port => let! r := listen self addr port in ret r.1
  | CTimeout ms callback => set_timeout self ms callback
  | Readable token hint => readable fuel self token hint
  | Writable token => writable fuel self token
  | Notify msg => notify fuel self msg
  | TimedOut token => on_timeout self token
  end.

(** The engines that calls can lead to from a new one. *)
Inductive reachable (cfg : NetEngineConfig Alloc) : Inner -> Prop :=
| reach_new : reachable cfg (EngineInner_new cfg)
| reach_call fuel self call self' w w' :
    reachable cfg self -> exec fuel self call w = Done self' w' -> reachable cfg self'.

(** ** How one call changes the tables *)

(** One slab is another after an insertion, a write or a removal. *)
Inductive slab_move {B : Type} (s : Slab B) : Slab B -> Prop :=
| move_none : slab_move s s
| move_insert x t s' : slab_insert s x = Ok (t, s') -> slab_move s s'
| move_insert_set x t s' y : slab_insert s x = Ok (t, s') -> slab_move s (slab_set s' t y)
| move_set t x y : slab_get s t = Some x -> slab_move s (slab_set s t y)
| move_remove t : slab_move s (slab_remove s t).

(** The same without removal. *)
Inductive slab_grow {B : Type} (s : Slab B) : Slab B -> Prop :=
| grow_none : slab_grow s s
| grow_insert_set x t s' y : slab_insert s x = Ok (t, s') -> slab_grow s (slab_set s' t y)
| grow_set t x y : slab_get s t = Some x -> slab_grow s (slab_set s t y).

Record tables_move (self self' : Inner) : Prop := {
  mv_listeners : slab_move (listeners self) (listeners self');
  mv_conns : slab_move (conns self) (conns self');
  mv_timeouts : slab_grow (timeouts self) (timeouts self')
}.

Lemma tables_same (self : Inner) : tables_move self self.
Proof. split; constructor. Qed.

Lemma tables_conns (self : Inner) cs : slab_move (conns self) cs -> tables_move self (with_conns cs self).
Proof. intros H1. by split; [constructor|exact H1|constructor]. Qed.

Lemma tables_listeners (self : Inner) l t ls :
  slab_insert (listeners self) l = Ok (t, ls) -> tables_move self (with_listeners ls self).
Proof. intros H1. split; [by eapply move_insert|constructor|constructor]. Qed.

Lemma connect_moves (self : Inner) hostname port :
  yields (connect self hostname port) (fun r => tables_move self r.1).
Proof.
  unfold connect. yields_steps; try apply tables_same. apply tables_conns. by eapply move_insert.
Qed.

Lemma listen_moves (self : Inner) addr port :
  yields (listen self addr port) (fun r => tables_move self r.1).
Proof.
  unfold listen, listen_with. yields_steps; try apply tables_same; by eapply tables_listeners.
Qed.

Lemma readable_listener_moves (self : Inner) token : yields (readable_listener self token) (tables_move self).
Proof.
  unfold readable_listener. apply yields_unwrap_opt. intros [list tx] _. yields_step.
  apply (yields_bind (tables_move self)).
  - destruct b as [[s|]|e]; [|yields_steps; apply tables_same..].
    yields_steps; try apply tables_same. apply tables_conns. by eapply move_insert.
  - intros self' Hm. by yields_steps.
Qed.

Lemma readable_moves fuel (self : Inner) token hint : yields (readable fuel self token hint) (tables_move self).
Proof.
  unfold readable. yields_step. destruct (slab_contains _ _); [apply readable_listener_moves|].
  destruct (slab_get (conns self) token) as [c|] eqn:Hc.
  - yields_steps; apply tables_conns; [constructor|by eapply move_set].
  - yields_steps. apply tables_same.
Qed.

Lemma exec_moves fuel (self : Inner) call : yields (exec fuel self call) (tables_move self).
Proof.
  destruct call; simpl.
  - eapply yields_bind; [apply connect_moves|]. intros r Hr. by apply yields_ret.
  - eapply yields_bind; [apply listen_moves|]. intros r Hr. by apply yields_ret.
  - unfold set_timeout. yields_steps. split; [constructor|constructor|]. by eapply grow_insert_set.
  - apply readable_moves.
  - unfold writable. yields_steps; [|apply tables_same]. apply tables_conns. by eapply move_set.
  - unfold notify. yields_steps; [|apply tables_same]. apply tables_conns. by eapply move_set.
  - unfold on_timeout. yields_steps; (split; [constructor|constructor|by eapply grow_set]).
Qed.
(** ** What holds of every reachable engine *)

(** The tokens of a slab lie in its range. *)
Definition in_range {B : Type} (lo n : Z) (s : Slab B) : Prop :=
  slab_start s = lo /\ slab_capacity s = n /\ forall t, is_Some (slab_get s t) -> (lo <= t < lo + n)%Z.

Lemma in_range_new {B : Type} lo n : in_range lo n (slab_new_starting_at (T := B) lo n).
Proof.
  destruct (slab_new_laws B lo n) as (H1 & H2 & H3). split; [done|]. split; [done|].
  intros t Ht. rewrite H3 in Ht. by destruct Ht.
Qed.

Lemma in_range_insert {B : Type} lo n (s : Slab B) x t s' :
  in_range lo n s -> slab_insert s x = Ok (t, s') -> in_range lo n s'.
Proof.
  intros (H1 & H2 & H3) Hi. destruct (slab_insert_laws _ _ _ _ _ Hi) as (Ht & _ & _ & Ho & Hs & Hc).
  split; [congruence|]. split; [congruence|]. intros t' Ht'. destruct (decide (t' = t)) as [->|Hne]; [lia|].
  apply H3. by rewrite <- Ho.
Qed.

Lemma in_range_set {B : Type} lo n (s : Slab B) t y :
  in_range lo n s -> is_Some (slab_get s t) -> in_range lo n (slab_set s t y).
Proof.
  intros (H1 & H2 & H3) Hg. destruct (slab_set_laws _ s t y Hg) as (_ & Ho & Hs & Hc).
  split; [congruence|]. split; [congruence|]. intros t' Ht'. destruct (decide (t' = t)) as [->|Hne]; [by apply H3|].
  apply H3. by rewrite <- Ho.
Qed.

Lemma in_range_move {B : Type} lo n (s s' : Slab B) : slab_move s s' -> in_range lo n s -> in_range lo n s'.
Proof.
  intros [|x t s1 Hi|x t s1 y Hi|t x y Hg|t] Hr; [done|by eapply in_range_insert| | |].
  - apply in_range_set; [by eapply in_range_insert|]. destruct (slab_insert_laws _ _ _ _ _ Hi) as (_ & _ & Hx & _). by eexists.
  - apply in_range_set; [done|by eexists].
  - destruct Hr as (H1 & H2 & H3). destruct (slab_remove_laws _ s t) as (Hn & Ho & Hs & Hc).
    split; [congruence|]. split; [congruence|]. intros t' Ht'. destruct (decide (t' = t)) as [->|Hne].
    + rewrite Hn in Ht'. by destruct Ht'.
    + apply H3. by rewrite <- Ho.
Qed.

Lemma grow_move {B : Type} (s s' : Slab B) : slab_grow s s' -> slab_move s s'.
Proof. intros []; [apply move_none|by eapply move_insert_set|by eapply move_set]. Qed.


(** Nothing frees a timeout: an entry stays in its slab, and its token taken,
    for the rest of the engine's life, fired and cleared or not. *)
Theorem timeouts_never_freed fuel (self self' : Inner) call w w' t :
  exec fuel self call w = Done self' w' ->
  is_Some (slab_get (timeouts self) t) -> is_Some (slab_get (timeouts self') t).
Proof.
  intros E Ht. destruct (exec_moves fuel self call w self' w' E) as [_ _ Hg].
  assert (Hset : forall (s : Slab (CB * option Timeout)%type) t' y, is_Some (slab_get s t') -> is_Some (slab_get s t) ->
    is_Some (slab_get (slab_set s t' y) t)).
  { intros s t' y Ht' Hs. destruct (slab_set_laws _ s t' y Ht') as (Hy & Ho & _).
    destruct (decide (t = t')) as [->|Hne]; [by eexists|by rewrite Ho]. }
  destruct Hg as [|x t' s1 y Hi|t' x y Hx]; [done| |].
  - destruct (slab_insert_laws _ _ _ _ _ Hi) as (_ & Hfree & Hx & Ho & _).
    apply Hset; [by eexists|]. destruct (decide (t = t')) as [->|Hne]; [by eexists|by rewrite Ho].
  - apply Hset; [by eexists|done].
Qed.

(** The timer handler runs the callback; when it answers [false] the timeout
    is cleared, which needs the handle [NetEngine::timeout] stored; and an
    unknown token is a panic. *)
Theorem on_timeout_spec (self : Inner) tok cb handle cb' go w w1 :
  slab_get (timeouts self) tok = Some (cb, handle) -> call_mut cb w = Done (cb', go) w1 ->
  let self' := with_timeouts (slab_set (timeouts self) tok (cb', handle)) self in
  on_timeout self tok w =
    match go, handle with
    | true, _ => Done self' w1
    | false, Some h => (let! _ := clear_timeout h in ret self') w1
    | false, None => Panicked "called `Option::unwrap()` on a `None` value" w1
    end.
Proof.
  intros Hg E. unfold on_timeout, bind at 1. rewrite Hg. cbn [unwrap_opt ret]. unfold bind at 1. rewrite E.
  destruct go; [done|]. by destruct handle.
Qed.

(** ** Connections that fail *)

(** The world after [sync_channel] made queue [fresh], and after its
    receiver was dropped. *)
Definition queue_made (cap : Z) w : World V X :=
  with_chans w (<[fresh (dom (chans w)) := mkChan [] 1 true (Some (Z.to_nat cap))]> (chans w)).

(** C32: When the event loop does not take the socket, or the connection is
    refused, [connect] answers [Err] but leaves the connection in the slab:
    its token stays taken although the client was given no stream, and the
    queue its messages would go to is closed. *)
Theorem connect_keeps_slot (self : Inner) hostname port ip ips s tok cs w w1 w2 w3 w4 e :
  let rbuf := new_buf (A := A) (AB := AB) (read_buf_sz (config self)) (allocator (config self)) in
  let q := fresh (dom (chans w2)) in
  let c : Conn := Connection_new s (mkSyncSender q) rbuf in
  get_host_addresses hostname w = Done (Ok (ip :: ips)) w1 ->
  tcp_v4 w1 = Done (Ok s) w2 ->
  slab_insert (conns self) c = Ok (tok, cs) ->
  (register_conn s tok READABLE (queue_made (queue_size (config self)) w2) = Done (Err e) w4 \/
   register_conn s tok READABLE (queue_made (queue_size (config self)) w2) = Done (Ok tt) w3 /\
   sock_connect s ip (wrap 16 port) w3 = Done (Err e) w4) ->
  exists msg, connect self hostname port w =
      (let! _ := drop_receiver (mkReceiver q) in ret (with_conns cs self, Err msg)) w4 /\
    slab_get (conns self) tok = None /\ slab_get cs tok = Some c.
Proof.
  intros rbuf q c E1 E2 Ei Hfail. destruct (slab_insert_laws _ _ _ _ _ Ei) as (_ & Hfree & Hget & _).
  assert (Hc : connect self hostname port w =
    (let! res := connect_at hostname port ip tok (mkReceiver q) (with_conns cs self) in ret (with_conns cs self, res))
      (queue_made (queue_size (config self)) w2)).
  { unfold connect, bind at 1. rewrite E1. unfold bind at 1. cbn [unwrap ret]. unfold bind at 1. cbn [index0 ret].
    unfold bind at 1. rewrite E2. unfold bind at 1, sync_channel, bind at 1, new_chan. cbn [ret].
    fold (queue_made (queue_size (config self)) w2). fold q. change (new_buf _ _) with rbuf. fold c. by rewrite Ei. }
  rewrite Hc. unfold connect_at, bind at 1, bind at 1. cbn [conns with_conns]. rewrite Hget. cbn [unwrap_opt ret].
  change (sock c) with s. unfold bind at 1.
  destruct Hfail as [Er | [Er Es]]; rewrite Er.
  - eexists. by splits.
  - unfold bind at 1. rewrite Es. eexists. by splits.
Qed.

(** Likewise, when the event loop does not take the acceptor, [listen] answers
    [Err] but the acceptor keeps its slot, its socket and a sender of a queue
    that nobody can read. *)
Theorem listen_keeps_slot (self : Inner) addr port ip ips s l a tok ls w w1 w2 w3 w4 w5 e :
  let q := fresh (dom (chans w4)) in
  get_host_addresses addr w = Done (Ok (ip :: ips)) w1 -> tcp_v4 w1 = Done (Ok s) w2 ->
  sock_bind s ip (wrap 16 port) w2 = Done (Ok l) w3 -> sock_listen l 255 w3 = Done (Ok a) w4 ->
  slab_insert (listeners self) (a, mkSyncSender q) = Ok (tok, ls) ->
  register_listener a tok READABLE (queue_made (queue_size (config self)) w4) = Done (Err e) w5 ->
  exists msg, listen self addr port w =
      (let! _ := drop_receiver (mkReceiver q) in ret (with_listeners ls self, Err msg)) w5 /\
    slab_get (listeners self) tok = None /\ slab_get ls tok = Some (a, mkSyncSender q).
Proof.
  intros q E1 E2 E3 E4 Ei Er. destruct (slab_insert_laws _ _ _ _ _ Ei) as (_ & Hfree & Hget & _).
  eexists. split; [|by split]. unfold listen, listen_with, index0, sync_channel, new_chan, bind. follow E1. follow E2. follow E3. follow E4.
  fold (queue_made (queue_size (config self)) w4). fold q. rewrite Ei, Hget. cbn [unwrap_opt]. unfold ret at 1. cbn [fst]. rewrite Er. done.
Qed.

(** ** Accepting *)

(** A socket accepted on a listener becomes a connection of its own whose
    messages go to the listener's queue, which has one more sender; when the
    slab is full, the socket and that sender are dropped again. *)
Theorem accept_joins_queue (self : Inner) token list tx s w w1 :
  slab_get (listeners self) token = Some (list, tx) -> accept list w = Done (Ok (Ready s)) w1 ->
  let rbuf := new_buf (A := A) (AB := AB) (read_buf_sz (config self)) (allocator (config self)) in
  let c : Conn := Connection_new s tx rbuf in
  let w2 := with_chans w1 (alter (fun ch => mkChan (ch_queue ch) (S (ch_senders ch)) (ch_receiver ch) (ch_bound ch))
              (stx_chan tx) (chans w1)) in
  (forall t i, exists w', register_conn s t i w2 = Done (Ok tt) w') ->
  (forall w, exists w', reregister_listener list token READABLE w = Done (Ok tt) w') ->
  match slab_insert (conns self) c with
  | Ok (tok, cs) => exists w3 w', register_conn s tok (interest_or READABLE HUP) w2 = Done (Ok tt) w3 /\
      reregister_listener list token READABLE (mkWorld (stdout w3)
        (log w3 ++ [mkLog LDebug "readable accepted socket for token {:?}" [debug_token tok]]) (chans w3) (ext w3)) = Done (Ok tt) w' /\
      readable_listener self token w = Done (with_conns cs self) w' /\ slab_get cs tok = Some c
  | Err c' => readable_listener self token w =
      (let! _ := error "Failed to insert into Slab" [] in let! _ := drop_conn c' in
       let! r := reregister_listener list token READABLE in let! _ := unwrap r in ret self) w2
  end.
Proof.
  intros Hl Ea rbuf c w2 Hreg Hrereg.
  unfold readable_listener. rewrite Hl. unfold bind, unwrap_opt, ret. rewrite Ea.
  cbn [clone_q Sendable_SyncSender]. unfold bind, chan_clone, alter_chan, ret. fold w2. change (new_buf _ _) with rbuf. fold c.
  destruct (slab_insert (conns self) c) as [[tok cs]|c'] eqn:Ei;
    [|unfold error, log_at; by destruct (drop_conn c' _)].
  destruct (slab_insert_laws _ _ _ _ _ Ei) as (_ & _ & Hget & _). destruct (Hreg tok (interest_or READABLE HUP)) as [w3 Er].
  destruct (Hrereg (mkWorld (stdout w3)
    (log w3 ++ [mkLog LDebug "readable accepted socket for token {:?}" [debug_token tok]]) (chans w3) (ext w3))) as [w' Ew].
  exists w3, w'. split; [done|]. split; [exact Ew|]. split; [|done].
  rewrite Hget. change (sock c) with s. rewrite Er. cbn [unwrap]. unfold ret, debug, log_at. by rewrite Ew.
Qed.
End Engine.

(** ** Concrete instances *)

Section Instances.
Abbreviation Msg := (ProtoMsg (list byte)).
Abbreviation Engine := (EngineInner (H := MioTypes_model) GSlab unit (list byte) Append (BufProtocol.t Four) bool).

(** Timers that answer what they hold. *)
#[local] Instance TimerCB_bool : TimerCB Msg Net bool := fun b => ret (b, b).

Definition small_cfg : NetEngineConfig unit := mkConfig 4 32 16 44 100 None.
Definition new_engine : Engine := EngineInner_new small_cfg.

(** The network, and one that refuses to connect. *)
Definition net : World Msg Net := empty_world quiet.
Definition refusing : World Msg Net := empty_world (mkNet ∅ ∅ ∅ [] 3 [] [] true false).

Definition result_of (o : Outcome Msg Net Engine) : Engine := match o with Done e _ => e | _ => new_engine end.
Definition world_of (o : Outcome Msg Net Engine) : World Msg Net :=
  match o with Done _ w | Panicked _ w | Blocked w | OutOfFuel w => w end.

Definition listening_run : Outcome Msg Net Engine := exec 5 new_engine (CListen "localhost" 80) net.
Definition listening : Engine := result_of listening_run.


(** An engine with one timeout, which has answered [false] and was cleared. *)
Definition timed_run : Outcome Msg Net Engine := exec 5 new_engine (CTimeout 500 false) net.
Definition fired_run : Outcome Msg Net Engine := exec 5 (result_of timed_run) (TimedOut 129) (world_of timed_run).

Lemma timeouts_never_freed_witness : is_Some (slab_get (timeouts (result_of fired_run)) 129).
Proof.
  refine (timeouts_never_freed 5 (result_of timed_run) (result_of fired_run) (TimedOut 129)
    (world_of timed_run) (world_of fired_run) 129 _ _).
  - vm_compute. reflexivity.
  - eexists. vm_compute. reflexivity.
Defined.

Lemma on_timeout_spec_witness :
  on_timeout (result_of timed_run) 129 net =
    Done (with_timeouts (slab_set (timeouts (result_of timed_run)) 129 (false, Some 500%Z)) (result_of timed_run)) net.
Proof.
  refine (eq_trans (on_timeout_spec (result_of timed_run) 129 false (Some 500%Z) false false net net _ _) _).
  - vm_compute. reflexivity.
  - reflexivity.
  - reflexivity.
Defined.

Lemma connect_keeps_slot_witness :
  exists msg w' cs, connect new_engine "localhost" 80 refusing = Done (with_conns cs new_engine, Err msg) w' /\
    slab_get (conns new_engine) 256 = None /\ is_Some (slab_get cs 256).
Proof.
  edestruct (connect_keeps_slot (MioOps0 := MioOps_model) new_engine "localhost" 80 127%Z [] 3%Z 256)
    with (w := refusing) as (msg & E & Hn & Hs).
  1-3: reflexivity.
  { right. split; reflexivity. }
  do 3 eexists. split; [exact E|]. split; [exact Hn|]. eexists. exact Hs.
Defined.

(** The listening engine with a socket, 9, waiting. *)
Definition knocking : World Msg Net :=
  let w := world_of listening_run in
  mkWorld (stdout w) (log w) (chans w) (mkNet ∅ ∅ ∅ [9%Z] 10 [] [] true true).

Lemma accept_joins_queue_witness :
  exists cs w', readable_listener listening 0 knocking = Done (with_conns cs listening) w' /\
    (conn_tx <$> slab_get cs 256) = Some (mkSyncSender 0).
Proof.
  edestruct (accept_joins_queue (MioOps0 := MioOps_model) listening 0) with (w := knocking) as (w3 & w' & _ & _ & E & Hc).
  1-2: reflexivity.
  - intros t i. eexists. reflexivity.
  - intros w. eexists. reflexivity.
  - do 2 eexists. split; [exact E|]. reflexivity.
Defined.
End Instances.
