(* ===== verification/Lifetime.v ===== *)
(** * An engine over its whole life

    What is true of the entries of an engine's tables whatever is called on
    it: connections are well formed, timeouts have their handles; and how many
    timeouts an engine can set before it panics. *)

From S2P Require Import Prelude Effects Sendable Protocol Mio StreamBuf NetStream Reactor MioModel Outbound Engine.

Section Lifetime.
Context {X Alloc AB A T Out CB Sender : Type} {Slab : Type -> Type}.
Abbreviation V := (ProtoMsg Out).
Context `{!MioTypes} `{!Iobuf A} `{!AppendBufOps Alloc AB A} `{!SlabOps Slab} `{!SlabLaws Slab}.
Context `{!MioOps V X (StreamBuf A) (ReadBuf AB) Sender} `{!Protocol V X T A Out} `{!TimerCB V X CB}.
Context `{!EventLoopSenderOps V X Sender (StreamBuf A)} `{!SockLaws V X A AB Sender}.
Abbreviation Conn := (Connection A AB T).
Abbreviation Inner := (EngineInner Slab Alloc A AB T CB).
Implicit Types w : World V X.

(** ** A property of every entry of a slab *)

Definition slab_all {B : Type} (P : Token -> B -> Prop) (s : Slab B) : Prop :=
  forall t x, slab_get s t = Some x -> P t x.

Lemma slab_all_new {B : Type} (P : Token -> B -> Prop) lo n : slab_all P (slab_new_starting_at lo n).
Proof. intros t x Hx. destruct (slab_new_laws B lo n) as (_ & _ & Hnone). by rewrite Hnone in Hx. Qed.

Lemma slab_all_insert {B : Type} (P : Token -> B -> Prop) (s : Slab B) x t s' :
  slab_all P s -> slab_insert s x = Ok (t, s') -> P t x -> slab_all P s'.
Proof.
  intros Hs Hi Hx t' x' Hx'. destruct (slab_insert_laws _ _ _ _ _ Hi) as (_ & _ & Ht & Ho & _).
  destruct (decide (t' = t)) as [->|Hne]; [by simplify_eq|]. rewrite Ho in Hx' by done. by apply Hs.
Qed.

Lemma slab_all_set {B : Type} (P : Token -> B -> Prop) (s : Slab B) t y :
  slab_all P s -> is_Some (slab_get s t) -> P t y -> slab_all P (slab_set s t y).
Proof.
  intros Hs Hg Hy t' x' Hx'. destruct (slab_set_laws _ s t y Hg) as (Ht & Ho & _).
  destruct (decide (t' = t)) as [->|Hne]; [by simplify_eq|]. rewrite Ho in Hx' by done. by apply Hs.
Qed.

(** An entry that was inserted and then written: only the last value counts. *)
Lemma slab_all_insert_set {B : Type} (P : Token -> B -> Prop) (s : Slab B) x t s' y :
  slab_all P s -> slab_insert s x = Ok (t, s') -> P t y -> slab_all P (slab_set s' t y).
Proof.
  intros Hs Hi Hy t' x' Hx'. destruct (slab_insert_laws _ _ _ _ _ Hi) as (_ & _ & Ht & Ho & _).
  destruct (slab_set_laws _ s' t y) as (Ht' & Ho' & _); [by eexists|].
  destruct (decide (t' = t)) as [->|Hne]; [by simplify_eq|]. rewrite Ho', Ho in Hx' by done. by apply Hs.
Qed.

Lemma slab_all_remove {B : Type} (P : Token -> B -> Prop) (s : Slab B) t :
  slab_all P s -> slab_all P (slab_remove s t).
Proof.
  intros Hs t' x' Hx'. destruct (slab_remove_laws _ s t) as (Ht & Ho & _).
  destruct (decide (t' = t)) as [->|Hne]; [by rewrite Ht in Hx'|]. rewrite Ho in Hx' by done. by apply Hs.
Qed.

(** ** Well-formed engines *)

(** The marker is a [u32], and every buffer in the write queue is addressed
    to the connection's own token. *)
Definition conn_typed (t : Token) (c : Conn) : Prop :=
  (0 <= marker c < 2 ^ 32)%Z /\ Forall (fun m => sb_tok m = t) (outbuf c).

(** Every timeout has the handle that clearing it needs. *)
Record engine_typed (self : Inner) : Prop := {
  ty_conns : slab_all conn_typed (conns self);
  ty_timeouts : slab_all (fun _ e => is_Some e.2) (timeouts self)
}.

Lemma Connection_new_typed t s tx rbuf : conn_typed t (Connection_new s tx rbuf).
Proof. split; simpl; [lia|constructor]. Qed.

Lemma typed_conns (self : Inner) cs : engine_typed self -> slab_all conn_typed cs -> engine_typed (with_conns cs self).
Proof. intros [_ Ht] Hc. by split. Qed.

Lemma typed_listeners (self : Inner) ls : engine_typed self -> engine_typed (with_listeners ls self).
Proof. by intros []. Qed.

Lemma drain_loop_typed fuel t (c : Conn) : conn_typed t c -> yields (drain_loop fuel c) (conn_typed t).
Proof.
  revert c. induction fuel as [|fuel IH]; intros c [Hm Ho]; simpl; [by intros w b w'|].
  destruct (outbuf c) as [|front rest] eqn:E; [apply yields_ret; split; [done|by rewrite E]|].
  inversion Ho as [|? ? Hf Hr]; subst.
  refine (yields_bind (fun r => sb_tok r.1 = sb_tok front) _ _ _ _ _).
  - intros w r w' Er. destruct (sock_write_law (sock c) front w) as (b' & r' & w1 & E1 & Hb & _). rewrite E1 in Er. by simplify_eq.
  - intros [front' result] Hfront. simpl in Hfront. destruct result as [[n|]|e]; yields_steps;
      first [apply IH | idtac]; (split; simpl; [done|]); first [done | by constructor; [congruence|]].
Qed.

Lemma drain_and_rearm_typed fuel t (c : Conn) : conn_typed t c -> yields (drain_and_rearm fuel t c) (conn_typed t).
Proof.
  intros Hc. unfold drain_and_rearm, drain_write_queue_to_socket.
  apply (yields_bind (fun r => conn_typed t r.1)).
  - apply (yields_bind (conn_typed t)); [by apply drain_loop_typed|]. intros c' Hc'. by apply yields_ret.
  - intros [c' n] Hc'. simpl in Hc'. by yields_steps.
Qed.

Lemma frame_loop_typed fuel tok t (a : A) (c : Conn) :
  conn_typed t c -> yields (frame_loop fuel tok a c) (fun r => conn_typed t r.2).
Proof.
  revert a c. induction fuel as [|fuel IH]; intros a c [Hm Ho]; simpl; [by intros w b w'|].
  yields_steps; [|by split]. apply IH. split; simpl; [by apply wrap_range|done].
Qed.

Lemma renew_buf_typed cfg t (a : A) (c : Conn) : conn_typed t c -> conn_typed t (renew_buf cfg a c).
Proof. intros [Hm Ho]. unfold renew_buf. case_match; [|done]. split; simpl; [lia|done]. Qed.

Lemma readable_conn_typed fuel cfg tok t (c : Conn) :
  conn_typed t c -> yields (readable_conn fuel cfg tok c) (conn_typed t).
Proof.
  intros Hc. unfold readable_conn, read. apply (yields_bind (fun r => conn_typed t r.1)).
  - yields_steps. by destruct Hc.
  - intros [c' r] Hc'. simpl in Hc'. destruct r as [[n|]|e]; [|by yields_steps..].
    yields_step. apply (yields_bind (fun _ => True)); [done|]. intros a _.
    apply (yields_bind (fun r => conn_typed t r.2)); [by apply frame_loop_typed|].
    intros [a' c2] H2. apply yields_ret. by apply renew_buf_typed.
Qed.

(** ** Every call keeps engines well formed *)

Lemma connect_typed (self : Inner) hostname port :
  engine_typed self -> yields (connect self hostname port) (fun r => engine_typed r.1).
Proof.
  intros Hs. unfold connect. yields_steps; try exact Hs.
  apply typed_conns; [done|]. eapply slab_all_insert; [by apply Hs|done|apply Connection_new_typed].
Qed.

Lemma listen_typed (self : Inner) addr port :
  engine_typed self -> yields (listen self addr port) (fun r => engine_typed r.1).
Proof. intros Hs. unfold listen, listen_with. yields_steps; try exact Hs; by apply typed_listeners. Qed.

Lemma readable_listener_typed (self : Inner) token :
  engine_typed self -> yields (readable_listener self token) engine_typed.
Proof.
  intros Hs. unfold readable_listener. apply yields_unwrap_opt. intros [list tx] _. yields_step.
  apply (yields_bind engine_typed).
  - destruct b as [[s|]|e]; [|yields_steps; exact Hs..].
    yields_steps; try exact Hs. apply typed_conns; [done|].
    eapply slab_all_insert; [by apply Hs|done|apply Connection_new_typed].
  - intros self' Hm. by yields_steps.
Qed.

Lemma readable_typed fuel (self : Inner) token hint :
  engine_typed self -> yields (readable fuel self token hint) engine_typed.
Proof.
  intros Hs. unfold readable. yields_step. destruct (slab_contains _ _); [by apply readable_listener_typed|].
  destruct (slab_get (conns self) token) as [c|] eqn:Hc; [|by yields_steps].
  apply (yields_bind (conn_typed token)); [by apply readable_conn_typed, (ty_conns _ Hs)|]. intros c' Hc'.
  yields_steps; apply typed_conns; try done.
  - apply slab_all_remove. by apply Hs.
  - apply slab_all_set; [by apply Hs|by eexists|]. by destruct Hc'.
Qed.

Lemma rearm_typed fuel (self : Inner) t (c c0 : Conn) :
  engine_typed self -> slab_get (conns self) t = Some c0 -> conn_typed t c ->
  yields (let! c := drain_and_rearm fuel t c in ret (with_conns (slab_set (conns self) t c) self)) engine_typed.
Proof.
  intros Hs Hget Hc. apply (yields_bind (conn_typed t)); [by apply drain_and_rearm_typed|]. intros c' Hc'.
  apply yields_ret, typed_conns; [done|]. apply slab_all_set; [by apply Hs|by eexists|done].
Qed.

Lemma set_timeout_typed (self : Inner) ms cb :
  engine_typed self -> yields (set_timeout self ms cb) engine_typed.
Proof.
  intros [Hc Ht]. unfold set_timeout. yields_steps. split; [done|]. simpl.
  by eapply slab_all_insert_set.
Qed.

Lemma on_timeout_typed (self : Inner) t : engine_typed self -> yields (on_timeout self t) engine_typed.
Proof.
  intros [Hc Ht]. unfold on_timeout. apply yields_unwrap_opt. intros [cb handle] Hget.
  yields_steps; split; try done; (apply slab_all_set; [done|by eexists|exact (Ht _ _ Hget)]).
Qed.

Lemma exec_typed fuel (self : Inner) call : engine_typed self -> yields (exec fuel self call) engine_typed.
Proof.
  intros Hs. destruct call; simpl.
  - eapply yields_bind; [by apply connect_typed|]. intros r Hr. by apply yields_ret.
  - eapply yields_bind; [by apply listen_typed|]. intros r Hr. by apply yields_ret.
  - by apply set_timeout_typed.
  - by apply readable_typed.
  - unfold writable. yields_step. destruct (slab_get (conns self) token) as [c|] eqn:Hc; [|by yields_steps].
    eapply rearm_typed; [done|done|by apply Hs].
  - unfold notify. destruct (slab_get (conns self) (sb_tok msg)) as [c|] eqn:Hc; [|by yields_steps].
    eapply rearm_typed; [done|done|]. destruct (ty_conns _ Hs _ _ Hc) as [Hm Ho]. split; simpl; [done|].
    apply Forall_app. split; [done|by constructor].
  - by apply on_timeout_typed.
Qed.

Lemma reachable_typed cfg (self : Inner) : reachable cfg self -> engine_typed self.
Proof.
  induction 1 as [|fuel self call self' w w' _ IH E].
  - split; apply slab_all_new.
  - by eapply (exec_typed fuel self call).
Qed.

(** C14: Every engine that calls can lead to is well formed: each connection's
    marker is a [u32], each buffer in a connection's write queue is addressed
    to that connection's token, and every timeout has its handle. *)
Theorem engines_well_formed cfg (self : Inner) :
  reachable cfg self ->
  (forall t c, slab_get (conns self) t = Some c ->
     (0 <= marker c < 2 ^ 32)%Z /\ Forall (fun m => sb_tok m = t) (outbuf c)) /\
  (forall t cb handle, slab_get (timeouts self) t = Some (cb, handle) -> is_Some handle).
Proof.
  intros Hr. destruct (reachable_typed cfg self Hr) as [Hc Ht]. split; [exact Hc|].
  intros t cb handle Hg. exact (Ht t _ Hg).
Qed.

(** C28: So the timer handler never fails for want of a handle: of an
    engine calls can lead to, a timeout that is set runs its callback, and is
    cleared exactly when that answers [false]. *)
Theorem timer_fires cfg (self : Inner) tok cb handle cb' go w w1 :
  reachable cfg self -> slab_get (timeouts self) tok = Some (cb, handle) ->
  call_mut cb w = Done (cb', go) w1 ->
  exists h, handle = Some h /\
    on_timeout self tok w =
      (let! _ := if go then ret tt else clear_timeout h in
       ret (with_timeouts (slab_set (timeouts self) tok (cb', Some h)) self)) w1.
Proof.
  intros Hr Hg E. destruct (ty_timeouts _ (reachable_typed cfg self Hr) _ _ Hg) as [h Hh]. simpl in Hh. subst handle.
  exists h. split; [done|]. unfold on_timeout, bind at 1. rewrite Hg. cbn [unwrap_opt ret]. unfold bind at 1. rewrite E.
  by destruct go.
Qed.

(** ** The event loop *)

(** What the code relies on: the loop does to the engine what its handlers
    do, whichever events there are, and nothing else. *)
Class EventLoopRunLaws `{!EventLoopRun V X Inner (Event Token ReadHint (StreamBuf A)) MioError} : Prop := {
  el_run_law : forall (P : Inner -> Prop) f self, (forall s ev, P s -> yields (f s ev) P) -> P self ->
    yields (el_run f self) (fun r => forall self', r = Ok self' -> P self');
  el_run_once_law : forall (P : Inner -> Prop) f self, (forall s ev, P s -> yields (f s ev) P) -> P self ->
    yields (el_run_once f self) (fun r => forall self', r = Ok self' -> P self')
}.

Lemma handle_reachable cfg fuel (self : Inner) ev : reachable cfg self -> yields (handle fuel self ev) (reachable cfg).
Proof.
  intros Hr w self' w' E. destruct ev.
  - by apply (reach_call cfg fuel self (Readable token hint) self' w w').
  - by apply (reach_call cfg fuel self (Writable token) self' w w').
  - by apply (reach_call cfg fuel self (Notify msg) self' w w').
  - by apply (reach_call cfg fuel self (TimedOut token) self' w w').
Qed.

(** However long the event loop runs, and whatever events it sees, the
    engine it hands back is one that calls lead to, and well formed. *)
Theorem run_well_formed `{!EventLoopRun V X Inner (Event Token ReadHint (StreamBuf A)) MioError} `{!EventLoopRunLaws}
    cfg fuel (self self' : Inner) w w' :
  reachable cfg self -> run fuel self w = Done self' w' \/ run_once fuel self w = Done self' w' ->
  reachable cfg self' /\ engine_typed self'.
Proof.
  intros Hr He. assert (Hr' : reachable cfg self'); [|split; [done|by eapply reachable_typed]].
  assert (Hhandle : forall s ev, reachable cfg s -> yields (handle fuel s ev) (reachable cfg)) by (intros; by apply handle_reachable).
  assert (Hend : forall r : result Inner MioError, (forall s, r = Ok s -> reachable cfg s) ->
    yields (V := V) (X := X) (unwrap (result_map_err (fun _ => tt) r)) (reachable cfg)).
  { intros [s|e] Hs w1 s' w1' E1; unfold unwrap, ret in E1; simpl in E1; simplify_eq. by apply Hs. }
  destruct He as [E|E]; revert E.
  - refine (yields_bind _ _ _ _ _ Hend w self' w'). by apply el_run_law.
  - refine (yields_bind _ _ _ _ _ Hend w self' w'). by apply el_run_once_law.
Qed.

(** ** How many timeouts an engine can set *)

(** What each call does to the timeouts: [set_timeout] inserts one, the timer
    handler writes to one, nothing else touches them. *)
Lemma exec_timeouts fuel (self : Inner) call :
  yields (exec fuel self call) (fun self' =>
    match call with
    | CTimeout _ _ => exists x t s' y, slab_insert (timeouts self) x = Ok (t, s') /\ timeouts self' = slab_set s' t y
    | TimedOut _ => exists t x y, slab_get (timeouts self) t = Some x /\ timeouts self' = slab_set (timeouts self) t y
    | _ => timeouts self' = timeouts self
    end).
Proof.
  destruct call; simpl.
  - unfold connect. apply (yields_bind (fun r => timeouts r.1 = timeouts self)); [by yields_steps|].
    intros r Hr. by apply yields_ret.
  - unfold listen, listen_with. apply (yields_bind (fun r => timeouts r.1 = timeouts self)); [by yields_steps|].
    intros r Hr. by apply yields_ret.
  - unfold set_timeout. yields_steps. eauto 10.
  - unfold readable. yields_step. destruct (slab_contains _ _); [|by yields_steps].
    unfold readable_listener. apply yields_unwrap_opt. intros [list tx] _. yields_step.
    apply (yields_bind (fun r => timeouts r = timeouts self)); [|intros; by yields_steps].
    by yields_steps.
  - unfold writable. by yields_steps.
  - unfold notify. by yields_steps.
  - unfold on_timeout. yields_steps; eauto 10.
Qed.

(** The tokens a slab of range [lo], [n] has given out. *)
Definition taken {B : Type} (lo n : Z) (s : Slab B) : gset Z :=
  filter (fun t => is_Some (slab_get s t)) (list_to_set (seqZ lo n)).

Lemma elem_of_taken {B : Type} lo n (s : Slab B) t :
  t ∈ taken lo n s <-> is_Some (slab_get s t) /\ (lo <= t < lo + n)%Z.
Proof. unfold taken. by rewrite elem_of_filter, elem_of_list_to_set, elem_of_seqZ. Qed.

Lemma size_range lo n : (0 <= n)%Z -> base.size (list_to_set (seqZ lo n) : gset Z) = Z.to_nat n.
Proof. intros Hn. rewrite size_list_to_set by apply NoDup_seqZ. apply length_seqZ. Qed.

Lemma taken_le {B : Type} lo n (s : Slab B) : (0 <= n)%Z -> base.size (taken lo n s) <= Z.to_nat n.
Proof. intros Hn. rewrite <- (size_range lo n Hn). apply subseteq_size. intros t Ht. by apply elem_of_filter in Ht as [_ Ht]. Qed.

Lemma taken_insert {B : Type} lo n (s : Slab B) x t s' y :
  in_range lo n s -> slab_insert s x = Ok (t, s') ->
  base.size (taken lo n (slab_set s' t y)) = S (base.size (taken lo n s)).
Proof.
  intros (H1 & H2 & H3) Hi. destruct (slab_insert_laws _ _ _ _ _ Hi) as (Hr & Hn & Hx & Ho & _).
  destruct (slab_set_laws _ s' t y) as (Hy & Ho' & _); [by eexists|].
  assert (E : taken lo n (slab_set s' t y) = {[t]} ∪ taken lo n s).
  { apply set_eq. intros t'. rewrite elem_of_union, elem_of_singleton, !elem_of_taken.
    destruct (decide (t' = t)) as [->|Hne]; [|rewrite Ho', Ho by done; tauto].
    rewrite Hy. split; [by left|]. intros _. split; [by eexists|lia]. }
  rewrite E, size_union, size_singleton; [done|]. apply disjoint_singleton_l. rewrite elem_of_taken, Hn. by intros [[? ?] _].
Qed.

Lemma taken_set {B : Type} lo n (s : Slab B) t x y :
  slab_get s t = Some x -> taken lo n (slab_set s t y) = taken lo n s.
Proof.
  intros Hx. destruct (slab_set_laws _ s t y) as (Hy & Ho & _); [by eexists|].
  apply set_eq. intros t'. rewrite !elem_of_taken. destruct (decide (t' = t)) as [->|Hne]; [|by rewrite Ho].
  rewrite Hy, Hx. split; intros [_ ?]; (split; [by eexists|done]).
Qed.

(** The engines calls can lead to, with the number of timeouts set on the way. *)
Inductive history (cfg : NetEngineConfig Alloc) : nat -> Inner -> Prop :=
| hist_new : history cfg 0 (EngineInner_new cfg)
| hist_call n fuel self call self' w w' :
    history cfg n self -> exec fuel self call w = Done self' w' ->
    history cfg (match call with CTimeout _ _ => S n | _ => n end) self'.

Lemma history_taken cfg n (self : Inner) :
  history cfg n self -> in_range 129 255 (timeouts self) /\ base.size (taken 129 255 (timeouts self)) = n.
Proof.
  induction 1 as [|n fuel self call self' w w' _ [IHr IHn] E].
  - split; [apply in_range_new|]. destruct (slab_new_laws (CB * option Timeout)%type 129 255) as (_ & _ & Hnone).
    apply size_empty_iff. intros t. rewrite elem_of_taken. simpl. rewrite Hnone. split; [by intros [[? ?] _]|set_solver].
  - split; [eapply in_range_move; [apply grow_move, (mv_timeouts _ _ (exec_moves fuel self call w self' w' E))|done]|].
    pose proof (exec_timeouts fuel self call w self' w' E) as Ht.
    destruct call; try (by rewrite Ht).
    + destruct Ht as (x & t & s' & y & Hi & ->). by rewrite (taken_insert _ _ _ _ _ _ _ IHr Hi), IHn.
    + destruct Ht as (t & x & y & Hg & ->). by rewrite (taken_set _ _ _ _ _ _ Hg).
Qed.

(** C29: An engine can set 255 timeouts in its life, fired and cleared ones
    included; the next call of [NetEngine::timeout] panics. *)
Theorem timeouts_run_out cfg n (self : Inner) :
  history cfg n self ->
  n <= 255 /\
  (n = 255 -> forall ms cb w,
     set_timeout self ms cb w = Panicked "called `Result::unwrap()` on an `Err` value" w).
Proof.
  intros Hh. destruct (history_taken cfg n self Hh) as [Hr Hn]. pose proof Hr as (H1 & H2 & H3).
  pose proof (taken_le 129 255 (timeouts self) ltac:(lia)) as Hle. split; [lia|]. intros -> ms cb w.
  unfold set_timeout. destruct (slab_insert (timeouts self) (cb, None)) as [[t s']|y] eqn:Hi; [|done].
  exfalso. pose proof (taken_insert 129 255 (timeouts self) _ _ _ (cb, None) Hr Hi) as Hs.
  pose proof (taken_le 129 255 (slab_set s' t (cb, None)) ltac:(lia)) as Hle'. lia.
Qed.

(** Calls in a row lead from one history to another. *)
Fixpoint exec_all (fuel : nat) (self : Inner) (calls : list Call) : M V X Inner :=
  match calls with
  | [] => ret self
  | call :: calls' => let! self' := exec fuel self call in exec_all fuel self' calls'
  end.

Definition is_timeout (call : Call (A := A) (CB := CB)) : nat := match call with CTimeout _ _ => 1 | _ => 0 end.

Lemma exec_all_history cfg fuel calls n (self self' : Inner) w w' :
  history cfg n self -> exec_all fuel self calls w = Done self' w' ->
  history cfg (sum_list_with is_timeout calls + n) self'.
Proof.
  revert n self w. induction calls as [|call calls IH]; intros n self w Hh E; simpl in *.
  - unfold ret in E. by simplify_eq.
  - apply bind_done in E as (self1 & w1 & E1 & E2).
    pose proof (hist_call cfg n fuel self call self1 w w1 Hh E1) as H1.
    specialize (IH _ _ _ H1 E2). destruct call; simpl in *; by rewrite ?Nat.add_succ_r in IH.
Qed.
End Lifetime.

(** ** Concrete instances *)

Section Instances.
Abbreviation Msg := (ProtoMsg (list byte)).
Abbreviation Engine := (EngineInner (H := MioTypes_model) GSlab unit (list byte) Append (BufProtocol.t Four) bool).

#[local] Instance TimerCB_answer : TimerCB Msg Net bool := fun b => ret (b, b).

Definition life_cfg : NetEngineConfig unit := mkConfig 4 32 16 44 100 None.
Definition life_new : Engine := EngineInner_new life_cfg.
Definition life_net : World Msg Net := empty_world quiet.

(** A client connects and queues two messages, which its socket does not
    take; a timeout is set. *)
Definition life_calls : list (Call (CB := bool)) :=
  [CConnect "localhost" 80; Notify (mkStreamBuf [x01] 256); CTimeout 500 false].
Definition life_run : Outcome Msg Net Engine := exec_all 5 life_new life_calls life_net.
Definition life_of (o : Outcome Msg Net Engine) : Engine := match o with Done e _ => e | _ => life_new end.
Definition life_world (o : Outcome Msg Net Engine) : World Msg Net :=
  match o with Done _ w | Panicked _ w | Blocked w | OutOfFuel w => w end.

Lemma history_reachable (cfg : NetEngineConfig unit) n (self : Engine) : history (X := Net) cfg n self -> reachable (X := Net) cfg self.
Proof. induction 1; [apply reach_new | by eapply reach_call]. Qed.

Lemma life_reachable : reachable (X := Net) life_cfg (life_of life_run).
Proof.
  eapply history_reachable, (exec_all_history life_cfg 5 life_calls 0 life_new _ life_net (life_world life_run)).
  - apply hist_new.
  - vm_compute. reflexivity.
Defined.

Lemma engines_well_formed_witness :
  exists c, slab_get (conns (life_of life_run)) 256 = Some c /\ length (outbuf c) = 1 /\
    Forall (fun m => sb_tok m = 256%Z) (outbuf c).
Proof.
  destruct (engines_well_formed (SockLaws0 := SockLaws_model) life_cfg (life_of life_run) life_reachable) as [Hc _].
  eexists. split; [vm_compute; reflexivity|]. split; [reflexivity|]. apply (Hc 256%Z). vm_compute. reflexivity.
Defined.

Lemma timer_fires_witness :
  exists self', on_timeout (life_of life_run) 129 life_net = Done self' life_net.
Proof.
  destruct (timer_fires (SockLaws0 := SockLaws_model) life_cfg (life_of life_run) 129 false (Some 500%Z) false false
    life_net life_net life_reachable) as (h & _ & E).
  - vm_compute. reflexivity.
  - reflexivity.
  - eexists. rewrite E. reflexivity.
Defined.

(** A loop that handles the messages in its mailbox and ends. *)
Fixpoint notify_each (f : Engine -> Event Token Z (StreamBuf (list byte)) -> M Msg Net Engine) (self : Engine)
    (ms : list (StreamBuf (list byte))) : M Msg Net (result Engine string) :=
  match ms with
  | [] => ret (Ok self)
  | m :: ms' => let! self' := f self (EvNotify m) in notify_each f self' ms'
  end.

#[local] Instance mail_loop : EventLoopRun Msg Net Engine (Event Token Z (StreamBuf (list byte))) string := {
  el_run f self := let! x := get_ext in notify_each f self (mailbox x);
  el_run_once f self := let! x := get_ext in notify_each f self (take 1 (mailbox x))
}.

Lemma notify_each_law (P : Engine -> Prop) f self ms :
  (forall s ev, P s -> yields (f s ev) P) -> P self ->
  yields (notify_each f self ms) (fun r => forall self', r = Ok self' -> P self').
Proof.
  intros Hf. revert self. induction ms as [|m ms IH]; intros self Hs; simpl.
  - apply yields_ret. intros self' E. by simplify_eq.
  - eapply yields_bind; [by apply Hf|]. exact IH.
Qed.

#[local] Instance mail_loop_laws : EventLoopRunLaws (X := Net) (AB := Append) (T := BufProtocol.t Four) (A := list byte)
  (CB := bool) (Slab := GSlab) (Alloc := unit) (Out := list byte) (EventLoopRun0 := mail_loop).
Proof. split; intros P f self Hf Hs; apply yields_skip; intros x; by apply notify_each_law. Qed.

Definition mailed : World Msg Net := empty_world (mkNet ∅ ∅ ∅ [] 4 [] [mkStreamBuf [x02] 256] true true).

Lemma run_well_formed_witness :
  exists self' w', run 5 (life_of life_run) mailed = Done self' w' /\
    (length ∘ outbuf <$> slab_get (conns self') 256) = Some 2 /\ engine_typed self'.
Proof.
  eexists _, _. split; [reflexivity|]. split; [vm_compute; reflexivity|].
  refine (proj2 (run_well_formed (SockLaws0 := SockLaws_model) (EventLoopRun0 := mail_loop) (H0 := mail_loop_laws)
    life_cfg 5 (life_of life_run) _ mailed _ life_reachable _)).
  left. reflexivity.
Defined.

(** 255 timeouts. *)
Definition busy_run : Outcome Msg Net Engine := exec_all 1 life_new (replicate 255 (CTimeout 500 true)) life_net.

Lemma timeouts_run_out_witness :
  set_timeout (life_of busy_run) 500 true life_net =
    Panicked "called `Result::unwrap()` on an `Err` value" life_net.
Proof.
  refine (proj2 (timeouts_run_out life_cfg 255 (life_of busy_run) _) eq_refl 500%Z true life_net).
  refine (exec_all_history life_cfg 1 (replicate 255 (CTimeout 500%Z true)) 0 life_new _ life_net (life_world busy_run) _ _).
  - apply hist_new.
  - vm_compute. reflexivity.
Defined.
End Instances.
