(* ===== verification/Streams.v ===== *)
(** * A [NetStreamer] on an engine: src/src/net_stream.rs, src/src/reactor.rs

    As a subscriber, a [NetStreamer] gives every buffer to the event loop with
    the address of its own connection, whose socket then gets the bytes; as a
    publisher it hands its subscriber what the engine put into the
    connection's queue, and completes it when the connection is gone. *)

From S2P Require Import Prelude Effects Sendable Reactive Subscribers Pipeline Threads Protocol Mio StreamBuf NetStream Reactor MioModel Outbound.

Section Streams.
Context {X Alloc AB A T Out CB Els S : Type} {Slab : Type -> Type}.
Abbreviation V := (ProtoMsg Out).
Context `{!MioTypes} `{!Iobuf A} `{!IobufLaws A} `{!AppendBufOps Alloc AB A} `{!SlabOps Slab} `{!SlabLaws Slab}.
Context `{!MioOps V X (StreamBuf A) (ReadBuf AB) Els} `{!SockLaws V X A AB Els}.
Context `{!EventLoopSenderOps V X Els (StreamBuf A)} `{!EventLoopSenderLaws V X Els (StreamBuf A)}.
Context `{!Subscriber V X S V}.
Abbreviation Conn := (Connection A AB T).
Abbreviation Inner := (EngineInner Slab Alloc A AB T CB).
Abbreviation Streamer := (NetStreamer.t Els S).
Implicit Types w : World V X.

(** A buffer with the address of a stream. *)
Definition addressed (st : Streamer) (x : StreamBuf A) : StreamBuf A := mkStreamBuf (sb_buf x) (NetStream.tok (NetStreamer.stream st)).

(** Whatever is pushed goes to the event loop, readdressed, and nothing is
    ever refused while the loop runs. *)
Lemma streamer_posts (st : Streamer) (xs : list (StreamBuf A)) w :
  exists w', push st xs w = Done (st, [], true) w' /\ chans w' = chans w /\ stdout w' = stdout w /\
    mail (ext w') = mail (ext w) ++ map (addressed st) xs.
Proof.
  revert w. induction xs as [|x xs IH]; intros w; simpl.
  - exists w. by rewrite app_nil_r.
  - destruct (els_send_law (NetStream.dtx (NetStreamer.stream st)) (addressed st x) w) as (w1 & E1 & C1 & S1 & M1).
    destruct (IH w1) as (w2 & E2 & C2 & S2 & M2). exists w2. split.
    + unfold NetStreamer.on_next, bind at 1 2. fold (addressed st x). rewrite E1. exact E2.
    + split; [congruence|]. split; [congruence|]. by rewrite M2, M1, <- app_assoc.
Qed.


(** The other way: what waits in the queue of a connection that is gone is
    handed to the streamer's subscriber, in order, then completion. *)
Theorem streamer_reads {B : Type} `{!Observer V X S B} (st : NetStream.t Els) (s : S) ms b w fuel :
  chans w !! rx_chan (NetStream.drx st) = Some (mkChan ms 0 true b) -> obs_inv s -> length ms < fuel ->
  exists s' w', run_loop fuel (NetStreamer.mk st (Some s)) w = Done (NetStreamer.mk st (Some s')) w' /\
    obs s' w' = obs s w ++ map obs_item ms ++ obs_end /\
    chans w' !! rx_chan (NetStream.drx st) = Some (mkChan [] 0 true b).
Proof.
  revert s w fuel. induction ms as [|m ms IH]; intros s w fuel Hc Hi Hf; (destruct fuel as [|fuel]; [simpl in Hf; lia|]); cbn [run_loop].
  - destruct (obs_complete s w Hi) as (s' & w' & E & _ & Ho & Hch). exists s', w'. split; [|split; [by rewrite Ho|by rewrite Hch]].
    unfold bind at 1. simpl next. unfold NetStreamer.next. simpl. unfold bind, recv. rewrite Hc. simpl. by rewrite E.
  - set (w0 := with_chans w (<[rx_chan (NetStream.drx st) := mkChan ms 0 true b]> (chans w))).
    destruct (obs_next s m w0 Hi) as (s1 & w1 & E & Hi1 & Ho1 & Hch1).
    destruct (IH s1 w1 fuel) as (s' & w' & E' & Ho & Hch); [rewrite Hch1; simpl; by rewrite lookup_insert_eq|done|simpl in Hf; lia|].
    exists s', w'. split; [|split; [|exact Hch]].
    + unfold bind at 1. simpl next. unfold NetStreamer.next. simpl. unfold bind at 1 2, recv. rewrite Hc. simpl. fold w0. by rewrite E.
    + rewrite Ho, Ho1, (obs_frame s w0 w) by done. simpl. by rewrite <- !app_assoc.
Qed.
End Streams.

(** ** Concrete instances *)

Section Instances.
Abbreviation Msg := (ProtoMsg (list byte)).
#[local] Instance Protocol_none : Protocol Msg Net unit (list byte) (list byte) := {
  proto_new := tt;
  append p _ := ret (p, None)
}.

(** A subscriber that collects what a connection delivers. *)
Abbreviation client := (NetStreamer.mk (NetStream.mk tt (mkReceiver 1) 256%Z) (Some (Collect.mk (I := Msg) None []))).

(** Two buffers addressed elsewhere are pushed; the event loop hands them over
    with a message for no connection in between. *)
Definition pushed : list (StreamBuf (list byte)) := [mkStreamBuf [x01; x02] 7%Z; mkStreamBuf [x03; x04] 8%Z].
Definition handed_over : list (OutEvent (A := list byte)) :=
  [ENotify (mkStreamBuf [x01; x02] 256%Z); ENotify (mkStreamBuf [x09] 300%Z); EWritable 256%Z; ENotify (mkStreamBuf [x03; x04] 256%Z)].


Lemma streamer_reads_witness :
  exists s' w', run_loop 3 client (mkWorld (V := Msg) (X := Net) [] [] {[ 1 := mkChan [mkProtoMsg [x05] 256%Z; mkProtoMsg [x06] 256%Z] 0 true None ]} quiet) =
      Done (NetStreamer.mk (NetStream.mk tt (mkReceiver 1) 256%Z) (Some s')) w' /\
    Collect.val s' = [mkProtoMsg [x05] 256%Z; mkProtoMsg [x06] 256%Z].
Proof.
  destruct (streamer_reads (Observer0 := Observer_Collect) (NetStream.mk tt (mkReceiver 1) 256%Z) (Collect.mk None [])
    [mkProtoMsg [x05] 256%Z; mkProtoMsg [x06] 256%Z] None
    (mkWorld (V := Msg) (X := Net) [] [] {[ 1 := mkChan [mkProtoMsg [x05] 256%Z; mkProtoMsg [x06] 256%Z] 0 true None ]} quiet) 3)
    as (s' & w' & E & Ho & _); [reflexivity|done|simpl; lia|].
  exists s', w'. split; [exact E|exact Ho].
Defined.
End Instances.
