(* ===== verification/NetEngine.v ===== *)
(** * The engine with its event loop: [struct NetEngine] of src/src/reactor.rs

    What clients of the reactor hold: an [EngineInner] next to the event loop
    that drives it, with the methods that pass on to the two, the drop glue
    that ends both, and what setting up does on a host where every call of the
    system works. *)

From S2P Require Import Prelude Effects Sendable Protocol Mio StreamBuf NetStream Reactor MioModel Outbound Inbound Engine.

(** What dropping a boxed closure does: it owns what it captured. *)
Class DropBox (V X B : Type) := drop_boxed : B -> M V X unit.

(** The items of a collection, dropped one after the other. *)
Fixpoint drop_each {V X B : Type} (f : B -> M V X unit) (l : list B) : M V X unit :=
  match l with
  | [] => ret tt
  | b :: l' => let! _ := f b in drop_each f l'
  end.

(** ** The drop glue of an engine *)

Section Drop.
Context {X Alloc AB A T Out CB Sender : Type} {Slab : Type -> Type}.
Abbreviation V := (ProtoMsg Out).
Context `{!MioTypes} `{!SlabItems Slab} `{!MioOps V X (StreamBuf A) (ReadBuf AB) Sender} `{!DropBox V X CB}.
Abbreviation Inner := (EngineInner Slab Alloc A AB T CB).

Definition drop_listener (l : TcpAcceptor * SyncSender) : M V X unit :=
  let! _ := acceptor_close l.1 in drop_q (Item := V) l.2.

(** The fields in order; the configuration owns nothing that acts. *)
Definition drop_inner (self : Inner) : M V X unit :=
  let! _ := drop_each drop_listener (slab_items (listeners self)) in
  let! _ := drop_each (fun e => drop_boxed e.1) (slab_items (timeouts self)) in
  drop_each drop_conn (slab_items (conns self)).
End Drop.

(** ** [struct NetEngine] *)

Module NetEngine.
(** The field [event_loop] is the loop of the world: third-party state. *)
Record t `{!MioTypes} (Slab : Type -> Type) (Alloc A AB T CB : Type) := mk { inner : EngineInner Slab Alloc A AB T CB }.
Arguments mk {_ Slab Alloc A AB T CB} _.
Arguments inner {_ Slab Alloc A AB T CB} _.

Section Def.
Context {X Alloc AB A T Out CB Sender : Type} {Slab : Type -> Type}.
Abbreviation V := (ProtoMsg Out).
Context `{!MioTypes} `{!Iobuf A} `{!AppendBufOps Alloc AB A} `{!SlabOps Slab} `{!SlabItems Slab}.
Context `{!MioOps V X (StreamBuf A) (ReadBuf AB) Sender} `{!Protocol V X T A Out} `{!TimerCB V X CB} `{!DropBox V X CB}.
Context `{!EventLoopSenderOps V X Sender (StreamBuf A)}.
Context `{!EventLoopRun V X (EngineInner Slab Alloc A AB T CB) (Event Token ReadHint (StreamBuf A)) MioError}.
Abbreviation Self := (t Slab Alloc A AB T CB).

Definition configured (cfg : NetEngineConfig Alloc) : M V X Self :=
  let! i := Reactor.configured cfg in ret (mk i).

Definition new : M V X Self := configured default_config.

Definition connect (self : Self) (hostname : string) (port : Z) : M V X (Self * result (NetStream.t Sender) string) :=
  let! '(i, r) := Reactor.connect (inner self) hostname port in ret (mk i, r).

Definition listen (self : Self) (addr : string) (port : Z) : M V X (Self * result Receiver string) :=
  let! '(i, r) := Reactor.listen (inner self) addr port in ret (mk i, r).

Definition timeout (self : Self) (ms : Z) (callback : CB) : M V X Self :=
  let! i := set_timeout (inner self) ms callback in ret (mk i).

(** [run], [run_once] and [shutdown] take [self] by value: the engine they
    have, or the event loop hands back, is dropped. *)
Definition run (fuel : nat) (self : Self) : M V X unit :=
  let! i := Reactor.run fuel (inner self) in drop_inner i.
Definition run_once (fuel : nat) (self : Self) : M V X unit :=
  let! i := Reactor.run_once fuel (inner self) in drop_inner i.
Definition shutdown (self : Self) : M V X unit :=
  let! _ := el_shutdown in drop_inner (inner self).
End Def.
End NetEngine.

(** ** A host where the system's calls work *)

(** What can be seen of the host besides what its sockets have sent and will
    receive and the event loop's mail: whether it works, and the sockets
    waiting to be accepted. *)
Class HostView (X : Type) `{!MioTypes} := { host_up : X -> Prop; backlog : X -> list TcpSocket }.

Section Quiet.
Context {V X Alloc AB A Sender : Type}.
Context `{!MioTypes} `{!Iobuf A} `{!AppendBufOps Alloc AB A} `{!MioOps V X (StreamBuf A) (ReadBuf AB) Sender}.
Context `{!EventLoopSenderOps V X Sender (StreamBuf A)} `{!EventLoopSenderLaws V X Sender (StreamBuf A)}.
Context `{!SockLaws V X A AB Sender} `{!RecvLaws V X Alloc A AB Sender} `{!HostView X}.

(** The host is as it was, as far as it can be seen. *)
Record still (x x' : X) : Prop := {
  st_mail : mail x' = mail x;
  st_sent : forall s, sent x' s = sent x s;
  st_arriving : forall s, arriving x' s = arriving x s;
  st_backlog : backlog x' = backlog x;
  st_up : host_up x -> host_up x'
}.

#[export] Instance still_preorder : PreOrder still.
Proof.
  split; [by intros x|]. intros x1 x2 x3 [] []. split; try congruence; try auto; intros s; by etrans.
Qed.

(** Nothing that can be seen has changed, but the log. *)
Record quiet (w w' : World V X) : Prop := {
  q_chans : chans w' = chans w;
  q_stdout : stdout w' = stdout w;
  q_still : still (ext w) (ext w')
}.

#[export] Instance quiet_preorder : PreOrder quiet.
Proof.
  split; [by intros w|]. intros w1 w2 w3 [] []. split; [congruence..|]. by etrans.
Qed.

Lemma quiet_log w l : quiet w (mkWorld (stdout w) l (chans w) (ext w)).
Proof. by destruct w. Qed.

Lemma quiet_up w w' : quiet w w' -> host_up (ext w) -> host_up (ext w').
Proof. intros [_ _ []]. auto. Qed.

(** What the calls do on a host that works. *)
Class HostLaws := {
  hosts_law : forall h w, host_up (ext w) -> exists ip ips w', get_host_addresses h w = Done (Ok (ip :: ips)) w' /\ quiet w w';
  tcp_v4_law : forall w, host_up (ext w) -> exists s w', tcp_v4 w = Done (Ok s) w' /\ quiet w w';
  connect_law : forall s ip port w, host_up (ext w) -> exists w', sock_connect s ip port w = Done (Ok tt) w' /\ quiet w w';
  bind_law : forall s ip port w, host_up (ext w) -> exists l w', sock_bind s ip port w = Done (Ok l) w' /\ quiet w w';
  listen_law : forall s n w, host_up (ext w) -> exists a w', sock_listen s n w = Done (Ok a) w' /\ quiet w w';
  register_conn_law : forall s t i w, host_up (ext w) -> exists w', register_conn s t i w = Done (Ok tt) w' /\ quiet w w';
  register_listener_law : forall a t i w, host_up (ext w) -> exists w', register_listener a t i w = Done (Ok tt) w' /\ quiet w w';
  reregister_conn_law : forall s t i w, host_up (ext w) -> exists w', reregister_conn s t i w = Done (Ok tt) w' /\ quiet w w';
  reregister_listener_law : forall a t i w, host_up (ext w) -> exists w', reregister_listener a t i w = Done (Ok tt) w' /\ quiet w w';
  configured_law : forall cfg w, host_up (ext w) -> exists w', el_configured cfg w = Done (Ok tt) w' /\ quiet w w';
  timeout_law : forall t ms w, host_up (ext w) -> exists h w', el_timeout t ms w = Done (Ok h) w' /\ quiet w w';
  channel_law : forall w, exists q w', el_channel w = Done q w' /\ quiet w w';
  clone_law : forall q w, exists q' w', els_clone q w = Done q' w' /\ quiet w w';
  els_drop_quiet : forall q w, exists w', els_drop q w = Done tt w' /\ quiet w w';
  shutdown_law : forall w, exists w', el_shutdown w = Done tt w' /\ quiet w w';
  close_law : forall s w, exists w', sock_close s w = Done tt w' /\ quiet w w';
  acceptor_close_law : forall a w, exists w', acceptor_close a w = Done tt w' /\ quiet w w'
}.
End Quiet.
#[export] Existing Instances still_preorder quiet_preorder.

(** ** Dropping an engine *)

Section Facts.
Context {X Alloc AB A T Out CB Sender : Type} {Slab : Type -> Type}.
Abbreviation V := (ProtoMsg Out).
Context `{!MioTypes} `{!Iobuf A} `{!AppendBufOps Alloc AB A} `{!SlabOps Slab} `{!SlabLaws Slab} `{!SlabItems Slab}.
Context `{!MioOps V X (StreamBuf A) (ReadBuf AB) Sender} `{!Protocol V X T A Out} `{!TimerCB V X CB} `{!DropBox V X CB}.
Context `{!EventLoopSenderOps V X Sender (StreamBuf A)} `{!EventLoopSenderLaws V X Sender (StreamBuf A)}.
Context `{!SockLaws V X A AB Sender} `{!RecvLaws V X Alloc A AB Sender} `{!HostView X} `{!HostLaws (Alloc := Alloc)}.
Abbreviation Conn := (Connection A AB T).
Abbreviation Inner := (EngineInner Slab Alloc A AB T CB).
Implicit Types w : World V X.

(** The senders an engine holds, and how many of them are of queue [c]. *)
Definition feeds (self : Inner) : list SyncSender :=
  map snd (slab_items (listeners self)) ++ map conn_tx (slab_items (conns self)).
Definition count_tx (c : nat) (txs : list SyncSender) : nat := length (filter (fun tx => stx_chan tx = c) txs).

Lemma count_tx_one c : count_tx c [mkSyncSender c] = 1.
Proof. unfold count_tx. by rewrite filter_cons, decide_True. Qed.

(** From [w] to [w'] the senders [txs] were dropped. *)
Record released (txs : list SyncSender) w w' : Prop := {
  rl_chans : forall c, chans w' !! c =
    (fun ch => mkChan (ch_queue ch) (ch_senders ch - count_tx c txs) (ch_receiver ch) (ch_bound ch)) <$> (chans w !! c);
  rl_stdout : stdout w' = stdout w;
  rl_still : still (ext w) (ext w')
}.

Lemma released_nil w : released [] w w.
Proof.
  split; [|done..]. intros c. destruct (chans w !! c) as [[]|]; [|done]. simpl. by rewrite Nat.sub_0_r.
Qed.

Lemma released_app txs1 txs2 w1 w2 w3 : released txs1 w1 w2 -> released txs2 w2 w3 -> released (txs1 ++ txs2) w1 w3.
Proof.
  intros [C1 S1 X1] [C2 S2 X2]. split; [|congruence|by etrans]. intros c. rewrite C2, C1.
  destruct (chans w1 !! c) as [[]|]; [|done]. simpl. unfold count_tx. rewrite filter_app, length_app, Nat.sub_add_distr. done.
Qed.

Lemma released_one tx w w1 : quiet w w1 ->
  exists w', drop_q (Item := V) tx w1 = Done tt w' /\ released [tx] w w'.
Proof.
  intros [C1 S1 X1]. eexists. split; [reflexivity|]. split; [|exact S1|exact X1]. intros c. simpl. rewrite lookup_alter, C1.
  unfold count_tx. rewrite filter_cons. case_decide as Hc.
  - subst. destruct (chans w !! _) as [[]|]; [|done]. simpl. do 2 f_equal. lia.
  - destruct (chans w !! c) as [[]|]; [|done]. simpl. by rewrite Nat.sub_0_r.
Qed.

Lemma drop_each_releases {B : Type} (f : B -> M V X unit) (txs : B -> list SyncSender) l w :
  (forall b w, exists w', f b w = Done tt w' /\ released (txs b) w w') ->
  exists w', drop_each f l w = Done tt w' /\ released (concat (map txs l)) w w'.
Proof.
  intros Hf. revert w. induction l as [|b l IH]; intros w; simpl.
  - exists w. split; [done|apply released_nil].
  - destruct (Hf b w) as (w1 & E1 & R1). destruct (IH w1) as (w2 & E2 & R2).
    exists w2. unfold bind. rewrite E1. split; [exact E2|by eapply released_app].
Qed.

Lemma drop_listener_releases l w : exists w', drop_listener l w = Done tt w' /\ released [l.2] w w'.
Proof.
  destruct (acceptor_close_law l.1 w) as (w1 & E1 & Q1). destruct (released_one l.2 w w1 Q1) as (w2 & E2 & R2).
  exists w2. split; [|exact R2]. unfold drop_listener, bind. by rewrite E1.
Qed.

Lemma drop_conn_releases (c : Conn) w : exists w', drop_conn c w = Done tt w' /\ released [conn_tx c] w w'.
Proof.
  destruct (close_law (sock c) w) as (w1 & E1 & Q1). destruct (released_one (conn_tx c) w w1 Q1) as (w2 & E2 & R2).
  exists w2. split; [|exact R2]. unfold drop_conn, bind. by rewrite E1.
Qed.

Lemma concat_singles {B : Type} (f : B -> SyncSender) l : concat (map (fun b => [f b]) l) = map f l.
Proof. induction l as [|b l IH]; simpl; [done|by rewrite IH]. Qed.

(** Dropping an engine, which is what [run] and [shutdown] end with, closes
    everything it owns and does nothing else: every queue is left with its
    messages and with as many senders fewer as the engine held of it, so
    that a reader sees the end of the queue once the messages are read. *)
Theorem drop_inner_releases (self : Inner) w :
  (forall cb w, exists w', drop_boxed cb w = Done tt w' /\ quiet w w') ->
  exists w', drop_inner self w = Done tt w' /\ released (feeds self) w w'.
Proof.
  intros Hcb. destruct (drop_each_releases drop_listener (fun l => [l.2]) (slab_items (listeners self)) w drop_listener_releases) as (w1 & E1 & R1).
  destruct (drop_each_releases (fun e : CB * option Timeout => drop_boxed e.1) (fun _ => []) (slab_items (timeouts self)) w1) as (w2 & E2 & R2).
  { intros e w0. destruct (Hcb e.1 w0) as (w0' & E0 & [Q1 Q2 Q3]). exists w0'. split; [done|]. split; [|done..].
    intros c. rewrite Q1. destruct (chans w0 !! c) as [[]|]; [|done]. simpl. by rewrite Nat.sub_0_r. }
  destruct (drop_each_releases drop_conn (fun c : Conn => [conn_tx c]) (slab_items (conns self)) w2 drop_conn_releases) as (w3 & E3 & R3).
  exists w3. split; [unfold drop_inner, bind; by rewrite E1, E2|].
  rewrite concat_singles in R1. rewrite concat_singles in R3. assert (E0 : concat (map (fun _ : CB * option Timeout => @nil SyncSender) (slab_items (timeouts self))) = []).
  { clear. by induction (slab_items (timeouts self)). }
  rewrite E0 in R2. unfold feeds. eapply released_app; [exact R1|]. exact (released_app [] _ _ _ _ R2 R3).
Qed.

(** C31: [NetEngine::shutdown], from any engine: the event loop is told to stop and
    the engine is dropped.  Every queue keeps its messages and loses the
    senders the engine held of it; who reads a queue of which they were all
    the senders gets its messages, then the error that ends a [Coupler]. *)
Theorem shutdown_releases (self : NetEngine.t Slab Alloc A AB T CB) w :
  (forall cb w, exists w', drop_boxed cb w = Done tt w' /\ quiet w w') ->
  exists w', NetEngine.shutdown self w = Done tt w' /\ stdout w' = stdout w /\
    forall c ch, chans w !! c = Some ch ->
      chans w' !! c = Some (mkChan (ch_queue ch) (ch_senders ch - count_tx c (feeds (NetEngine.inner self))) (ch_receiver ch) (ch_bound ch)) /\
      (ch_senders ch <= count_tx c (feeds (NetEngine.inner self)) -> forall w2, chans w2 = chans w' ->
        match ch_queue ch with
        | [] => recv (mkReceiver c) w2 = Done (Err tt) w2
        | v :: _ => exists w3, recv (mkReceiver c) w2 = Done (Ok v) w3
        end).
Proof.
  intros Hcb. destruct (shutdown_law w) as (w1 & E1 & [Q1 Q2 Q3]).
  destruct (drop_inner_releases (NetEngine.inner self) w1 Hcb) as (w2 & E2 & [R1 R2 R3]).
  exists w2. split; [unfold NetEngine.shutdown, bind; by rewrite E1|]. split; [congruence|]. intros c ch Hc.
  assert (Hc2 : chans w2 !! c = Some (mkChan (ch_queue ch) (ch_senders ch - count_tx c (feeds (NetEngine.inner self))) (ch_receiver ch) (ch_bound ch))).
  { by rewrite R1, Q1, Hc. }
  split; [exact Hc2|]. intros Hle w3 Hw3. rewrite <- Hw3 in Hc2. unfold recv. simpl. rewrite Hc2. simpl.
  destruct (ch_queue ch); [|by eexists]. by replace (ch_senders ch - _) with 0 by lia.
Qed.

(** ** Setting up *)

(** A slab with a free token takes an item. *)
Lemma slab_insert_free {B : Type} (s : Slab B) x t :
  (slab_start s <= t < slab_start s + slab_capacity s)%Z -> slab_get s t = None ->
  exists tok s', slab_insert s x = Ok (tok, s').
Proof.
  intros Hr Hn. destruct (slab_insert s x) as [[tok s']|y] eqn:E; [eauto|].
  destruct (slab_insert_err _ _ _ _ E) as [_ Hall]. specialize (Hall t Hr). rewrite Hn in Hall. by destruct Hall.
Qed.

Definition has_room {B : Type} (s : Slab B) : Prop :=
  exists t, (slab_start s <= t < slab_start s + slab_capacity s)%Z /\ slab_get s t = None.

(** From [w] to [w'] a queue [c] was made, with one sender and its receiver. *)
Record opened (c : nat) (cap : Z) w w' : Prop := {
  op_new : chans w !! c = None;
  op_chans : chans w' = <[c := mkChan [] 1 true (Some (Z.to_nat cap))]> (chans w);
  op_stdout : stdout w' = stdout w;
  op_still : still (ext w) (ext w')
}.

Lemma new_chan_opens w w0 cap :
  quiet w w0 -> exists c w', sync_channel (Z.to_nat cap) w0 = Done (mkSyncSender c, mkReceiver c) w' /\
    opened c cap w w' /\ ext w' = ext w0.
Proof.
  intros [Q1 Q2 Q3]. eexists _, _. split; [reflexivity|]. split; [|done].
  split; [|by rewrite <- Q1|exact Q2|exact Q3]. rewrite <- Q1. apply not_elem_of_dom, is_fresh.
Qed.

Lemma opened_quiet c cap w w1 w2 : opened c cap w w1 -> quiet w1 w2 -> opened c cap w w2.
Proof. intros [] []. split; [done|congruence..|by etrans]. Qed.

(** On a host that works, with a token to spare, [listen] answers the receiver
    of a new queue, whose sender is in the listeners' table. *)
Theorem listen_works (self : Inner) addr port w :
  host_up (ext w) -> has_room (listeners self) ->
  exists a c tok ls w', listen self addr port w = Done (with_listeners ls self, Ok (mkReceiver c)) w' /\
    slab_insert (listeners self) (a, mkSyncSender c) = Ok (tok, ls) /\
    opened c (queue_size (config self)) w w'.
Proof.
  intros Hup (t & Ht & Hn).
  destruct (hosts_law addr w Hup) as (ip & ips & w1 & E1 & Q1). pose proof (quiet_up _ _ Q1 Hup) as Hup1.
  destruct (tcp_v4_law w1 Hup1) as (s & w2 & E2 & Q2). pose proof (quiet_up _ _ Q2 Hup1) as Hup2.
  destruct (bind_law s ip (wrap 16 port) w2 Hup2) as (l & w3 & E3 & Q3). pose proof (quiet_up _ _ Q3 Hup2) as Hup3.
  destruct (listen_law l 255 w3 Hup3) as (a & w4 & E4 & Q4). pose proof (quiet_up _ _ Q4 Hup3) as Hup4.
  destruct (new_chan_opens w w4 (queue_size (config self))) as (c & w5 & E5 & O5 & X5); [by repeat (etrans; [eassumption|])|].
  destruct (slab_insert_free (listeners self) (a, mkSyncSender c) t Ht Hn) as (tok & ls & Ei).
  destruct (slab_insert_laws _ _ _ _ _ Ei) as (_ & _ & Hget & _).
  destruct (register_listener_law a tok READABLE w5) as (w6 & E6 & Q6); [by rewrite X5|].
  exists a, c, tok, ls, w6. split; [|split; [done|by eapply opened_quiet]].
  unfold listen, listen_with, index0, bind. follow E1. follow E2. follow E3. follow E4. follow E5.
  rewrite Ei, Hget. cbn [unwrap_opt ret fst]. unfold ret at 1. cbn [fst]. follow E6. done.
Qed.

Lemma NetStream_new_quiet tok rx (dtx : Sender) w :
  exists dtx' w', NetStream.new tok rx dtx w = Done (NetStream.mk dtx' rx tok) w' /\ quiet w w'.
Proof.
  destruct (clone_law dtx w) as (dtx' & w1 & E1 & Q1). destruct (els_drop_quiet dtx w1) as (w2 & E2 & Q2).
  exists dtx', w2. split; [|by etrans]. unfold NetStream.new, bind. follow E1. follow E2. done.
Qed.

(** [connect] answers the stream of a new connection in the table: its own
    queue, and its token. *)
Theorem connect_works (self : Inner) hostname port w :
  host_up (ext w) -> has_room (conns self) ->
  exists s c tok cs dtx w',
    let rbuf := new_buf (A := A) (AB := AB) (read_buf_sz (config self)) (allocator (config self)) in
    connect self hostname port w = Done (with_conns cs self, Ok (NetStream.mk dtx (mkReceiver c) tok)) w' /\
    slab_insert (conns self) (Connection_new s (mkSyncSender c) rbuf) = Ok (tok, cs) /\
    opened c (queue_size (config self)) w w'.
Proof.
  intros Hup (t & Ht & Hn).
  destruct (hosts_law hostname w Hup) as (ip & ips & w1 & E1 & Q1). pose proof (quiet_up _ _ Q1 Hup) as Hup1.
  destruct (tcp_v4_law w1 Hup1) as (s & w2 & E2 & Q2). pose proof (quiet_up _ _ Q2 Hup1) as Hup2.
  destruct (new_chan_opens w w2 (queue_size (config self))) as (c & w3 & E3 & O3 & X3); [by repeat (etrans; [eassumption|])|].
  set (rbuf := new_buf (A := A) (AB := AB) (read_buf_sz (config self)) (allocator (config self))).
  set (co := Connection_new s (mkSyncSender c) rbuf : Conn).
  destruct (slab_insert_free (conns self) co t Ht Hn) as (tok & cs & Ei).
  destruct (slab_insert_laws _ _ _ _ _ Ei) as (_ & _ & Hget & _).
  destruct (register_conn_law s tok READABLE w3) as (w4 & E4 & Q4); [by rewrite X3|].
  destruct (connect_law s ip (wrap 16 port) w4) as (w5 & E5 & Q5); [eapply quiet_up; [exact Q4|by rewrite X3]|].
  set (w6 := mkWorld (stdout w5) (log w5 ++ [mkLog LDebug "Connected to server for token {:?}" [debug_token tok]]) (chans w5) (ext w5)).
  destruct (channel_law w6) as (chan & w7 & E7 & Q7). destruct (clone_law chan w7) as (dtx & w8 & E8 & Q8).
  destruct (NetStream_new_quiet tok (mkReceiver c) dtx w8) as (dtx' & w9 & E9 & Q9).
  destruct (els_drop_quiet chan w9) as (w10 & E10 & Q10).
  exists s, c, tok, cs, dtx', w10. cbv zeta. split; [|split; [exact Ei|]].
  - unfold connect, connect_at, index0, bind. follow E1. follow E2. follow E3. fold rbuf. fold co.
    rewrite Ei. cbn [conns with_conns]. rewrite Hget. cbn [unwrap_opt]. unfold ret at 1. change (sock co) with s.
    follow E4. follow E5. unfold debug, log_at. fold w6. follow E7. follow E8. follow E9. follow E10. done.
  - eapply opened_quiet; [exact O3|]. do 2 (etrans; [eassumption|]). etrans; [apply quiet_log|]. by repeat (etrans; [eassumption|]).
Qed.

(** [NetEngine::timeout] keeps the callback with the handle that clears it. *)
Theorem timeout_works (self : Inner) ms cb w :
  host_up (ext w) -> has_room (timeouts self) ->
  exists tok ts h w', set_timeout self ms cb w = Done (with_timeouts (slab_set ts tok (cb, Some h)) self) w' /\
    slab_insert (timeouts self) (cb, None) = Ok (tok, ts) /\ quiet w w'.
Proof.
  intros Hup (t & Ht & Hn). destruct (slab_insert_free (timeouts self) (cb, None) t Ht Hn) as (tok & ts & Ei).
  destruct (slab_insert_laws _ _ _ _ _ Ei) as (_ & _ & Hget & _).
  destruct (timeout_law tok ms w Hup) as (h & w1 & E1 & Q1).
  exists tok, ts, h, w1. split; [|by split]. unfold set_timeout, bind. rewrite Ei. cbn [unwrap ret]. unfold ret at 1.
  follow E1. rewrite Hget. done.
Qed.
End Facts.

(** ** The model's host works *)

#[export] Instance HostView_model : HostView Net := {
  host_up x := registers x = true /\ connects x = true;
  backlog := waiting
}.

#[export] Instance HostLaws_model {Out : Type} :
  HostLaws (V := ProtoMsg Out) (X := Net) (Alloc := unit) (AB := Append) (A := list byte) (Sender := unit).
Proof.
  split; intros; destruct w as [o l cs x]; try (match goal with Hup : host_up _ |- _ => destruct Hup as [Hr Hc]; simpl in Hr, Hc end).
  all: repeat match goal with |- exists _, _ => eexists end; split;
    [cbn; unfold on_net, answer; cbn; rewrite ?Hr, ?Hc; reflexivity|by split].
Qed.

(** ** A concrete instance: an engine with a listener and a client, shut down *)

Section Instances.
Abbreviation Msg := (ProtoMsg (list byte)).
Abbreviation Engine := (NetEngine.t (H := MioTypes_model) GSlab unit (list byte) Append (BufProtocol.t Four) bool).
#[local] Instance DropBox_bool : DropBox Msg Net bool := fun _ => ret tt.

Definition served_engine : M Msg Net (Engine * Receiver) :=
  let! ne := NetEngine.configured (mkConfig 4 32 16 44 100 None) in
  let! '(ne, r) := NetEngine.listen ne "localhost" 80 in
  let! srv_rx := unwrap r in
  let! '(ne, r) := NetEngine.connect (Sender := unit) ne "localhost" 80 in
  let! _ := unwrap r in
  ret (ne, srv_rx).

(** The reader of the listener's queue, which waited for the first message
    before, is told that no more can come. *)
Lemma shutdown_releases_witness :
  exists ne w w', served_engine (empty_world MioModel.quiet) = Done (ne, mkReceiver 0) w /\
    recv (mkReceiver 0) w = Blocked w /\
    NetEngine.shutdown ne w = Done tt w' /\ recv (mkReceiver 0) w' = Done (Err tt) w'.
Proof.
  destruct (served_engine (empty_world MioModel.quiet)) as [[ne rx] w| | |] eqn:E; try discriminate E.
  destruct (shutdown_releases (X := Net) (Alloc := unit) (A := list byte) (AB := Append) (T := BufProtocol.t Four) (CB := bool)
    (Sender := unit) (Out := list byte) (Slab := GSlab) (MioOps0 := MioOps_model) (SockLaws0 := SockLaws_model)
    (RecvLaws0 := RecvLaws_model) ne w) as (w' & Es & _ & Hq).
  { intros cb w0. exists w0. by split. }
  destruct (Hq 0 (mkChan [] 1 true (Some 4))) as [_ He].
  { vm_compute in E. injection E as <- <- <-. reflexivity. }
  exists ne, w, w'. split; [vm_compute in E; by injection E as <- <- <-|].
  split; [vm_compute in E; by injection E as <- <- <-|]. split; [exact Es|]. apply He; [|done].
  vm_compute in E. injection E as <- <- <-. vm_compute. lia.
Defined.
End Instances.
