(* ===== verification/Frames.v ===== *)
(** * What the engine's handlers leave alone

    A handler that writes to sockets does not touch the event loop's mail, the
    sockets waiting to be accepted or what arrives; one that reads does not
    touch what was sent.  The rules are those of a computation that keeps a
    relation between the host before and after it. *)

From S2P Require Import Prelude Effects Sendable Protocol Mio StreamBuf NetStream Reactor MioModel Outbound Inbound Engine NetEngine.

(** ** Computations that keep a relation *)

Section Keeps.
Context {V X : Type} (up : X -> Prop) (R : relation X) `{!PreOrder R}.
Context (R_up : forall x x', R x x' -> up x -> up x').

Definition keeps {B : Type} (m : M V X B) : Prop :=
  forall w b w', up (ext w) -> m w = Done b w' -> R (ext w) (ext w').

Lemma keeps_bind {B C : Type} (m : M V X B) (k : B -> M V X C) :
  keeps m -> (forall b, keeps (k b)) -> keeps (bind m k).
Proof.
  intros Hm Hk w c w' Hup (b & w1 & E1 & E2)%bind_done. pose proof (Hm _ _ _ Hup E1) as H1.
  etrans; [exact H1|]. eapply Hk; [|exact E2]. by eapply R_up.
Qed.

(** What leaves the host alone altogether. *)
Definition internal {B : Type} (m : M V X B) : Prop := forall w b w', m w = Done b w' -> ext w' = ext w.

Lemma keeps_internal {B : Type} (m : M V X B) : internal m -> keeps m.
Proof. intros Hm w b w' _ E. by rewrite (Hm _ _ _ E). Qed.
End Keeps.

Section Internal.
Context {V X : Type}.

Lemma internal_ret {B : Type} (b : B) : internal (V := V) (X := X) (ret b).
Proof. intros w c w' E. unfold ret in E. by simplify_eq. Qed.
Lemma internal_log l fmt args : internal (V := V) (X := X) (log_at l fmt args).
Proof. intros w c w' E. unfold log_at in E. by simplify_eq. Qed.
Lemma internal_unwrap {B E : Type} (r : result B E) : internal (V := V) (X := X) (unwrap r).
Proof. destruct r; [apply internal_ret|done]. Qed.
Lemma internal_unwrap_opt {B : Type} (o : option B) : internal (V := V) (X := X) (unwrap_opt o).
Proof. destruct o; [apply internal_ret|done]. Qed.
Lemma internal_alter c f : internal (V := V) (X := X) (alter_chan c f).
Proof. intros w b w' E. unfold alter_chan in E. by simplify_eq. Qed.
Lemma internal_chan_send c v : internal (V := V) (X := X) (chan_send c v).
Proof. intros w b w' E. unfold chan_send in E. crush_match; by simplify_eq. Qed.
Lemma internal_bind {B C : Type} (m : M V X B) (k : B -> M V X C) :
  internal m -> (forall b, internal (k b)) -> internal (bind m k).
Proof. intros Hm Hk w c w' (b & w1 & E1 & E2)%bind_done. rewrite (Hk _ _ _ _ E2). by eapply Hm. Qed.
End Internal.

#[export] Hint Resolve internal_ret internal_log internal_unwrap internal_unwrap_opt internal_alter internal_chan_send : rx.

(** Step through a handler; what is left are the calls of the system. *)
Ltac keeps_step :=
  lazymatch goal with
  | |- keeps _ _ (let _ := _ in _) => cbv zeta
  | |- keeps _ _ (bind _ _) => eapply keeps_bind; [typeclasses eauto|by intros ? ? []| |intros ?]
  | |- keeps _ _ (match ?x with _ => _ end) => destruct x
  | |- keeps _ _ (ret _) => apply keeps_internal; [typeclasses eauto|apply internal_ret]
  | |- keeps _ _ (debug _ _) => apply keeps_internal; [typeclasses eauto|apply internal_log]
  | |- keeps _ _ (error _ _) => apply keeps_internal; [typeclasses eauto|apply internal_log]
  | |- keeps _ _ (unwrap _) => apply keeps_internal; [typeclasses eauto|apply internal_unwrap]
  | |- keeps _ _ (unwrap_opt _) => apply keeps_internal; [typeclasses eauto|apply internal_unwrap_opt]
  end.
Ltac keeps_steps := repeat keeps_step.

Section Frames.
Context {X Alloc AB A T Out CB Sender : Type} {Slab : Type -> Type}.
Abbreviation V := (ProtoMsg Out).
Context `{!MioTypes} `{!Iobuf A} `{!AppendBufOps Alloc AB A} `{!SlabOps Slab} `{!SlabLaws Slab}.
Context `{!MioOps V X (StreamBuf A) (ReadBuf AB) Sender} `{!Protocol V X T A Out} `{!TimerCB V X CB}.
Context `{!EventLoopSenderOps V X Sender (StreamBuf A)} `{!EventLoopSenderLaws V X Sender (StreamBuf A)}.
Context `{!SockLaws V X A AB Sender} `{!RecvLaws V X Alloc A AB Sender} `{!HostView X} `{!HostLaws (Alloc := Alloc)}.
Abbreviation Conn := (Connection A AB T).
Abbreviation Inner := (EngineInner Slab Alloc A AB T CB).
Implicit Types w : World V X.

(** ** The two directions *)

(** What writing leaves alone; what was sent only grows. *)
Record wrote (x x' : X) : Prop := {
  wr_mail : mail x' = mail x;
  wr_sent : forall s, sent x s `prefix_of` sent x' s;
  wr_arriving : forall s, arriving x' s = arriving x s;
  wr_backlog : backlog x' = backlog x;
  wr_up : host_up x -> host_up x'
}.

(** What reading socket [s] leaves alone. *)
Record received (s : TcpSocket) (x x' : X) : Prop := {
  rc_mail : mail x' = mail x;
  rc_sent : forall s', sent x' s' = sent x s';
  rc_arriving : forall s', s' <> s -> arriving x' s' = arriving x s';
  rc_backlog : backlog x' = backlog x;
  rc_up : host_up x -> host_up x'
}.

#[export] Instance wrote_preorder : PreOrder wrote.
Proof.
  split; [by intros x; split|]. intros x1 x2 x3 [] []. split; [congruence|intros s; etrans; [apply wr_sent0|apply wr_sent1]|intros s; by rewrite wr_arriving1, wr_arriving0|congruence|auto].
Qed.
#[export] Instance received_preorder s : PreOrder (received s).
Proof.
  split; [by intros x; split|]. intros x1 x2 x3 [] []. split; [congruence| |intros s' Hs|congruence|auto].
  - intros s'. by rewrite rc_sent1, rc_sent0.
  - by rewrite rc_arriving1, rc_arriving0.
Qed.

Lemma still_wrote x x' : still x x' -> wrote x x'.
Proof. intros []. split; try done. intros s. by rewrite st_sent. Qed.
Lemma still_received s x x' : still x x' -> received s x x'.
Proof. intros []. by split. Qed.

(** What one call of the system leaves alone, with the answers a socket with
    nothing to read and a listener give. *)
Class FrameLaws := {
  send_frame : forall q m w r w', els_send q m w = Done r w' ->
    (forall s, sent (ext w') s = sent (ext w) s) /\ (forall s, arriving (ext w') s = arriving (ext w) s) /\
    backlog (ext w') = backlog (ext w) /\ (host_up (ext w) -> host_up (ext w'));
  write_frame : forall s b w r w', sock_write s b w = Done r w' -> wrote (ext w) (ext w');
  read_frame : forall s b w r w', sock_read s b w = Done r w' -> received s (ext w) (ext w');
  read_idle : forall s b w, host_up (ext w) -> arriving (ext w) s = [] ->
    exists w', sock_read s b w = Done (b, Ok WouldBlock) w' /\ quiet w w';
  accept_none : forall a w, host_up (ext w) -> backlog (ext w) = [] ->
    exists w', accept a w = Done (Ok WouldBlock) w' /\ quiet w w';
  accept_some : forall a w s more, host_up (ext w) -> backlog (ext w) = s :: more ->
    exists w', accept a w = Done (Ok (Ready s)) w' /\ chans w' = chans w /\ stdout w' = stdout w /\
      mail (ext w') = mail (ext w) /\ (forall s, sent (ext w') s = sent (ext w) s) /\
      (forall s, arriving (ext w') s = arriving (ext w) s) /\ backlog (ext w') = more /\ host_up (ext w')
}.
Context `{!FrameLaws}.

(** ** The handlers *)

Lemma keeps_reregister (R : relation X) s t i :
  (forall x x', still x x' -> R x x') -> keeps host_up R (reregister_conn (V := V) s t i).
Proof.
  intros HR w r w' Hup E. destruct (reregister_conn_law s t i w Hup) as (w0 & E0 & [_ _ Q]). same_outcome. by apply HR.
Qed.

Lemma keeps_drain fuel (c : Conn) : keeps host_up wrote (drain_loop fuel c).
Proof.
  revert c. induction fuel as [|fuel IH]; intros c; simpl; [by intros w b w'|].
  keeps_steps; try apply IH. intros w r w' _ E. by eapply write_frame.
Qed.

Lemma keeps_drain_and_rearm fuel tok (c : Conn) : keeps host_up wrote (drain_and_rearm fuel tok c).
Proof.
  unfold drain_and_rearm, drain_write_queue_to_socket. keeps_steps; [apply keeps_drain|].
  apply keeps_reregister, still_wrote.
Qed.

Lemma keeps_handle_out fuel (self : Inner) e : keeps host_up wrote (handle_out fuel self e).
Proof. destruct e; simpl; unfold notify, writable; keeps_steps; apply keeps_drain_and_rearm. Qed.

Context {B : Type} `{!Framing V X T A Out B}.

Lemma internal_append (p : T) (a : A) : internal (V := V) (X := X) (append p a).
Proof.
  intros w r w' E. pose proof (append_frame p a w) as H1. destruct (frame p (as_window_slice a)) as [p' [[m n]|]].
  - destruct H1 as (item & rest & H1 & _). by same_outcome.
  - by same_outcome.
Qed.

Lemma internal_send tx v : internal (V := V) (X := X) (send (Item := V) (tx : SyncSender) v).
Proof. apply internal_bind; [apply internal_chan_send|]. intros [r|[e]]; apply internal_ret. Qed.

Lemma internal_frame_loop fuel tok (a : A) (c : Conn) : internal (V := V) (X := X) (frame_loop fuel tok a c).
Proof.
  revert a c. induction fuel as [|fuel IH]; intros a c; simpl; [by intros w b w'|].
  apply internal_bind; [apply internal_append|]. intros [p' [[[item rest] n]|]]; [|apply internal_ret].
  apply internal_bind; [apply internal_send|]. intros _. apply IH.
Qed.

(** [readable] for a connection that is not hung up. *)
Lemma keeps_readable fuel (self : Inner) tok h (c : Conn) :
  slab_contains (listeners self) tok = false -> slab_get (conns self) tok = Some c -> hint_contains_hup h = false ->
  keeps host_up (received (sock c)) (readable fuel self tok h).
Proof.
  intros Hl Hc Hh. unfold readable, readable_conn, read. rewrite Hl, Hc, Hh. keeps_steps.
  - intros w r w' _ E. by eapply read_frame.
  - apply keeps_internal; [typeclasses eauto|apply internal_frame_loop].
  - apply keeps_reregister, still_received.
Qed.

(** ** Events without news, and new connections *)

(** A readable event for a connection with nothing to read only renews its
    registration. *)
Lemma readable_idle fuel (self : Inner) tok h (c : Conn) w :
  slab_contains (listeners self) tok = false -> slab_get (conns self) tok = Some c -> hint_contains_hup h = false ->
  host_up (ext w) -> arriving (ext w) (sock c) = [] ->
  exists w', readable fuel self tok h w =
      Done (with_conns (slab_set (conns self) tok (with_interest (interest_or (interest c) READABLE) c)) self) w' /\ quiet w w'.
Proof.
  intros Hl Hc Hh Hup Ha.
  set (w0 := mkWorld (stdout w) (log w ++ [mkLog LDebug "mio_processor::readable top, token: {:?}" [debug_token tok]]) (chans w) (ext w)).
  destruct (read_idle (sock c) (buf c) w0 Hup Ha) as (w1 & E1 & Q1).
  set (w2 := mkWorld (stdout w1) (log w1 ++ [mkLog LDebug "Got Readable event for socket, but failed to write any bytes" []]) (chans w1) (ext w1)).
  destruct (reregister_conn_law (sock c) tok (interest_or (interest c) READABLE) w2) as (w3 & E3 & Q3).
  { exact (quiet_up w0 w1 Q1 Hup). }
  exists w3. split.
  - unfold readable, readable_conn, read, debug, log_at, bind. fold w0. rewrite Hl, Hc, Hh.
    change (with_buf (buf c) c) with (mkConn (sock c) (outbuf c) (interest c) (conn_tx c) (marker c) (proto c) (buf c)).
    follow E1. fold w2. cbn [with_interest with_buf sock interest]. follow E3. by destruct c.
  - etrans; [apply quiet_log|]. etrans; [exact Q1|]. etrans; [apply quiet_log|]. exact Q3.
Qed.

(** A readable event for a listener where nobody waits logs an error. *)
Lemma listener_idle (self : Inner) tok a tx w :
  slab_get (listeners self) tok = Some (a, tx) -> host_up (ext w) -> backlog (ext w) = [] ->
  exists w', readable_listener self tok w = Done self w' /\ quiet w w'.
Proof.
  intros Hl Hup Hb. destruct (accept_none a w Hup Hb) as (w1 & E1 & Q1).
  set (w2 := mkWorld (stdout w1) (log w1 ++ [mkLog LError "Failed to accept socket: {:?}" ["Ok(WouldBlock)"%string]]) (chans w1) (ext w1)).
  destruct (reregister_listener_law a tok READABLE w2) as (w3 & E3 & Q3); [exact (quiet_up w w1 Q1 Hup)|].
  exists w3. split.
  - unfold readable_listener, error, log_at, bind. rewrite Hl. cbn [unwrap_opt]. unfold ret at 1. follow E1. fold w2. by follow E3.
  - etrans; [exact Q1|]. etrans; [apply quiet_log|exact Q3].
Qed.

(** From [w] to [w'] the first waiting socket was accepted and queue [c] got
    one more sender. *)
Record accepted (c : nat) (more : list TcpSocket) w w' : Prop := {
  ac_chans : chans w' = alter (fun ch => mkChan (ch_queue ch) (S (ch_senders ch)) (ch_receiver ch) (ch_bound ch)) c (chans w);
  ac_stdout : stdout w' = stdout w;
  ac_mail : mail (ext w') = mail (ext w);
  ac_sent : forall s, sent (ext w') s = sent (ext w) s;
  ac_arriving : forall s, arriving (ext w') s = arriving (ext w) s;
  ac_backlog : backlog (ext w') = more;
  ac_up : host_up (ext w')
}.

Lemma listener_accepts (self : Inner) tok a tx s more w :
  let rbuf := new_buf (A := A) (AB := AB) (read_buf_sz (config self)) (allocator (config self)) in
  slab_get (listeners self) tok = Some (a, tx) -> host_up (ext w) -> backlog (ext w) = s :: more -> has_room (conns self) ->
  exists t cs w', readable_listener self tok w = Done (with_conns cs self) w' /\
    slab_insert (conns self) (Connection_new s tx rbuf) = Ok (t, cs) /\ accepted (stx_chan tx) more w w'.
Proof.
  intros rbuf Hl Hup Hb (t0 & Ht0 & Hn0).
  destruct (accept_some a w s more Hup Hb) as (w1 & E1 & A1 & A2 & A3 & A4 & A5 & A6 & A7).
  destruct (slab_insert_free (conns self) (Connection_new s tx rbuf) t0 Ht0 Hn0) as (t & cs & Ei).
  destruct (slab_insert_laws _ _ _ _ _ Ei) as (_ & _ & Hget & _).
  set (w2 := with_chans w1 (alter (fun ch => mkChan (ch_queue ch) (S (ch_senders ch)) (ch_receiver ch) (ch_bound ch)) (stx_chan tx) (chans w1))).
  destruct (register_conn_law s t (interest_or READABLE HUP) w2 A7) as (w3 & E3 & Q3).
  set (w4 := mkWorld (stdout w3) (log w3 ++ [mkLog LDebug "readable accepted socket for token {:?}" [debug_token t]]) (chans w3) (ext w3)).
  destruct (reregister_listener_law a tok READABLE w4) as (w5 & E5 & Q5); [exact (quiet_up w2 w3 Q3 A7)|].
  exists t, cs, w5. split; [|split; [exact Ei|]].
  - unfold readable_listener, debug, log_at, bind. rewrite Hl. cbn [unwrap_opt]. unfold ret at 1. follow E1.
    cbn [clone_q Sendable_SyncSender]. unfold chan_clone, alter_chan, bind. fold w2. cbn [ret]. unfold ret at 1.
    change (new_buf _ _) with rbuf. rewrite Ei, Hget. cbn [unwrap_opt]. unfold ret at 1. cbn [sock Connection_new]. follow E3.
    fold w4. by follow E5.
  - assert (Q : quiet w2 w5) by (etrans; [exact Q3|]; etrans; [apply quiet_log|exact Q5]). destruct Q as [C S [M1 M2 M3 M4 M5]].
    split; [rewrite C; simpl; by rewrite A1|by rewrite S|by rewrite M1|intros s'; by rewrite M2|intros s'; by rewrite M3|by rewrite M4|by apply M5].
Qed.
End Frames.

(** ** The model's host *)

#[export] Instance FrameLaws_model {Out : Type} :
  FrameLaws (X := Net) (Alloc := unit) (AB := Append) (A := list byte) (Out := Out) (Sender := unit).
Proof.
  split.
  - intros q m [o l cs x] r w' E. cbn in E. unfold on_net in E. simplify_eq/=. split; [done|]. split; [done|]. by split.
  - intros s b [o l cs x] r w' E. cbn [sock_write MioOps_model] in E. unfold net_write, bind, get_ext in E. cbn [ext] in E.
    destruct (lookup_list (takes x) s) as [|n ns]; unfold put_ext, ret in E; simplify_eq/=; [done|].
    split; try done. intros s'. cbn. unfold lookup_list. destruct (decide (s' = s)) as [->|Hne].
    + rewrite lookup_insert_eq. by eexists.
    + by rewrite lookup_insert_ne.
  - intros s b [o l cs x] r w' E. cbn [sock_read MioOps_model] in E. unfold net_read, bind, get_ext in E. cbn [ext] in E.
    destruct (lookup_list (incoming x) s) as [|chunk more]; unfold put_ext, ret in E; simplify_eq/=; [done|].
    split; try done. intros s' Hne. cbn. unfold lookup_list. by rewrite lookup_insert_ne.
  - intros s b w _ Ha. exists w. split; [|done]. cbn in *. unfold net_read, bind, get_ext. by rewrite Ha.
  - intros a w _ Hb. exists w. split; [|done]. cbn in *. unfold on_net. rewrite Hb. by destruct w.
  - intros a w s more Hup Hb. cbn in *. unfold on_net. rewrite Hb. eexists. split; [reflexivity|]. do 6 (split; [done|]). exact Hup.
Qed.
