(* ===== verification/Loopback.v ===== *)
(** * A client and a server on one engine

    Both network tests (src/src/net_stream.rs, src/test/test.rs) set an engine
    up that listens on a port of its own host and connects to it, arm a timer
    that shuts the event loop down, start a thread and run the loop.  Here
    this is a transition system, for any thread and any protocol whose
    messages all have one length: the thread's steps, the handlers the event
    loop calls, the end of [run], and what the host does (connecting the two
    sockets, carrying bytes), in any order. *)

From S2P Require Import Prelude Effects Sendable Protocol Mio StreamBuf NetStream Reactor MioModel Outbound Inbound Engine Lifetime NetEngine Frames.

(** The closure both tests give [timeout]: it owns nothing. *)
Inductive ShutdownCB := shutdown_cb.

(** ** Messages of one length *)

(** The bytes of a message, and that the protocol finds what was encoded.
    A message is no longer than the smallest read the configuration allows. *)
Class Format (V X T A Out B : Type) `{!Iobuf A} `{!Protocol V X T A Out} `{!Framing V X T A Out B} := {
  msg_len : nat;
  enc : B -> list byte;
  valid : B -> Prop;
  msg_len_range : 0 < msg_len <= 64;
  enc_length : forall b, valid b -> length (enc b) = msg_len;
  enc_frames : forall p bs, Forall valid bs -> frames (V := V) (X := X) (A := A) (Out := Out) p (concat (map enc bs)) = (p, bs, [])
}.

Section Format.
Context {V X T A Out B : Type} `{!Iobuf A} `{!Protocol V X T A Out} `{!Framing V X T A Out B} `{!Format V X T A Out B}.
Abbreviation msg_len := (msg_len (V := V) (X := X) (T := T) (A := A) (Out := Out) (B := B)).
Abbreviation enc := (enc (V := V) (X := X) (T := T) (A := A) (Out := Out)).
Abbreviation valid := (valid (V := V) (X := X) (T := T) (A := A) (Out := Out)).

Definition encs (bs : list B) : list byte := concat (map enc bs).

Lemma encs_app bs bs' : encs (bs ++ bs') = encs bs ++ encs bs'.
Proof. unfold encs. by rewrite map_app, concat_app. Qed.

Lemma length_encs bs : Forall valid bs -> length (encs bs) = msg_len * length bs.
Proof.
  unfold encs. induction 1 as [|b bs Hb _ IH]; simpl; [lia|]. rewrite length_app, IH, (enc_length b Hb). lia.
Qed.

(** A piece of whole messages after the first [a] is the next messages. *)
Lemma encs_piece J a chunk rest :
  Forall valid J -> encs (take a J) ++ chunk ++ rest = encs J -> a <= length J -> (msg_len | length chunk) ->
  exists i, chunk = encs (take i (drop a J)) /\ a + i <= length J /\ length chunk = msg_len * i.
Proof.
  intros HJ E Ha [i Hi]. rewrite <- (take_drop a J), encs_app, take_app_length' in E by (by rewrite length_take_le).
  apply app_inv_head in E. pose proof (msg_len_range (V := V) (X := X) (T := T) (A := A) (Out := Out) (B := B)) as Hlen.
  assert (Hd : Forall valid (drop a J)) by (by apply Forall_drop).
  assert (Hle : i <= length (drop a J)).
  { pose proof (f_equal length E) as El. rewrite length_app, length_encs in El by done. nia. }
  exists i. rewrite length_drop in Hle. split; [|split; [lia|lia]].
  rewrite <- (take_drop i (drop a J)), encs_app in E. apply app_inj_1 in E as [E _]; [exact E|].
  rewrite length_encs, length_take_le; [lia| |by apply Forall_take]. rewrite length_drop. lia.
Qed.
End Format.

Section Loopback.
Context {X Alloc AB A T Out B Els Th : Type} {Slab : Type -> Type}.
Abbreviation V := (ProtoMsg Out).
Context `{!MioTypes} `{!Iobuf A} `{!IobufLaws A}.
Context `{!AppendBufOps Alloc AB A} `{!AppendBufLaws Alloc AB A}.
Context `{!SlabOps Slab} `{!SlabLaws Slab} `{!SlabItems Slab} `{!SlabItemsLaws Slab}.
Context `{!MioOps V X (StreamBuf A) (ReadBuf AB) Els}.
Context `{!EventLoopSenderOps V X Els (StreamBuf A)} `{!EventLoopSenderLaws V X Els (StreamBuf A)}.
Context `{!SockLaws V X A AB Els} `{!RecvLaws V X Alloc A AB Els} `{!HostView X} `{!HostLaws (Alloc := Alloc)} `{!FrameLaws (Alloc := Alloc)}.
Context `{!Protocol V X T A Out} `{!Framing V X T A Out B} `{!Format V X T A Out B}.
Abbreviation Conn := (Connection A AB T).
Abbreviation Inner := (EngineInner Slab Alloc A AB T ShutdownCB).
Abbreviation Engine := (NetEngine.t Slab Alloc A AB T ShutdownCB).
Abbreviation msg_len := (msg_len (V := V) (X := X) (T := T) (A := A) (Out := Out) (B := B)).
Abbreviation enc := (enc (V := V) (X := X) (T := T) (A := A) (Out := Out)).
Abbreviation encs := (encs (V := V) (X := X) (T := T) (A := A) (Out := Out)).
Abbreviation valid := (valid (V := V) (X := X) (T := T) (A := A) (Out := Out)).
Implicit Types w : World V X.

(** [|&: el| { el.shutdown(); true }]. *)
#[export] Instance TimerCB_shutdown : TimerCB V X ShutdownCB := fun cb =>
  let! _ := el_shutdown in ret (cb, true).
#[export] Instance DropBox_shutdown : DropBox V X ShutdownCB := fun _ => ret tt.

(** ** The main thread *)

(** How both tests begin: the engine, the server's queue, the client's stream. *)
Definition loopback : M V X (Engine * Receiver * NetStream.t Els) :=
  let! ne := NetEngine.new in
  let! '(ne, r) := NetEngine.listen ne "127.0.0.1" 10000 in
  let! srv_rx := unwrap r in
  let! '(ne, r) := NetEngine.connect ne "127.0.0.1" 10000 in
  let! st := unwrap r in
  ret (ne, srv_rx, st).

(** How both end: when [run] returns, the engine it consumed is dropped, then
    the client's stream. *)
Definition main_end (e : Inner) (cl : NetStream.t Els) : M V X unit :=
  let! _ := drop_inner e in
  let! _ := els_drop (NetStream.dtx cl) in
  drop_receiver (NetStream.drx cl).

(** ** What is set up *)

(** A slab with one item. *)
Definition only {C : Type} (s : Slab C) (t : Token) (x : C) : Prop :=
  slab_get s t = Some x /\ forall t', t' <> t -> slab_get s t' = None.

Lemma only_first {C : Type} lo n (x : C) t s :
  slab_insert (slab_new_starting_at lo n) x = Ok (t, s) -> only s t x /\ in_range lo n s.
Proof.
  intros Hi. split; [|eapply in_range_insert; [apply in_range_new|exact Hi]].
  destruct (slab_insert_laws _ _ _ _ _ Hi) as (_ & _ & Hx & Ho & _). split; [done|].
  intros t' Ht. rewrite Ho by done. by destruct (slab_new_laws C lo n) as (_ & _ & ->).
Qed.

Lemma new_has_room {C : Type} lo n : (0 < n)%Z -> has_room (slab_new_starting_at (T := C) lo n).
Proof. intros Hn. destruct (slab_new_laws C lo n) as (E1 & E2 & E3). exists lo. rewrite E1, E2, E3. split; [lia|done]. Qed.

Definition rbuf0 : ReadBuf AB := new_buf (A := A) (Alloc := Alloc) 1536 None.
(** A connection as [Connection::new] makes it. *)
Definition fresh_conn (s : TcpSocket) (c : nat) : Conn := mkConn s [] HUP (mkSyncSender c) 0 proto_new rbuf0.

(** The engine: a listener and a client's connection, each under its token,
    and two open queues, from [w0] to [w1]. *)
Record set_up (e : Inner) (q q1 : nat) (tl tok : Token) (s1 : TcpSocket) w0 w1 : Prop := {
  su_config : config e = default_config;
  su_listener : (exists acc, only (listeners e) tl (acc, mkSyncSender q)) /\ in_range 0 128 (listeners e);
  su_client : only (conns e) tok (fresh_conn s1 q1) /\ in_range 256 10496 (conns e);
  su_queues : q1 <> q /\ chans w1 !! q = Some (mkChan [] 1 true (Some (Z.to_nat 524288))) /\
    chans w1 !! q1 = Some (mkChan [] 1 true (Some (Z.to_nat 524288)));
  su_still : still (ext w0) (ext w1)
}.

Lemma set_up_later e e' q q1 tl tok s1 w0 w1 w2 :
  set_up e q q1 tl tok s1 w0 w1 -> config e' = config e -> listeners e' = listeners e -> conns e' = conns e -> quiet w1 w2 ->
  set_up e' q q1 tl tok s1 w0 w2.
Proof. intros [] E1 E2 E3 [Q1 Q2 Q3]. split; rewrite ?E1, ?E2, ?E3, ?Q1; try done. by etrans. Qed.

Lemma loopback_works w0 :
  host_up (ext w0) ->
  exists e q q1 tl tok s1 dtx w1,
    loopback w0 = Done (NetEngine.mk e, mkReceiver q, NetStream.mk dtx (mkReceiver q1) tok) w1 /\
    set_up e q q1 tl tok s1 w0 w1 /\ has_room (timeouts e).
Proof.
  intros Hup.
  destruct (configured_law (event_loop_config 524288 100) w0 Hup) as (wa & Ea & Qa). pose proof (quiet_up _ _ Qa Hup) as Hupa.
  set (e0 := EngineInner_new default_config : Inner).
  destruct (listen_works e0 "127.0.0.1" 10000 wa Hupa) as (acc & q & tl & ls & wb & Eb & Ib & [On Oc Os Ox]).
  { apply new_has_room. lia. }
  pose proof (st_up _ _ Ox Hupa) as Hupb.
  destruct (connect_works (with_listeners ls e0) "127.0.0.1" 10000 wb Hupb) as (s1 & q1 & tok & cs & dtx0 & wc & Ec & Ic & [Pn Pc Ps Px]).
  { apply new_has_room. vm_compute. reflexivity. }
  assert (Hne : q1 <> q). { intros ->. rewrite Oc, lookup_insert_eq in Pn. done. }
  exists (with_conns cs (with_listeners ls e0)), q, q1, tl, tok, s1, dtx0, wc.
  split; [|split; [|apply new_has_room; lia]].
  - unfold loopback, NetEngine.new, NetEngine.configured, Reactor.configured, bind.
    change (event_loop_config _ _) with (event_loop_config 524288 100). follow Ea. fold e0.
    unfold NetEngine.listen, bind. cbn [NetEngine.inner]. follow Eb. unfold NetEngine.connect, bind. cbn [NetEngine.inner]. by follow Ec.
  - destruct Qa as [Ac As Ax]. split; simpl; try done.
    + apply only_first in Ib as [? ?]. split; [by exists acc|done].
    + by apply only_first.
    + split; [done|]. rewrite Pc, Oc. rewrite lookup_insert_eq, lookup_insert_ne, lookup_insert_eq by done. done.
    + etrans; [exact Ax|]. etrans; [exact Ox|exact Px].
Qed.

(** Arming the timer leaves everything else as it is. *)
Lemma arm_works (e : Inner) ms w :
  host_up (ext w) -> has_room (timeouts e) ->
  exists ts w', NetEngine.timeout (NetEngine.mk e) ms shutdown_cb w = Done (NetEngine.mk (with_timeouts ts e)) w' /\ quiet w w'.
Proof.
  intros Hup Hroom. destruct (timeout_works e ms shutdown_cb w Hup Hroom) as (tm & ts & h & w' & E & _ & Q).
  eexists _, w'. split; [|exact Q]. unfold NetEngine.timeout, bind. cbn [NetEngine.inner]. by follow E.
Qed.

(** ** The transition system *)

(** The main thread: what it has to do before [run], [run], and after it. *)
Inductive Main := Before (m : M V X unit) (e : Inner) | Running (e : Inner) | Returned.

(** The two threads; whether the host has completed the client's connection,
    and how many bytes of the client's socket it has carried to the server's. *)
Record Test := mkTest { thread : Th; main : Main; connected : bool; moved : nat; world : World V X }.

Definition with_ext w (x : X) : World V X := mkWorld (stdout w) (log w) (chans w) x.

(** Between [x] and [x'] only what arrives on [s], or the waiting sockets,
    or the mail may differ. *)
Record host_moves (s : option TcpSocket) (x x' : X) : Prop := {
  hm_sent : forall s', sent x' s' = sent x s';
  hm_arriving : forall s', s <> Some s' -> arriving x' s' = arriving x s';
  hm_up : host_up x -> host_up x'
}.

Section Machine.
Context (thread_next : Th -> M V X Th) (failed : Th).
Context (fuel : nat) (cl : NetStream.t Els) (armed : Token -> Prop) (s1 s2 : TcpSocket).

(** What the event loop gives the engine: its mail in order, timers that were
    set, and readable and writable events for any token at any time, whether
    there is news or not (a writable event may find that the socket takes
    more, which cannot be seen until it is written to). *)
Inductive gives (x : X) : Event Token ReadHint (StreamBuf A) -> X -> Prop :=
| gives_notify m x' : mail x = m :: mail x' -> host_moves None x x' -> backlog x' = backlog x -> gives x (EvNotify m) x'
| gives_writable t x' : still x x' -> gives x (EvWritable t) x'
| gives_readable t hint : hint_contains_hup hint = false -> gives x (EvReadable t hint) x
| gives_timeout t : armed t -> gives x (EvTimeout t) x.

(** What happens outside the threads' own code.  The host puts the server's
    end, [s2], of the client's connection before the listener, once; and it
    carries what the client's socket [s1] has sent to [s2], in pieces that end
    where messages end. *)
Inductive outside : Main -> bool -> nat -> World V X -> Main -> bool -> nat -> World V X -> Prop :=
| out_event e ev x' e' k n w w' :
    gives (ext w) ev x' -> handle fuel e ev (with_ext w x') = Done e' w' ->
    outside (Running e) k n w (Running e') k n w'
| out_return e k n w w' :
    main_end e cl w = Done tt w' -> outside (Running e) k n w Returned k n w'
| out_connect m n w x' :
    backlog (ext w) = [] -> backlog x' = [s2] -> mail x' = mail (ext w) -> host_moves None (ext w) x' ->
    outside m false n w m true n (with_ext w x')
| out_carry m k n d w x' :
    (msg_len | d) -> 0 < d -> n + d <= length (sent (ext w) s1) ->
    arriving x' s2 = arriving (ext w) s2 ++ [take d (drop n (sent (ext w) s1))] ->
    mail x' = mail (ext w) -> backlog x' = backlog (ext w) -> host_moves (Some s2) (ext w) x' ->
    outside m k n w m k (n + d) (with_ext w x').

Inductive step : Test -> Test -> Prop :=
| step_thread t t' m k n w w' :
    thread_next t w = Done t' w' -> step (mkTest t m k n w) (mkTest t' m k n w')
| step_fail t m k n w msg w' :
    thread_next t w = Panicked msg w' -> step (mkTest t m k n w) (mkTest failed m k n w')
| step_main t p e k n w w' :
    p w = Done tt w' -> step (mkTest t (Before p e) k n w) (mkTest t (Running e) k n w')
| step_outside t m k n w m' k' n' w' :
    outside m k n w m' k' n' w' -> step (mkTest t m k n w) (mkTest t m' k' n' w').
End Machine.
End Loopback.
