(* ===== verification/LoopbackSafe.v ===== *)
(** * What holds of the engine of Loopback.v, whatever happens

    The client's messages pass through the event loop's mail, its connection's
    write queue, the two sockets and the server's queue.  The invariant says
    where each of them is; every event keeps it, and none fails, waits or runs
    out of fuel, as long as no more messages are outstanding than one read may
    take. *)

From S2P Require Import Prelude Effects Sendable Protocol Mio StreamBuf NetStream Reactor MioModel Outbound Inbound Engine Lifetime NetEngine Frames Loopback.

Section LoopbackSafe.
Context {X Alloc AB A T Out B Els Th : Type} {Slab : Type -> Type}.
Abbreviation V := (ProtoMsg Out).
Context `{!MioTypes} `{!Iobuf A} `{!IobufLaws A}.
Context `{!AppendBufOps Alloc AB A} `{!AppendBufLaws Alloc AB A}.
Context `{!SlabOps Slab} `{!SlabLaws Slab} `{!SlabItems Slab} `{!SlabItemsLaws Slab}.
Context `{!MioOps V X (StreamBuf A) (ReadBuf AB) Els}.
Context `{!EventLoopSenderOps V X Els (StreamBuf A)} `{!EventLoopSenderLaws V X Els (StreamBuf A)}.
Context `{!SockLaws V X A AB Els} `{!RecvLaws V X Alloc A AB Els} `{!HostView X} `{!HostLaws (Alloc := Alloc)} `{!FrameLaws (Alloc := Alloc)}.
Context `{!Protocol V X T A Out} `{!Framing V X T A Out B} `{!Format V X T A Out B}.
Abbreviation Conn := (Connection A AB T).
Abbreviation Inner := (EngineInner Slab Alloc A AB T ShutdownCB).
Abbreviation msg_len := (msg_len (V := V) (X := X) (T := T) (A := A) (Out := Out) (B := B)).
Abbreviation enc := (enc (V := V) (X := X) (T := T) (A := A) (Out := Out)).
Abbreviation encs := (encs (V := V) (X := X) (T := T) (A := A) (Out := Out)).
Abbreviation valid := (valid (V := V) (X := X) (T := T) (A := A) (Out := Out)).
Abbreviation fresh_conn := (fresh_conn (X := X) (Alloc := Alloc) (AB := AB) (A := A) (T := T) (Out := Out)).
Implicit Types (w : World V X) (J : list B).

Context (fuel : nat) (srv_rx : Receiver) (cl : NetStream.t Els) (armed : Token -> Prop) (s1 s2 : TcpSocket) (tok tl : Token).
Abbreviation q := (rx_chan srv_rx).

(** ** The invariant *)

(** A message [b] of the client. *)
Definition carries (m : StreamBuf A) : Prop := sb_tok m = tok /\ exists b, valid b /\ StreamBuf_bytes m = enc b.

(** The engine's connections: the client's and, once it is accepted, the
    server's; [a] messages have reached the queue, which has [senders]. *)
Definition server_inv (e : Inner) (k : bool) (a senders : nat) (x : X) : Prop :=
  ((forall t, is_Some (slab_get (conns e) t) -> t = tok) /\ a = 0 /\ senders = 1 /\ backlog x = if k then [s2] else []) \/
  (exists t2 c2, t2 <> tok /\ slab_get (conns e) t2 = Some c2 /\
    (forall t, is_Some (slab_get (conns e) t) -> t = tok \/ t = t2) /\
    (sock c2 = s2 /\ conn_tx c2 = mkSyncSender q /\ conn_ok default_config c2 /\ unread c2 = [] /\ outbuf c2 = []) /\
    senders = 2 /\ k = true /\ backlog x = []).

Set Implicit Arguments.
(** While the engine is alive: the messages [J] were given to the event loop. *)
Record main_inv J (a n : nat) (k : bool) (e : Inner) (senders : nat) (x : X) : Prop := {
  mi_config : config e = default_config;
  mi_listener : (exists acc, only (listeners e) tl (acc, mkSyncSender q)) /\ (0 <= tl < 128)%Z;
  mi_range : in_range 256 10496 (conns e) /\ (256 <= tok)%Z;
  mi_timers : forall t, armed t -> is_Some (slab_get (timeouts e) t);
  mi_client : exists c1, slab_get (conns e) tok = Some c1 /\ (sock c1 = s1 /\ stx_chan (conn_tx c1) <> q /\ solid (outbuf c1)) /\
    sent x s1 ++ pending (outbuf c1) ++ pending (mail x) = encs J;
  mi_server : server_inv e k a senders x;
  mi_out : out_ok e;
  mi_mail : Forall carries (mail x);
  mi_quiet : arriving x s1 = [];
  mi_moved : n <= length (sent x s1) /\ take n (sent x s1) = encs (take a J) ++ concat (arriving x s2) /\
    Forall (fun chunk => (msg_len | length chunk)) (arriving x s2);
  mi_valid : Forall valid J;
  mi_count : a <= length J;
  mi_up : host_up x
}.
Unset Implicit Arguments.

(** The messages that have not reached the queue fit into one read. *)
Definition few J (a : nat) : Prop := msg_len * (length J - a) <= 64.

(** What the reader of the queue is owed: with [i] taken of the [a] that came. *)
Definition queue_inv J (i a n : nat) (k : bool) (m : Main (X := X) (Alloc := Alloc) (AB := AB) (A := A) (T := T) (Out := Out)) w : Prop :=
  exists ms senders, chans w !! q = Some (mkChan ms senders true (Some (Z.to_nat 524288))) /\
    map (fun v => view (pm_item v)) ms = drop i (take a J) /\
    match m with
    | Before _ e | Running e => main_inv J a n k e senders (ext w)
    | Returned => senders = 0
    end.

Context (Hfuel : 128 < fuel) (Hsocks : s2 <> s1) (Hcl : rx_chan (NetStream.drx cl) <> q).

(** ** Bytes *)

Lemma carries_solid ms : Forall carries ms -> solid ms.
Proof.
  unfold solid. intros Hms. eapply Forall_impl; [exact Hms|]. intros m (_ & b & Hb & Em) Hnil.
  pose proof (enc_length b Hb) as Hl. pose proof (msg_len_range (V := V) (X := X) (T := T) (A := A) (Out := Out) (B := B)).
  rewrite <- Em, Hnil in Hl. simpl in Hl. lia.
Qed.

Lemma carries_fits m : carries m -> fits m.
Proof.
  intros (_ & b & Hb & Em). unfold fits. rewrite iob_len_window. unfold StreamBuf_bytes in Em.
  rewrite Em, (enc_length b Hb). pose proof (msg_len_range (V := V) (X := X) (T := T) (A := A) (Out := Out) (B := B)). lia.
Qed.

Lemma carries_added ms : Forall carries ms -> added ms tok = pending ms.
Proof.
  unfold added. induction 1 as [|m ms [Ht _] _ IH]; [done|]. by rewrite filter_cons, decide_True, !pending_cons, IH.
Qed.

Lemma carries_not_added ms t : Forall carries ms -> t <> tok -> added ms t = [].
Proof.
  intros Hms Ht. unfold added. induction Hms as [|m ms [Hm _] _ IH]; [done|]. by rewrite filter_cons, decide_False by congruence.
Qed.

(** A connection is the client's, or has nothing to write. *)
Lemma main_inv_conn J a n k (e : Inner) senders x t c :
  main_inv J a n k e senders x -> slab_get (conns e) t = Some c -> t = tok \/ t <> tok /\ outbuf c = [].
Proof.
  intros Hm Hc. destruct (decide (t = tok)) as [|Hne]; [by left|right; split; [done|]].
  destruct (mi_server Hm) as [(S1 & _)|(t2 & c2 & _ & T2 & T3 & (_ & _ & _ & _ & T4) & _)].
  - destruct Hne. apply S1. by eexists.
  - destruct (T3 t) as [|Heq]; [by eexists|done|]. subst. congruence.
Qed.

(** What is queued for a socket, and in the mail, is bounded by what is
    outstanding. *)
Lemma main_inv_weight J a n k (e : Inner) senders x t c :
  main_inv J a n k e senders x -> few J a -> slab_get (conns e) t = Some c -> weight (outbuf c) + weight (mail x) <= 128.
Proof.
  intros Hm Hfew Hc. pose proof (solid_weight _ (carries_solid _ (mi_mail Hm))) as Wm.
  destruct (mi_client Hm) as (c1 & Hc1 & (_ & _ & Hsolid) & Hbytes). pose proof (solid_weight _ Hsolid) as Wo.
  destruct (mi_moved Hm) as (V1 & V2 & _). pose proof (mi_count Hm). unfold few in Hfew.
  apply (f_equal length) in Hbytes, V2. rewrite !length_app, length_encs in Hbytes by apply Hm.
  rewrite length_app, length_encs, !length_take in V2 by (apply Forall_take, Hm). rewrite !Nat.min_l in V2 by lia.
  assert (Hle : weight (outbuf c) <= weight (outbuf c1)).
  { destruct (main_inv_conn _ _ _ _ _ _ _ _ _ Hm Hc) as [->|[_ ->]]; [|unfold weight; simpl; lia]. assert (c = c1) as -> by congruence. done. }
  nia.
Qed.

(** ** Events of the outgoing side *)

Lemma handle_out_timeouts (e : Inner) ev : yields (handle_out fuel e ev) (fun e' => timeouts e' = timeouts e).
Proof. destruct ev; simpl; unfold notify, writable; by yields_steps. Qed.

Lemma handle_out_range lo n (e : Inner) ev :
  in_range lo n (conns e) -> yields (handle_out fuel e ev) (fun e' => in_range lo n (conns e')).
Proof.
  intros Hr w e' w' E. eapply in_range_move; [|exact Hr].
  destruct ev as [m|t]; [apply (exec_moves fuel e (Notify m) w e' w' E)|apply (exec_moves fuel e (Writable t) w e' w' E)].
Qed.

(** What the server's connection has to write stays nothing. *)
Lemma out_nothing (c c' : Conn) o t x x' :
  outbuf c = [] -> queued (outbuf c) o (outbuf c') -> solid o -> added o t = [] -> sock c' = sock c ->
  sent x (sock c) `prefix_of` sent x' (sock c) ->
  sent x' (sock c') ++ pending (outbuf c') = (sent x (sock c) ++ pending (outbuf c)) ++ added o t -> outbuf c' = [].
Proof.
  intros Hn [_ Hs] Ho Ha Hk [more Hmore] Hb. apply solid_empty; [apply Hs; [rewrite Hn; constructor|done]|].
  rewrite Ha, Hn, Hk, Hmore in Hb. simpl in Hb. rewrite !app_nil_r in Hb.
  apply (f_equal length) in Hb. rewrite !length_app in Hb. apply length_zero_iff_nil. unfold pending in *. lia.
Qed.

Lemma out_event_inv J a n k (e : Inner) senders x x' ev w :
  main_inv J a n k e senders x -> few J a ->
  mail x = messages [ev] ++ mail x' -> host_moves None x x' -> backlog x' = backlog x ->
  exists e' w', handle_out fuel e ev (with_ext w x') = Done e' w' /\ chans w' = chans w /\
    main_inv J a n k e' senders (ext w').
Proof.
  intros Hm Hfew Hmail [Hs Ha Hu] Hb.
  assert (Hw : forall t c, slab_get (conns e) t = Some c -> weight (outbuf c) + weight (messages [ev]) < fuel).
  { intros t c Hc. pose proof (main_inv_weight _ _ _ _ _ _ _ t c Hm Hfew Hc) as Hw. rewrite Hmail, weight_app in Hw. lia. }
  destruct Hm as [Mcfg Ml Mr Mt Mc Ms Mo Mm Mq Mv Mval Mcnt Mu].
  rewrite Hmail in Mm. apply Forall_app in Mm as [Mm1 Mm2].
  destruct (handle_out_serves fuel e ev (with_ext w x') Mo) as (e' & w' & E & Ook & Osrv & Oback & Och & Olis & Ocfg); [|exact Hw|].
  { eapply Forall_impl; [exact Mm1|]. apply carries_fits. }
  pose proof (keeps_handle_out fuel e ev (with_ext w x') e' w' (Hu Mu) E) as [Wm Ws Wa Wb Wu]. simpl in Wm, Ws, Wa, Wb, Wu.
  exists e', w'. split; [done|]. split; [done|]. split.
  - congruence.
  - by rewrite Olis.
  - split; [|apply Mr]. eapply handle_out_range; [apply Mr|exact E].
  - intros t Ht. rewrite (handle_out_timeouts e ev _ _ _ E). by apply Mt.
  - destruct Mc as (c1 & Hc1 & (Hs1 & Hq1 & So) & Hb1). destruct (Osrv tok c1 Hc1) as (c1' & Hc1' & (K1 & K2 & _) & [_ S1] & B1).
    exists c1'. split; [done|]. split; [split; [congruence|]; split; [congruence|]; apply S1; [done|by apply carries_solid]|].
    unfold out_bytes in B1. rewrite K1, Hs1 in B1. change (ext (with_ext w x')) with x' in B1. rewrite Hs, carries_added in B1 by done.
    rewrite Wm, app_assoc, B1, <- Hb1, Hmail, (pending_app (messages [ev])), !app_assoc. done.
  - destruct Ms as [(S1 & S2 & S3 & S4)|(t2 & c2 & T1 & T2 & T3 & (T4 & T5 & T6 & T7 & T8) & T9 & T10 & T11)].
    + left. split; [by auto|]. by rewrite Wb, Hb.
    + right. destruct (Osrv t2 c2 T2) as (c2' & Hc2' & (K1 & K2 & K3 & K4 & K5) & Q2 & B2).
      exists t2, c2'. split; [done|]. split; [done|]. split; [by auto|]. rewrite Wb, Hb. split; [|done].
      split; [congruence|]. split; [congruence|]. split; [|split].
      * destruct T6. split; unfold written in *; by rewrite ?K3, ?K5.
      * unfold unread, written in *. by rewrite K3, K5.
      * eapply (out_nothing c2 c2' (messages [ev]) t2 x'); [done|done|by apply carries_solid|by apply carries_not_added|done|apply Ws|exact B2].
  - done.
  - by rewrite Wm.
  - by rewrite Wa, Ha.
  - rewrite Wa, Ha by done. destruct Mv as (V1 & V2 & V3). destruct (Ws s1) as [more Hmore]. rewrite Hmore, Hs, length_app.
    split; [lia|]. split; [|done]. by rewrite take_app_le.
  - done.
  - done.
  - auto.
Qed.

(** ** Events of the incoming side *)

(** Replacing a connection by one that differs in its interest, and for the
    server's in what it has read. *)
Lemma main_inv_set J a a' n k (e : Inner) senders x x' t (c c' : Conn) :
  main_inv J a n k e senders x -> slab_get (conns e) t = Some c ->
  sock c' = sock c -> conn_tx c' = conn_tx c -> outbuf c' = outbuf c ->
  (if decide (t = tok) then a' = a else conn_ok default_config c' /\ unread c' = []) -> a' <= length J ->
  received s2 x x' -> encs (take a J) ++ concat (arriving x s2) = encs (take a' J) ++ concat (arriving x' s2) ->
  Forall (fun chunk => (msg_len | length chunk)) (arriving x' s2) ->
  main_inv J a' n k (with_conns (slab_set (conns e) t c') e) senders x'.
Proof.
  intros [Mcfg Ml Mr Mt Mc Ms Mo Mm Mq Mv Mval Mcnt Mu] Hc Hs Htx Ho Ht Ha' [Rm Rs Ra Rb Ru] Hcat Hdiv.
  destruct (slab_set_laws _ (conns e) t c') as (Hget & Hoth & _); [by eexists|].
  assert (Hview : forall t' d, slab_get (slab_set (conns e) t c') t' = Some d ->
    exists d0, slab_get (conns e) t' = Some d0 /\ sock d = sock d0 /\ conn_tx d = conn_tx d0 /\ outbuf d = outbuf d0).
  { intros t' d Hd. destruct (decide (t' = t)) as [->|Hne]; [rewrite Hget in Hd; simplify_eq; eauto|].
    rewrite Hoth in Hd by done. eauto. }
  split; simpl.
  - done.
  - done.
  - split; [apply in_range_set; [apply Mr|by eexists]|apply Mr].
  - done.
  - destruct Mc as (c1 & Hc1 & (H1 & H2 & H3) & H4). rewrite Rs, Rm. destruct (decide (t = tok)) as [->|Hne].
    + rewrite Hc in Hc1. simplify_eq. exists c'. by rewrite Hs, Htx, Ho.
    + exists c1. by rewrite Hoth.
  - destruct Ms as [(S1 & S2 & S3 & S4)|(t2 & c2 & T1 & T2 & T3 & (T4 & T5 & T6 & T7 & T8) & T9)].
    + left. rewrite Rb. assert (Htok : t = tok) by (apply S1; by eexists). rewrite decide_True in Ht by done. subst a'.
      split; [|done]. intros t' [d Hd]. apply Hview in Hd as (d0 & Hd & _). apply S1. by eexists.
    + right. rewrite Rb. assert (Hdom : forall t', is_Some (slab_get (slab_set (conns e) t c') t') -> t' = tok \/ t' = t2).
      { intros t' [d Hd]. apply Hview in Hd as (d0 & Hd & _). apply T3. by eexists. }
      destruct (decide (t = t2)) as [->|Hne].
      * rewrite T2 in Hc. injection Hc as <-. rewrite decide_False in Ht by done. exists t2, c'. rewrite Hs, Htx, Ho.
        split; [done|]. split; [done|]. split; [done|]. destruct Ht as [Ht1 Ht2]. split; [exact (conj T4 (conj T5 (conj Ht1 (conj Ht2 T8))))|done].
      * exists t2, c2. rewrite Hoth by done. split; [done|]. split; [done|]. split; [done|].
        exact (conj (conj T4 (conj T5 (conj T6 (conj T7 T8)))) T9).
  - destruct Mo as [O1 O2]. split; simpl.
    + intros ta tb ca cb Ha Hb Hne. apply Hview in Ha as (da & Ha & -> & _), Hb as (db & Hb & -> & _). eauto.
    + intros t' d Hd. apply Hview in Hd as (d0 & Hd & _ & _ & ->). eauto.
  - by rewrite Rm.
  - by rewrite Ra.
  - rewrite Rs. destruct Mv as (V1 & V2 & V3). split; [done|]. split; [congruence|done].
  - done.
  - done.
  - auto.
Qed.

Lemma main_inv_still J a n k (e : Inner) senders x x' :
  main_inv J a n k e senders x -> still x x' -> main_inv J a n k e senders x'.
Proof.
  intros [] [Sm Ss Sa Sb Su]. destruct mi_moved0 as (V1 & V2 & V3).
  split; unfold server_inv in *; rewrite ?Sm, ?Ss, ?Sa, ?Sb; auto.
Qed.

Lemma conn_token J a n k (e : Inner) senders x t :
  main_inv J a n k e senders x -> slab_contains (listeners e) t = bool_decide (t = tl) /\
  (is_Some (slab_get (conns e) t) -> t <> tl).
Proof.
  intros [_ [[acc [Hl Hn]] Hr] [(_ & _ & Hc) _] _ _ _ _ _ _ _ _ _ _]. split; [|intros Ht; specialize (Hc t Ht); lia].
  rewrite slab_contains_get. apply bool_decide_ext. destruct (decide (t = tl)) as [->|Hne].
  - rewrite Hl. split; [done|by eexists].
  - rewrite (Hn t Hne). split; [by intros [? ?]|done].
Qed.

(** What a readable event may do: the next messages, at the end of the queue. *)
Definition readable_done J (a n : nat) (k : bool) (ms : list V) (e' : Inner) w' : Prop :=
  exists a' senders' news, chans w' !! q = Some (mkChan (ms ++ news) senders' true (Some (Z.to_nat 524288))) /\
    map (fun v => view (pm_item v)) news = take (a' - a) (drop a J) /\ a <= a' <= length J /\ main_inv J a' n k e' senders' (ext w').

Lemma readable_quiet J a n k (e : Inner) senders ms w w' :
  main_inv J a n k e senders (ext w') -> chans w' = chans w ->
  chans w !! q = Some (mkChan ms senders true (Some (Z.to_nat 524288))) -> readable_done J a n k ms e w'.
Proof.
  intros Hm Hch Hq. exists a, senders, []. rewrite app_nil_r, Nat.sub_diag, Hch. split; [done|]. split; [done|].
  split; [|done]. split; [done|apply (mi_count Hm)].
Qed.

(** Nothing to read. *)
Lemma idle_event J a n k (e : Inner) senders t h c ms w :
  main_inv J a n k e senders (ext w) -> hint_contains_hup h = false ->
  chans w !! q = Some (mkChan ms senders true (Some (Z.to_nat 524288))) ->
  slab_get (conns e) t = Some c -> arriving (ext w) (sock c) = [] ->
  (t <> tok -> conn_ok default_config c /\ unread c = []) ->
  exists e' w', readable fuel e t h w = Done e' w' /\ readable_done J a n k ms e' w'.
Proof.
  intros Hm Hh Hq Hc Ha Hok. destruct (conn_token _ _ _ _ _ _ _ t Hm) as [Hl Hne].
  specialize (Hne ltac:(by eexists)). rewrite bool_decide_eq_false_2 in Hl by done.
  destruct (readable_idle fuel e t h c w Hl Hc Hh (mi_up Hm) Ha) as (w' & E & [Qc _ Qx]).
  eexists _, w'. split; [exact E|]. eapply readable_quiet; [|exact Qc|exact Hq].
  eapply main_inv_set; try done.
  - case_decide; [done|]. destruct (Hok ltac:(done)) as [[] Hu]. split; [by split|exact Hu].
  - apply (mi_count Hm).
  - by apply still_received.
  - by rewrite (st_arriving _ _ Qx).
  - rewrite (st_arriving _ _ Qx). apply Hm.
Qed.

(** The server's connection has something to read. *)
Lemma server_event J a n k (e : Inner) senders t h c chunk more ms w :
  main_inv J a n k e senders (ext w) -> few J a -> length ms + (length J - a) <= Z.to_nat 524288 -> hint_contains_hup h = false ->
  chans w !! q = Some (mkChan ms senders true (Some (Z.to_nat 524288))) ->
  slab_get (conns e) t = Some c -> t <> tok -> sock c = s2 -> conn_tx c = mkSyncSender q ->
  conn_ok default_config c -> unread c = [] -> arriving (ext w) s2 = chunk :: more ->
  exists e' w', readable fuel e t h w = Done e' w' /\ readable_done J a n k ms e' w' /\
    arriving (ext w') s2 = more /\ received s2 (ext w) (ext w').
Proof.
  intros Hm Hfew Hroom Hh Hq Hc Ht Hs Htx Hok Hu Ha. destruct (conn_token _ _ _ _ _ _ _ t Hm) as [Hl Hne].
  specialize (Hne ltac:(by eexists)). rewrite bool_decide_eq_false_2 in Hl by done.
  destruct (mi_moved Hm) as (V1 & V2 & V3). rewrite Ha in V2, V3. inversion V3 as [|? ? Hdiv Hmore]; subst.
  destruct (mi_client Hm) as (c1 & _ & _ & Hbytes). pose proof (mi_count Hm) as Hcnt.
  destruct (encs_piece (V := V) (X := X) (T := T) (A := A) (Out := Out) J a chunk
    (concat more ++ drop n (sent (ext w) s1) ++ pending (outbuf c1) ++ pending (mail (ext w))) (mi_valid Hm))
    as (i & -> & Hi & Hlen); [|done|done|].
  { rewrite <- Hbytes. transitivity ((take n (sent (ext w) s1) ++ drop n (sent (ext w) s1)) ++ pending (outbuf c1) ++ pending (mail (ext w))).
    - rewrite V2. simpl. by rewrite <- !app_assoc.
    - by rewrite take_drop. }
  set (next_ones := take i (drop a J)) in *.
  assert (Hni : length next_ones = i) by (unfold next_ones; rewrite length_take_le; [done|rewrite length_drop; lia]).
  assert (Hval : Forall valid next_ones) by apply Forall_take, Forall_drop, (mi_valid Hm).
  assert (Hi64 : msg_len * i <= 64) by (unfold few in Hfew; nia).
  pose proof (readable_step (B := B) fuel e t h c w (encs next_ones) more ms 0 Hl Hc Hh) as Hstep.
  rewrite (mi_config Hm) in Hstep.
  assert (Hlook : looked_at c (encs next_ones) = encs next_ones) by (unfold looked_at; rewrite Hu; apply firstn_all).
  pose proof (enc_frames (V := V) (X := X) (A := A) (Out := Out) (proto c) next_ones Hval) as Hfr. fold (encs next_ones) in Hfr.
  rewrite Hlook, Hfr, Hni, Nat.add_0_r in Hstep.
  destruct Hstep as (c' & items & w' & E & Hitems & Hd & Hopen & Hok' & Hp & Harr & Hleft & Hs' & Htx' & Ho').
  - repeat split; simpl; lia.
  - done.
  - by rewrite Hs.
  - simpl. lia.
  - lia.
  - rewrite Htx. exists senders, (Z.to_nat 524288). split; [exact Hq|]. lia.
  - rewrite Htx in Hd, Hopen. simpl in Hd, Hopen.
    pose proof (keeps_readable fuel e t h c Hl Hc Hh _ _ _ (mi_up Hm) E) as Hkeep. rewrite Hs in Hkeep, Harr.
    eexists _, w'. split; [exact E|]. split; [|by split]. exists (a + i), senders, (map (fun v => mkProtoMsg v t) items).
    destruct Hd as [_ Hd]. rewrite Hd, decide_True, Hq by done. split; [done|].
    split; [rewrite map_map; etrans; [exact Hitems|]; unfold next_ones; f_equal; lia|]. split; [lia|].
    eapply main_inv_set; try done.
    + rewrite decide_False by done. split; [done|]. unfold left_over in Hleft. rewrite Hu, drop_all in Hleft.
      by destruct (_ <? _)%Z, Hleft.
    + rewrite Harr, Ha, <- take_take_drop, encs_app. simpl. by rewrite app_assoc.
    + by rewrite Harr.
Qed.

Lemma fresh_conn_ok s c : conn_ok default_config (fresh_conn s c) /\ unread (fresh_conn s c) = [].
Proof.
  destruct (new_buf_laws default_config) as [Hbl Hbw]; [repeat split; simpl; lia|].
  assert (Hw : written (fresh_conn s c) = []) by exact Hbw.
  split; [|unfold unread; by rewrite Hw]. split; rewrite ?Hw; simpl; [lia| |].
  - rewrite Z.add_0_r. exact Hbl.
  - change (buf _) with (rbuf0 (A := A) (AB := AB) (Alloc := Alloc)). unfold rbuf0. simpl in Hbl. rewrite Hbl. lia.
Qed.

(** The server's connection is accepted. *)
Lemma main_inv_accept J a n (e : Inner) senders t2 cs w w' :
  main_inv J a n true e senders (ext w) -> backlog (ext w) = [s2] ->
  slab_insert (conns e) (fresh_conn s2 q) = Ok (t2, cs) -> accepted (Alloc := Alloc) q [] w w' ->
  senders = 1 /\ main_inv J a n true (with_conns cs e) 2 (ext w').
Proof.
  intros [Mcfg Ml Mr Mt Mc Ms Mo Mm Mq Mv Mval Mcnt Mu] Hb Hi [_ _ Am As Aa Ab Au].
  destruct Ms as [(S1 & S2 & S3 & S4)|(? & ? & _ & _ & _ & _ & _ & _ & T10)]; [|congruence].
  split; [done|]. destruct (slab_insert_laws _ _ _ _ _ Hi) as (_ & Hfree & Hget & Hoth & _).
  destruct Mc as (c1 & Hc1 & K1 & K2). assert (Hne : t2 <> tok) by (intros ->; congruence).
  assert (Hview : forall t c, slab_get cs t = Some c ->
    t = t2 /\ c = fresh_conn s2 q \/ t = tok /\ c = c1).
  { intros t c Hc. destruct (decide (t = t2)) as [->|Ht]; [left; split; congruence|right].
    rewrite Hoth in Hc by done. assert (t = tok) as -> by (apply S1; by eexists). split; congruence. }
  destruct (fresh_conn_ok s2 q) as [Hok Hun].
  split; simpl; try done.
  - split; [eapply in_range_insert; [apply Mr|exact Hi]|apply Mr].
  - exists c1. rewrite Hoth, As, Am by done. done.
  - right. exists t2, (fresh_conn s2 q). split; [done|]. split; [done|].
    split; [intros t [c Hc]; destruct (Hview t c Hc) as [[-> _]|[-> _]]; auto|].
    split; [exact (conj eq_refl (conj eq_refl (conj Hok (conj Hun eq_refl))))|by rewrite Ab].
  - destruct Mo as [_ Of]. split; simpl.
    + intros ta tb ca cb [[-> ->]|[-> ->]]%Hview [[-> ->]|[-> ->]]%Hview Hab; simpl; try done; destruct K1; congruence.
    + intros t c [[-> ->]|[-> ->]]%Hview; [constructor|eauto].
  - by rewrite Am.
  - by rewrite Aa.
  - by rewrite As, Aa.
Qed.

Lemma conns_have_room (e : Inner) : in_range 256 10496 (conns e) -> (forall t, is_Some (slab_get (conns e) t) -> t = tok) -> has_room (conns e).
Proof.
  intros (E1 & E2 & _) Honly. exists (if decide (tok = 256%Z) then 257%Z else 256%Z). rewrite E1, E2.
  split; [case_decide; lia|]. destruct (slab_get (conns e) _) eqn:E; [|done]. specialize (Honly _ ltac:(by eexists)).
  case_decide; lia.
Qed.

Lemma listener_event J a n k (e : Inner) senders h ms w :
  main_inv J a n k e senders (ext w) ->
  chans w !! q = Some (mkChan ms senders true (Some (Z.to_nat 524288))) ->
  exists e' w', readable fuel e tl h w = Done e' w' /\ readable_done J a n k ms e' w' /\
    backlog (ext w') = [] /\ mail (ext w') = mail (ext w) /\
    (forall s, sent (ext w') s = sent (ext w) s) /\ (forall s, arriving (ext w') s = arriving (ext w) s).
Proof.
  intros Hm Hq. destruct (conn_token _ _ _ _ _ _ _ tl Hm) as [Hl _]. rewrite bool_decide_eq_true_2 in Hl by done.
  set (w0 := mkWorld (stdout w) (log w ++ [mkLog LDebug "mio_processor::readable top, token: {:?}" [debug_token tl]]) (chans w) (ext w)).
  assert (E0 : readable fuel e tl h w = readable_listener e tl w0).
  { unfold readable, debug, log_at, bind. fold w0. by rewrite Hl. }
  destruct (mi_listener Hm) as [[acc [Hacc _]] _].
  assert (Hbl : backlog (ext w) = [] \/ backlog (ext w) = [s2] /\ k = true /\ a = 0 /\ (forall t, is_Some (slab_get (conns e) t) -> t = tok)).
  { destruct (mi_server Hm) as [(S1 & S2 & _ & ->)|(? & ? & _ & _ & _ & _ & _ & _ & T10)]; [|by left].
    destruct k; [right|by left]. by splits. }
  destruct Hbl as [Hnil|(Hb & -> & -> & Honly)].
  - destruct (listener_idle e tl acc _ w0 Hacc (mi_up Hm) Hnil) as (w' & E & [Qc _ Qx]).
    exists e, w'. rewrite E0. split; [exact E|]. split; [eapply readable_quiet; [|exact Qc|exact Hq]; by eapply main_inv_still|].
    destruct Qx as [X1 X2 X3 X4 _]. simpl in *. rewrite X4. by split.
  - destruct (listener_accepts e tl acc (mkSyncSender q) s2 [] w0 Hacc (mi_up Hm) Hb) as (t2 & cs & w' & E & Hi & Hacc').
    { apply conns_have_room; [apply Hm|done]. }
    rewrite (mi_config Hm) in Hi. destruct (main_inv_accept J 0 n e senders t2 cs w0 w' Hm Hb Hi Hacc') as [-> Hm'].
    eexists _, w'. rewrite E0. split; [exact E|]. split; [|by destruct Hacc'].
    exists 0, 2, []. rewrite (ac_chans _ _ _ _ Hacc'), app_nil_r. simpl.
    rewrite lookup_alter, decide_True, Hq by done. split; [done|]. split; [done|]. by split; [lia|].
Qed.

(** Any readable event. *)
Lemma readable_event J a n k (e : Inner) senders t h ms w :
  main_inv J a n k e senders (ext w) -> few J a -> length ms + (length J - a) <= Z.to_nat 524288 -> hint_contains_hup h = false ->
  chans w !! q = Some (mkChan ms senders true (Some (Z.to_nat 524288))) ->
  exists e' w', readable fuel e t h w = Done e' w' /\ readable_done J a n k ms e' w'.
Proof.
  intros Hm Hfew Hroom Hh Hq. destruct (decide (t = tl)) as [->|Htl].
  { destruct (listener_event J a n k e senders h ms w Hm Hq) as (e' & w' & E & Hd & _). eauto. }
  destruct (slab_get (conns e) t) as [c|] eqn:Hc.
  - destruct (decide (t = tok)) as [->|Htok].
    + destruct (mi_client Hm) as (c1 & Hc1 & (Hs1 & _) & _). assert (c1 = c) as -> by congruence.
      eapply idle_event; try done. rewrite Hs1. apply (mi_quiet Hm).
    + destruct (mi_server Hm) as [(S1 & _)|(t2 & c2 & T1 & T2 & T3 & (T4 & T5 & T6 & T7 & _) & _)]; [by destruct Htok; apply S1; eexists|].
      destruct (T3 t ltac:(by eexists)) as [Heq|Heq]; [done|]. subst t. assert (c2 = c) as -> by congruence.
      destruct (arriving (ext w) s2) as [|chunk more] eqn:Ha; [eapply idle_event; try done; by rewrite T4|].
      destruct (server_event J a n k e senders t2 h c chunk more ms w Hm Hfew Hroom Hh Hq Hc) as (e' & w' & E & Hd & _); [done..|eauto].
  - destruct (conn_token _ _ _ _ _ _ _ t Hm) as [Hl _]. rewrite bool_decide_eq_false_2 in Hl by done.
    eexists e, _. split; [unfold readable, debug, log_at, error, bind; by rewrite Hl, Hc|].
    by eapply (readable_quiet _ _ _ _ _ _ _ w).
Qed.

(** ** Any event *)

Lemma timeout_event J a n k (e : Inner) senders t w :
  main_inv J a n k e senders (ext w) -> armed t ->
  exists e' w', on_timeout e t w = Done e' w' /\ chans w' = chans w /\ main_inv J a n k e' senders (ext w').
Proof.
  intros Hm Ht. destruct (mi_timers Hm Ht) as [[cb h] Hg]. destruct (shutdown_law w) as (w' & E & [Qc _ Qx]).
  eexists _, w'. split; [|split; [exact Qc|]].
  - unfold on_timeout, call_mut, TimerCB_shutdown, bind. rewrite Hg. cbn [unwrap_opt]. unfold ret at 1. by follow E.
  - pose proof (main_inv_still _ _ _ _ _ _ _ _ Hm Qx) as []. split; simpl; try done; [|by destruct mi_out0].
    intros t' Ht'. destruct (slab_set_laws _ (timeouts e) t (cb, h)) as (Hs & Ho & _); [by eexists|].
    destruct (decide (t' = t)) as [->|Hne]; [by eexists|]. rewrite Ho by done. auto.
Qed.

Lemma event_returns J a n k (e : Inner) senders ms w ev x' :
  main_inv J a n k e senders (ext w) -> few J a -> length ms + (length J - a) <= Z.to_nat 524288 ->
  chans w !! q = Some (mkChan ms senders true (Some (Z.to_nat 524288))) ->
  gives (Alloc := Alloc) armed (ext w) ev x' ->
  exists e' w', handle fuel e ev (with_ext w x') = Done e' w' /\ readable_done J a n k ms e' w'.
Proof.
  intros Hm Hfew Hroom Hq Hg. destruct Hg as [m x' Hmail Hmoves Hb|t x' Hst|t h Hh|t Ht].
  - destruct (out_event_inv J a n k e senders (ext w) x' (ENotify m) w Hm Hfew) as (e' & w' & E & Hc & Hm'); [done..|].
    exists e', w'. split; [exact E|]. by eapply readable_quiet.
  - destruct (out_event_inv J a n k e senders (ext w) x' (EWritable t) w Hm Hfew) as (e' & w' & E & Hc & Hm');
      [by rewrite (st_mail _ _ Hst)|by destruct Hst|apply Hst|].
    exists e', w'. split; [exact E|]. by eapply readable_quiet.
  - destruct w. by eapply readable_event.
  - destruct w as [so lo ch ex]. destruct (timeout_event J a n k e senders t (mkWorld so lo ch ex) Hm Ht) as (e' & w' & E & Hc & Hm').
    exists e', w'. split; [exact E|]. by eapply readable_quiet.
Qed.

(** ** The end of the main thread *)

Lemma slab_items_perm {C : Type} (s : Slab C) ts :
  NoDup ts -> (forall t, is_Some (slab_get s t) <-> t ∈ ts) -> slab_items s ≡ₚ omap (slab_get s) ts.
Proof.
  intros Hts Hdom. destruct (slab_items_law C s) as (ts' & Hts' & Hdom' & ->).
  apply omap_Permutation, NoDup_Permutation; [done..|]. intros t. by rewrite Hdom', Hdom.
Qed.

#[local] Instance count_tx_proper c : Proper ((≡ₚ) ==> eq) (count_tx c).
Proof. intros l1 l2 H1. unfold count_tx. by rewrite H1. Qed.

Lemma count_tx_cons c tx txs : count_tx c (tx :: txs) = (if decide (stx_chan tx = c) then 1 else 0) + count_tx c txs.
Proof. unfold count_tx. rewrite filter_cons. by case_decide. Qed.

Lemma count_tx_app c txs1 txs2 : count_tx c (txs1 ++ txs2) = count_tx c txs1 + count_tx c txs2.
Proof. unfold count_tx. by rewrite filter_app, length_app. Qed.

(** The engine holds every sender of the server's queue. *)
Lemma feeds_count J a n k (e : Inner) senders x : main_inv J a n k e senders x -> count_tx q (feeds e) = senders.
Proof.
  intros Hm. destruct (mi_listener Hm) as [[acc [Hacc Hothers]] _]. destruct (mi_client Hm) as (c1 & Hc1 & (_ & Hq1 & _) & _).
  unfold feeds. rewrite count_tx_app.
  rewrite (slab_items_perm (listeners e) [tl]).
  2: { apply NoDup_singleton. }
  2: { intros t. rewrite list_elem_of_singleton. split; [|by intros ->; eexists].
       intros [l Hl]. destruct (decide (t = tl)) as [|Hne]; [done|]. by rewrite Hothers in Hl. }
  simpl. rewrite Hacc. simpl. rewrite count_tx_cons, decide_True by done.
  destruct (mi_server Hm) as [(S1 & _ & -> & _)|(t2 & c2 & T1 & T2 & T3 & (T4 & T5 & _) & T8 & _)].
  - rewrite (slab_items_perm (conns e) [tok]).
    2: { apply NoDup_singleton. }
    2: { intros t. rewrite list_elem_of_singleton. split; [auto|by intros ->; eexists]. }
    simpl. rewrite Hc1. simpl. by rewrite count_tx_cons, decide_False.
  - rewrite (slab_items_perm (conns e) [tok; t2]).
    2: { apply NoDup_cons. rewrite list_elem_of_singleton. split; [done|apply NoDup_singleton]. }
    2: { intros t. rewrite elem_of_cons, list_elem_of_singleton. split; [auto|by intros [->| ->]; eexists]. }
    simpl. rewrite Hc1, T2. simpl. rewrite count_tx_cons, decide_False by done. rewrite count_tx_cons, T5, decide_True by done.
    rewrite T8. done.
Qed.

Lemma main_returns J a n k (e : Inner) senders w ms :
  main_inv J a n k e senders (ext w) -> chans w !! q = Some (mkChan ms senders true (Some (Z.to_nat 524288))) ->
  exists w', main_end e cl w = Done tt w' /\ chans w' !! q = Some (mkChan ms 0 true (Some (Z.to_nat 524288))).
Proof.
  intros Hm Hq. destruct (drop_inner_releases e w) as (w1 & E1 & [R1 _ _]).
  { intros cb w0. exists w0. split; [by destruct cb|done]. }
  destruct (els_drop_quiet (NetStream.dtx cl) w1) as (w2 & E2 & [Q2 _ _]).
  eexists. split; [unfold main_end, bind; rewrite E1, E2; reflexivity|]. simpl.
  rewrite lookup_alter_ne by done. rewrite Q2, R1, Hq. simpl. rewrite (feeds_count _ _ _ _ _ _ _ Hm), Nat.sub_diag. done.
Qed.

(** ** What the threads and the host do *)

(** One more message for the event loop. *)
Lemma main_inv_send J a n k (e : Inner) senders x x' m b :
  main_inv J a n k e senders x -> sb_tok m = tok -> StreamBuf_bytes m = enc b -> valid b -> mail x' = mail x ++ [m] ->
  (forall s, sent x' s = sent x s) -> (forall s, arriving x' s = arriving x s) -> backlog x' = backlog x ->
  (host_up x -> host_up x') -> main_inv (J ++ [b]) a n k e senders x'.
Proof.
  clear Hfuel Hcl.
  intros [] Ht Hb Hval Em Es Ea Eb Eu. split; unfold server_inv in *; rewrite ?Es, ?Ea, ?Eb, ?Em; auto.
  - destruct mi_client0 as (c1 & H1 & H2 & H3). exists c1. split; [done|]. split; [done|].
    rewrite pending_app, !app_assoc, <- (app_assoc (sent x s1)), H3, encs_app. f_equal.
    rewrite pending_cons, Hb. done.
  - apply Forall_app. split; [done|]. constructor; [|constructor]. split; [done|by exists b].
  - by rewrite take_app_le.
  - apply Forall_app. split; [done|by constructor].
  - rewrite length_app. lia.
Qed.

Lemma main_inv_connect J a n (e : Inner) senders x x' :
  main_inv J a n false e senders x -> backlog x' = [s2] -> mail x' = mail x -> host_moves None x x' ->
  main_inv J a n true e senders x'.
Proof.
  intros [] Hb Hm [Hs Ha Hu]. split; unfold server_inv in *; rewrite ?Hs, ?Ha, ?Hb, ?Hm by done; auto.
  destruct mi_server0 as [(S1 & S2 & S3 & S4)|(? & ? & _ & _ & _ & _ & _ & ? & _)]; [by left|done].
Qed.

Lemma main_inv_carry J a n k d (e : Inner) senders x x' :
  main_inv J a n k e senders x -> (msg_len | d) -> n + d <= length (sent x s1) ->
  arriving x' s2 = arriving x s2 ++ [take d (drop n (sent x s1))] ->
  mail x' = mail x -> backlog x' = backlog x -> host_moves (Some s2) x x' -> main_inv J a (n + d) k e senders x'.
Proof.
  intros [] Hd Hle Harr Hm Hb [Hs Ha Hu].
  assert (Ha1 : arriving x' s1 = []) by (rewrite Ha; [done|congruence]).
  split; unfold server_inv in *; rewrite ?Hs, ?Ha1, ?Hb, ?Hm; auto.
  destruct mi_moved0 as (V1 & V2 & V3). split; [done|]. rewrite Harr. split.
  - rewrite <- take_take_drop, V2, concat_app. simpl. by rewrite app_nil_r, app_assoc.
  - apply Forall_app. split; [done|]. constructor; [|done]. by rewrite length_take_le by (rewrite length_drop; lia).
Qed.

Lemma main_inv_senders J a n k (e : Inner) senders x : main_inv J a n k e senders x -> senders <> 0.
Proof. clear Hfuel Hcl. intros Hm. destruct (mi_server Hm) as [(_ & _ & ? & _)|(? & ? & _ & _ & _ & _ & ? & _)]; lia. Qed.

(** What waits in the queue, and whether more can come. *)
Lemma queue_view J i a n k m w :
  queue_inv J i a n k m w -> a <= length J ->
  exists ms senders, chans w !! q = Some (mkChan ms senders true (Some (Z.to_nat 524288))) /\
    map (fun v => view (pm_item v)) ms = drop i (take a J) /\ length ms = a - i /\
    match m with Returned => senders = 0 | _ => senders <> 0 end.
Proof.
  clear Hfuel Hcl. intros (ms & senders & Hc & Hms & Hm) Ha. exists ms, senders. split; [exact Hc|]. split; [exact Hms|]. split.
  - by rewrite <- (length_map (fun v => view (pm_item v))), Hms, length_drop, length_take_le.
  - destruct m; [by eapply main_inv_senders..|done].
Qed.

(** One message is taken from the queue. *)
Lemma queue_take J i a n k m w v0 ms senders :
  queue_inv J i a n k m w -> chans w !! q = Some (mkChan (v0 :: ms) senders true (Some (Z.to_nat 524288))) ->
  queue_inv J (S i) a n k m (with_chans w (<[q := mkChan ms senders true (Some (Z.to_nat 524288))]> (chans w))).
Proof.
  intros (ms' & senders' & Hc & Hms & Hm) Hc'. rewrite Hc in Hc'. assert (ms' = v0 :: ms /\ senders' = senders) as [-> ->].
  { generalize dependent (Z.to_nat 524288). clear. intros bound. by intros ? [= -> ->]. }
  exists ms, senders. simpl. rewrite lookup_insert_eq.
  split; [done|]. split; [|done]. replace (S i) with (i + 1) by apply Nat.add_1_r. by rewrite <- drop_drop, <- Hms.
Qed.

(** What was posted and not taken yet is on its way: in the queue, on the
    wire, in the client's write queue or in the mail, in this order. *)
Lemma on_the_way J i a n k (e : Inner) senders x (ms : list V) c :
  main_inv J a n k e senders x -> map (fun v => view (pm_item v)) ms = drop i (take a J) -> i <= a -> slab_get (conns e) tok = Some c ->
  encs (map (fun v => view (pm_item v)) ms) ++ concat (arriving x s2) ++ drop n (sent x s1) ++ pending (outbuf c) ++ pending (mail x) =
    encs (drop i J).
Proof.
  intros Hm Hms Hi Hc. destruct (mi_client Hm) as (c1 & Hc1 & _ & Hbytes). assert (c1 = c) as -> by congruence.
  destruct (mi_moved Hm) as (_ & V2 & _).
  apply (app_inv_head (encs (take i J))). rewrite <- encs_app, take_drop, <- Hbytes, Hms, app_assoc, <- encs_app.
  assert (Ht : take i J ++ drop i (take a J) = take a J) by (rewrite <- (take_drop i (take a J)) at 2; by rewrite take_take, Nat.min_l).
  rewrite Ht, app_assoc, <- V2, app_assoc, take_drop. done.
Qed.

(** Every step outside the threads. *)
Lemma outside_inv J i a n k m w n' k' m' w' :
  queue_inv J i a n k m w -> few J a -> length J - i <= Z.to_nat 524288 -> i <= a ->
  outside (Alloc := Alloc) fuel cl armed s1 s2 m k n w m' k' n' w' ->
  exists a', a <= a' /\ (a <= length J -> a' <= length J) /\ queue_inv J i a' n' k' m' w' /\ (m = Returned -> m' = Returned /\ a' = a) /\
    (forall p e, m' = Before p e -> m = m' /\ a' = a).
Proof.
  intros (ms & senders & Hc & Hms & Hm) Hfew Hroom Hi Hout.
  assert (Hlen : length ms = length (take a J) - i) by (by rewrite <- (length_map (fun v => view (pm_item v))), Hms, length_drop).
  rewrite length_take in Hlen.
  destruct Hout as [e ev x' e' k n w w' Hg E|e k n w w' E|m n w x' Hb Hb' Hmail Hmv|m k n d w x' Hd Hpos Hle Harr Hmail Hb Hmv].
  - destruct (event_returns J a n k e senders ms w ev x' Hm Hfew) as (e1 & w1 & E1 & a' & senders' & news & Hc' & Hnews & Ha' & Hm');
      [pose proof (mi_count Hm); lia|done|done|].
    rewrite E1 in E. injection E as -> ->. exists a'. split; [lia|]. split; [lia|]. split; [|by split]. exists (ms ++ news), senders'. split; [done|]. split; [|done].
    rewrite map_app, Hms, Hnews. rewrite <- drop_app_le by (rewrite length_take_le; [lia|apply (mi_count Hm)]).
    f_equal. rewrite take_take_drop. f_equal. lia.
  - exists a. split; [done|]. split; [done|]. split; [|by split]. destruct (main_returns J a n k e senders w ms Hm Hc) as (w1 & E1 & Hc1).
    rewrite E1 in E. injection E as <-. by exists ms, 0.
  - exists a. split; [done|]. split; [done|]. split; [|by split]. exists ms, senders. split; [done|]. split; [done|]. destruct m; [by eapply main_inv_connect..|done].
  - exists a. split; [done|]. split; [done|]. split; [|by split]. exists ms, senders. split; [done|]. split; [done|]. destruct m; [by eapply main_inv_carry..|done].
Qed.

(** A host that works and on which nothing has happened yet. *)
Definition new_host (x : X) : Prop :=
  host_up x /\ mail x = [] /\ backlog x = [] /\ forall s, sent x s = [] /\ arriving x s = [].

(** The start. *)
Lemma set_up_inv (e : Inner) q1 w0 w1 :
  set_up e q q1 tl tok s1 w0 w1 -> (forall t, armed t -> is_Some (slab_get (timeouts e) t)) ->
  new_host (ext w0) ->
  main_inv [] 0 0 false e 1 (ext w1) /\ chans w1 !! q = Some (mkChan [] 1 true (Some (Z.to_nat 524288))).
Proof.
  intros [Sc [Sl Slr] [[Sg Sgo] Scr] (Hq & Hq0 & _) [Xm Xs Xa Xb Xu]] Harm (Hup & Hmail & Hback & Hsock). split; [|done].
  assert (Hone : forall t c, slab_get (conns e) t = Some c -> t = tok /\ c = fresh_conn s1 q1).
  { intros t c Ht. destruct (decide (t = tok)) as [->|Hne]; [split; congruence|]. by rewrite Sgo in Ht. }
  split; simpl; try done.
  - split; [done|]. destruct Slr as (_ & _ & Hlr). apply Hlr. destruct Sl as [acc [Hl _]]. by eexists.
  - split; [done|]. destruct Scr as (_ & _ & Hcr). apply Hcr. by eexists.
  - exists (fresh_conn s1 q1). split; [done|]. split; [split; [done|]; split; [done|constructor]|].
    rewrite Xm, Xs, Hmail. by destruct (Hsock s1) as [-> _].
  - left. split; [by intros t [c [-> _]%Hone]|]. by rewrite Xb.
  - split; [by intros ta tb ca cb [-> ->]%Hone [-> ->]%Hone|]. intros t c [-> ->]%Hone. constructor.
  - by rewrite Xm, Hmail.
  - rewrite Xa. apply Hsock.
  - rewrite Xa. destruct (Hsock s2) as [_ ->]. split; [apply Nat.le_0_l|]. by split.
  - auto.
Qed.
End LoopbackSafe.
