(* ===== verification/LoopbackLive.v ===== *)
(** * The system of Loopback.v gets things done

    From every state the system can be in, the host and the event loop can
    bring every message that was posted into the server's queue: no message
    is ever stuck, in the mail, in a write queue, on the wire or at a socket.
    A measure of what is left to do goes down with a step that can be made
    whenever it is not nothing. *)

From S2P Require Import Prelude Effects Sendable Protocol Mio StreamBuf NetStream Reactor MioModel Outbound Inbound Engine NetEngine Frames Loopback LoopbackSafe.

(** ** A host that can go on *)

Section HostLive.
Context {X Alloc AB A Out Els : Type}.
Abbreviation V := (ProtoMsg Out).
Context `{!MioTypes} `{!Iobuf A} `{!AppendBufOps Alloc AB A} `{!MioOps V X (StreamBuf A) (ReadBuf AB) Els}.
Context `{!EventLoopSenderOps V X Els (StreamBuf A)} `{!EventLoopSenderLaws V X Els (StreamBuf A)}.
Context `{!SockLaws V X A AB Els} `{!RecvLaws V X Alloc A AB Els} `{!HostView X}.
Abbreviation host_moves := (host_moves (Out := Out) (Alloc := Alloc) (AB := AB) (A := A) (Els := Els)).

(** The event loop can hand out its mail, a connection can be made, bytes can
    be carried, a socket can take something again, and not every readable event
    tells of a hang-up. *)
Class HostLive := {
  can_mail : forall x m ms, mail x = m :: ms ->
    exists x', mail x' = ms /\ host_moves None x x' /\ backlog x' = backlog x;
  can_connect : forall x s, backlog x = [] ->
    exists x', backlog x' = [s] /\ mail x' = mail x /\ host_moves None x x';
  can_carry : forall x s bs,
    exists x', arriving x' s = arriving x s ++ [bs] /\ mail x' = mail x /\ backlog x' = backlog x /\ host_moves (Some s) x x';
  can_write : forall x s,
    exists x', still (V := V) (Alloc := Alloc) (AB := AB) (A := A) x x' /\
      forall (w : World V X) b, ext w = x' -> exists b' n w', sock_write s b w = Done (b', Ok (Ready n)) w';
  can_read : exists h, hint_contains_hup h = false
}.
End HostLive.

#[export] Instance HostLive_model {Out : Type} :
  HostLive (X := Net) (Alloc := unit) (AB := Append) (A := list byte) (Out := Out) (Els := unit).
Proof.
  split.
  - intros x m ms E. exists (set_mailbox ms x). split; [done|]. split; [by split|done].
  - intros x s E. exists (set_waiting [s] x). split; [done|]. split; [done|by split].
  - intros x s bs. exists (set_incoming (<[s := lookup_list (incoming x) s ++ [bs]]> (incoming x)) x).
    split; [cbn; unfold lookup_list; by rewrite lookup_insert_eq|]. split; [done|]. split; [done|]. split; [done| |done].
    intros s' Hs. cbn. unfold lookup_list. rewrite lookup_insert_ne; [done|congruence].
  - intros x s. exists (set_output (<[s := [1%Z]]> (takes x)) (outgoing x) x). split; [by split|].
    intros w b E. cbn. unfold net_write, bind, get_ext. rewrite E. unfold lookup_list at 1. cbn [takes set_output].
    rewrite lookup_insert_eq. cbn. do 3 eexists. reflexivity.
  - by exists 0%Z.
Qed.

Section LoopbackLive.
Context {X Alloc AB A T Out B Els Th : Type} {Slab : Type -> Type}.
Abbreviation V := (ProtoMsg Out).
Context `{!MioTypes} `{!Iobuf A} `{!IobufLaws A}.
Context `{!AppendBufOps Alloc AB A} `{!AppendBufLaws Alloc AB A}.
Context `{!SlabOps Slab} `{!SlabLaws Slab} `{!SlabItems Slab} `{!SlabItemsLaws Slab}.
Context `{!MioOps V X (StreamBuf A) (ReadBuf AB) Els}.
Context `{!EventLoopSenderOps V X Els (StreamBuf A)} `{!EventLoopSenderLaws V X Els (StreamBuf A)}.
Context `{!SockLaws V X A AB Els} `{!RecvLaws V X Alloc A AB Els} `{!HostView X} `{!HostLaws (Alloc := Alloc)} `{!FrameLaws (Alloc := Alloc)}.
Context `{!Protocol V X T A Out} `{!Framing V X T A Out B} `{!Format V X T A Out B} `{!HostLive (Alloc := Alloc)}.
Abbreviation Conn := (Connection A AB T).
Abbreviation Inner := (EngineInner Slab Alloc A AB T ShutdownCB).
Abbreviation msg_len := (msg_len (V := V) (X := X) (T := T) (A := A) (Out := Out) (B := B)).
Abbreviation encs := (encs (V := V) (X := X) (T := T) (A := A) (Out := Out)).
Implicit Types (w : World V X) (J : list B).

(** ** Writing *)

(** A socket that takes something is given something. *)
Lemma drain_progress fuel (c c' : Conn) front rest w w' :
  outbuf c = front :: rest -> StreamBuf_bytes front <> [] -> host_up (ext w) ->
  (exists front' n w1, sock_write (sock c) front w = Done (front', Ok (Ready n)) w1) ->
  drain_loop fuel c w = Done c' w' -> length (sent (ext w) (sock c)) < length (sent (ext w') (sock c)).
Proof.
  intros Ho Hf Hup (front' & n & w1 & E1) E. destruct fuel as [|fuel]; [done|]. simpl in E. rewrite Ho in E.
  unfold bind at 1 in E. rewrite E1 in E. simpl in E. unfold bind, debug, log_at in E.
  destruct (sock_write_law (sock c) front w) as (b & r & w2 & E2 & _ & _ & _ & Hr). rewrite E1 in E2. injection E2 as <- <- <-.
  destruct Hr as ([Hn Hpos] & _ & Hs). pose proof (write_frame (sock c) front w _ _ E1) as Hw.
  assert (Hlen : length (sent (ext w) (sock c)) < length (sent (ext w1) (sock c))).
  { rewrite Hs, length_app, length_take. rewrite iob_len_window in *. unfold StreamBuf_bytes in Hf.
    destruct (as_window_slice (sb_buf front)); [done|]. simpl in *. lia. }
  set (w2 := mkWorld _ _ _ _) in E. eapply Nat.lt_le_trans; [exact Hlen|]. apply prefix_length.
  destruct (_ =? _)%Z; (refine (wr_sent _ _ (keeps_drain fuel _ w2 _ _ _ E) (sock c)); simpl; by apply (wr_up _ _ Hw)).
Qed.

Lemma writable_progress fuel (e e' : Inner) t (c : Conn) front rest w w' :
  slab_get (conns e) t = Some c -> outbuf c = front :: rest -> StreamBuf_bytes front <> [] -> host_up (ext w) ->
  (forall w0, ext w0 = ext w -> exists front' n w1, sock_write (sock c) front w0 = Done (front', Ok (Ready n)) w1) ->
  writable fuel e t w = Done e' w' -> length (sent (ext w) (sock c)) < length (sent (ext w') (sock c)).
Proof.
  intros Hc Ho Hf Hup Hw E. unfold writable, drain_and_rearm, drain_write_queue_to_socket in E. rewrite Hc in E.
  unfold debug, log_at in E. unfold bind at 1 in E.
  apply bind_done in E as (c2 & w2 & E & E2). unfold ret in E2. injection E2 as _ <-.
  apply bind_done in E as ([c1 rem] & w1 & E1 & E). apply bind_done in E1 as (c0 & w0 & E0 & E1).
  unfold ret in E1. injection E1 as <- <- <-.
  set (wd := mkWorld _ _ _ _) in E0. pose proof (drain_progress fuel c c0 front rest wd w0 Ho Hf Hup (Hw wd eq_refl) E0) as Hlt.
  pose proof (keeps_drain fuel c wd c0 w0 Hup E0) as Hd.
  eapply Nat.lt_le_trans; [exact Hlt|]. apply prefix_length.
  assert (Hk : keeps host_up wrote (if (Z.of_nat (length (outbuf c0)) >? 0)%Z
    then let! r := reregister_conn (V := V) (sock c0) t (interest_or (interest c0) WRITABLE) in
         let! _ := unwrap r in ret (with_interest (interest_or (interest c0) WRITABLE) c0) else ret c0)).
  { keeps_steps. apply keeps_reregister, still_wrote. }
  refine (wr_sent _ _ (Hk w0 c2 w2 _ E) (sock c)). by apply (wr_up _ _ Hd).
Qed.

Context (fuel : nat) (srv_rx : Receiver) (cl : NetStream.t Els) (armed : Token -> Prop) (s1 s2 : TcpSocket) (tok tl : Token).
Context (Hfuel : 128 < fuel) (Hsocks : s2 <> s1) (Hcl : rx_chan (NetStream.drx cl) <> rx_chan srv_rx).
Abbreviation main_inv := (main_inv (Alloc := Alloc) (T := T) (Out := Out) (B := B) srv_rx armed s1 s2 tok tl).
Abbreviation queue_inv := (queue_inv (Alloc := Alloc) (T := T) (Out := Out) (B := B) srv_rx armed s1 s2 tok tl).
Abbreviation outside := (outside (Alloc := Alloc) (T := T) (Out := Out) (B := B) fuel cl armed s1 s2).

(** ** What is left to do *)

(** What the client's connection has to write. *)
Definition unsent (e : Inner) : list byte := match slab_get (conns e) tok with Some c => pending (outbuf c) | None => [] end.

(** A byte is worth less the farther it has come; a connection not made or not
    accepted yet, and a piece to be read, count as well. *)
Definition todo (e : Inner) (k : bool) (n : nat) (x : X) : nat :=
  5 * length (pending (mail x)) + 4 * length (unsent e) + 3 * (length (sent x s1) - n) +
  length (concat (arriving x s2)) + length (arriving x s2) + (if k then 0 else 2) + length (backlog x).

Lemma bytes_total J a n k (e : Inner) senders x :
  main_inv J a n k e senders x ->
  length (sent x s1) + length (unsent e) + length (pending (mail x)) = msg_len * length J.
Proof.
  clear Hfuel Hcl. intros Hm. destruct (mi_client Hm) as (c1 & Hc1 & _ & Hb). unfold unsent. rewrite Hc1.
  rewrite <- length_encs, <- Hb, !length_app by apply (mi_valid Hm). lia.
Qed.

(** When nothing is, every message has come to the queue. *)
Lemma todo_nothing J a n k (e : Inner) senders x : main_inv J a n k e senders x -> todo e k n x = 0 -> a = length J.
Proof.
  clear Hfuel Hcl. intros Hm H0. pose proof (bytes_total _ _ _ _ _ _ _ Hm) as Ht. unfold todo in H0.
  destruct (mi_moved Hm) as (V1 & V2 & _). pose proof (mi_count Hm). pose proof (msg_len_range (V := V) (X := X) (T := T) (A := A) (Out := Out) (B := B)).
  apply (f_equal length) in V2. rewrite length_app, length_encs, !length_take in V2 by apply Forall_take, (mi_valid Hm). nia.
Qed.

(** An event of the outgoing side that hands over mail or writes. *)
Lemma out_goes J a n k (e : Inner) senders x x' ev w :
  main_inv J a n k e senders x -> few J a ->
  mail x = messages [ev] ++ mail x' -> host_moves None x x' -> backlog x' = backlog x ->
  exists e' w', handle_out fuel e ev (with_ext w x') = Done e' w' /\
    (length (pending (mail x')) < length (pending (mail x)) \/ length (sent x s1) < length (sent (ext w') s1) ->
     todo e' k n (ext w') < todo e k n x).
Proof.
  intros Hm Hfew Hmail [Hs Ha Hu] Hb.
  destruct (out_event_inv fuel srv_rx cl armed s1 s2 tok tl Hfuel Hcl J a n k e senders x x' ev w Hm Hfew) as (e' & w' & E & _ & Hm'); [done..|].
  exists e', w'. split; [exact E|]. pose proof (keeps_handle_out fuel e ev (with_ext w x') e' w' (Hu (mi_up Hm)) E) as [Wm Ws Wa Wb Wu]. simpl in *.
  pose proof (bytes_total _ _ _ _ _ _ _ Hm) as H1. pose proof (bytes_total _ _ _ _ _ _ _ Hm') as H2.
  pose proof (prefix_length _ _ (Ws s1)) as H3. rewrite Hs in H3. pose proof (proj1 (mi_moved Hm)).
  assert (H4 : length (pending (mail x)) = length (pending (messages [ev])) + length (pending (mail x'))) by (by rewrite Hmail, pending_app, length_app).
  unfold todo. rewrite Wm, Wa, Wb, Ha, Hb by done. rewrite Wm in H2. lia.
Qed.

(** ** One step *)

Definition less_todo (e : Inner) (k : bool) (n : nat) w : Prop :=
  exists e' k' n' w', outside (Running e) k n w (Running e') k' n' w' /\ todo e' k' n' (ext w') < todo e k n (ext w).

Lemma less_notify J a n k (e : Inner) senders w m ms :
  main_inv J a n k e senders (ext w) -> few J a -> mail (ext w) = m :: ms -> less_todo e k n w.
Proof.
  intros Hm Hfew Hmail. destruct (can_mail (ext w) m ms Hmail) as (x' & Hx & Hmv & Hb). rewrite <- Hx in Hmail.
  destruct (out_goes J a n k e senders (ext w) x' (ENotify m) w Hm Hfew) as (e' & w' & E & Hlt); [done..|].
  exists e', k, n, w'. split; [by eapply out_event; [apply gives_notify|exact E]|]. apply Hlt. left.
  assert (Hsol : solid (mail (ext w))) by (eapply carries_solid; [..|exact (mi_mail Hm)]; eassumption). rewrite Hmail in Hsol |- *.
  apply Forall_cons in Hsol as [Hne _]. rewrite pending_cons, length_app. destruct (StreamBuf_bytes m); [done|simpl; lia].
Qed.

Lemma less_write J a n k (e : Inner) senders w :
  main_inv J a n k e senders (ext w) -> few J a -> unsent e <> [] -> less_todo e k n w.
Proof.
  intros Hm Hfew Hun. destruct (can_write (ext w) s1) as (x' & Hst & Hw).
  destruct (mi_client Hm) as (c1 & Hc1 & (Hs & _ & Hsol) & _). unfold unsent in Hun. rewrite Hc1 in Hun.
  destruct (outbuf c1) as [|front rest] eqn:Ho; [done|]. apply Forall_cons in Hsol as [Hne _].
  destruct (out_goes J a n k e senders (ext w) x' (EWritable tok) w Hm Hfew) as (e' & w' & E & Hlt);
    [by rewrite (st_mail _ _ Hst)|by destruct Hst|apply Hst|].
  exists e', k, n, w'. split; [by eapply out_event; [apply gives_writable|exact E]|]. apply Hlt. right.
  rewrite <- (st_sent _ _ Hst), <- Hs. change x' with (ext (with_ext w x')).
  eapply (writable_progress fuel e e' tok c1 front rest); [done|done|done|by apply (st_up _ _ Hst), Hm| |exact E].
  intros w0 Hw0. rewrite Hs. by apply Hw.
Qed.

Lemma less_connect J a n (e : Inner) senders w : main_inv J a n false e senders (ext w) -> less_todo e false n w.
Proof.
  intros Hm. assert (Hb : backlog (ext w) = []) by (by destruct (mi_server Hm) as [(_ & _ & _ & ?)|(? & ? & _ & _ & _ & _ & _ & ? & _)]).
  destruct (can_connect (ext w) s2 Hb) as (x' & Hb' & Hmail & Hmv).
  exists e, true, n, (with_ext w x'). split; [by apply out_connect|]. destruct Hmv as [Hs Ha _].
  unfold todo. simpl. rewrite Hmail, Hs, !Ha, Hb', Hb by done. simpl. lia.
Qed.

(** A readable event that changes nothing but what waits or arrives. *)
Lemma less_readable J a n k (e e' : Inner) senders senders' a' w w' t h :
  main_inv J a n k e senders (ext w) -> hint_contains_hup h = false -> readable fuel e t h w = Done e' w' ->
  main_inv J a' n k e' senders' (ext w') -> mail (ext w') = mail (ext w) -> (forall s, sent (ext w') s = sent (ext w) s) ->
  length (concat (arriving (ext w') s2)) + length (arriving (ext w') s2) + length (backlog (ext w')) <
    length (concat (arriving (ext w) s2)) + length (arriving (ext w) s2) + length (backlog (ext w)) -> less_todo e k n w.
Proof.
  clear Hcl. intros Hm Hh E Hm' Hmail Hs Hlt. assert (Ew : with_ext w (ext w) = w) by (by destruct w).
  exists e', k, n, w'. split; [eapply out_event; [by apply gives_readable|rewrite Ew; exact E]|].
  pose proof (bytes_total _ _ _ _ _ _ _ Hm) as H1. pose proof (bytes_total _ _ _ _ _ _ _ Hm') as H2.
  unfold todo. rewrite Hmail, Hs in *. lia.
Qed.

Lemma less_accept J a n k (e : Inner) senders ms w :
  main_inv J a n k e senders (ext w) -> chans w !! rx_chan srv_rx = Some (mkChan ms senders true (Some (Z.to_nat 524288))) ->
  backlog (ext w) <> [] -> less_todo e k n w.
Proof.
  intros Hm Hq Hb. destruct can_read as [h Hh].
  destruct (listener_event fuel srv_rx cl armed s1 s2 tok tl Hfuel Hsocks Hcl J a n k e senders h ms w Hm Hq) as (e' & w' & E & Hd & B1 & B2 & B3 & B4).
  destruct Hd as (a' & senders' & _ & _ & _ & _ & Hm'). eapply less_readable; try done.
  rewrite B1, B4. destruct (backlog (ext w)); [done|simpl; lia].
Qed.

Lemma less_carry J a n k (e : Inner) senders w :
  main_inv J a n k e senders (ext w) -> mail (ext w) = [] -> unsent e = [] -> n < length (sent (ext w) s1) -> less_todo e k n w.
Proof.
  clear Hfuel Hcl. intros Hm Hmail Hun Hn. pose proof (bytes_total _ _ _ _ _ _ _ Hm) as Ht. rewrite Hmail, Hun in Ht. simpl in Ht.
  destruct (mi_moved Hm) as (V1 & V2 & V3). pose proof (mi_count Hm) as Hc.
  set (d := length (sent (ext w) s1) - n). destruct (can_carry (ext w) s2 (take d (drop n (sent (ext w) s1)))) as (x' & Harr & Hx & Hb & Hmv).
  assert (Hdiv : (msg_len | d)).
  { apply (f_equal length) in V2. rewrite length_app, length_encs, !length_take in V2 by apply Forall_take, (mi_valid Hm).
    assert (Hcat : forall l : list (list byte), Forall (fun chunk => (msg_len | length chunk)) l -> (msg_len | length (concat l))).
    { induction 1 as [|c l Hc1 _ IH]; [apply Nat.divide_0_r|]. simpl. rewrite length_app. by apply Nat.divide_add_r. }
    destruct (Hcat _ V3) as [z Hz]. exists (length J - a - z). unfold d. nia. }
  exists e, k, (n + d), (with_ext w x'). split; [apply out_carry; try done; unfold d; lia|]. destruct Hmv as [Hs Ha _].
  unfold todo. simpl. rewrite Hx, Hs, Harr, Hb, concat_app, !length_app. simpl. rewrite length_app, length_take, length_drop. simpl.
  unfold d. lia.
Qed.

Lemma less_read J a n k (e : Inner) senders ms w :
  main_inv J a n k e senders (ext w) -> few J a -> length ms + (length J - a) <= Z.to_nat 524288 ->
  chans w !! rx_chan srv_rx = Some (mkChan ms senders true (Some (Z.to_nat 524288))) ->
  k = true -> backlog (ext w) = [] -> arriving (ext w) s2 <> [] -> less_todo e k n w.
Proof.
  intros Hm Hfew Hroom Hq -> Hb Ha. destruct can_read as [h Hh].
  destruct (arriving (ext w) s2) as [|chunk more] eqn:Harr; [done|].
  destruct (mi_server Hm) as [(_ & _ & _ & Hb')|(t2 & c2 & T1 & T2 & _ & (T4 & T5 & T6 & T7 & _) & _)]; [congruence|].
  destruct (server_event fuel srv_rx cl armed s1 s2 tok tl Hfuel Hsocks Hcl J a n true e senders t2 h c2 chunk more ms w Hm Hfew Hroom Hh Hq T2)
    as (e' & w' & E & (a' & senders' & _ & _ & _ & _ & Hm') & Hmore & Hrc); [done..|].
  destruct Hrc as [R1 R2 _ R4 _]. eapply less_readable; try done.
  rewrite Hmore, Harr, R4. simpl. rewrite length_app. lia.
Qed.

(** While there is something to do, a step can be made that leaves less. *)
Lemma something_goes J i a n k (e : Inner) w :
  queue_inv J i a n k (Running e) w -> few J a -> length J - i <= Z.to_nat 524288 -> i <= a ->
  todo e k n (ext w) <> 0 -> less_todo e k n w.
Proof.
  intros (ms & senders & Hc & Hms & Hm) Hfew Hroom Hi Htodo.
  assert (Hlen : length ms + (length J - a) <= Z.to_nat 524288).
  { apply (f_equal length) in Hms. rewrite length_map, length_drop, length_take_le in Hms by apply (mi_count Hm). pose proof (mi_count Hm). lia. }
  destruct (mail (ext w)) as [|m ms'] eqn:Hmail; [|by eapply less_notify].
  destruct (unsent e) as [|b bs] eqn:Hun; [|eapply less_write; [done..|by rewrite Hun]].
  destruct k; [|by eapply less_connect].
  destruct (backlog (ext w)) eqn:Hb; [|eapply less_accept; [done..|by rewrite Hb]].
  destruct (decide (n < length (sent (ext w) s1))); [by eapply less_carry|].
  eapply less_read; try done. intros Ha. apply Htodo. unfold todo. rewrite Hmail, Hun, Hb, Ha. simpl. lia.
Qed.

(** ** Every message comes *)

Context (thread_next : Th -> M V X Th) (failed : Th).
Abbreviation step := (step (Alloc := Alloc) (T := T) (B := B) thread_next failed fuel cl armed s1 s2).

(** Without the thread doing anything, what was posted comes to the queue. *)
Lemma all_comes J i a n k (e : Inner) w t :
  queue_inv J i a n k (Running e) w -> few J a -> length J - i <= Z.to_nat 524288 -> i <= a ->
  exists e' k' n' w', rtc step (mkTest t (Running e) k n w) (mkTest t (Running e') k' n' w') /\
    queue_inv J i (length J) n' k' (Running e') w'.
Proof.
  remember (todo e k n (ext w)) as z eqn:Ez. revert a n k e w Ez. induction (lt_wf z) as [z _ IH].
  intros a n k e w -> Hq Hfew Hroom Hi. destruct (decide (todo e k n (ext w) = 0)) as [H0|Hne].
  - exists e, k, n, w. split; [done|]. pose proof Hq as (ms & senders & _ & _ & Hm).
    by rewrite <- (todo_nothing _ _ _ _ _ _ _ Hm H0).
  - destruct (something_goes J i a n k e w Hq Hfew Hroom Hi Hne) as (e1 & k1 & n1 & w1 & Hout & Hlt).
    destruct (outside_inv fuel srv_rx cl armed s1 s2 tok tl Hfuel Hsocks Hcl J i a n k (Running e) w n1 k1 (Running e1) w1 Hq Hfew Hroom Hi Hout)
      as (a1 & Ha1 & _ & Hq1 & _).
    destruct (IH (todo e1 k1 n1 (ext w1)) Hlt a1 n1 k1 e1 w1 eq_refl Hq1) as (e' & k' & n' & w' & Hr & Hq'); [|done|lia|].
    { unfold few in *. nia. }
    exists e', k', n', w'. split; [|done]. eapply rtc_l; [by apply step_outside|done].
Qed.
End LoopbackLive.
