(* ===== verification/LoopbackModel.v ===== *)
(** * Runs of Loopback.v's system on the model network

    A list of moves says what is not determined: who is next, and which piece
    of the bytes the host carries.  Carried out on MioModel.v's network, the
    moves are steps of the system, so that concrete runs can be computed. *)

From S2P Require Import Prelude Effects Sendable Protocol Mio StreamBuf NetStream Reactor MioModel Outbound Inbound Engine NetEngine Frames Loopback.

Inductive Move :=
| MThread | MMain | MNotify | MWritable (t : Token) | MReadable (t : Token) | MTimeout (t : Token) | MReturn | MConnect | MCarry (d : nat).

Section Moves.
Context {T Out B Th : Type}.
Abbreviation V := (ProtoMsg Out).
Context `{!Protocol V Net T (list byte) Out} `{!Framing V Net T (list byte) Out B} `{!Format V Net T (list byte) Out B}.
Abbreviation Engine := (EngineInner (H := MioTypes_model) GSlab unit (list byte) Append T ShutdownCB).
Abbreviation NetTest := (Test (H := MioTypes_model) (X := Net) (Alloc := unit) (AB := Append) (A := list byte) (T := T) (Out := Out) (Th := Th) (Slab := GSlab)).
Abbreviation msg_len := (msg_len (V := V) (X := Net) (T := T) (A := list byte) (Out := Out) (B := B)).

Context (thread_next : Th -> M V Net Th) (failed : Th) (fuel : nat) (cl : NetStream.t unit) (s1 s2 : Z) (timer : Token).

Definition run_event (t : Th) (e : Engine) (k : bool) (n : nat) (w : World V Net)
    (ev : Event Token Z (StreamBuf (list byte))) : option NetTest :=
  match handle fuel e ev w with Done e' w' => Some (mkTest t (Running e') k n w') | _ => None end.

Definition do_move (mv : Move) (s : NetTest) : option NetTest :=
  let 'mkTest t m k n w := s in
  match mv, m with
  | MThread, _ =>
      match thread_next t w with
      | Done t' w' => Some (mkTest t' m k n w')
      | Panicked _ w' => Some (mkTest failed m k n w')
      | _ => None
      end
  | MMain, Before p e => match p w with Done _ w' => Some (mkTest t (Running e) k n w') | _ => None end
  | MNotify, Running e =>
      match mailbox (ext w) with
      | msg :: ms => run_event t e k n (with_ext w (set_mailbox ms (ext w))) (EvNotify msg)
      | [] => None
      end
  | MWritable tok, Running e => run_event t e k n (with_ext w (ext w)) (EvWritable tok)
  | MReadable tok, Running e => run_event t e k n (with_ext w (ext w)) (EvReadable tok 0%Z)
  | MTimeout tok, Running e => if (tok =? timer)%Z then run_event t e k n (with_ext w (ext w)) (EvTimeout tok) else None
  | MReturn, Running e =>
      match main_end e cl w with Done _ w' => Some (mkTest t Returned k n w') | _ => None end
  | MConnect, _ =>
      if k then None else
      match waiting (ext w) with
      | [] => Some (mkTest t m true n (with_ext w (set_waiting [s2] (ext w))))
      | _ => None
      end
  | MCarry d, _ =>
      let out := lookup_list (outgoing (ext w)) s1 in
      let d := msg_len * d in
      if (d =? 0) || (length out <? n + d) then None else
      Some (mkTest t m k (n + d)
        (with_ext w (set_incoming (<[s2 := lookup_list (incoming (ext w)) s2 ++ [take d (drop n out)]]> (incoming (ext w))) (ext w))))
  | _, _ => None
  end.

Fixpoint do_moves (mvs : list Move) (s : NetTest) : option NetTest :=
  match mvs with
  | [] => Some s
  | mv :: mvs' => s' ← do_move mv s; do_moves mvs' s'
  end.

Context (armed : Token -> Prop) (Harmed : armed timer).
Abbreviation net_step := (step (Alloc := unit) (T := T) (B := B) thread_next failed fuel cl armed s1 s2).

Lemma run_event_step t e k n w ev x' s' :
  gives (Alloc := unit) (Out := Out) armed (ext w) ev x' -> run_event t e k n (with_ext w x') ev = Some s' ->
  net_step (mkTest t (Running e) k n w) s'.
Proof. unfold run_event. intros Hg E. destruct (handle _ _ _ _) eqn:Eh; simplify_eq. by eapply step_outside, out_event. Qed.

Lemma connect_step t m n w s' :
  do_move MConnect (mkTest t m false n w) = Some s' -> net_step (mkTest t m false n w) s'.
Proof. simpl. intros E. destruct (waiting (ext w)) eqn:Ew; simplify_eq. by eapply step_outside, out_connect. Qed.

Lemma carry_step t m k n w d s' :
  do_move (MCarry d) (mkTest t m k n w) = Some s' -> net_step (mkTest t m k n w) s'.
Proof.
  cbn [do_move]. intros E. destruct (_ || _) eqn:Eg; [done|]. apply orb_false_iff in Eg as [Hd%Nat.eqb_neq Hle%Nat.ltb_ge].
  injection E as <-. eapply step_outside, out_carry; try done; [by exists d; lia|lia| |].
  - cbn. unfold lookup_list. by rewrite lookup_insert_eq.
  - split; try done. intros s' Hs. cbn. unfold lookup_list. rewrite lookup_insert_ne; [done|congruence].
Qed.

Lemma do_move_step mv s s' : do_move mv s = Some s' -> net_step s s'.
Proof.
  destruct s as [t m k n w]. destruct mv as [| | |t0|t0|t0| | |d]; intros E.
  - simpl in E. destruct (thread_next t w) eqn:Et; simplify_eq; [by eapply step_thread|by eapply step_fail].
  - destruct m as [p e|e|]; try done. simpl in E. destruct (p w) as [[]| | |] eqn:Ep; simplify_eq. by eapply step_main.
  - destruct m as [p e|e|]; try done. simpl in E. destruct (mailbox (ext w)) as [|msg ms] eqn:Em; [done|].
    eapply run_event_step; [|exact E]. by apply (gives_notify (H := MioTypes_model)).
  - destruct m as [p e|e|]; try done. eapply run_event_step; [|exact E]. by apply (gives_writable (H := MioTypes_model)).
  - destruct m as [p e|e|]; try done. eapply run_event_step; [|exact E]. by apply (gives_readable (H := MioTypes_model)).
  - destruct m as [p e|e|]; try done. simpl in E. destruct (Z.eqb_spec t0 timer) as [->|]; [|done].
    eapply run_event_step; [|exact E]. by apply (gives_timeout (H := MioTypes_model)).
  - destruct m as [p e|e|]; try done. simpl in E. destruct (main_end _ _ _) as [[]| | |] eqn:Em; simplify_eq. by eapply step_outside, out_return.
  - destruct k; [by destruct m|]. by apply connect_step.
  - by eapply carry_step.
Qed.

Lemma do_moves_steps mvs s s' : do_moves mvs s = Some s' -> rtc net_step s s'.
Proof.
  revert s. induction mvs as [|mv mvs IH]; intros s E; simpl in E; [by simplify_eq|].
  destruct (do_move mv s) as [s1'|] eqn:E1; [|done]. eapply rtc_l; [by eapply do_move_step|by apply IH].
Qed.

(** The state after the moves, if they can be made. *)
Definition moved_to (s : NetTest) (mvs : list Move) : NetTest := default s (do_moves mvs s).

Lemma moved_to_reachable s mvs :
  match do_moves mvs s with Some _ => true | None => false end = true -> rtc net_step s (moved_to s mvs).
Proof. intros Hd. apply (do_moves_steps mvs). unfold moved_to. by destruct (do_moves mvs s). Qed.
End Moves.
