(* ===== verification/Limits.v ===== *)
(** * How many connections and listeners an engine takes

    [EngineInner::new] of src/src/reactor.rs gives the connections' slab room
    for [max_connections + 256] entries and the listeners' for 128: that many
    calls of [connect] and [listen] succeed, the next one answers an error and
    gives back what it opened. *)

From S2P Require Import Prelude Effects Sendable Protocol Mio StreamBuf NetStream Reactor MioModel Outbound Inbound Engine Lifetime NetEngine.

Section Limits.
Context {X Alloc AB A T Out CB Sender : Type} {Slab : Type -> Type}.
Abbreviation V := (ProtoMsg Out).
Context `{!MioTypes} `{!Iobuf A} `{!AppendBufOps Alloc AB A} `{!SlabOps Slab} `{!SlabLaws Slab}.
Context `{!MioOps V X (StreamBuf A) (ReadBuf AB) Sender} `{!Protocol V X T A Out}.
Context `{!EventLoopSenderOps V X Sender (StreamBuf A)} `{!EventLoopSenderLaws V X Sender (StreamBuf A)}.
Context `{!SockLaws V X A AB Sender} `{!RecvLaws V X Alloc A AB Sender} `{!HostView X} `{!HostLaws (Alloc := Alloc)}.
Abbreviation Conn := (Connection A AB T).
Abbreviation Inner := (EngineInner Slab Alloc A AB T CB).
Implicit Types w : World V X.

(** [n] connections that must not fail. *)
Fixpoint connect_times (n : nat) (self : Inner) (hostname : string) (port : Z) : M V X (Inner * list (NetStream.t Sender)) :=
  match n with
  | O => ret (self, [])
  | S n' =>
      let! '(self, r) := connect self hostname port in
      let! st := unwrap r in
      let! '(self, sts) := connect_times n' self hostname port in
      ret (self, st :: sts)
  end.

(** A slab with fewer items than tokens has room, one with as many has not. *)
Lemma taken_new {B : Type} lo n : taken lo n (slab_new_starting_at (Slab := Slab) (T := B) lo n) = ∅.
Proof.
  destruct (slab_new_laws B lo n) as (_ & _ & Hnone). apply set_eq. intros t. rewrite elem_of_taken, Hnone.
  split; [by intros [[? ?] _]|set_solver].
Qed.

Lemma taken_insert_only {B : Type} lo n (s : Slab B) x t s' :
  in_range lo n s -> slab_insert s x = Ok (t, s') -> base.size (taken lo n s') = S (base.size (taken lo n s)).
Proof.
  intros Hr Hi. rewrite <- (taken_insert lo n s x t s' x Hr Hi).
  destruct (slab_insert_laws _ _ _ _ _ Hi) as (_ & _ & Hx & _). f_equal.
  symmetry. apply (taken_set lo n s' t x x Hx).
Qed.

Lemma room_or_full {B : Type} lo n (s : Slab B) :
  in_range lo n s -> (0 <= n)%Z -> base.size (taken lo n s) < Z.to_nat n -> has_room s.
Proof.
  intros (E1 & E2 & _) Hn Hlt.
  destruct (set_choose_or_empty ((list_to_set (seqZ lo n) : gset Z) ∖ taken lo n s)) as [[t Ht]|Hempty].
  - apply elem_of_difference in Ht as [Hin Hnot]. apply elem_of_list_to_set, elem_of_seqZ in Hin. exists t. rewrite E1, E2.
    split; [lia|]. destruct (slab_get s t) eqn:E; [|done]. exfalso. apply Hnot, elem_of_taken. split; [by eexists|lia].
  - exfalso. assert (Hsub : (list_to_set (seqZ lo n) : gset Z) ⊆ taken lo n s).
    { intros t Ht. destruct (decide (t ∈ taken lo n s)) as [|Hn']; [done|]. exfalso.
      apply (not_elem_of_empty (C := gset Z) t), Hempty, elem_of_difference. done. }
    apply subseteq_size in Hsub. rewrite size_range in Hsub by done. lia.
Qed.

Lemma full_rejects {B : Type} lo n (s : Slab B) x :
  in_range lo n s -> (0 <= n)%Z -> base.size (taken lo n s) = Z.to_nat n -> slab_insert s x = Err x.
Proof.
  intros Hr Hn Hfull. destruct (slab_insert s x) as [[t s']|y] eqn:Hi.
  - exfalso. pose proof (taken_insert_only lo n s x t s' Hr Hi) as Hs. pose proof (taken_le lo n s' Hn). lia.
  - by destruct (slab_insert_err _ _ _ _ Hi) as [-> _].
Qed.

(** Connections on a host that works, as long as there is room. *)
Lemma connect_times_works n lo cap (self : Inner) hostname port w :
  host_up (ext w) -> in_range lo cap (conns self) -> (0 <= cap)%Z ->
  base.size (taken lo cap (conns self)) + n <= Z.to_nat cap ->
  exists self' sts w', connect_times n self hostname port w = Done (self', sts) w' /\
    length sts = n /\ in_range lo cap (conns self') /\ config self' = config self /\ host_up (ext w') /\
    base.size (taken lo cap (conns self')) = base.size (taken lo cap (conns self)) + n /\
    (forall t, is_Some (slab_get (conns self) t) -> is_Some (slab_get (conns self') t)) /\
    Forall (fun st => is_Some (slab_get (conns self') (NetStream.tok st)) /\ slab_get (conns self) (NetStream.tok st) = None) sts /\
    NoDup (map NetStream.tok sts).
Proof.
  revert self w. induction n as [|n IH]; intros self w Hup Hr Hcap Hle.
  - exists self, [], w. rewrite Nat.add_0_r. do 8 (split; [done|]). apply NoDup_nil_2.
  - destruct (connect_works self hostname port w Hup) as (s & c & tok & cs & dtx & w1 & E1 & Hi & Ho); [eapply room_or_full; [done..|lia]|].
    cbv zeta in Hi. set (self1 := with_conns cs self).
    pose proof (taken_insert_only lo cap _ _ _ _ Hr Hi) as Hsz.
    destruct (slab_insert_laws _ _ _ _ _ Hi) as (_ & Hfree & Hget & Hoth & _).
    destruct (IH self1 w1) as (self2 & sts & w2 & E2 & Hlen & Hr2 & Hcfg & Hup2 & Hsz2 & Hkeep & Hsts & Hnd).
    + apply (st_up _ _ (op_still _ _ _ _ Ho) Hup).
    + eapply in_range_insert; [exact Hr|exact Hi].
    + done.
    + simpl. lia.
    + exists self2, (NetStream.mk dtx (mkReceiver c) tok :: sts), w2.
      split; [cbn [connect_times]; unfold bind at 1; cbv zeta in E1; rewrite E1; cbn [unwrap]; unfold bind at 1, ret at 1; fold self1;
              unfold bind; by rewrite E2|].
      split; [simpl; lia|]. split; [done|]. split; [done|]. split; [done|]. simpl in Hsz2. split; [lia|].
      assert (Hin : is_Some (slab_get (conns self2) tok)) by (apply Hkeep; by eexists).
      split; [|split; [constructor; [by split|]|]].
      * intros t Ht. apply Hkeep. simpl. destruct (decide (t = tok)) as [->|Hne]; [by eexists|by rewrite Hoth].
      * eapply Forall_impl; [exact Hsts|]. intros st [H1 H2]. split; [done|]. simpl in H2.
        destruct (decide (NetStream.tok st = tok)) as [Heq|Hne]; [by rewrite Heq|by rewrite <- Hoth].
      * simpl. apply NoDup_cons. split; [|done]. intros Hx%list_elem_of_fmap. destruct Hx as (st & Heq & Hst).
        rewrite Forall_forall in Hsts. destruct (Hsts st Hst) as [_ H2]. simpl in H2. rewrite <- Heq, Hget in H2. done.
Qed.

(** A queue that was made and lost its sender and its receiver again. *)
Lemma opened_released c cap w w1 w2 :
  opened (Alloc := Alloc) (AB := AB) (A := A) c cap w w1 -> released (Alloc := Alloc) (AB := AB) (A := A) [mkSyncSender c] w1 w2 ->
  alter (fun ch => mkChan [] (ch_senders ch) false (ch_bound ch)) c (chans w2) = <[c := mkChan [] 0 false (Some (Z.to_nat cap))]> (chans w).
Proof.
  intros [On Oc Os Ox] [R1 R2 R3]. apply map_eq. intros c'. rewrite lookup_alter.
  destruct (decide (c = c')) as [->|Hne]; rewrite R1, Oc.
  - rewrite !lookup_insert_eq. simpl. by rewrite count_tx_one.
  - rewrite !lookup_insert_ne by done. destruct (chans w !! c') as [[]|]; [|done]. simpl. unfold count_tx.
    rewrite filter_cons, decide_False by done. simpl. by rewrite Nat.sub_0_r.
Qed.

(** [connect] on a full table. *)
Lemma connect_full (self : Inner) hostname port w :
  host_up (ext w) -> (forall c, slab_insert (conns self) c = Err c) ->
  exists w', connect self hostname port w = Done (self, Err "Failed to insert into connection slab"%string) w' /\
    stdout w' = stdout w /\ still (ext w) (ext w') /\
    exists c, chans w !! c = None /\ chans w' = <[c := mkChan [] 0 false (Some (Z.to_nat (queue_size (config self))))]> (chans w).
Proof.
  intros Hup Hfull.
  destruct (hosts_law hostname w Hup) as (ip & ips & w1 & E1 & Q1). pose proof (quiet_up _ _ Q1 Hup) as Hup1.
  destruct (tcp_v4_law w1 Hup1) as (s & w2 & E2 & Q2). pose proof (quiet_up _ _ Q2 Hup1) as Hup2.
  destruct (new_chan_opens w w2 (queue_size (config self))) as (c & w3 & E3 & Hop & X3); [by etrans|].
  destruct (drop_conn_releases (Connection_new s (mkSyncSender c) (new_buf (A := A) (read_buf_sz (config self)) (allocator (config self))) : Conn) w3)
    as (w4 & E4 & Hrl).
  eexists. split; [|split; [|split; [|exists c; split; [apply Hop|]]]].
  - unfold connect, index0, bind. follow E1. follow E2. follow E3. rewrite Hfull. follow E4. reflexivity.
  - simpl. rewrite (rl_stdout _ _ _ Hrl). apply Hop.
  - simpl. etrans; [apply Hop|apply Hrl].
  - simpl. by eapply opened_released.
Qed.

(** ** Listeners *)

(** [n] listeners that must not fail. *)
Fixpoint listen_times (n : nat) (self : Inner) (addr : string) (port : Z) : M V X (Inner * list Receiver) :=
  match n with
  | O => ret (self, [])
  | S n' =>
      let! '(self, r) := listen self addr port in
      let! rx := unwrap r in
      let! '(self, rxs) := listen_times n' self addr port in
      ret (self, rx :: rxs)
  end.

Lemma listen_times_works n (self : Inner) addr port w :
  host_up (ext w) -> in_range 0 128 (listeners self) -> base.size (taken 0 128 (listeners self)) + n <= 128 ->
  exists self' rxs w', listen_times n self addr port w = Done (self', rxs) w' /\
    length rxs = n /\ in_range 0 128 (listeners self') /\ config self' = config self /\
    base.size (taken 0 128 (listeners self')) = base.size (taken 0 128 (listeners self)) + n /\
    (forall c, is_Some (chans w !! c) -> is_Some (chans w' !! c)) /\
    Forall (fun rx => is_Some (chans w' !! rx_chan rx) /\ chans w !! rx_chan rx = None) rxs /\ NoDup (map rx_chan rxs).
Proof.
  revert self w. induction n as [|n IH]; intros self w Hup Hr Hle.
  - exists self, [], w. rewrite Nat.add_0_r. do 7 (split; [done|]). apply NoDup_nil_2.
  - destruct (listen_works self addr port w Hup) as (a & c & tok & ls & w1 & E1 & Hi & [On Oc Os Ox]); [eapply room_or_full; [done..|lia]|].
    pose proof (taken_insert_only 0 128 _ _ _ _ Hr Hi) as Hsz.
    destruct (IH (with_listeners ls self) w1) as (self2 & rxs & w2 & E2 & Hlen & Hr2 & Hcfg & Hsz2 & Hkeep & Hrxs & Hnd);
      [apply (st_up _ _ Ox Hup)|eapply in_range_insert; [exact Hr|exact Hi]|simpl; lia|].
    exists self2, (mkReceiver c :: rxs), w2. simpl in Hsz2.
    assert (Hold : forall c', is_Some (chans w !! c') -> is_Some (chans w1 !! c')).
    { intros c' Hc'. rewrite Oc, lookup_insert_is_Some. destruct (decide (c = c')); auto. }
    split; [cbn [listen_times]; unfold bind at 1; rewrite E1; cbn [unwrap]; unfold bind at 1, ret at 1; unfold bind; by rewrite E2|].
    split; [simpl; lia|]. split; [done|]. split; [done|]. split; [lia|]. split; [auto|]. split.
    + constructor; [split; [|done]; apply Hkeep; simpl; by rewrite Oc, lookup_insert_eq|].
      eapply Forall_impl; [exact Hrxs|]. intros rx [H1 H2]. split; [done|]. apply eq_None_not_Some. intros H3%Hold. rewrite H2 in H3. by destruct H3.
    + simpl. apply NoDup_cons. split; [|done]. intros Hx%list_elem_of_fmap. destruct Hx as (rx & Heq & Hrx).
      rewrite Forall_forall in Hrxs. destruct (Hrxs rx Hrx) as [_ H2]. by rewrite <- Heq, Oc, lookup_insert_eq in H2.
Qed.

(** [listen] on a full table: the new acceptor and queue are gone again. *)
Lemma listen_full (self : Inner) addr port w :
  host_up (ext w) -> (forall l, slab_insert (listeners self) l = Err l) ->
  exists w', listen self addr port w = Done (self, Err "failed to insert into listener slab"%string) w' /\
    stdout w' = stdout w /\ still (ext w) (ext w') /\
    exists c, chans w !! c = None /\ chans w' = <[c := mkChan [] 0 false (Some (Z.to_nat (queue_size (config self))))]> (chans w).
Proof.
  intros Hup Hfull.
  destruct (hosts_law addr w Hup) as (ip & ips & w1 & E1 & Q1). pose proof (quiet_up _ _ Q1 Hup) as Hup1.
  destruct (tcp_v4_law w1 Hup1) as (s & w2 & E2 & Q2). pose proof (quiet_up _ _ Q2 Hup1) as Hup2.
  destruct (bind_law s ip (wrap 16 port) w2 Hup2) as (l & w3 & E3 & Q3). pose proof (quiet_up _ _ Q3 Hup2) as Hup3.
  destruct (listen_law l 255 w3 Hup3) as (a & w4 & E4 & Q4).
  destruct (new_chan_opens w w4 (queue_size (config self))) as (c & w5 & E5 & Hop & X5); [by repeat (etrans; [eassumption|])|].
  destruct (drop_listener_releases (a, mkSyncSender c) w5) as (w6 & E6 & Hrl).
  unfold drop_listener in E6. apply bind_done in E6 as ([] & w6' & E6 & E7).
  eexists. split; [|split; [|split; [|exists c; split; [apply Hop|]]]].
  - unfold listen, listen_with, index0, bind. follow E1. follow E2. follow E3. follow E4. follow E5. rewrite Hfull.
    cbn [fst snd] in *. follow E6. follow E7. reflexivity.
  - simpl. rewrite (rl_stdout _ _ _ Hrl). apply Hop.
  - simpl. etrans; [apply Hop|apply Hrl].
  - simpl. by eapply opened_released.
Qed.

(** A new engine takes 128 listeners, each with a queue of its own.  After
    that [listen] answers an error, leaves the engine as it was, and the queue
    it made has neither end any more. *)
Theorem listens_until_full cfg addr port w :
  host_up (ext w) ->
  exists self rxs w1, listen_times 128 (EngineInner_new cfg) addr port w = Done (self, rxs) w1 /\
    length rxs = 128 /\ NoDup (map rx_chan rxs) /\
    forall w2, host_up (ext w2) ->
      exists w3, listen self addr port w2 = Done (self, Err "failed to insert into listener slab"%string) w3 /\
        stdout w3 = stdout w2 /\
        exists c, chans w2 !! c = None /\ chans w3 = <[c := mkChan [] 0 false (Some (Z.to_nat (queue_size cfg)))]> (chans w2).
Proof.
  intros Hup. set (e0 := EngineInner_new cfg : Inner).
  assert (Hz : base.size (taken 0 128 (listeners e0)) = 0) by (apply size_empty_iff, leibniz_equiv_iff, taken_new).
  destruct (listen_times_works 128 e0 addr port w Hup) as (self & rxs & w1 & E & Hlen & Hr & Hcfg & Hsz & _ & _ & Hnd); [apply in_range_new|lia|].
  exists self, rxs, w1. split; [exact E|]. split; [exact Hlen|]. split; [exact Hnd|]. intros w2 Hup2.
  destruct (listen_full self addr port w2 Hup2) as (w3 & E3 & Hs & _ & Hq).
  { intros l. apply (full_rejects 0 128); [done|lia|]. rewrite Hsz, Hz. done. }
  exists w3. split; [exact E3|]. split; [exact Hs|]. rewrite Hcfg in Hq. exact Hq.
Qed.

(** ** Connections *)

(** C30: A new engine takes [max_connections + 256] connections, one after the
    other, each under a token of its own from 256 on: 256 more than its
    configuration says.  After that [connect] answers an error, leaves the
    engine as it was, and the queue it made has neither end any more. *)
Theorem connects_until_full cfg hostname port w :
  host_up (ext w) -> (0 <= max_connections cfg + 256 < 2 ^ 64)%Z ->
  let n := Z.to_nat (max_connections cfg + 256) in
  exists self sts w1, connect_times n (EngineInner_new cfg) hostname port w = Done (self, sts) w1 /\
    length sts = n /\ NoDup (map NetStream.tok sts) /\
    Forall (fun st => (256 <= NetStream.tok st < 512 + max_connections cfg)%Z) sts /\
    forall w2, host_up (ext w2) ->
      exists w3, connect self hostname port w2 = Done (self, Err "Failed to insert into connection slab"%string) w3 /\
        stdout w3 = stdout w2 /\
        exists c, chans w2 !! c = None /\
          chans w3 = <[c := mkChan [] 0 false (Some (Z.to_nat (queue_size cfg)))]> (chans w2).
Proof.
  intros Hup Hmax n. set (e0 := EngineInner_new cfg : Inner). set (cap := (max_connections cfg + 256)%Z) in *.
  assert (Hr : in_range 256 cap (conns e0)). { unfold e0. simpl. rewrite usize_small by done. apply in_range_new. }
  assert (Hz : base.size (taken 256 cap (conns e0)) = 0).
  { apply size_empty_iff. unfold e0. simpl. rewrite usize_small by done. by rewrite taken_new. }
  destruct (connect_times_works n 256 cap e0 hostname port w Hup Hr) as (self & sts & w1 & E & Hlen & Hr1 & Hcfg & _ & Hsz & _ & Hsts & Hnd).
  - lia.
  - rewrite Hz. done.
  - exists self, sts, w1. split; [exact E|]. split; [exact Hlen|]. split; [exact Hnd|]. split.
    + eapply Forall_impl; [exact Hsts|]. intros st [Ht _]. destruct Hr1 as (_ & _ & Hr1). specialize (Hr1 _ Ht). lia.
    + intros w2 Hup2. destruct (connect_full self hostname port w2 Hup2) as (w3 & E3 & Hs & _ & Hq).
      { intros c. apply (full_rejects 256 cap); [done|lia|]. rewrite Hsz, Hz. done. }
      exists w3. split; [exact E3|]. split; [exact Hs|]. rewrite Hcfg in Hq. exact Hq.
Qed.
End Limits.

(** ** A concrete instance: an engine configured for 44 connections *)

Section Instances.
Abbreviation Msg := (ProtoMsg (list byte)).
Abbreviation Engine := (EngineInner (H := MioTypes_model) GSlab unit (list byte) Append (BufProtocol.t Four) bool).

Lemma connects_until_full_witness :
  exists (self : Engine) sts w1, connect_times (Sender := unit) 300 (EngineInner_new (mkConfig 4 32 16 44 100 None)) "localhost" 80
    (empty_world (V := Msg) MioModel.quiet) = Done (self, sts) w1 /\ length sts = 300.
Proof.
  destruct (connects_until_full (X := Net) (A := list byte) (AB := Append) (T := BufProtocol.t Four) (CB := bool) (Sender := unit)
    (Out := list byte) (Slab := GSlab) (MioOps0 := MioOps_model) (SockLaws0 := SockLaws_model) (RecvLaws0 := RecvLaws_model)
    (mkConfig 4 32 16 44 100 None) "localhost" 80
    (empty_world (V := Msg) MioModel.quiet)) as (self & sts & w1 & E & Hlen & _).
  - by split.
  - simpl. lia.
  - exists self, sts, w1. split; [exact E|exact Hlen].
Defined.
End Instances.
