(* ===== verification/U64.v ===== *)
(** * Integers on the wire: the protocol of src/src/net_stream.rs's tests

    [U64Protocol] cuts eight bytes at a time and reads them as a [u64];
    [isize_to_strbuf] and [strbuf_to_isize] make a buffer of the bytes of an
    integer and read it back.  The bytes of an integer are those it has in
    memory, on a little-endian machine. *)

From S2P Require Import Prelude Effects Sendable Protocol Mio StreamBuf NetStream Reactor MioModel Inbound.

(** ** Integers as the bytes they have in memory *)

Definition byte_of (z : Z) : byte :=
  match Byte.of_N (Z.to_N (z mod 256)) with Some b => b | None => x00 end.
Definition byte_val (b : byte) : Z := Z.of_N (Byte.to_N b).

(** [mem::size_of::<T>()] bytes from the address of [t] on, lowest first, and
    the integer that so many bytes at an address are. *)
Fixpoint to_bytes (size_of : nat) (t : Z) : list byte :=
  match size_of with
  | O => []
  | S n => byte_of t :: to_bytes n (t / 256)
  end.
Fixpoint from_bytes (bs : list byte) : Z :=
  match bs with
  | [] => 0
  | b :: bs' => byte_val b + 256 * from_bytes bs'
  end.

Lemma byte_val_range b : (0 <= byte_val b < 256)%Z.
Proof. unfold byte_val. pose proof (Byte.to_N_bounded b). lia. Qed.

Lemma byte_val_of z : byte_val (byte_of z) = (z mod 256)%Z.
Proof.
  unfold byte_of, byte_val. pose proof (Z.mod_pos_bound z 256 ltac:(lia)).
  destruct (Byte.of_N (Z.to_N (z mod 256))) as [b|] eqn:E.
  - apply Byte.to_of_N in E. lia.
  - apply Byte.of_N_None_iff in E. lia.
Qed.

Lemma byte_of_val b k : byte_of (byte_val b + 256 * k) = b.
Proof.
  unfold byte_of. pose proof (byte_val_range b).
  assert ((byte_val b + 256 * k) mod 256 = byte_val b)%Z as -> by (rewrite (Z.mul_comm 256), Z.mod_add by lia; by apply Z.mod_small).
  unfold byte_val. by rewrite N2Z.id, Byte.of_to_N.
Qed.

Lemma length_to_bytes n t : length (to_bytes n t) = n.
Proof. revert t. induction n as [|n IH]; intros t; simpl; [done|by rewrite IH]. Qed.

Lemma from_to_bytes n t : from_bytes (to_bytes n t) = wrap (Z.of_nat n * 8) t.
Proof.
  revert t. induction n as [|n IH]; intros t; cbn [to_bytes from_bytes].
  - unfold wrap. by rewrite Z.mod_1_r.
  - rewrite IH, byte_val_of. unfold wrap.
    replace (Z.of_nat (S n) * 8)%Z with (8 + Z.of_nat n * 8)%Z by lia. rewrite Z.pow_add_r by lia.
    change (2 ^ 8)%Z with 256%Z. by rewrite Z.rem_mul_r by (first [lia | by apply Z.pow_pos_nonneg; lia]).
Qed.

Lemma to_from_bytes bs : to_bytes (length bs) (from_bytes bs) = bs.
Proof.
  induction bs as [|b bs IH]; cbn [to_bytes from_bytes length]; [done|].
  rewrite byte_of_val. f_equal. pose proof (byte_val_range b).
  rewrite (Z.mul_comm 256), Z.div_add, (Z.div_small (byte_val b)) by lia. exact IH.
Qed.

Arguments to_bytes : simpl never.
Arguments from_bytes : simpl never.

(** ** iobuf's constructors and pointers *)

(** [RWIobuf::from_slice_copy] and [atomic_read_only]. *)
Class IobufCopy (RW A : Type) := {
  from_slice_copy : list byte -> RW;
  atomic_read_only : RW -> result A unit
}.

Class IobufCopyLaws (RW A : Type) `{!Iobuf A} `{!IobufCopy RW A} : Prop :=
  atomic_read_only_law : forall bs, exists a : A,
    atomic_read_only (from_slice_copy bs) = Ok a /\ as_window_slice a = bs.

(** The bytes in memory from [ptr()] on, of which those of the window are
    known. *)
Class IobufPtr (A : Type) := ptr_bytes : A -> nat -> list byte.

Class IobufPtrLaws (A : Type) `{!Iobuf A} `{!IobufPtr A} : Prop :=
  ptr_bytes_law : forall (a : A) n, n <= length (as_window_slice a) ->
    ptr_bytes a n = take n (as_window_slice a).

Section U64.
Context {V X RW A : Type} `{!Iobuf A} `{!IobufCopy RW A} `{!IobufPtr A}.

Definition isize_to_strbuf (size_of : nat) (t : Z) : M V X (StreamBuf A) :=
  let! b := unwrap (atomic_read_only (from_slice_copy (to_bytes size_of t))) in
  ret (mkStreamBuf b 0).

Definition strbuf_to_isize (size_of : nat) (buf : StreamBuf A) : Z := from_bytes (ptr_bytes (sb_buf buf) size_of).
End U64.

(** ** [struct U64Protocol] *)

Module U64Protocol.
Record t := mk {}.

Section Def.
Context {V X A : Type} `{!Iobuf A} `{!IobufPtr A}.

Definition new : t := mk.

(** The eight bytes are read through the pointer of their own buffer. *)
Definition append (self : t) (buf : A) : M V X (t * option (Z * A * Z)) :=
  if (8 <=? iob_len buf)%Z then
    let! '(a, b) := unwrap (split_at buf 8) in
    let val := from_bytes (ptr_bytes a 8) in
    ret (self, Some (val, b, 8%Z))
  else ret (self, None).

#[global] Instance Protocol_U64Protocol : Protocol V X t A Z := {
  proto_new := new;
  append := append
}.
End Def.
End U64Protocol.

(** ** What the protocol finds *)

Section Frames.
Context {V X A : Type} `{!Iobuf A} `{!IobufLaws A} `{!IobufPtr A} `{!IobufPtrLaws A}.

Definition u64_frame (p : U64Protocol.t) (bs : list byte) : U64Protocol.t * option (Z * nat) :=
  if decide (8 <= length bs) then (p, Some (from_bytes (take 8 bs), 8)) else (p, None).

Lemma u64_frame_cons p v bs : u64_frame p (to_bytes 8 v ++ bs) = (p, Some (u64 v, 8)).
Proof.
  unfold u64_frame. rewrite decide_True by (rewrite length_app, length_to_bytes; lia).
  rewrite take_app_length' by (by rewrite length_to_bytes). do 3 f_equal. apply (from_to_bytes 8).
Qed.

#[local] Existing Instance U64Protocol.Protocol_U64Protocol.

#[export] Instance Framing_U64 : Framing V X U64Protocol.t A Z Z.
Proof.
  refine {| view := id; frame := u64_frame |}.
  - intros p bs p' m n. unfold u64_frame. case_decide; intros E; simplify_eq. lia.
  - intros p a w. unfold u64_frame. cbn [append U64Protocol.Protocol_U64Protocol]. unfold U64Protocol.append.
    rewrite iob_len_window. case_decide as Hle.
    + destruct (Z.leb_spec 8 (Z.of_nat (length (as_window_slice a)))); [|lia].
      destruct (split_at_ok a 8) as (a1 & a2 & -> & H1 & H2); [rewrite iob_len_window; lia|].
      exists (from_bytes (take 8 (as_window_slice a))), a2. split; [|by split].
      unfold bind, unwrap, ret. rewrite ptr_bytes_law; rewrite H1; [by rewrite take_take|]. rewrite length_take. change (Z.to_nat 8) with 8. lia.
    + destruct (Z.leb_spec 8 (Z.of_nat (length (as_window_slice a)))); [lia|]. done.
Defined.
End Frames.

(** The integers at the front of some bytes, one after the other. *)
Definition encode (vs : list Z) : list byte := concat (map (to_bytes 8) vs).

Section Roundtrip.
Context {V X A : Type} `{!Iobuf A} `{!IobufLaws A} `{!IobufPtr A} `{!IobufPtrLaws A}.
Abbreviation decode := (frames (V := V) (X := X) (A := A) (Out := Z) U64Protocol.mk).

Lemma encode_cons v vs : encode (v :: vs) = to_bytes 8 v ++ encode vs.
Proof. done. Qed.

Lemma decode_encode vs tail : length tail < 8 -> decode (encode vs ++ tail) = (U64Protocol.mk, map u64 vs, tail).
Proof.
  intros Ht. induction vs as [|v vs IH].
  - apply frames_none. simpl. unfold u64_frame. by rewrite decide_False by (simpl; lia).
  - rewrite encode_cons, <- app_assoc. rewrite (frames_some (Framing0 := Framing_U64) U64Protocol.mk _ _ _ _ (u64_frame_cons U64Protocol.mk v _)).
    by rewrite drop_app_length', IH by (by rewrite length_to_bytes).
Qed.

Lemma encode_decode bs p ms rest : decode bs = (p, ms, rest) -> encode ms ++ rest = bs /\ length rest < 8.
Proof.
  remember (length bs) as n eqn:Hn. revert bs ms rest Hn. induction (lt_wf n) as [n _ IH]. intros bs ms rest Hn E.
  destruct (u64_frame U64Protocol.mk bs) as [p1 [[m k]|]] eqn:Ef; pose proof Ef as Ef'; unfold u64_frame in Ef'; case_decide as Hle; simplify_eq.
  - rewrite (frames_some (Framing0 := Framing_U64) _ _ _ _ _ Ef) in E. destruct (frames _ (drop 8 bs)) as [[p2 ms'] rest'] eqn:E2. simplify_eq.
    destruct (IH (length (drop 8 bs)) ltac:(rewrite length_drop; lia) _ _ _ eq_refl E2) as [He Hr]. split; [|done].
    rewrite encode_cons, <- app_assoc, He. rewrite <- (take_drop 8 bs) at 3. f_equal.
    rewrite <- (to_from_bytes (take 8 bs)) at 2. by rewrite length_take_le.
  - rewrite (frames_none (Framing0 := Framing_U64) _ _ _ Ef) in E. simplify_eq. split; [done|lia].
Qed.
End Roundtrip.

(** C15: Buffers made by [isize_to_strbuf], one after the other on a stream
    and followed by less than a message, are cut by [U64Protocol] into the
    same integers as [u64]s, and the tail is kept; and whatever it makes of
    any bytes encodes back to exactly these. *)
Theorem u64_round_trip {V X RW A : Type} `{!Iobuf A} `{!IobufLaws A} `{!IobufCopy RW A} `{!IobufCopyLaws RW A} `{!IobufPtr A} `{!IobufPtrLaws A}
    (vs : list Z) (bufs : list (StreamBuf A)) (tail bs : list byte) p ms rest (w : World V X) :
  Forall2 (fun v b => isize_to_strbuf 8 v w = Done b w) vs bufs -> length tail < 8 ->
  frames (V := V) (X := X) (A := A) (Out := Z) U64Protocol.mk bs = (p, ms, rest) ->
  frames (V := V) (X := X) (A := A) (Out := Z) U64Protocol.mk (concat (map StreamBuf_bytes bufs) ++ tail) =
    (U64Protocol.mk, map u64 vs, tail) /\
  concat (map (to_bytes 8) ms) ++ rest = bs /\ length rest < 8.
Proof.
  intros Hb Ht E. split; [|by eapply encode_decode].
  assert (concat (map StreamBuf_bytes bufs) = encode vs) as ->; [|by apply decode_encode].
  induction Hb as [|v b vs bufs Hvb _ IH]; [done|]. cbn [map concat]. rewrite IH, encode_cons. f_equal.
  unfold isize_to_strbuf in Hvb. destruct (atomic_read_only_law (to_bytes 8 v)) as (a & Ea & Hw).
  rewrite Ea in Hvb. unfold bind, unwrap, ret in Hvb. simplify_eq. exact Hw.
Qed.

(** An integer of any width is what its buffer reads back as, modulo
    the width, and the buffer is addressed to token 0. *)
Theorem strbuf_isize_round_trip {V X RW A : Type} `{!Iobuf A} `{!IobufCopy RW A} `{!IobufCopyLaws RW A} `{!IobufPtr A} `{!IobufPtrLaws A} n t (w : World V X) :
  exists b, isize_to_strbuf n t w = Done b w /\ sb_tok b = 0%Z /\
    strbuf_to_isize n b = wrap (Z.of_nat n * 8) t.
Proof.
  destruct (atomic_read_only_law (to_bytes n t)) as (a & Ea & Hw). exists (mkStreamBuf a 0).
  unfold isize_to_strbuf, bind. rewrite Ea. split; [done|]. split; [done|].
  unfold strbuf_to_isize. simpl. rewrite ptr_bytes_law; rewrite Hw; [|by rewrite length_to_bytes].
  rewrite take_ge by (by rewrite length_to_bytes). apply from_to_bytes.
Qed.

(** ** Concrete instances *)

#[export] Instance IobufCopy_list : IobufCopy (list byte) (list byte) := {
  from_slice_copy bs := bs;
  atomic_read_only b := Ok b
}.
#[export] Instance IobufCopyLaws_list : IobufCopyLaws (list byte) (list byte).
Proof. intros bs. by exists bs. Qed.

#[export] Instance IobufPtr_list : IobufPtr (list byte) := fun b n => take n (b ++ replicate n x00).
#[export] Instance IobufPtrLaws_list : IobufPtrLaws (list byte).
Proof. intros b n Hn. unfold ptr_bytes, IobufPtr_list. by rewrite take_app_le. Qed.

Lemma u64_round_trip_witness :
  encode [5; 258]%Z = [x05; x00; x00; x00; x00; x00; x00; x00; x02; x01; x00; x00; x00; x00; x00; x00] /\
  frames (V := unit) (X := unit) (A := list byte) (Out := Z) U64Protocol.mk (encode [5; 258]%Z ++ [x07]) =
    (U64Protocol.mk, [5; 258]%Z, [x07]).
Proof.
  split; [reflexivity|].
  exact (proj1 (u64_round_trip (V := unit) (X := unit) (RW := list byte) (A := list byte) [5; 258]%Z
    [mkStreamBuf (to_bytes 8 5) 0; mkStreamBuf (to_bytes 8 258) 0] [x07] [x01] U64Protocol.mk [] [x01] (empty_world tt)
    ltac:(repeat constructor) ltac:(simpl; lia) eq_refl)).
Defined.

Lemma strbuf_isize_round_trip_witness :
  exists b, isize_to_strbuf (RW := list byte) (A := list byte) 8 (-1) (empty_world (V := unit) tt) = Done b (empty_world tt) /\
    strbuf_to_isize 8 b = (2 ^ 64 - 1)%Z.
Proof.
  destruct (strbuf_isize_round_trip (RW := list byte) (A := list byte) 8 (-1) (empty_world (V := unit) tt)) as (b & E & _ & Hb).
  exists b. split; [exact E|]. rewrite Hb. reflexivity.
Defined.
