(* ===== verification/Oneway.v ===== *)
(** * The client and the reader of [oneway_test]: src/src/net_stream.rs

    The thread of the test sends the number 5 five times to the event loop,
    then reads what the server's queue delivers into a vector. *)

From S2P Require Import Prelude Effects Sendable Reactive Subscribers Processors Publishers Protocol Mio StreamBuf NetStream Reactor MioModel Inbound U64.

Section Oneway.
Context {X Els RW A : Type}.
Abbreviation V := (ProtoMsg Z).
Context `{!Iobuf A} `{!IobufCopy RW A} `{!EventLoopSenderOps V X Els (StreamBuf A)} `{!Debug (StreamBuf A)}.

(** ** The chains *)

Definition map2_t : Type := Map.t V X (StreamBuf A) (StreamBuf A) (DoDebug.t (Decoupler.t Els (StreamBuf A))).
Definition map1_t : Type := Map.t V X Z (StreamBuf A) map2_t.
Definition take_t : Type := Take.t (Map.t V X (ProtoMsg Z) Z (Collect.t Z)).

Definition retarget (tok : Token) (b : StreamBuf A) : M V X (StreamBuf A) := ret (mkStreamBuf (sb_buf b) tok).
Definition item_of (m : ProtoMsg Z) : M V X Z := ret (pm_item m).

Definition sender_chain (dtx : Els) (tok : Token) : M V X (Repeat.t Z map1_t) :=
  let rep := Repeat.new 5%Z in
  let map1 := Map.new (isize_to_strbuf (RW := RW) 8) in
  let map2 := Map.new (retarget tok) in
  let trc := DoDebug.new in
  let sen := Decoupler.new dtx in
  let! trc := subscribe trc sen in
  let! map2 := subscribe map2 trc in
  let! map1 := subscribe map1 map2 in
  subscribe rep map1.

(** [for i in range(0, n) { rep.next(); }]. *)
Fixpoint next_times (n : nat) (rep : Repeat.t Z map1_t) : M V X (Repeat.t Z map1_t) :=
  match n with
  | O => ret rep
  | S n' => let! '(rep, _) := next rep in next_times n' rep
  end.

(** The inner block: [v] is what [Collect] was lent.  Its end drops [recv]. *)
Definition reader_chain (srv_rx : Receiver) (v : list Z) : M V X (Coupler.t take_t) :=
  let recv := Coupler.new srv_rx in
  let take := Take.new 5 in
  let map3 := Map.new item_of in
  let coll := Collect.new v in
  let! map3 := subscribe map3 coll in
  let! take := subscribe take map3 in
  subscribe recv take.

Definition collected (recv : Coupler.t take_t) : list Z :=
  default [] (take ← Coupler.subscriber recv; map3 ← Take.subscriber take; coll ← Map.subscriber map3; Some (Collect.val coll)).

(** The thread in three parts: what it sends, the reader's loop, and the end
    of its two blocks. *)
Definition oneway_send (dtx : Els) (tok : Token) : M V X (Repeat.t Z map1_t) :=
  let! rep := sender_chain dtx tok in
  next_times 5 rep.

Definition oneway_end (rep : Repeat.t Z map1_t) (recv : Coupler.t take_t) : M V X unit :=
  let v := collected recv in
  let! _ := drop_coupler recv in
  let! _ := if decide (v = [5; 5; 5; 5; 5]%Z) then ret tt else panic "assertion failed: *v == vec![5,5,5,5,5]" in
  drop_link (S := map1_t) (O := Z) rep.

Definition oneway_thread (fuel : nat) (dtx : Els) (tok : Token) (srv_rx : Receiver) : M V X unit :=
  let! rep := oneway_send dtx tok in
  let! recv := reader_chain srv_rx [] in
  let! recv := Reactive.run fuel recv in
  oneway_end rep recv.

(** ** What they do *)

Context `{!IobufCopyLaws RW A} `{!EventLoopSenderLaws V X Els (StreamBuf A)}.

(** The chain once built. *)
Definition sending (dtx : Els) (tok : Token) : Repeat.t Z map1_t :=
  Repeat.mk 5%Z (Some (Map.mk (isize_to_strbuf (RW := RW) 8) (Some (Map.mk (retarget tok)
    (Some (DoDebug.mk (Some (Decoupler.mk None dtx)) (Some 0%Z))) (Some 0%Z))) (Some 0%Z))).

(** [n] messages for [tok] went to the event loop, each the bytes of 5, and
    each was printed. *)
Definition fives_sent (tok : Token) (n : nat) (w w' : World V X) : Prop :=
  chans w' = chans w /\
  (exists ms, mail (ext w') = mail (ext w) ++ ms /\ length ms = n /\
    Forall (fun m => sb_tok m = tok /\ StreamBuf_bytes m = to_bytes 8 5) ms) /\
  exists lines, stdout w' = stdout w ++ lines /\ length lines = n.

Lemma fives_trans tok n1 n2 w1 w2 w3 :
  fives_sent tok n1 w1 w2 -> fives_sent tok n2 w2 w3 -> fives_sent tok (n1 + n2) w1 w3.
Proof.
  intros (C1 & (m1 & M1 & L1 & F1) & l1 & S1 & K1) (C2 & (m2 & M2 & L2 & F2) & l2 & S2 & K2).
  split; [congruence|]. split.
  - exists (m1 ++ m2). rewrite M2, M1, length_app, app_assoc. split; [done|]. split; [lia|]. by apply Forall_app.
  - exists (l1 ++ l2). rewrite S2, S1, length_app, app_assoc. split; [done|lia].
Qed.

(** One message: the bytes of 5 for [tok], printed and given to the event loop. *)
Lemma send_one_calls dtx tok (w : World V X) :
  exists m, sb_tok m = tok /\ StreamBuf_bytes m = to_bytes 8 5 /\
    next (sending dtx tok) w =
      (let! r := els_send dtx m in ret (sending dtx tok, match r with Ok _ => true | Err _ => false end))
      (mkWorld (stdout w ++ [debug_fmt m]) (log w) (chans w) (ext w)).
Proof.
  destruct (atomic_read_only_law (RW := RW) (A := A) (to_bytes 8 5)) as (a & Ea & Hw).
  exists (mkStreamBuf a tok). split; [done|]. split; [done|].
  assert (E5 : forall w : World V X, isize_to_strbuf (RW := RW) 8 5 w = Done (mkStreamBuf a 0) w).
  { intros w0. unfold isize_to_strbuf. by rewrite Ea. }
  simpl. unfold Repeat.next, bind. simpl. unfold Map.on_next, bind. simpl. unfold clone, Clone_Z. rewrite E5.
  unfold Map.on_next, bind. simpl.
  simpl. unfold DoDebug.on_next, bind. simpl. unfold Decoupler.on_next, bind. simpl.
  unfold EventLoopSender_send, bind. by destruct (els_send _ _ _) as [[]| | |].
Qed.

Lemma send_one dtx tok (w : World V X) :
  exists w', next (sending dtx tok) w = Done (sending dtx tok, true) w' /\ fives_sent tok 1 w w'.
Proof.
  destruct (send_one_calls dtx tok w) as (m & Ht & Hb & E).
  destruct (els_send_law dtx m (mkWorld (stdout w ++ [debug_fmt m]) (log w) (chans w) (ext w))) as (w' & Es & Hc & Hs & Hm).
  exists w'. split; [rewrite E; unfold bind; by rewrite Es|].
  split; [done|]. split; [exists [m]|eexists]; [|by split]. split; [done|]. split; [done|]. by repeat constructor.
Qed.

Lemma send_times n dtx tok (w : World V X) :
  exists w', next_times n (sending dtx tok) w = Done (sending dtx tok) w' /\ fives_sent tok n w w'.
Proof.
  revert w. induction n as [|n IH]; intros w.
  - exists w. split; [done|]. split; [done|]. split; exists []; by rewrite app_nil_r.
  - destruct (send_one dtx tok w) as (w1 & E1 & F1). destruct (IH w1) as (w2 & E2 & F2).
    exists w2. split; [cbn [next_times]; unfold bind; by rewrite E1|]. by apply (fives_trans tok 1 n w w1 w2).
Qed.

(** The reader with [k] messages seen and [v] collected. *)
Definition reader (srv_rx : Receiver) (k : Z) (notified : bool) (v : list Z) : Coupler.t take_t :=
  Coupler.mk srv_rx (Some (Take.mk (Some (Map.mk item_of (Some (Collect.mk None v)) (Some 0%Z))) (Some 0%Z) k 5 notified)).
Definition reading (srv_rx : Receiver) (k : Z) (v : list Z) : Coupler.t take_t := reader srv_rx k false v.

(** One message: below five it is collected, the next one ends the chain. *)
Lemma read_one rx k (m : ProtoMsg Z) ms v n b (w : World V X) :
  chans w !! rx_chan rx = Some (mkChan (m :: ms) n true b) -> (0 <= k <= 5)%Z ->
  let w1 := with_chans w (<[rx_chan rx := mkChan ms n true b]> (chans w)) in
  next (reading rx k v) w =
    if (k =? 5)%Z then
      Done (reader rx 6 true v, false)
        (mkWorld (stdout w1) (log w1 ++ [mkLog LDebug "on_complete called" []]) (chans w1) (ext w1))
    else Done (reading rx (k + 1) (v ++ [pm_item m]), true) w1.
Proof.
  intros Hq Hk w1. simpl. unfold Coupler.next, bind, recv. simpl. rewrite Hq. simpl.
  unfold Take.on_next, bind. simpl. rewrite (usize_small (k + 1)) by lia.
  destruct (Z.eqb_spec k 5) as [->|Hne]; [done|].
  destruct (Z.gtb_spec (k + 1) 5); [lia|]. done.
Qed.

(** A queue that is empty and closed ends the chain. *)
Lemma read_closed rx k v b (w : World V X) :
  chans w !! rx_chan rx = Some (mkChan [] 0 true b) ->
  exists w', next (reading rx k v) w = Done (reader rx k false v, false) w' /\ chans w' = chans w.
Proof.
  intros Hq. simpl. unfold Coupler.next, bind, recv. simpl. rewrite Hq. by eexists.
Qed.

(** The end of the thread: its assertion. *)
Lemma oneway_end_spec rx k notified v dtx tok (w : World V X) :
  exists w', oneway_end (sending dtx tok) (reader rx k notified v) w =
    if decide (v = [5; 5; 5; 5; 5]%Z) then Done tt w' else Panicked "assertion failed: *v == vec![5,5,5,5,5]" w'.
Proof.
  set (w1 := with_chans w (alter (fun ch => mkChan [] (ch_senders ch) false (ch_bound ch)) (rx_chan rx) (chans w))).
  destruct (els_drop_law dtx w1) as (w2 & E & _). unfold oneway_end, bind at 1.
  change (drop_coupler _ _) with (Done (V := V) tt w1). change (collected _) with v. unfold bind.
  case_decide; [exists w2; exact E|by exists w1].
Qed.

(** With [j] values to go, the loop takes these and ends at the next message,
    or at the end of the queue. *)
Lemma read_loop rx j (ms : list V) v n b (w : World V X) fuel :
  chans w !! rx_chan rx = Some (mkChan ms n true b) -> j <= 5 -> n = 0 \/ j < length ms -> length ms < fuel ->
  exists k notified w', run_loop fuel (reading rx (5 - Z.of_nat j) v) w = Done (reader rx k notified (v ++ take j (map pm_item ms))) w' /\
    mail (ext w') = mail (ext w) /\ stdout w' = stdout w /\
    chans w' !! rx_chan rx = Some (mkChan (drop (S j) ms) n true b).
Proof.
  revert j v w fuel. induction ms as [|m ms IH]; intros j v w fuel Hq Hj Hn Hf; (destruct fuel as [|fuel]; [lia|]); cbn [run_loop].
  - destruct Hn as [->|]; [|simpl in *; lia].
    simpl next. unfold Coupler.next, bind, recv. simpl. rewrite Hq. simpl.
    rewrite take_nil, app_nil_r. do 3 eexists. split; [reflexivity|]. by splits.
  - unfold bind at 1. rewrite (read_one rx _ m ms v n b w Hq) by lia.
    destruct j as [|j]; [|rewrite (proj2 (Z.eqb_neq _ _)) by lia]; simpl.
    + rewrite app_nil_r. do 3 eexists. split; [reflexivity|]. simpl. splits. by rewrite lookup_insert_eq.
    + replace (5 - Z.of_nat (S j) + 1)%Z with (5 - Z.of_nat j)%Z by lia. simpl in Hn, Hf.
      destruct (IH j (v ++ [pm_item m]) (with_chans w (<[rx_chan rx := mkChan ms n true b]> (chans w))) fuel) as (k & nt & w' & E & Hrest);
        [simpl; apply lookup_insert_eq|lia|lia|lia|].
      exists k, nt, w'. split; [by rewrite <- app_assoc in E|exact Hrest].
Qed.

(** On an open queue with at most five messages the reader waits, also when
    it has collected all five: only a sixth message tells [Take]. *)
Lemma read_waits rx j (ms : list V) v n b (w : World V X) fuel :
  chans w !! rx_chan rx = Some (mkChan ms (S n) true b) -> j <= 5 -> length ms <= j -> length ms < fuel ->
  exists w', run_loop fuel (reading rx (5 - Z.of_nat j) v) w = Blocked w'.
Proof.
  revert j v w fuel. induction ms as [|m ms IH]; intros j v w fuel Hq Hj Hle Hf; (destruct fuel as [|fuel]; [lia|]); cbn [run_loop].
  - simpl next. unfold Coupler.next, bind, recv. simpl. rewrite Hq. by eexists.
  - unfold bind at 1. rewrite (read_one rx _ m ms v (S n) b w Hq) by lia.
    simpl in Hle, Hf. destruct j as [|j]; [lia|]. rewrite (proj2 (Z.eqb_neq _ _)) by lia. simpl.
    replace (5 - Z.of_nat (S j) + 1)%Z with (5 - Z.of_nat j)%Z by lia.
    eapply (IH j); [simpl; apply lookup_insert_eq|lia|lia|lia].
Qed.

(** The thread up to the reader's loop. *)
Lemma oneway_starts fuel dtx tok rx (w : World V X) :
  exists w1, fives_sent tok 5 w w1 /\
  oneway_thread fuel dtx tok rx w =
    (let! recv := run_loop fuel (reading rx 0 []) in
     let! _ := debug "Done with loop" [] in
     oneway_end (sending dtx tok) recv) w1.
Proof.
  destruct (send_times 5 dtx tok (mkWorld (stdout w) (log w ++ [mkLog LDebug "on_subscribe called" []]) (chans w) (ext w)))
    as (w1 & E & Hc & Hm & Hs).
  exists (mkWorld (stdout w1) ((log w1 ++ [mkLog LDebug "on_subscribe called" []]) ++ [mkLog LDebug "Starting loop" []]) (chans w1) (ext w1)).
  split; [by split|]. unfold oneway_thread, oneway_send, bind at 1. unfold bind at 1.
  change (sender_chain dtx tok w) with
    (Done (sending dtx tok) (mkWorld (stdout w) (log w ++ [mkLog LDebug "on_subscribe called" []]) (chans w) (ext w))).
  cbv beta iota. rewrite E. unfold bind at 1.
  change (reader_chain rx [] w1) with
    (Done (reading rx 0 []) (mkWorld (stdout w1) (log w1 ++ [mkLog LDebug "on_subscribe called" []]) (chans w1) (ext w1))).
  cbv beta iota. unfold Reactive.run, debug, log_at, bind. simpl. by destruct (run_loop fuel _ _).
Qed.

(** The thread of the test sends the bytes of 5 to its connection five
    times and prints each; then, on a queue that has been closed or holds more
    than five messages, it ends without a panic exactly when the first five
    are 5s, with the receiver gone; on a queue that is still open with at most
    five messages it waits, even when all five are there. *)
Theorem oneway_thread_spec fuel dtx tok rx (ms : list V) n b (w : World V X) :
  chans w !! rx_chan rx = Some (mkChan ms n true b) -> length ms < fuel ->
  exists w1, fives_sent tok 5 w w1 /\
  if decide (n = 0 \/ 5 < length ms) then
    exists w2, oneway_thread fuel dtx tok rx w =
      (if decide (take 5 (map pm_item ms) = [5; 5; 5; 5; 5]%Z)
       then Done tt w2 else Panicked "assertion failed: *v == vec![5,5,5,5,5]" w2) /\
      mail (ext w2) = mail (ext w1) /\ chans w2 !! rx_chan rx = Some (mkChan [] n false b)
  else exists w2, oneway_thread fuel dtx tok rx w = Blocked w2.
Proof.
  intros Hq Hf. destruct (oneway_starts fuel dtx tok rx w) as (w1 & H1 & ->). exists w1. split; [done|].
  destruct H1 as (Hc & _). rewrite <- Hc in Hq. case_decide as Hn.
  - destruct (read_loop rx 5 ms [] n b w1 fuel Hq ltac:(lia) Hn Hf) as (k & nt & w2 & E & Hm & Hs & Hq2).
    change (5 - Z.of_nat 5)%Z with 0%Z in E. unfold bind at 1. rewrite E.
    set (w3 := with_chans (mkWorld (stdout w2) (log w2 ++ [mkLog LDebug "Done with loop" []]) (chans w2) (ext w2))
      (alter (fun ch => mkChan [] (ch_senders ch) false (ch_bound ch)) (rx_chan rx) (chans w2))).
    assert (H3 : chans w3 !! rx_chan rx = Some (mkChan [] n false b)).
    { simpl. by rewrite lookup_alter, decide_True, Hq2 by done. }
    destruct (els_drop_law dtx w3) as (w4 & Ed & Hc4 & _ & Hm4).
    unfold debug, log_at, oneway_end, bind at 1, bind at 1. change (drop_coupler _ _) with (Done (V := V) tt w3). cbv beta iota.
    unfold bind. change (collected _) with (take 5 (map pm_item ms)). case_decide.
    + exists w4. split; [exact Ed|]. split; [rewrite Hm4; exact Hm|]. by rewrite Hc4.
    + exists w3. by split.
  - destruct n as [|n]; [tauto|].
    destruct (read_waits rx 5 ms [] n b w1 fuel Hq ltac:(lia) ltac:(lia) Hf) as (w2 & E).
    change (5 - Z.of_nat 5)%Z with 0%Z in E. exists w2. unfold bind. by rewrite E.
Qed.
End Oneway.

(** ** A concrete instance *)

Section Instances.
#[local] Instance Debug_StreamBuf_token : Debug (StreamBuf (list byte)) := fun b => debug_token (sb_tok b).

Definition five_waiting : World (ProtoMsg Z) Net :=
  mkWorld [] [] {[ 0 := mkChan (replicate 5 (mkProtoMsg 5%Z 257)) 0 true None ]} quiet.

Lemma oneway_thread_spec_witness :
  exists w1 w2, fives_sent (Els := unit) 256 5 five_waiting w1 /\
    oneway_thread (RW := list byte) (A := list byte) 6 tt 256 (mkReceiver 0) five_waiting = Done tt w2.
Proof.
  destruct (oneway_thread_spec (EventLoopSenderLaws0 := EventLoopSenderLaws_model) (RW := list byte) 6 tt 256 (mkReceiver 0)
    (replicate 5 (mkProtoMsg 5%Z 257)) 0 None five_waiting) as (w1 & H1 & H2).
  - reflexivity.
  - simpl. lia.
  - destruct H2 as (w2 & E & _). exists w1, w2. split; [exact H1|exact E].
Defined.
End Instances.
