(* ===== verification/Wire.v ===== *)
(** * From one connection to another

    A client's messages, written by the engine however little a socket takes
    at a time, carried by the network, read and cut by the engine at the other
    end: what the server's queue receives is what the client sent.  The
    outgoing and the incoming half are Outbound.v and Inbound.v; the messages
    are those of the tests of src/src/net_stream.rs. *)

From S2P Require Import Prelude Effects Sendable Protocol Mio StreamBuf NetStream Reactor MioModel Outbound Inbound U64.

(** ** Encoded integers in pieces *)

Lemma length_encode vs : length (encode vs) = 8 * length vs.
Proof. induction vs as [|v vs IH]; [done|]. rewrite encode_cons, length_app, length_to_bytes, IH. simpl. lia. Qed.

Lemma encode_app vs vs' : encode (vs ++ vs') = encode vs ++ encode vs'.
Proof. unfold encode. by rewrite map_app, concat_app. Qed.

(** A piece that ends where a message ends is the encoding of some values. *)
Lemma encode_split vs chunk rest :
  chunk ++ rest = encode vs -> (8 | length chunk) ->
  exists vs1 vs2, vs = vs1 ++ vs2 /\ chunk = encode vs1 /\ rest = encode vs2.
Proof.
  intros E [k Hk]. exists (take k vs), (drop k vs). split; [by rewrite take_drop|].
  assert (Hle : k <= length vs).
  { pose proof (f_equal length E) as El. rewrite length_app, length_encode in El. lia. }
  apply app_inj_1; [rewrite length_encode, length_take; lia|]. by rewrite <- encode_app, take_drop.
Qed.

Section Wire.
Context {X Alloc AB A CB Sender : Type} {Slab : Type -> Type}.
Abbreviation V := (ProtoMsg Z).
Context `{!MioTypes} `{!Iobuf A} `{!IobufLaws A} `{!IobufPtr A} `{!IobufPtrLaws A}.
Context `{!AppendBufOps Alloc AB A} `{!AppendBufLaws Alloc AB A} `{!SlabOps Slab} `{!SlabLaws Slab}.
Context `{!MioOps V X (StreamBuf A) (ReadBuf AB) Sender}.
Context `{!SockLaws V X A AB Sender} `{!RecvLaws V X Alloc A AB Sender}.
Abbreviation Conn := (Connection A AB U64Protocol.t).
Abbreviation Inner := (EngineInner Slab Alloc A AB U64Protocol.t CB).
Implicit Types w : World V X.

Lemma u64_whole_reads vs chunks :
  concat chunks = encode vs -> Forall (fun chunk => (8 | length chunk)) chunks ->
  whole_reads (X := X) (A := A) (Out := Z) U64Protocol.mk chunks = Some (U64Protocol.mk, map u64 vs).
Proof.
  intros E Hc. revert vs E. induction Hc as [|chunk chunks Hk _ IH]; intros vs E; simpl in *.
  - destruct vs as [|v vs]; [done|]. apply (f_equal length) in E. rewrite length_encode in E. simpl in E. lia.
  - destruct (encode_split vs chunk (concat chunks) E Hk) as (vs1 & vs2 & -> & -> & E2).
    pose proof (decode_encode (V := V) (X := X) (A := A) vs1 [] ltac:(simpl; lia)) as Hd. rewrite app_nil_r in Hd.
    rewrite Hd, (IH vs2 E2). by rewrite map_app.
Qed.

(** ** The network between two sockets *)

(** From [w] to [w'] the network carried [bs] to socket [s], where they arrive in [chunks]
    (before [more]); the program did nothing. *)
Record carried (s : TcpSocket) (bs : list byte) (chunks more : list (list byte)) w w' : Prop := {
  cd_arriving : arriving (ext w') s = chunks ++ more;
  cd_bytes : concat chunks = bs;
  cd_chans : chans w' = chans w
}.

(** What the socket of [c] has sent from [w] to [w']. *)
Definition sent_since (c : Conn) w w' : list byte := drop (length (sent (ext w) (sock c))) (sent (ext w') (sock c)).

(** C11: Values [vs] are given to [notify] for the connection at [t1], in
    any mixture with messages for other connections and writable events, and
    whatever the sockets take at a time.  Once [t1]'s queue is flushed and the
    network has carried its bytes to the socket of the connection at [t2], in
    pieces that end where messages end, the reads of these pieces put exactly
    the values [vs] into the queue of [t2], in order, as [u64]s. *)
Theorem u64_wire fuel (self : Inner) (es : list OutEvent) vs t1 t2 h (c1 c2 : Conn) q w :
  out_ok self -> Forall fits (messages es) ->
  (forall t c, slab_get (conns self) t = Some c -> weight (outbuf c) + weight (messages es) < fuel) ->
  slab_get (conns self) t1 = Some c1 -> outbuf c1 = [] ->
  map StreamBuf_bytes (filter (fun m => sb_tok m = t1) (messages es)) = map (to_bytes 8) vs ->
  slab_get (conns self) t2 = Some c2 -> slab_contains (listeners self) t2 = false -> hint_contains_hup h = false ->
  cfg_ok (config self) -> conn_ok (config self) c2 -> unread c2 = [] ->
  open_queue (stx_chan (conn_tx c2)) q (length vs) w ->
  exists self1 w1, handle_all fuel self es w = Done self1 w1 /\
    forall w2 chunks more,
      (exists c1', slab_get (conns self1) t1 = Some c1' /\ outbuf c1' = []) ->
      carried (sock c2) (sent_since c1 w w1) chunks more w1 w2 ->
      Forall (fun chunk => (8 | length chunk) /\
        (Z.of_nat (length chunk) <= min_read_buf_sz (config self))%Z /\ length chunk < fuel) chunks ->
      exists self2 w3, read_events fuel self1 t2 h (length chunks) w2 = Done self2 w3 /\
        delivered (stx_chan (conn_tx c2)) (map (fun v => mkProtoMsg (u64 v) t2) vs) w2 w3.
Proof.
  intros Hok Hfit Hfuel Hc1 Ho1 Hvs Hc2 Hl2 Hh Hcfg Hok2 Hu2 Hq.
  destruct (handle_all_serves fuel self es w Hok Hfit Hfuel) as (self1 & w1 & E1 & _ & Hserved & _ & Hch & Hls & Hcf).
  exists self1, w1. split; [done|]. intros w2 chunks more (c1' & Hc1' & Ho1') [Harr Hbs Hch2] Hchunks.
  destruct (Hserved t1 c1 Hc1) as (c1'' & Hc1'' & (Hs1 & _) & _ & Hb1). simplify_eq.
  destruct (Hserved t2 c2 Hc2) as (c2' & Hc2' & (Hs2 & Htx2 & Hm2 & Hp2 & Hbuf2) & _ & _).
  assert (Hconcat : concat chunks = encode vs).
  { rewrite Hbs. unfold sent_since. unfold out_bytes, added, pending in Hb1. rewrite Hs1, Ho1, Ho1', Hvs in Hb1. simpl in Hb1.
    rewrite !app_nil_r in Hb1. by rewrite Hb1, drop_app_length. }
  assert (Hr : reading fuel self1 t2 h c2' chunks more w2).
  { split; [by rewrite Hls|done|done|by rewrite Hcf| |by rewrite Hs2|].
    - rewrite Hcf. destruct Hok2 as [K1 K2 K3]. split; unfold written in *; by rewrite ?Hm2, ?Hbuf2.
    - rewrite Hcf. eapply Forall_impl; [exact Hchunks|]. by intros ? (? & ? & ?). }
  destruct (read_events_deliver fuel self1 t2 h c2' w2 chunks more q U64Protocol.mk (map u64 vs) 0 Hr)
    as (self2 & c3 & items & w3 & E2 & Hitems & Hd & _).
  - unfold unread, written in *. by rewrite Hm2, Hbuf2.
  - destruct (proto c2'). apply u64_whole_reads; [exact Hconcat|]. eapply Forall_impl; [exact Hchunks|]. by intros ? (? & ? & ?).
  - rewrite Htx2, length_map, Nat.add_0_r. eapply open_queue_weaken; [exact Hq|done|]. by rewrite Hch2.
  - exists self2, w3. split; [done|]. rewrite Htx2 in Hd. rewrite map_id in Hitems. subst items. by rewrite map_map in Hd.
Qed.
End Wire.

(** ** A concrete instance: one value, written in two steps *)

Section Instances.
Abbreviation Engine := (EngineInner (H := MioTypes_model) GSlab unit (list byte) Append U64Protocol.t unit).
#[local] Instance TimerCB_none : TimerCB (ProtoMsg Z) Net unit := fun c => ret (c, true).

Definition wire_conn (s : Z) (q : nat) : Connection (list byte) Append U64Protocol.t :=
  mkConn (H := MioTypes_model) s [] 8%Z (mkSyncSender q) 0 U64Protocol.mk (mkReadBuf (ap_new 32)).

Definition wire_engine : Engine :=
  mkInner (mkSlab 0 128 ∅) (mkSlab 129 255 ∅)
    (mkSlab 256 300 (<[256%Z := wire_conn 3 0]> {[ 257%Z := wire_conn 4 1 ]})) (mkConfig 4 32 16 44 100 None).

Definition wire_events : list (OutEvent (A := list byte)) :=
  [ENotify (mkStreamBuf (to_bytes 8 7) 256); EWritable 256].

(** Socket 3 takes five bytes, then the rest; then what it has sent arrives
    on socket 4. *)
Definition wire_world : World (ProtoMsg Z) Net :=
  mkWorld [] [] {[ 1 := mkChan [] 1 true (Some 4) ]} (mkNet ∅ {[ 3%Z := [5; 8]%Z ]} ∅ [] 5 [] [] true true).
Definition wire_arrived (w : World (ProtoMsg Z) Net) : World (ProtoMsg Z) Net :=
  mkWorld (stdout w) (log w) (chans w) (set_incoming {[ 4%Z := [to_bytes 8 7] ]} (ext w)).

Lemma wire_conns t c : slab_get (conns wire_engine) t = Some c ->
  (t = 256%Z /\ c = wire_conn 3 0) \/ (t = 257%Z /\ c = wire_conn 4 1).
Proof.
  cbn. rewrite lookup_insert_Some, lookup_singleton_Some. intros [[<- <-]|[_ [<- <-]]]; [by left|by right].
Qed.

Definition wire_sent : Outcome (ProtoMsg Z) Net Engine := handle_all 40 wire_engine wire_events wire_world.
Definition sent_engine : Engine := match wire_sent with Done e _ => e | _ => wire_engine end.
Definition sent_world : World (ProtoMsg Z) Net := match wire_sent with Done _ w => w | _ => wire_world end.

Lemma u64_wire_witness :
  exists self2 w3, wire_sent = Done sent_engine sent_world /\
    read_events 40 sent_engine 257 0%Z 1 (wire_arrived sent_world) = Done self2 w3 /\
    (ch_queue <$> chans w3 !! 1) = Some [mkProtoMsg 7%Z 257].
Proof.
  destruct (u64_wire (SockLaws0 := SockLaws_model) (RecvLaws0 := RecvLaws_model) 40 wire_engine wire_events [7%Z] 256 257 0%Z
    (wire_conn 3 0) (wire_conn 4 1) [] wire_world) as (self1 & w1 & E1 & Hrest).
  - split.
    + intros t1 t2 c1 c2 [[-> ->]|[-> ->]]%wire_conns [[-> ->]|[-> ->]]%wire_conns; done.
    + intros t c [[-> ->]|[-> ->]]%wire_conns; constructor.
  - repeat constructor; unfold fits; simpl; lia.
  - intros t c [[-> ->]|[-> ->]]%wire_conns; unfold weight; simpl; lia.
  - reflexivity.
  - reflexivity.
  - reflexivity.
  - reflexivity.
  - reflexivity.
  - reflexivity.
  - repeat split; simpl; lia.
  - split; vm_compute; repeat split; discriminate.
  - reflexivity.
  - exists 1, 4. split; [reflexivity|]. simpl. lia.
  - assert (E : wire_sent = Done sent_engine sent_world) by (vm_compute; reflexivity).
    change (wire_sent = Done self1 w1) in E1. rewrite E in E1. injection E1 as <- <-.
    destruct (Hrest (wire_arrived sent_world) [to_bytes 8 7] []) as (self2 & w3 & E2 & _ & Hd).
    + eexists. split; vm_compute; reflexivity.
    + split; vm_compute; reflexivity.
    + constructor; [|constructor]. split; [by exists 1|]. rewrite length_to_bytes. simpl. lia.
    + exists self2, w3. split; [exact E|]. split; [exact E2|]. rewrite Hd. vm_compute. reflexivity.
Defined.
End Instances.
