(* ===== verification/OnewayTest.v ===== *)
(** * The whole of [oneway_test]: src/src/net_stream.rs

    The test's main thread sets an engine up on one host as server and client,
    starts the thread of Oneway.v and runs the event loop until a timer shuts
    it down: the system of Loopback.v with the test's protocol, its set-up and
    its thread. *)

From S2P Require Import Prelude Effects Sendable Reactive Subscribers Processors Publishers Protocol Mio StreamBuf NetStream Reactor MioModel Outbound Inbound Engine NetEngine Frames U64 Oneway Wire Loopback LoopbackSafe.

Section OnewayTest.
Context {X Alloc AB A RW Els : Type} {Slab : Type -> Type}.
Abbreviation V := (ProtoMsg Z).
Context `{!MioTypes} `{!Iobuf A} `{!IobufLaws A} `{!IobufCopy RW A} `{!IobufCopyLaws RW A} `{!IobufPtr A} `{!IobufPtrLaws A}.
Context `{!Debug (StreamBuf A)}.
Context `{!AppendBufOps Alloc AB A} `{!AppendBufLaws Alloc AB A}.
Context `{!SlabOps Slab} `{!SlabLaws Slab} `{!SlabItems Slab} `{!SlabItemsLaws Slab}.
Context `{!MioOps V X (StreamBuf A) (ReadBuf AB) Els}.
Context `{!EventLoopSenderOps V X Els (StreamBuf A)} `{!EventLoopSenderLaws V X Els (StreamBuf A)}.
Context `{!SockLaws V X A AB Els} `{!RecvLaws V X Alloc A AB Els} `{!HostView X} `{!HostLaws (Alloc := Alloc)} `{!FrameLaws (Alloc := Alloc)}.
Abbreviation Conn := (Connection A AB U64Protocol.t).
Abbreviation Inner := (EngineInner Slab Alloc A AB U64Protocol.t ShutdownCB).
Abbreviation Engine := (NetEngine.t Slab Alloc A AB U64Protocol.t ShutdownCB).
Implicit Types w : World V X.

(** ** The messages *)

#[export] Instance Format_U64 : Format V X U64Protocol.t A Z Z.
Proof.
  refine {| msg_len := 8; enc := to_bytes 8; valid v := u64 v = v |}.
  - lia.
  - intros v _. apply length_to_bytes.
  - intros p vs Hvs. destruct p. pose proof (decode_encode (V := V) (X := X) (A := A) vs [] ltac:(simpl; lia)) as Hd.
    rewrite app_nil_r in Hd. unfold encode in Hd. rewrite Hd. do 2 f_equal. induction Hvs as [|v vs Hv _ IH]; simpl; [done|].
    rewrite Hv. f_equal. apply IH. pose proof (decode_encode (V := V) (X := X) (A := A) vs [] ltac:(simpl; lia)) as Hd'.
    by rewrite app_nil_r in Hd'.
Defined.

(** ** The main thread *)

(** Up to the [spawn]: the engine, what the closure captures ([tok], [dtx],
    [srv_rx]) and [cl]. *)
Definition oneway_setup : M V X (Engine * Receiver * NetStream.t Els * Token * Els) :=
  let! '(ne, srv_rx, st) := loopback in
  let! cl := NetStream.clone st in
  let! _ := els_drop (NetStream.dtx st) in
  let! ne := NetEngine.timeout ne 500 shutdown_cb in
  let tok := NetStream.tok cl in
  let! dtx := els_clone (NetStream.dtx cl) in
  ret (ne, srv_rx, cl, tok, dtx).

(** ** The spawned thread, step by step *)

Abbreviation rep_t := (Repeat.t Z (map1_t (X := X) (Els := Els) (A := A))).
Abbreviation recv_t := (Coupler.t (take_t (X := X))).

Inductive Thread :=
| Sending (n : nat) (rep : rep_t)
| Receiving (rep : rep_t) (recv : recv_t)
| Ended
| Failed.

Section Step.
Context (srv_rx : Receiver).

Definition thread_next (t : Thread) : M V X Thread :=
  match t with
  | Sending (S n) rep => let! '(rep, _) := next rep in ret (Sending n rep)
  | Sending O rep =>
      let! recv := reader_chain srv_rx [] in
      let! _ := debug "Starting loop" [] in
      ret (Receiving rep recv)
  | Receiving rep recv =>
      let! '(recv, go) := next recv in
      if go then ret (Receiving rep recv)
      else
        let! _ := debug "Done with loop" [] in
        let! _ := oneway_end rep recv in
        ret Ended
  | Ended => ret Ended
  | Failed => ret Failed
  end.

(** The thread by itself. *)
Fixpoint thread_run (n : nat) (t : Thread) : M V X unit :=
  match t with
  | Ended | Failed => ret tt
  | _ => match n with
         | O => out_of_fuel
         | S n' => let! t' := thread_next t in thread_run n' t'
         end
  end.
End Step.

(** Undisturbed, the steps are the thread of Oneway.v. *)
Lemma thread_run_oneway fuel dtx tok srv_rx :
  (let! rep := sender_chain (RW := RW) dtx tok in thread_run srv_rx (6 + fuel) (Sending 5 rep)) ≈ oneway_thread (RW := RW) fuel dtx tok srv_rx.
Proof.
  assert (Hread : forall rep recv, thread_run srv_rx fuel (Receiving rep recv) ≈
    (let! recv := run_loop fuel recv in let! _ := debug "Done with loop" [] in oneway_end rep recv)).
  { intros rep. induction fuel as [|n IH]; intros recv w; [done|]. cbn [thread_run thread_next run_loop]. unfold bind.
    destruct (next recv w) as [[recv' go]| | |]; try done. destruct go; simpl; [apply IH|].
    unfold ret, debug, log_at. destruct (oneway_end rep recv' _) as [[]| | |]; [by destruct n|done..]. }
  unfold oneway_thread, oneway_send. rewrite bind_assoc. apply bind_ext. intros rep.
  assert (Hsend : forall n rep, thread_run srv_rx (n + S fuel) (Sending n rep) ≈
    (let! rep := next_times n rep in let! recv := reader_chain srv_rx [] in let! recv := Reactive.run fuel recv in oneway_end rep recv)).
  { clear rep. induction n as [|n IH]; intros rep w.
    - cbn [plus thread_run thread_next next_times]. unfold Reactive.run, bind, ret.
      destruct (reader_chain srv_rx [] w) as [recv w1| | |]; try done. unfold debug, log_at. rewrite Hread. unfold bind, debug, log_at.
      by destruct (run_loop fuel recv _).
    - cbn [plus thread_run thread_next next_times]. unfold bind at 1 2 3 4. destruct (next rep w) as [[rep' b]| | |]; try done. apply IH. }
  apply (Hsend 5).
Qed.

(** ** What is set up *)

(** On a host that works the test's set-up succeeds. *)
Lemma setup_works w0 :
  host_up (ext w0) ->
  exists e q q1 tl tok s1 cl dtx w1,
    oneway_setup w0 = Done (NetEngine.mk e, mkReceiver q, cl, tok, dtx) w1 /\
    set_up e q q1 tl tok s1 w0 w1 /\ NetStream.drx cl = mkReceiver q1.
Proof.
  intros Hup. destruct (loopback_works w0 Hup) as (e & q & q1 & tl & tok & s1 & dtx0 & wc & E & Hset & Hroom).
  pose proof (st_up _ _ (su_still _ _ _ _ _ _ _ _ Hset) Hup) as Hupc.
  destruct (clone_law dtx0 wc) as (dtx1 & wd & Ed & Qd). pose proof (quiet_up _ _ Qd Hupc) as Hupd.
  destruct (els_drop_quiet dtx0 wd) as (we & Ee & Qe). pose proof (quiet_up _ _ Qe Hupd) as Hupe.
  destruct (arm_works e 500 we Hupe Hroom) as (ts & wf & Ef & Qf).
  destruct (clone_law dtx1 wf) as (dtx & wg & Eg & Qg).
  exists (with_timeouts ts e), q, q1, tl, tok, s1, (NetStream.mk dtx1 (mkReceiver q1) tok), dtx, wg. split; [|split; [|done]].
  - unfold oneway_setup, bind. follow E. unfold NetStream.clone, bind. cbn [NetStream.dtx NetStream.drx NetStream.tok].
    follow Ed. follow Ee. follow Ef. cbn [NetStream.dtx NetStream.tok]. by follow Eg.
  - eapply set_up_later; [exact Hset|done..|]. etrans; [exact Qd|]. etrans; [exact Qe|]. by etrans.
Qed.

(** ** The invariant *)

Section Invariant.
Context (srv_rx : Receiver) (armed : Token -> Prop) (s1 s2 : TcpSocket) (dtx : Els) (tok tl : Token).
Abbreviation State := (Test (X := X) (Alloc := Alloc) (AB := AB) (A := A) (T := U64Protocol.t) (Out := Z) (Th := Thread) (Slab := Slab)).
Abbreviation Main := (Main (X := X) (Alloc := Alloc) (AB := AB) (A := A) (T := U64Protocol.t) (Out := Z) (Slab := Slab)).

(** The thread has sent [j] messages and taken [k] of the [a] in the queue. *)
Definition thread_inv (j k a : nat) (t : Thread) (m : Main) : Prop :=
  match t with
  | Sending n rep => rep = sending (RW := RW) dtx tok /\ j + n = 5 /\ k = 0
  | Receiving rep recv => rep = sending (RW := RW) dtx tok /\ j = 5 /\ recv = reading srv_rx (Z.of_nat k) (replicate k 5%Z)
  | Ended => m = Returned
  | Failed => m = Returned /\ a < 5
  end.

Definition unfinished (t : Thread) : bool := match t with Sending _ _ | Receiving _ _ => true | _ => false end.

(** [run] has been called. *)
Definition started (m : Main) : Prop := match m with Before _ _ => False | _ => True end.

Definition inv (a : nat) (s : State) : Prop :=
  exists j k, thread_inv j k a (thread s) (main s) /\ k <= a <= j /\ j <= 5 /\ started (main s) /\
    (unfinished (thread s) = true ->
      queue_inv (Alloc := Alloc) srv_rx armed s1 s2 tok tl (replicate j 5%Z) k a (moved s) (connected s) (main s) (world s)).
End Invariant.
End OnewayTest.
