(* ===== verification/OnewaySafe.v ===== *)
(** * [oneway_test] under every schedule

    The invariant of OnewayTest.v holds whatever the threads, the event loop
    and the host do: the thread collects 5s only, and its assertion can fail
    only when the engine was shut down before the five messages had come
    through. *)

From S2P Require Import Prelude Effects Sendable Reactive Subscribers Processors Publishers Protocol Mio StreamBuf NetStream Reactor MioModel Outbound Inbound Engine Lifetime NetEngine Frames U64 Oneway Wire Loopback LoopbackSafe OnewayTest.

Section OnewaySafe.
Context {X Alloc AB A RW Els : Type} {Slab : Type -> Type}.
Abbreviation V := (ProtoMsg Z).
Context `{!MioTypes} `{!Iobuf A} `{!IobufLaws A} `{!IobufCopy RW A} `{!IobufCopyLaws RW A} `{!IobufPtr A} `{!IobufPtrLaws A}.
Context `{!Debug (StreamBuf A)}.
Context `{!AppendBufOps Alloc AB A} `{!AppendBufLaws Alloc AB A}.
Context `{!SlabOps Slab} `{!SlabLaws Slab} `{!SlabItems Slab} `{!SlabItemsLaws Slab}.
Context `{!MioOps V X (StreamBuf A) (ReadBuf AB) Els}.
Context `{!EventLoopSenderOps V X Els (StreamBuf A)} `{!EventLoopSenderLaws V X Els (StreamBuf A)}.
Context `{!SockLaws V X A AB Els} `{!RecvLaws V X Alloc A AB Els} `{!HostView X} `{!HostLaws (Alloc := Alloc)} `{!FrameLaws (Alloc := Alloc)}.
Abbreviation Inner := (EngineInner Slab Alloc A AB U64Protocol.t ShutdownCB).
Abbreviation Main := (Main (X := X) (Alloc := Alloc) (AB := AB) (A := A) (T := U64Protocol.t) (Out := Z) (Slab := Slab)).
Abbreviation fives j := (replicate j 5%Z).
Implicit Types (w : World V X) (m : Main).

Context (fuel : nat) (srv_rx : Receiver) (cl : NetStream.t Els) (armed : Token -> Prop) (s1 s2 : TcpSocket) (dtx : Els) (tok tl : Token).
Context (Hfuel : 128 < fuel) (Hsocks : s2 <> s1) (Hcl : rx_chan (NetStream.drx cl) <> rx_chan srv_rx).
Abbreviation q := (rx_chan srv_rx).
Abbreviation inv := (inv (RW := RW) (Alloc := Alloc) srv_rx armed s1 s2 dtx tok tl).
Abbreviation queue_inv := (queue_inv (Alloc := Alloc) (T := U64Protocol.t) srv_rx armed s1 s2 tok tl).
Abbreviation step := (step (Alloc := Alloc) (T := U64Protocol.t) (thread_next srv_rx) Failed fuel cl armed s1 s2).

Lemma inv_intro j k a t m cn n w :
  thread_inv (RW := RW) (Alloc := Alloc) srv_rx dtx tok j k a t m -> k <= a <= j -> j <= 5 -> started m ->
  (unfinished t = true -> queue_inv (fives j) k a n cn m w) -> inv a (mkTest t m cn n w).
Proof. intros. exists j, k. done. Qed.

(** What waits in the queue, when the messages are 5s. *)
Lemma queue_fives j k a n cn m w :
  a <= j -> queue_inv (fives j) k a n cn m w ->
  exists ms senders, chans w !! q = Some (mkChan ms senders true (Some (Z.to_nat 524288))) /\ map pm_item ms = fives (a - k) /\
    match m with Returned => senders = 0 | _ => senders <> 0 end.
Proof.
  intros Ha Hq. destruct (queue_view srv_rx armed s1 s2 tok tl _ _ _ _ _ _ _ Hq) as (ms & senders & Hc & Hms & _ & Hm); [by rewrite length_replicate|].
  exists ms, senders. split; [exact Hc|]. split; [|exact Hm].
  etrans; [exact Hms|]. rewrite take_replicate, Nat.min_l by done. apply drop_replicate.
Qed.

(** ** The thread *)

(** Sending one more message. *)
Lemma sending_inv n0 a m cn n w t' w' :
  inv a (mkTest (Sending (S n0) (sending (RW := RW) dtx tok)) m cn n w) ->
  thread_next srv_rx (Sending (S n0) (sending (RW := RW) dtx tok)) w = Done t' w' ->
  inv a (mkTest t' m cn n w').
Proof.
  intros (j & k & (_ & Hj & ->) & Hk & Hj5 & Hst & Hq) E. destruct (Hq eq_refl) as (ms & senders & Hc & Hms & Hmain). cbn [connected main moved thread world] in *. unfold thread_next in E.
  destruct (send_one_calls (RW := RW) dtx tok w) as (m0 & Ht & Hb & Enext).
  set (w0 := mkWorld (stdout w ++ [debug_fmt m0]) (log w) (chans w) (ext w)) in *.
  destruct (els_send_law dtx m0 w0) as (w1 & Es & Hch & _ & Hmail).
  destruct (send_frame dtx m0 w0 _ _ Es) as (F1 & F2 & F3 & F4).
  unfold bind at 1 in E. rewrite Enext in E. unfold bind in E. rewrite Es in E. unfold ret in E. injection E as <- <-.
  apply (inv_intro (S j) 0); [split; [done|lia]|lia|lia|done|]. intros _. exists ms, senders. rewrite Hch. split; [done|].
  replace (fives (S j)) with (fives j ++ [5%Z]) by (by rewrite <- replicate_S_end).
  split; [by rewrite take_app_le by (rewrite length_replicate; lia)|].
  destruct m; [done|by eapply main_inv_send|done].
Qed.

(** Turning from sending to receiving. *)
Lemma turn_inv a m cn n w t' w' :
  inv a (mkTest (Sending 0 (sending (RW := RW) dtx tok)) m cn n w) ->
  thread_next srv_rx (Sending 0 (sending (RW := RW) dtx tok)) w = Done t' w' ->
  inv a (mkTest t' m cn n w').
Proof.
  intros (j & k & (_ & Hj & ->) & Hk & Hj5 & Hst & Hq) E. specialize (Hq eq_refl). cbn [connected main moved thread world] in *. unfold thread_next in E.
  unfold bind at 1 in E.
  change (reader_chain srv_rx [] w) with
    (Done (V := V) (reading (X := X) srv_rx 0 []) (mkWorld (stdout w) (log w ++ [mkLog LDebug "on_subscribe called" []]) (chans w) (ext w))) in E.
  unfold bind, debug, log_at, ret in E. injection E as <- <-. by apply (inv_intro j 0); [split; [done|split; [lia|done]]|lia|lia| |].
Qed.

(** Taking one message, or finding the queue closed. *)
Lemma receiving_next k a m cn n w :
  let t := Receiving (sending (RW := RW) dtx tok) (reading srv_rx (Z.of_nat k) (fives k)) in
  k <= a -> a <= 5 -> queue_inv (fives 5) k a n cn m w ->
  (exists w', thread_next srv_rx t w = Done (Receiving (sending (RW := RW) dtx tok) (reading srv_rx (Z.of_nat (S k)) (fives (S k)))) w' /\
     S k <= a /\ queue_inv (fives 5) (S k) a n cn m w') \/
  (exists w', m = Returned /\ k = a /\
     thread_next srv_rx t w = if decide (a = 5) then Done Ended w' else Panicked "assertion failed: *v == vec![5,5,5,5,5]" w') \/
  (m <> Returned /\ thread_next srv_rx t w = Blocked w).
Proof.
  intros t Hk Ha Hq. destruct (queue_fives 5 k a n cn m w Ha Hq) as (ms & senders & Hc & Hms & Hsend).
  pose proof (f_equal length Hms) as Hlen. rewrite length_map, length_replicate in Hlen. unfold t, thread_next. destruct ms as [|m0 ms].
  - right. simpl in Hlen. assert (k = a) as -> by lia. destruct senders as [|senders].
    + left. destruct m; [done..|].
      destruct (read_closed srv_rx (Z.of_nat a) (fives a) _ w Hc) as (w1 & E & _).
      set (w2 := mkWorld (stdout w1) (log w1 ++ [mkLog LDebug "Done with loop" []]) (chans w1) (ext w1)).
      destruct (oneway_end_spec (RW := RW) srv_rx (Z.of_nat a) false (fives a) dtx tok w2) as (w3 & E3).
      exists w3. split; [done|]. split; [done|].
      unfold bind at 1. rewrite E. unfold bind, debug, log_at. fold w2. rewrite E3.
      destruct (decide (a = 5)) as [->|Hne]; [done|]. rewrite decide_False; [done|].
      intros Heq%(f_equal length). rewrite length_replicate in Heq. simpl in Heq. lia.
    + right. split; [by destruct m|]. simpl next. unfold Coupler.next, bind, recv. simpl. by rewrite Hc.
  - left. simpl in Hlen. unfold bind at 1. rewrite (read_one srv_rx (Z.of_nat k) m0 ms _ _ _ w Hc) by lia.
    rewrite (proj2 (Z.eqb_neq _ _)) by lia. eexists. split; [|split; [lia|by eapply queue_take]].
    unfold ret. do 2 f_equal. replace (Z.of_nat k + 1)%Z with (Z.of_nat (S k)) by lia. f_equal.
    replace (a - k) with (S (a - S k)) in Hms by lia. simpl in Hms. injection Hms as -> _. by rewrite <- replicate_S_end.
Qed.

(** ** Every step *)

Lemma thread_step_inv a t m k n w t' w' :
  inv a (mkTest t m k n w) -> thread_next srv_rx t w = Done t' w' -> inv a (mkTest t' m k n w').
Proof.
  intros Hinv E. pose proof Hinv as (j & i & Ht & Hi & Hj & Hst & Hq). cbn [thread main connected moved world] in *. destruct t as [[|n0] rep|rep recv| |].
  - destruct Ht as (-> & _). by eapply turn_inv.
  - destruct Ht as (-> & _). by eapply sending_inv.
  - destruct Ht as (-> & -> & ->). destruct (receiving_next i a m k n w ltac:(lia) ltac:(lia) (Hq eq_refl)) as [(w1 & E1 & Hle & Hq1)|[(w1 & Hm & -> & E1)|[_ E1]]];
      rewrite E1 in E; [| |done].
    + injection E as <- <-. apply (inv_intro 5 (S i)); [done|lia|lia|done|done].
    + case_decide; [|done]. injection E as <- <-. by apply (inv_intro 5 a); [|lia|lia| |].
  - simpl in E. unfold ret in E. injection E as <- <-. exact Hinv.
  - simpl in E. unfold ret in E. injection E as <- <-. exact Hinv.
Qed.

Lemma thread_fail_inv a t m k n w msg w' :
  inv a (mkTest t m k n w) -> thread_next srv_rx t w = Panicked msg w' -> inv a (mkTest Failed m k n w').
Proof.
  intros (j & i & Ht & Hi & Hj & Hst & Hq) E. cbn [thread main connected moved world] in *. destruct t as [[|n0] rep|rep recv| |]; try done.
  - destruct Ht as (-> & _). destruct (send_one (RW := RW) dtx tok w) as (w1 & E1 & _).
    unfold thread_next, bind in E. rewrite E1 in E. done.
  - destruct Ht as (-> & -> & ->). destruct (receiving_next i a m k n w ltac:(lia) ltac:(lia) (Hq eq_refl)) as [(w1 & E1 & _)|[(w1 & Hm & -> & E1)|[_ E1]]];
      rewrite E1 in E; [done| |done].
    case_decide; [done|]. apply (inv_intro 5 a); [split; [done|lia]|lia|lia|done|done].
Qed.

(** A thread that is done was told so by the end of the queue. *)
Lemma done_returned j i a t m : thread_inv (RW := RW) (Alloc := Alloc) srv_rx dtx tok j i a t m -> unfinished t = false -> m = Returned.
Proof. by destruct t; simpl; intros Ht; [| |intros _|intros _; destruct Ht]. Qed.

Lemma outside_step_inv a t m k n w m' k' n' w' :
  inv a (mkTest t m k n w) -> outside (Alloc := Alloc) fuel cl armed s1 s2 m k n w m' k' n' w' ->
  exists a', a <= a' /\ inv a' (mkTest t m' k' n' w').
Proof.
  intros (j & i & Ht & Hi & Hj & Hst & Hq) Hout. cbn [thread main connected moved world] in *.
  destruct (unfinished t) eqn:Hun.
  - destruct (outside_inv fuel srv_rx cl armed s1 s2 tok tl Hfuel Hsocks Hcl (fives j) i a n k m w n' k' m' w' (Hq eq_refl))
      as (a' & Ha & Hle & Hq' & Hret & Hbefore); [unfold few; rewrite length_replicate; change (msg_len) with 8; lia|rewrite length_replicate; lia|lia|exact Hout|].
    exists a'. split; [done|].
    assert (Ha' : a' <= j).
    { rewrite length_replicate in Hle. apply Hle; lia. }
    apply (inv_intro j i); [by destruct t|lia|done| |done]. destruct m'; try done. by destruct (Hbefore _ _ eq_refl) as [-> _].
  - pose proof (done_returned _ _ _ _ _ Ht Hun) as ->. exists a. split; [done|].
    assert (m' = Returned) as -> by (by inversion Hout). apply (inv_intro j i); [by destruct t|lia|done|done|by rewrite Hun].
Qed.

Lemma step_inv a s s' : inv a s -> step s s' -> exists a', a <= a' /\ inv a' s'.
Proof.
  intros Hinv Hstep. destruct Hstep as [t t' m k n w w' E|t m k n w msg w' E|t p e k n w w' E|t m k n w m' k' n' w' Hout].
  - exists a. split; [done|]. by eapply thread_step_inv.
  - exists a. split; [done|]. by eapply thread_fail_inv.
  - by destruct Hinv as (j & i & _ & _ & _ & Hst & _).
  - by eapply outside_step_inv.
Qed.

Lemma steps_inv a s s' : inv a s -> rtc step s s' -> exists a', a <= a' /\ inv a' s'.
Proof.
  intros Hinv Hs. revert a Hinv. induction Hs as [s|s1' s2' s3' Hs _ IH]; intros a Hinv; [by exists a|].
  destruct (step_inv a _ _ Hinv Hs) as (a1 & H1 & Hinv1). destruct (IH a1 Hinv1) as (a2 & H2 & Hinv2). exists a2. split; [lia|done].
Qed.

(** ** The thread once the engine is gone *)

Definition verdict (a : nat) w : Outcome V X unit :=
  if decide (a = 5) then Done tt w else Panicked "assertion failed: *v == vec![5,5,5,5,5]" w.

Lemma receiving_runs f a k n cn w :
  k <= a -> a <= 5 -> a - k < f -> queue_inv (fives 5) k a n cn Returned w ->
  exists w', thread_run srv_rx f (Receiving (sending (RW := RW) dtx tok) (reading srv_rx (Z.of_nat k) (replicate k 5%Z))) w = verdict a w'.
Proof.
  revert k w. induction f as [|f IH]; intros k w Hk Ha Hf Hq; [lia|].
  destruct (receiving_next k a Returned cn n w Hk Ha Hq) as [(w1 & E1 & Hle & Hq1)|[(w1 & _ & -> & E1)|[? _]]]; [..|done];
    cbn [thread_run]; unfold bind at 1; rewrite E1.
  - apply IH; [lia|lia|lia|done].
  - exists w1. unfold verdict. case_decide; [by destruct f|done].
Qed.

Lemma thread_finishes a t cn n w :
  inv a (mkTest t Returned cn n w) -> unfinished t = true -> exists w', thread_run srv_rx 12 t w = verdict a w'.
Proof.
  assert (Hsend : forall n0 f w, n0 <= 5 -> 6 + n0 < f -> inv a (mkTest (Sending n0 (sending (RW := RW) dtx tok)) Returned cn n w) ->
    exists w', thread_run srv_rx f (Sending n0 (sending (RW := RW) dtx tok)) w = verdict a w').
  { induction n0 as [|n0 IH]; intros [|f] w0 Hn Hf Hinv; try lia; cbn [thread_run]; unfold bind at 1.
    - destruct (thread_next srv_rx (Sending 0 (sending (RW := RW) dtx tok)) w0) as [t' w1| | |] eqn:E; try done.
      pose proof (turn_inv _ _ _ _ _ _ _ Hinv E) as (j & i & Ht & Hi & Hj & Hst & Hq).
      unfold thread_next, bind at 1 in E. change (reader_chain srv_rx [] w0) with
        (Done (V := V) (reading (X := X) srv_rx 0 []) (mkWorld (stdout w0) (log w0 ++ [mkLog LDebug "on_subscribe called" []]) (chans w0) (ext w0))) in E.
      unfold bind, debug, log_at, ret in E. injection E as <- <-. destruct Ht as (_ & -> & Hi').
      assert (i = 0) as -> by (injection Hi'; lia). specialize (Hq eq_refl). cbn [main moved connected world] in Hq.
      apply (receiving_runs f a 0 n cn); [lia|lia|lia|exact Hq].
    - destruct (send_one (RW := RW) dtx tok w0) as (w1 & E1 & _).
      assert (E : thread_next srv_rx (Sending (S n0) (sending (RW := RW) dtx tok)) w0 = Done (Sending n0 (sending (RW := RW) dtx tok)) w1).
      { unfold thread_next, bind. by rewrite E1. }
      rewrite E. apply IH; [lia|lia|]. by eapply sending_inv. }
  intros Hinv Hun. pose proof Hinv as (j & i & Ht & Hi & Hj & Hst & Hq). cbn [thread main connected moved world] in *. destruct t as [n0 rep|rep recv| |]; try done.
  - destruct Ht as (-> & Hj' & ->). apply Hsend; [lia|lia|done].
  - destruct Ht as (-> & -> & ->). apply (receiving_runs 12 a i n cn); [lia|lia|lia|by apply Hq].
Qed.

(** What the thread has collected, and what waits for it. *)
Definition seen (s : Test (X := X) (Alloc := Alloc) (AB := AB) (A := A) (T := U64Protocol.t) (Out := Z) (Th := Thread (X := X) (Els := Els) (A := A)) (Slab := Slab)) : list Z :=
  match thread s with Receiving _ recv => collected recv | _ => [] end ++
  match chans (world s) !! q with Some ch => map pm_item (ch_queue ch) | None => [] end.

Lemma inv_seen a s : inv a s -> unfinished (thread s) = true -> seen s = fives a.
Proof.
  intros (j & i & Ht & Hi & Hj & Hst & Hq) Hun. destruct (queue_fives j i a _ _ _ _ ltac:(lia) (Hq Hun)) as (ms & senders & Hc & Hms & _). unfold seen. rewrite Hc. simpl.
  rewrite Hms. destruct (thread s) as [n rep|rep recv| |]; try done.
  - destruct Ht as (_ & _ & ->). simpl. f_equal. lia.
  - destruct Ht as (_ & _ & ->). change (collected _) with (fives i). rewrite <- replicate_add. f_equal. lia.
Qed.
End OnewaySafe.
