(* ===== verification/OnewayLive.v ===== *)
(** * [oneway_test] can always pass

    As long as the engine runs, the test's thread can send what it has not
    sent, all five messages can come (LoopbackLive.v), and once the engine is
    gone the thread gets through its assertion. *)

From S2P Require Import Prelude Effects Sendable Reactive Subscribers Processors Publishers Protocol Mio StreamBuf NetStream Reactor MioModel Outbound Inbound Engine Lifetime NetEngine Frames U64 Oneway Wire Loopback LoopbackSafe LoopbackLive OnewayTest OnewaySafe.

Section OnewayLive.
Context {X Alloc AB A RW Els : Type} {Slab : Type -> Type}.
Abbreviation V := (ProtoMsg Z).
Context `{!MioTypes} `{!Iobuf A} `{!IobufLaws A} `{!IobufCopy RW A} `{!IobufCopyLaws RW A} `{!IobufPtr A} `{!IobufPtrLaws A}.
Context `{!Debug (StreamBuf A)}.
Context `{!AppendBufOps Alloc AB A} `{!AppendBufLaws Alloc AB A}.
Context `{!SlabOps Slab} `{!SlabLaws Slab} `{!SlabItems Slab} `{!SlabItemsLaws Slab}.
Context `{!MioOps V X (StreamBuf A) (ReadBuf AB) Els}.
Context `{!EventLoopSenderOps V X Els (StreamBuf A)} `{!EventLoopSenderLaws V X Els (StreamBuf A)}.
Context `{!SockLaws V X A AB Els} `{!RecvLaws V X Alloc A AB Els} `{!HostView X} `{!HostLaws (Alloc := Alloc)} `{!FrameLaws (Alloc := Alloc)}.
Context `{!HostLive (Alloc := Alloc)}.
Abbreviation Inner := (EngineInner Slab Alloc A AB U64Protocol.t ShutdownCB).
Abbreviation Main := (Main (X := X) (Alloc := Alloc) (AB := AB) (A := A) (T := U64Protocol.t) (Out := Z) (Slab := Slab)).
Abbreviation fives j := (replicate j 5%Z).
Implicit Types (w : World V X) (m : Main).

Context (fuel : nat) (srv_rx : Receiver) (cl : NetStream.t Els) (armed : Token -> Prop) (s1 s2 : TcpSocket) (dtx : Els) (tok tl : Token).
Context (Hfuel : 128 < fuel) (Hsocks : s2 <> s1) (Hcl : rx_chan (NetStream.drx cl) <> rx_chan srv_rx).
Abbreviation inv := (inv (RW := RW) (Alloc := Alloc) srv_rx armed s1 s2 dtx tok tl).
Abbreviation step := (step (Alloc := Alloc) (T := U64Protocol.t) (thread_next srv_rx) Failed fuel cl armed s1 s2).
Abbreviation rep := (sending (RW := RW) dtx tok).

(** The thread by itself gets through its sends. *)
Lemma sends_all n0 m k n w :
  exists w', rtc step (mkTest (Sending n0 rep) m k n w) (mkTest (Receiving rep (reading srv_rx 0 [])) m k n w').
Proof.
  clear Hfuel Hsocks Hcl. revert w. induction n0 as [|n0 IH]; intros w.
  - eexists. apply rtc_once, step_thread. reflexivity.
  - destruct (send_one (RW := RW) dtx tok w) as (w1 & E & _). destruct (IH w1) as (w2 & H2).
    exists w2. eapply rtc_l; [apply step_thread; cbn [thread_next]; unfold bind; by rewrite E|exact H2].
Qed.

(** What the thread does by itself are steps of the system. *)
Lemma runs_steps f t m k n w w' :
  thread_run srv_rx f t w = Done tt w' ->
  exists t', unfinished t' = false /\ rtc step (mkTest t m k n w) (mkTest t' m k n w').
Proof.
  clear Hfuel Hsocks Hcl. revert t w. induction f as [|f IH]; intros t w E.
  - exists t. destruct t; simpl in E; unfold ret, out_of_fuel in E; simplify_eq; split; done.
  - destruct (unfinished t) eqn:Hun; [|exists t; destruct t; simpl in E; unfold ret in E; simplify_eq; split; done].
    assert (E' : (let! t' := thread_next srv_rx t in thread_run srv_rx f t') w = Done tt w') by (by destruct t).
    apply bind_done in E' as (t1 & w1 & E1 & E2). destruct (IH _ _ E2) as (t' & Ht & Hr).
    exists t'. split; [done|]. eapply rtc_l; [by apply step_thread|exact Hr].
Qed.

(** From any state in which the engine runs. *)
Lemma can_pass a t (e : Inner) k n w :
  inv a (mkTest t (Running e) k n w) ->
  exists t1 e1 k1 n1 w1 n2 k2 w2,
    rtc step (mkTest t (Running e) k n w) (mkTest t1 (Running e1) k1 n1 w1) /\ seen srv_rx (mkTest t1 (Running e1) k1 n1 w1) = fives 5 /\
    rtc step (mkTest t1 (Running e1) k1 n1 w1) (mkTest Ended Returned k2 n2 w2).
Proof.
  intros Hinv.
  assert (Hrecv : exists w1 recv, rtc step (mkTest t (Running e) k n w) (mkTest (Receiving rep recv) (Running e) k n w1)).
  { destruct Hinv as (j & i & Ht & _). destruct t as [n0 rep0|rep0 recv| |]; simpl in Ht.
    - destruct Ht as [-> _]. destruct (sends_all n0 (Running e) k n w) as (w1 & H1). eauto.
    - destruct Ht as [-> _]. eauto using rtc_refl.
    - done.
    - by destruct Ht. }
  destruct Hrecv as (w1 & recv & Hr1).
  destruct (steps_inv fuel srv_rx cl armed s1 s2 dtx tok tl Hfuel Hsocks Hcl a _ _ Hinv Hr1) as (a1 & _ & j & i & Ht & Hi & Hj & _ & Hq).
  cbn [thread main connected moved world] in *. destruct Ht as (_ & -> & ->).
  destruct (all_comes fuel srv_rx cl armed s1 s2 tok tl Hfuel Hsocks Hcl (thread_next srv_rx) Failed (fives 5) i a1 n k e w1
    (Receiving rep (reading srv_rx (Z.of_nat i) (fives i))) (Hq eq_refl)) as (e2 & k2 & n2 & w2 & Hr2 & Hq2).
  { unfold few. rewrite length_replicate. change msg_len with 8. lia. }
  { rewrite length_replicate. lia. }
  { lia. }
  assert (Hinv2 : inv 5 (mkTest (Receiving rep (reading srv_rx (Z.of_nat i) (fives i))) (Running e2) k2 n2 w2)).
  { apply inv_intro with (j := 5) (k := i); [by split|lia|lia|done|]. intros _. exact Hq2. }
  destruct Hq2 as (ms & senders & Hc & _ & Hm).
  destruct (main_returns srv_rx cl armed s1 s2 tok tl Hcl (fives 5) 5 n2 k2 e2 senders w2 ms Hm Hc) as (w3 & E3 & _).
  set (t2 := Receiving rep (reading srv_rx (Z.of_nat i) (fives i))) in *.
  assert (Hr3 : rtc step (mkTest t2 (Running e2) k2 n2 w2) (mkTest t2 Returned k2 n2 w3)) by (apply rtc_once, step_outside; by apply out_return).
  destruct (steps_inv fuel srv_rx cl armed s1 s2 dtx tok tl Hfuel Hsocks Hcl 5 _ _ Hinv2 Hr3) as (a3 & Ha3 & Hinv3).
  assert (a3 = 5) as -> by (destruct Hinv3 as (? & ? & _ & ? & ? & _); lia).
  destruct (thread_finishes fuel srv_rx cl armed s1 s2 dtx tok tl Hfuel Hcl 5 t2 k2 n2 w3 Hinv3 eq_refl) as (w4 & E4).
  destruct (runs_steps 12 t2 Returned k2 n2 w3 w4 E4) as (t4 & Ht4 & Hr4).
  exists t2, e2, k2, n2, w2, n2, k2, w4. split; [by etrans|]. split.
  { exact (inv_seen fuel srv_rx cl armed s1 s2 dtx tok tl Hfuel Hcl 5 (mkTest t2 (Running e2) k2 n2 w2) Hinv2 eq_refl). }
  etrans; [exact Hr3|]. destruct (steps_inv fuel srv_rx cl armed s1 s2 dtx tok tl Hfuel Hsocks Hcl 5 _ _ Hinv3 Hr4) as (a4 & Ha4 & j4 & i4 & Ht & Hi4 & Hj4 & _).
  destruct t4; try done. destruct Ht. lia.
Qed.
End OnewayLive.
