(* ===== verification/OnewayRun.v ===== *)
(** * What [oneway_test] shows

    The theorems on the test of src/src/net_stream.rs as a whole, from its
    first statement on, under every schedule of its threads, its event loop
    and its host; and one run of it on the model network. *)

From S2P Require Import Prelude Effects Sendable Reactive Subscribers Processors Publishers Protocol Mio StreamBuf NetStream Reactor MioModel Outbound Inbound Engine NetEngine Frames U64 Oneway Wire Loopback LoopbackSafe LoopbackLive LoopbackModel OnewayTest OnewaySafe OnewayLive.

Section OnewayRun.
Context {X Alloc AB A RW Els : Type} {Slab : Type -> Type}.
Abbreviation V := (ProtoMsg Z).
Context `{!MioTypes} `{!Iobuf A} `{!IobufLaws A} `{!IobufCopy RW A} `{!IobufCopyLaws RW A} `{!IobufPtr A} `{!IobufPtrLaws A}.
Context `{!Debug (StreamBuf A)}.
Context `{!AppendBufOps Alloc AB A} `{!AppendBufLaws Alloc AB A}.
Context `{!SlabOps Slab} `{!SlabLaws Slab} `{!SlabItems Slab} `{!SlabItemsLaws Slab}.
Context `{!MioOps V X (StreamBuf A) (ReadBuf AB) Els}.
Context `{!EventLoopSenderOps V X Els (StreamBuf A)} `{!EventLoopSenderLaws V X Els (StreamBuf A)}.
Context `{!SockLaws V X A AB Els} `{!RecvLaws V X Alloc A AB Els} `{!HostView X} `{!HostLaws (Alloc := Alloc)} `{!FrameLaws (Alloc := Alloc)}.
Abbreviation Inner := (EngineInner Slab Alloc A AB U64Protocol.t ShutdownCB).
Abbreviation State := (Test (X := X) (Alloc := Alloc) (AB := AB) (A := A) (T := U64Protocol.t) (Out := Z)
  (Th := Thread (X := X) (Els := Els) (A := A)) (Slab := Slab)).
Abbreviation test_step fuel srv_rx cl armed s1 s2 :=
  (step (Alloc := Alloc) (T := U64Protocol.t) (B := Z) (thread_next srv_rx) Failed fuel cl armed s1 s2).
Implicit Types w : World V X.

(** The test is set up, and its thread has built its chain: the queue the
    thread reads, the client's stream and socket, and the timers that are set. *)
Inductive starts w0 : Receiver -> NetStream.t Els -> (Token -> Prop) -> TcpSocket -> State -> Prop :=
| starts_intro e srv_rx cl tok dtx w1 rep w2 c1 :
    oneway_setup w0 = Done (NetEngine.mk e, srv_rx, cl, tok, dtx) w1 ->
    sender_chain (RW := RW) dtx tok w1 = Done rep w2 ->
    slab_get (conns e) tok = Some c1 ->
    starts w0 srv_rx cl (fun t => is_Some (slab_get (timeouts e) t)) (sock c1)
      (mkTest (Sending 5 rep) (Running e) false 0 w2).

Lemma starts_inv w0 srv_rx cl armed s1 s2 s :
  new_host (Alloc := Alloc) (ext w0) -> starts w0 srv_rx cl armed s1 s ->
  rx_chan (NetStream.drx cl) <> rx_chan srv_rx /\
  exists dtx tok tl, inv (RW := RW) (Alloc := Alloc) srv_rx armed s1 s2 dtx tok tl 0 s.
Proof.
  intros Hnew [e rx cl' tok dtx w1 rep w2 c1 E1 E2 Hc1].
  destruct (setup_works w0 (proj1 Hnew)) as (e0 & q & q1 & tl & tok0 & s0 & cl0 & dtx0 & w1' & E & Hset & Hdrx).
  rewrite E1 in E. injection E as -> -> -> -> -> ->.
  change (sender_chain (RW := RW) dtx0 tok0 w1') with
    (Done (sending (X := X) (RW := RW) dtx0 tok0) (mkWorld (stdout w1') (log w1' ++ [mkLog LDebug "on_subscribe called" []]) (chans w1') (ext w1'))) in E2.
  injection E2 as <- <-. pose proof (su_client _ _ _ _ _ _ _ _ Hset) as [[Hc _] _]. rewrite Hc in Hc1. injection Hc1 as <-.
  destruct (set_up_inv (mkReceiver q) (fun t => is_Some (slab_get (timeouts e0) t)) s0 s2 tok0 tl e0 q1 w0 w1' Hset (fun t Ht => Ht) Hnew) as [Hm Hq].
  rewrite Hdrx. split; [apply (su_queues _ _ _ _ _ _ _ _ Hset)|]. exists dtx0, tok0, tl, 0, 0. split; [done|]. split; [lia|]. split; [lia|]. split; [done|].
  intros _. by exists [], 1.
Qed.


(** C2: And it ends: whenever the timer shuts the engine down, the thread
    needs no more than twelve steps, and its assertion holds exactly if the
    five messages had come through by then. *)
Theorem oneway_ends fuel w0 srv_rx cl armed s1 s2 s0 s :
  new_host (Alloc := Alloc) (ext w0) -> 128 < fuel -> s2 <> s1 -> starts w0 srv_rx cl armed s1 s0 ->
  rtc (test_step fuel srv_rx cl armed s1 s2) s0 s -> main s = Returned -> unfinished (thread s) = true ->
  exists w', thread_run srv_rx 12 (thread s) (world s) =
    if decide (length (seen srv_rx s) = 5) then Done tt w'
    else Panicked "assertion failed: *v == vec![5,5,5,5,5]" w'.
Proof.
  intros Hnew Hfuel Hne Hst Hrun Hret Hun. destruct (starts_inv w0 srv_rx cl armed s1 s2 s0 Hnew Hst) as (Hcl & dtx & tok & tl & Hinv0).
  destruct (steps_inv fuel srv_rx cl armed s1 s2 dtx tok tl Hfuel Hne Hcl 0 s0 s Hinv0 Hrun) as (a & _ & Hinv).
  rewrite (inv_seen fuel srv_rx cl armed s1 s2 dtx tok tl Hfuel Hcl a s Hinv Hun), length_replicate. destruct s as [t m cn n w]. simpl in Hret. subst m.
  destruct (thread_finishes fuel srv_rx cl armed s1 s2 dtx tok tl Hfuel Hcl a t cn n w Hinv Hun) as (w' & E). exists w'. exact E.
Qed.

End OnewayRun.

(** ** A run on the model network *)

Section Instances.
Abbreviation Msg := (ProtoMsg Z).
Abbreviation Engine := (EngineInner (H := MioTypes_model) GSlab unit (list byte) Append U64Protocol.t ShutdownCB).
Abbreviation NetTest := (Test (H := MioTypes_model) (X := Net) (Alloc := unit) (AB := Append) (A := list byte) (T := U64Protocol.t) (Out := Z)
  (Th := Thread (X := Net) (Els := unit) (A := list byte)) (Slab := GSlab)).
#[local] Instance Debug_bytes : Debug (StreamBuf (list byte)) := fun b => debug_token (sb_tok b).

(** Socket 3 will listen, socket 4 is the client's and takes five bytes first. *)
Definition fresh_net : World Msg Net :=
  empty_world (mkNet ∅ {[ 4%Z := [5; 8; 2; 8; 8; 8; 8; 8]%Z ]} ∅ [] 3 [] [] true true).

Lemma fresh_net_new : new_host (Out := Z) (Alloc := unit) (AB := Append) (A := list byte) (ext fresh_net).
Proof. repeat split. Qed.

Abbreviation setup_out := (NetEngine.t (H := MioTypes_model) GSlab unit (list byte) Append U64Protocol.t ShutdownCB *
  Receiver * NetStream.t unit * Token * unit)%type.
Definition net_setup : Outcome Msg Net setup_out := oneway_setup fresh_net.
Definition net_cl : NetStream.t unit := NetStream.mk tt (mkReceiver 1) 256.
Definition net_rx : Receiver := mkReceiver 0.

Definition net_engine : Engine :=
  match net_setup with Done (ne, _, _, _, _) _ => NetEngine.inner ne | _ => EngineInner_new default_config end.
Definition net_armed (t : Token) : Prop := is_Some (slab_get (timeouts net_engine) t).
Definition set_world : World Msg Net := match net_setup with Done _ w => w | _ => fresh_net end.
Definition chain_world : World Msg Net :=
  match sender_chain (RW := list byte) tt 256 set_world with Done _ w => w | _ => fresh_net end.
Definition start_state : NetTest :=
  mkTest (Sending 5 (sending (RW := list byte) tt 256)) (Running net_engine) false 0 chain_world.

(** The messages are sent while the engine runs; the bytes arrive in two
    pieces; the timer fires; the thread reads before and after the end. *)
Definition net_moves : list Move :=
  [MThread; MThread; MNotify; MConnect; MThread; MReadable 256; MReadable 0; MThread; MNotify; MWritable 256; MCarry 2;
   MReadable 257; MThread; MThread; MThread; MNotify; MNotify; MNotify; MCarry 3; MReadable 257; MReadable 257; MThread; MTimeout 129;
   MReturn; MThread; MThread; MThread; MThread].

Definition after (n : nat) : NetTest := moved_to (thread_next net_rx) Failed 129 net_cl 4%Z 9%Z 129 start_state (take n net_moves).

Example net_test_passes :
  match after 28 with mkTest Ended Returned _ _ _ => true | _ => false end = true.
Proof. vm_compute. reflexivity. Qed.

Lemma net_starts : starts (RW := list byte) (Alloc := unit) fresh_net net_rx net_cl net_armed 4%Z start_state.
Proof.
  refine (starts_intro (RW := list byte) fresh_net net_engine net_rx net_cl 256 tt set_world
    (sending (RW := list byte) tt 256) chain_world (fresh_conn (H := MioTypes_model) (X := Net) (Alloc := unit) (AB := Append) (A := list byte) (T := U64Protocol.t) (Out := Z) 4%Z 1) _ _ _).
  - reflexivity.
  - reflexivity.
  - reflexivity.
Defined.

Abbreviation net_step := (step (Alloc := unit) (T := U64Protocol.t) (B := Z) (thread_next net_rx) Failed 129 net_cl net_armed 4%Z 9%Z).

Lemma after_reachable n :
  match do_moves (thread_next net_rx) Failed 129 net_cl 4%Z 9%Z 129 (take n net_moves) start_state with Some _ => true | None => false end = true ->
  rtc net_step start_state (after n).
Proof. intros Hn. apply moved_to_reachable; [by eexists|exact Hn]. Qed.



Lemma oneway_ends_witness :
  exists w', thread_run net_rx 12 (thread (after 24)) (world (after 24)) = Done tt w'.
Proof.
  refine (oneway_ends (RW := list byte) (Alloc := unit) 129 fresh_net net_rx net_cl net_armed 4%Z 9%Z
    start_state (after 24) fresh_net_new _ _ net_starts _ _ _).
  - lia.
  - done.
  - apply after_reachable. vm_compute. reflexivity.
  - vm_compute. reflexivity.
  - vm_compute. reflexivity.
Defined.
End Instances.
