(* ===== verification/Integration.v ===== *)
(** * The integration test: src/test/test.rs

    The system of Loopback.v with the test's own protocol, main thread and
    echo server.  The server does not send a message back where it came from:
    it gives it the token of the client's connection, so that the one message
    the main thread sends goes from the client to the server, round and round,
    until the timer shuts the event loop down. *)

From S2P Require Import Prelude Effects Sendable Reactive Subscribers Processors Publishers Scheduler Protocol Mio StreamBuf NetStream Reactor MioModel Echo Outbound Inbound Engine NetEngine Frames U64 Loopback LoopbackSafe.

(** [protocol_size!(SixtyFour = 64)]. *)
Inductive SixtyFour := sixty_four.
#[export] Instance HasSize_SixtyFour : HasSize SixtyFour := protocol_size SixtyFour 64.

(** [RWIobuf::from_str_copy_with_allocator]. *)
Class IobufStr (Alloc RW : Type) := from_str_copy_with_allocator : string -> Alloc -> RW.
Class IobufStrLaws (Alloc RW A : Type) `{!Iobuf A} `{!IobufCopy RW A} `{!IobufStr Alloc RW} : Prop :=
  from_str_law : forall s alloc, exists a : A,
    atomic_read_only (from_str_copy_with_allocator s alloc) = Ok a /\ as_window_slice a = String.list_byte_of_string s.

(** ** Blocks as a format *)

Section Blocks.
Context {V X A : Type} `{!Iobuf A} `{!IobufLaws A}.

Definition block_frame (p : BufProtocol.t SixtyFour) (bs : list byte) : BufProtocol.t SixtyFour * option (list byte * nat) :=
  if decide (64 <= length bs) then (p, Some (take 64 bs, 64)) else (p, None).

#[local] Existing Instance BufProtocol.Protocol_BufProtocol.

#[export] Instance Framing_Block : Framing V X (BufProtocol.t SixtyFour) A A (list byte).
Proof.
  refine {| view := as_window_slice; frame := block_frame |}.
  - intros p bs p' m n. unfold block_frame. case_decide; intros E; simplify_eq. lia.
  - intros p a w. unfold block_frame. cbn [append BufProtocol.Protocol_BufProtocol]. unfold BufProtocol.append.
    change (size SixtyFour) with 64%Z. rewrite iob_len_window. case_decide as Hle.
    + destruct (Z.leb_spec 64 (Z.of_nat (length (as_window_slice a)))); [|lia].
      destruct (split_at_ok a 64) as (a1 & a2 & -> & H1 & H2); [rewrite iob_len_window; lia|].
      by exists a1, a2.
    + destruct (Z.leb_spec 64 (Z.of_nat (length (as_window_slice a)))); [lia|]. done.
Defined.

#[export] Instance Format_Block : Format V X (BufProtocol.t SixtyFour) A A (list byte).
Proof.
  refine {| msg_len := 64; enc := id; valid bs := length bs = 64 |}.
  - lia.
  - done.
  - intros p bs Hbs. induction Hbs as [|b bs Hb _ IH]; [by apply frames_none|].
    assert (E : frame (V := V) (X := X) (A := A) (Out := A) p (concat (map id (b :: bs))) = (p, Some (b, 64))).
    { cbn [frame Framing_Block]. unfold block_frame. simpl. unfold id at 1 2 3. rewrite decide_True by (rewrite length_app; lia).
      by rewrite take_app_length'. }
    rewrite (frames_some _ _ _ _ _ E). simpl. unfold id at 1. rewrite drop_app_length' by done. unfold id in IH |- *. by rewrite IH.
Defined.
End Blocks.

(** ** The test *)

Section Integration.
Context {X Alloc AB A RW Els : Type} {Slab : Type -> Type}.
Abbreviation V := (ProtoMsg A).
Context `{!MioTypes} `{!Iobuf A} `{!IobufLaws A} `{!IobufCopy RW A} `{!IobufStr Alloc RW} `{!IobufStrLaws Alloc RW A}.
Context `{!AppendBufOps Alloc AB A} `{!AppendBufLaws Alloc AB A}.
Context `{!SlabOps Slab} `{!SlabLaws Slab} `{!SlabItems Slab} `{!SlabItemsLaws Slab}.
Context `{!MioOps V X (StreamBuf A) (ReadBuf AB) Els}.
Context `{!EventLoopSenderOps V X Els (StreamBuf A)} `{!EventLoopSenderLaws V X Els (StreamBuf A)}.
Context `{!SockLaws V X A AB Els} `{!RecvLaws V X Alloc A AB Els} `{!HostView X} `{!HostLaws (Alloc := Alloc)} `{!FrameLaws (Alloc := Alloc)}.
Context `{!ClockOps V X} `{!ClockLaws (Els := Els)} `{!Debug ((ProtoMsg A * Z) * Z)}.
Abbreviation Proto := (BufProtocol.t SixtyFour).
Abbreviation Inner := (EngineInner Slab Alloc A AB Proto ShutdownCB).
Abbreviation Engine := (NetEngine.t Slab Alloc A AB Proto ShutdownCB).
Implicit Types w : World V X.

(** ** The main thread *)

(** Up to the [spawn]: the engine, the closure's [srv_rx], [token] and [dtx],
    and [cli]. *)
Definition main_setup : M V X (Engine * Receiver * NetStream.t Els * Token * Els) :=
  let! _ := println "You are here" in
  let! '(ne, srv_rx, cli) := loopback in
  let token := NetStream.tok cli in
  let! dtx := els_clone (NetStream.dtx cli) in
  let! ne := NetEngine.timeout ne 1000 shutdown_cb in
  ret (ne, srv_rx, cli, token, dtx).

Definition greeting : string := "AaBbCcDdEeFfGgHhIiJjKkLlMmNnOoPpQqRrSsTtUuVvWwXxYyZz012345678901".

(** After the [spawn], up to [run]. *)
Definition main_send (MYALLOC : Alloc) (cli : NetStream.t Els) (token : Token) : M V X unit :=
  let buf := from_str_copy_with_allocator greeting MYALLOC in
  let! b := unwrap (atomic_read_only buf) in
  let! r := els_send (NetStream.dtx cli) (mkStreamBuf b token) in
  unwrap r.

(** ** The spawned thread, step by step *)

Abbreviation rec_t := (Coupler.t (map1_t (X := X) (Els := Els) (A := A))).

Inductive Thread := Starting | Echoing (rec : rec_t) | Ended | Failed.

Section Step.
Context (srv_rx : Receiver) (dtx : Els) (token : Token).

Definition thread_next (t : Thread) : M V X Thread :=
  match t with
  | Starting =>
      let! rec := echo srv_rx dtx token in
      let! _ := debug "Starting loop" [] in
      ret (Echoing rec)
  | Echoing rec =>
      let! '(rec, go) := next rec in
      if go then ret (Echoing rec)
      else
        let! _ := debug "Done with loop" [] in
        let! _ := drop_coupler rec in
        ret Ended
  | Ended => ret Ended
  | Failed => ret Failed
  end.

(** The thread by itself. *)
Fixpoint thread_run (n : nat) (t : Thread) : M V X unit :=
  match t with
  | Ended | Failed => ret tt
  | _ => match n with
         | O => out_of_fuel
         | S n' => let! t' := thread_next t in thread_run n' t'
         end
  end.

(** Undisturbed, the steps are the thread's body: the chain of Echo.v, [run],
    and the drop of [rec]. *)
Lemma thread_run_echo fuel :
  thread_run (S fuel) Starting ≈ (let! rec := echo srv_rx dtx token in let! rec := Reactive.run fuel rec in drop_coupler rec).
Proof.
  assert (Hloop : forall rec, thread_run fuel (Echoing rec) ≈
    (let! rec := run_loop fuel rec in let! _ := debug "Done with loop" [] in drop_coupler rec)).
  { induction fuel as [|n IH]; intros rec w; [done|]. cbn [thread_run thread_next run_loop]. unfold bind.
    destruct (next rec w) as [[rec' go]| | |]; try done. destruct go; simpl; [apply IH|].
    unfold ret, debug, log_at. destruct (drop_coupler rec' _) as [[]| | |]; [by destruct n|done..]. }
  intros w. cbn [thread_run thread_next]. unfold Reactive.run, bind. destruct (echo srv_rx dtx token w) as [rec w1| | |]; try done.
  unfold debug, log_at, ret. rewrite Hloop. unfold bind, debug, log_at. by destruct (run_loop fuel rec _).
Qed.
End Step.
End Integration.
