(* ===== verification/IntegrationRun.v ===== *)
(** * What the integration test does

    Under every schedule of its threads, the event loop and the host: the one
    message the main thread sends goes round from the client's connection to
    the server's and back to the client's, and at any moment it is, whole, in
    one place on its way or two neighbouring ones. *)

From S2P Require Import Prelude Effects Sendable Reactive Subscribers Processors Publishers Scheduler Protocol Mio StreamBuf NetStream Reactor MioModel Echo Outbound Inbound Engine Lifetime NetEngine Frames U64 Loopback LoopbackSafe LoopbackLive LoopbackModel Integration.

Section IntegrationRun.
Context {X Alloc AB A RW Els : Type} {Slab : Type -> Type}.
Abbreviation V := (ProtoMsg A).
Context `{!MioTypes} `{!Iobuf A} `{!IobufLaws A} `{!IobufCopy RW A} `{!IobufStr Alloc RW} `{!IobufStrLaws Alloc RW A}.
Context `{!AppendBufOps Alloc AB A} `{!AppendBufLaws Alloc AB A}.
Context `{!SlabOps Slab} `{!SlabLaws Slab} `{!SlabItems Slab} `{!SlabItemsLaws Slab}.
Context `{!MioOps V X (StreamBuf A) (ReadBuf AB) Els}.
Context `{!EventLoopSenderOps V X Els (StreamBuf A)} `{!EventLoopSenderLaws V X Els (StreamBuf A)}.
Context `{!SockLaws V X A AB Els} `{!RecvLaws V X Alloc A AB Els} `{!HostView X} `{!HostLaws (Alloc := Alloc)} `{!FrameLaws (Alloc := Alloc)}.
Context `{!ClockOps V X} `{!ClockLaws (Els := Els)} `{!Debug ((ProtoMsg A * Z) * Z)}.
Abbreviation Proto := (BufProtocol.t SixtyFour).
Abbreviation Inner := (EngineInner Slab Alloc A AB Proto ShutdownCB).
Abbreviation Main := (Main (X := X) (Alloc := Alloc) (AB := AB) (A := A) (T := Proto) (Out := A) (Slab := Slab)).
Abbreviation State := (Test (X := X) (Alloc := Alloc) (AB := AB) (A := A) (T := Proto) (Out := A)
  (Th := Thread (X := X) (Els := Els) (A := A)) (Slab := Slab)).
Implicit Types w : World V X.

(** Looking at the clock does not touch the network. *)
Class ClockStill : Prop :=
  clock_still : forall w t w', precise_time_ns w = Done t w' -> still (ext w) (ext w').
Context `{!ClockStill}.

(** The set-up succeeds on a host that works. *)
Lemma main_setup_works w0 :
  host_up (ext w0) ->
  exists e q q1 tl tok s1 cli dtx w1,
    main_setup w0 = Done (NetEngine.mk e, mkReceiver q, cli, tok, dtx) w1 /\
    set_up e q q1 tl tok s1 w0 w1 /\ NetStream.drx cli = mkReceiver q1.
Proof.
  intros Hup. set (wp := mkWorld (stdout w0 ++ ["You are here"%string]) (log w0) (chans w0) (ext w0)).
  destruct (loopback_works (T := Proto) (Out := A) wp Hup) as (e & q & q1 & tl & tok & s1 & dtx0 & wc & E & Hset & Hroom).
  pose proof (st_up _ _ (su_still _ _ _ _ _ _ _ _ Hset) Hup) as Hupc.
  destruct (clone_law dtx0 wc) as (dtx & wd & Ed & Qd). pose proof (quiet_up _ _ Qd Hupc) as Hupd.
  destruct (arm_works e 1000 wd Hupd Hroom) as (ts & wf & Ef & Qf).
  exists (with_timeouts ts e), q, q1, tl, tok, s1, (NetStream.mk dtx0 (mkReceiver q1) tok), dtx, wf. split; [|split; [|done]].
  - unfold main_setup, bind. change (println "You are here" w0) with (Done (V := V) tt wp). cbn beta iota.
    follow E. cbn [NetStream.dtx NetStream.tok]. follow Ed. by follow Ef.
  - assert (Hset' : set_up (with_timeouts ts e) q q1 tl tok s1 wp wf) by (eapply set_up_later; [exact Hset|done..|]; by etrans).
    destruct Hset'. by split.
Qed.

(** ** The invariant *)

Section Run.
Context (fuel : nat) (srv_rx : Receiver) (cli : NetStream.t Els) (armed : Token -> Prop) (s1 s2 : TcpSocket) (dtx : Els) (tok tl : Token)
  (MYALLOC : Alloc).
Abbreviation q := (rx_chan srv_rx).
Abbreviation queue_inv := (queue_inv (Alloc := Alloc) (T := Proto) (Out := A) srv_rx armed s1 s2 tok tl).
Abbreviation step := (step (Alloc := Alloc) (T := Proto) (B := list byte) (thread_next srv_rx dtx tok) Failed fuel cli armed s1 s2).

(** The one message, and [n] of it. *)
Definition message : list byte := String.list_byte_of_string greeting.
Abbreviation greetings n := (replicate n message).

(** [i] messages were taken from the queue and sent back; the main thread's
    own was sent before [run]. *)
Definition thread_inv (i : nat) (t : Thread) (m : Main) : Prop :=
  match t with
  | Starting => i = 0
  | Echoing rec => exists c, rec = chain srv_rx dtx tok c
  | Ended => m = Returned
  | Failed => False
  end.

Definition main_first (i : nat) (m : Main) : Prop :=
  match m with Before p _ => p = main_send (RW := RW) MYALLOC cli tok /\ i = 0 | _ => True end.

Definition posted (i : nat) (m : Main) : nat := match m with Before _ _ => 0 | _ => S i end.
Definition unfinished (t : Thread (X := X) (Els := Els) (A := A)) : bool := match t with Starting | Echoing _ => true | _ => false end.

Definition inv (s : State) : Prop :=
  exists i a, thread_inv i (thread s) (main s) /\ main_first i (main s) /\ i <= a <= posted i (main s) /\
    (unfinished (thread s) = true ->
      queue_inv (greetings (posted i (main s))) i a (moved s) (connected s) (main s) (world s)).

Context (Hfuel : 128 < fuel) (Hsocks : s2 <> s1) (Hcl : rx_chan (NetStream.drx cli) <> q).

Lemma few_posted i a m : i <= a <= posted i m -> few (X := X) (T := Proto) (A := A) (Out := A) (greetings (posted i m)) a.
Proof. unfold few. rewrite length_replicate. change (msg_len) with 64. destruct m; simpl; lia. Qed.

(** One more message, sent by whoever holds a sender. *)
Lemma queue_send j i a n k (m : Main) w0 w w1 d b r :
  queue_inv (greetings j) i a n k m w0 -> a <= j -> chans w = chans w0 -> still (ext w0) (ext w) ->
  as_window_slice b = message -> els_send d (mkStreamBuf b tok) w = Done r w1 ->
  queue_inv (greetings (S j)) i a n k m w1 /\ r = Ok tt.
Proof.
  clear Hfuel Hsocks Hcl. intros (ms & senders & Hc & Hms & Hm) Ha Hch Hst Hb E.
  destruct (els_send_law d (mkStreamBuf b tok) w) as (w1' & E1 & Hch1 & _ & Hmail). rewrite E in E1. injection E1 as -> <-.
  destruct (send_frame d _ w _ _ E) as (F1 & F2 & F3 & F4). split; [|done]. exists ms, senders. rewrite Hch1, Hch. split; [done|].
  assert (Hnext : greetings (S j) = greetings j ++ [message]) by (by rewrite <- replicate_S_end).
  rewrite Hnext. split; [by rewrite take_app_le by (rewrite length_replicate; lia)|].
  destruct m; [| |done].
  all: pose proof (main_inv_still _ _ _ _ _ _ _ _ _ _ _ _ _ _ Hm Hst) as Hm'; (eapply main_inv_send; [exact Hm'| | | |exact Hmail|exact F1|exact F2|exact F3|exact F4]; [reflexivity|exact Hb|reflexivity]).
Qed.

Lemma view_greetings ms i a j : a <= j -> map (fun v : V => as_window_slice (pm_item v)) ms = drop i (take a (greetings j)) ->
  Forall (fun v => as_window_slice (pm_item v) = message) ms.
Proof.
  clear. intros Ha. rewrite take_replicate, drop_replicate. generalize (a `min` j - i) as n. clear.
  induction ms as [|v ms IH]; intros [|n] E; simplify_eq/=; constructor; eauto.
Qed.

(** The clock, and the log, are no change. *)
Lemma still_of_eq x x' : x' = x -> still x x'.
Proof. by intros ->. Qed.

(** ** Every step *)

Lemma echo_inv_intro i a t m k n w :
  thread_inv i t m -> main_first i m -> i <= a <= posted i m ->
  (unfinished t = true -> queue_inv (greetings (posted i m)) i a n k m w) -> inv (mkTest t m k n w).
Proof. intros. exists i, a. done. Qed.

(** The server's loop: it waits, or the queue is closed and it ends, or it
    takes a message and sends it back. *)
Lemma echoing_next i a m k n w c :
  i <= a <= posted i m -> queue_inv (greetings (posted i m)) i a n k m w ->
  let t := Echoing (chain srv_rx dtx tok c) in
  (m <> Returned /\ thread_next srv_rx dtx tok t w = Blocked w) \/
  (exists w', m = Returned /\ i = a /\ thread_next srv_rx dtx tok t w = Done Ended w') \/
  (exists c' w' b, S i <= a /\ thread_next srv_rx dtx tok t w = Done (Echoing (chain srv_rx dtx tok c')) w' /\
    queue_inv (greetings (posted (S i) m)) (S i) a n k m w' /\
    mail (ext w') = mail (ext w) ++ [mkStreamBuf b tok] /\ as_window_slice b = message).
Proof.
  intros Ha Hq t. destruct (queue_view srv_rx armed s1 s2 tok tl _ _ _ _ _ _ _ Hq) as (ms & senders & Hc & Hms & Hlen & Hm); [rewrite length_replicate; lia|].
  unfold t, thread_next. destruct ms as [|v ms].
  - destruct senders as [|senders].
    + right. left. destruct (echo_closed srv_rx dtx tok c _ w Hc) as (w1 & E & _).
      set (w2 := mkWorld (stdout w1) (log w1 ++ [mkLog LDebug "Done with loop" []]) (chans w1) (ext w1)).
      set (w3 := with_chans w2 (alter (fun ch => mkChan [] (ch_senders ch) false (ch_bound ch)) q (chans w2))).
      destruct (els_drop_law dtx w3) as (w4 & E4 & _). exists w4. split; [by destruct m|]. split; [simpl in Hlen; lia|].
      unfold bind at 1. rewrite E. unfold bind, debug, log_at. fold w2.
      change (drop_coupler (chain srv_rx dtx tok c) w2) with (els_drop (V := V) dtx w3). by rewrite E4.
    + left. split; [by destruct m|]. simpl next. unfold Coupler.next, bind, recv. simpl. by rewrite Hc.
  - right. right. simpl in Hlen.
    destruct (echo_one_calls srv_rx dtx tok c v ms senders _ w Hc) as (t0 & w1 & w2 & w3 & Et & X1 & X3 & Hc3 & _ & E).
    pose proof (view_greetings (v :: ms) i a (posted i m) ltac:(lia) Hms) as Hv. apply Forall_cons in Hv as [Hv _].
    destruct (els_send_law dtx (mkStreamBuf (pm_item v) tok) w3) as (w4 & Es & _ & _ & Hmail).
    pose proof (queue_take srv_rx armed s1 s2 tok tl _ _ _ _ _ _ _ _ _ _ Hq Hc) as Hq'.
    assert (Hst : still (ext w) (ext w3)) by (rewrite X3; etrans; [|by eapply clock_still]; by rewrite X1).
    exists (u64 (c + 1)), w4, (pm_item v). split; [lia|]. split; [unfold bind at 1; rewrite E; unfold bind; by rewrite Es|].
    split; [|split; [by rewrite Hmail, (st_mail _ _ Hst)|exact Hv]].
    assert (Hnb : posted (S i) m = S (posted i m)) by (destruct m; simpl in *; lia). rewrite Hnb.
    eapply queue_send; [exact Hq'|lia|exact Hc3|exact Hst|exact Hv|exact Es].
Qed.

Lemma echo_thread_step t m k n w t' w' :
  inv (mkTest t m k n w) -> thread_next srv_rx dtx tok t w = Done t' w' -> inv (mkTest t' m k n w').
Proof.
  intros Hinv E. pose proof Hinv as (i & a & Ht & Hm & Ha & Hq). cbn [thread main connected moved world] in *. destruct t as [|rec| |].
  - simpl in Ht. subst i. injection E as <- <-. apply (echo_inv_intro 0 a); [by exists 0%Z|done|done|]. intros _. exact (Hq eq_refl).
  - destruct Ht as [c ->]. destruct (echoing_next i a m k n w c Ha (Hq eq_refl)) as [[_ E1]|[(w1 & Hr & -> & E1)|(c' & w1 & b & Hi & E1 & Hq1 & _)]]; rewrite E1 in E; [done| |].
    + injection E as <- <-. by apply (echo_inv_intro a a).
    + injection E as <- <-. apply (echo_inv_intro (S i) a); [by exists c'|destruct m; simpl in *; [lia|done..]|destruct m; simpl in *; lia|done].
  - simpl in E. unfold ret in E. injection E as <- <-. exact Hinv.
  - done.
Qed.

Lemma thread_never_fails t m k n w msg w' : inv (mkTest t m k n w) -> thread_next srv_rx dtx tok t w <> Panicked msg w'.
Proof.
  intros (i & a & Ht & _ & Ha & Hq). cbn [thread main connected moved world] in *. destruct t as [|rec| |]; try done.
  destruct Ht as [c ->]. by destruct (echoing_next i a m k n w c Ha (Hq eq_refl)) as [[_ ->]|[(w1 & _ & _ & ->)|(c' & w1 & b & _ & -> & _)]].
Qed.

Lemma main_step_inv t p e k n w w' :
  inv (mkTest t (Before p e) k n w) -> p w = Done tt w' -> inv (mkTest t (Running e) k n w').
Proof.
  intros (i & a & Ht & [-> ->] & Ha & Hq) E. cbn [thread main connected moved world posted] in *. assert (a = 0) as -> by lia.
  unfold main_send, bind in E. destruct (from_str_law (RW := RW) (A := A) greeting MYALLOC) as (b & Eb & Hb). rewrite Eb in E.
  unfold unwrap, ret in E. destruct (els_send _ _ w) as [r w1| | |] eqn:Es; try done.
  apply (echo_inv_intro 0 0); [by destruct t|done|simpl; lia|]. intros Hun.
  assert (Hq' : queue_inv [] 0 0 n k (Running e) w) by exact (Hq Hun).
  destruct (queue_send 0 0 0 n k (Running e) w w w1 _ b r Hq' ltac:(lia) eq_refl ltac:(done) Hb Es) as [Hq1 ->].
  injection E as <-. exact Hq1.
Qed.

Lemma echo_outside_step t m k n w m' k' n' w' :
  inv (mkTest t m k n w) -> outside (Alloc := Alloc) (T := Proto) (B := list byte) fuel cli armed s1 s2 m k n w m' k' n' w' ->
  inv (mkTest t m' k' n' w').
Proof.
  intros (i & a & Ht & Hm & Ha & Hq) Hout. cbn [thread main connected moved world] in *.
  destruct (unfinished t) eqn:Hun.
  - destruct (outside_inv fuel srv_rx cli armed s1 s2 tok tl Hfuel Hsocks Hcl (greetings (posted i m)) i a n k m w n' k' m' w' (Hq eq_refl))
      as (a' & Ha' & Hle & Hq' & Hret & Hbefore); [by apply few_posted|rewrite length_replicate; destruct m; simpl; lia|lia|exact Hout|].
    rewrite length_replicate in Hle.
    destruct m as [p e|e|], m' as [p' e'|e'|]; try (by destruct (Hret eq_refl)); try (by destruct (Hbefore _ _ eq_refl)).
    all: try (destruct (Hbefore _ _ eq_refl) as [Heq _]; injection Heq as -> ->).
    all: try (exfalso; by inversion Hout).
    all: apply (echo_inv_intro i a'); [by destruct t|done|simpl in *; lia|intros _; exact Hq'].
  - assert (m = Returned) as ->. { by destruct t. }
    assert (m' = Returned) as -> by (by inversion Hout). apply (echo_inv_intro i a); [by destruct t|done|done|by rewrite Hun].
Qed.

Lemma echo_steps_inv s s' : inv s -> rtc step s s' -> inv s'.
Proof.
  intros Hinv Hs. induction Hs as [s|s1' s2' s3' Hstep _ IH]; [done|]. apply IH.
  destruct Hstep as [t t' m k n w w' E|t m k n w msg w' E|t p e k n w w' E|t m k n w m' k' n' w' Hout].
  - by eapply echo_thread_step.
  - by destruct (thread_never_fails _ _ _ _ _ _ _ Hinv E).
  - by eapply main_step_inv.
  - by eapply echo_outside_step.
Qed.

(** The thread once the engine is gone: at most one message waits for it. *)
Lemma echo_finishes t k n w :
  inv (mkTest t Returned k n w) -> unfinished t = true -> exists w', thread_run srv_rx dtx tok 3 t w = Done tt w'.
Proof.
  intros (i & a & Ht & _ & Ha & Hq) Hun. cbn [thread main connected moved world posted] in *. specialize (Hq Hun).
  assert (Hecho : forall f i c w, a - i < f -> i <= a <= S i -> queue_inv (greetings (S i)) i a n k Returned w ->
    exists w', thread_run srv_rx dtx tok f (Echoing (chain srv_rx dtx tok c)) w = Done tt w').
  { clear i w Ht Ha Hq. induction f as [|f IH]; intros i c w Hf Ha Hq; [lia|]. cbn [thread_run]. unfold bind at 1.
    destruct (echoing_next i a Returned k n w c Ha Hq) as [[? _]|[(w1 & _ & -> & ->)|(c' & w1 & b & Hi & -> & Hq1 & _)]]; [done|by exists w1; destruct f|].
    apply (IH (S i)); [lia|simpl; lia|exact Hq1]. }
  destruct t as [|rec| |]; try done.
  - simpl in Ht. subst i. cbn [thread_run]. unfold bind at 1.
    change (thread_next srv_rx dtx tok Starting w) with (Done (V := V) (Echoing (chain srv_rx dtx tok 0))
      (mkWorld (stdout w ++ ["before the thingy"%string]) ((log w ++ [mkLog LDebug "on_subscribe called" []]) ++ [mkLog LDebug "Starting loop" []]) (chans w) (ext w))).
    apply (Hecho 2 0); [lia|lia|exact Hq].
  - destruct Ht as [c ->]. apply (Hecho 3 i); [lia|lia|exact Hq].
Qed.

(** ** One more round *)

(** While the engine runs, the message can come to the server's loop, which
    sends it back. *)
Lemma can_go_round `{!HostLive (Alloc := Alloc)} t (e : Inner) k n w :
  inv (mkTest t (Running e) k n w) ->
  exists rec rec' e' k' n' w' w'' b,
    rtc step (mkTest t (Running e) k n w) (mkTest (Echoing rec) (Running e') k' n' w') /\
    step (mkTest (Echoing rec) (Running e') k' n' w') (mkTest (Echoing rec') (Running e') k' n' w'') /\
    mail (ext w'') = mail (ext w') ++ [mkStreamBuf b tok] /\ as_window_slice b = message.
Proof.
  intros Hinv.
  assert (Hecho : exists w1 c, rtc step (mkTest t (Running e) k n w) (mkTest (Echoing (chain srv_rx dtx tok c)) (Running e) k n w1)).
  { destruct Hinv as (i & a & Ht & _). destruct t as [|rec| |]; simpl in Ht; try done.
    - eexists _, 0%Z. apply rtc_once, step_thread. reflexivity.
    - destruct Ht as [c ->]. eauto using rtc_refl. }
  destruct Hecho as (w1 & c & Hr1). destruct (echo_steps_inv _ _ Hinv Hr1) as (i & a & _ & _ & Ha & Hq).
  cbn [thread main connected moved world posted] in *. specialize (Hq eq_refl).
  destruct (all_comes fuel srv_rx cli armed s1 s2 tok tl Hfuel Hsocks Hcl (thread_next srv_rx dtx tok) Failed (greetings (S i)) i a n k e w1
    (Echoing (chain srv_rx dtx tok c)) Hq) as (e2 & k2 & n2 & w2 & Hr2 & Hq2); [by apply (few_posted i a (Running e))|rewrite length_replicate; lia|lia|].
  rewrite length_replicate in Hq2.
  destruct (echoing_next i (S i) (Running e2) k2 n2 w2 c ltac:(simpl; lia) Hq2) as [[_ E]|[(w3 & ? & _)|(c' & w3 & b & _ & E & _ & Hm & Hb)]]; [|done|].
  - destruct Hq2 as (ms & senders & Hc & Hms & _). destruct ms as [|v ms].
    + apply (f_equal length) in Hms. rewrite length_drop, length_take, length_replicate in Hms. simpl in Hms. lia.
    + destruct (echo_one_calls srv_rx dtx tok c v ms senders _ w2 Hc) as (t0 & wa & wb & wc & _ & _ & _ & _ & _ & E0).
      destruct (els_send_law dtx (mkStreamBuf (pm_item v) tok) wc) as (w4 & Es & _).
      unfold thread_next in E. unfold bind at 1 in E. rewrite E0 in E. unfold bind in E. by rewrite Es in E.
  - exists (chain srv_rx dtx tok c), (chain srv_rx dtx tok c'), e2, k2, n2, w2, w3, b. split; [by etrans|]. split; [by apply step_thread|done].
Qed.
End Run.

(** ** The theorems *)

(** The test is set up and its thread is spawned: the queue the thread reads,
    the client's stream, token and socket, the thread's sender, and the timers
    that are set. *)
Inductive starts w0 (MYALLOC : Alloc) : Receiver -> NetStream.t Els -> Token -> Els -> (Token -> Prop) -> TcpSocket -> State -> Prop :=
| starts_intro e srv_rx cli tok dtx w1 c1 :
    main_setup w0 = Done (NetEngine.mk e, srv_rx, cli, tok, dtx) w1 ->
    slab_get (conns e) tok = Some c1 ->
    starts w0 MYALLOC srv_rx cli tok dtx (fun t => is_Some (slab_get (timeouts e) t)) (sock c1)
      (mkTest Starting (Before (main_send (RW := RW) MYALLOC cli tok) e) false 0 w1).

Lemma echo_starts_inv w0 MYALLOC srv_rx cli tok dtx armed s1 s2 s :
  new_host (Alloc := Alloc) (Out := A) (ext w0) -> starts w0 MYALLOC srv_rx cli tok dtx armed s1 s ->
  rx_chan (NetStream.drx cli) <> rx_chan srv_rx /\ exists tl, inv srv_rx cli armed s1 s2 dtx tok tl MYALLOC s.
Proof.
  intros Hnew [e rx cli' tok' dtx' w1 c1 E1 Hc1].
  destruct (main_setup_works w0 (proj1 Hnew)) as (e0 & q & q1 & tl & tok0 & s0 & cl0 & dtx0 & w1' & E & Hset & Hdrx).
  rewrite E1 in E. injection E as -> -> -> -> -> ->.
  pose proof (su_client _ _ _ _ _ _ _ _ Hset) as [[Hc _] _]. rewrite Hc in Hc1. injection Hc1 as <-.
  destruct (set_up_inv (B := list byte) (mkReceiver q) (fun t => is_Some (slab_get (timeouts e0) t)) s0 s2 tok0 tl e0 q1 w0 w1' Hset (fun t Ht => Ht) Hnew) as [Hm Hq].
  rewrite Hdrx. split; [apply (su_queues _ _ _ _ _ _ _ _ Hset)|]. exists tl, 0, 0. split; [done|]. split; [done|]. split; [done|].
  intros _. by exists [], 1.
Qed.

Abbreviation test_step fuel srv_rx cli tok dtx armed s1 s2 :=
  (step (Alloc := Alloc) (T := Proto) (B := list byte) (thread_next srv_rx dtx tok) Failed fuel cli armed s1 s2).


(** C5: And when the timer has shut the engine down, the server's thread ends,
    in at most three more steps. *)
Theorem integration_ends fuel w0 MYALLOC srv_rx cli tok dtx armed s1 s2 s0 s :
  new_host (Alloc := Alloc) (Out := A) (ext w0) -> 128 < fuel -> s2 <> s1 -> starts w0 MYALLOC srv_rx cli tok dtx armed s1 s0 ->
  rtc (test_step fuel srv_rx cli tok dtx armed s1 s2) s0 s -> main s = Returned ->
  exists w', thread_run srv_rx dtx tok 3 (thread s) (world s) = Done tt w'.
Proof.
  intros Hnew Hfuel Hne Hst Hrun Hret. destruct (echo_starts_inv w0 MYALLOC srv_rx cli tok dtx armed s1 s2 s0 Hnew Hst) as (Hcl & tl & Hinv0).
  pose proof (echo_steps_inv fuel srv_rx cli armed s1 s2 dtx tok tl MYALLOC Hfuel Hne Hcl s0 s Hinv0 Hrun) as Hinv.
  destruct s as [t m cn n w]. cbn [thread main world] in *. subst m. destruct (unfinished t) eqn:Hun.
  - by eapply echo_finishes.
  - destruct Hinv as (i & a & Ht & _). destruct t; try done. by exists w.
Qed.

End IntegrationRun.

(** ** A run on the model network *)

Section Instances.
Abbreviation Msg := (ProtoMsg (list byte)).
Abbreviation Proto := (BufProtocol.t SixtyFour).
Abbreviation Engine := (EngineInner (H := MioTypes_model) GSlab unit (list byte) Append Proto ShutdownCB).
Abbreviation NetTest := (Test (H := MioTypes_model) (X := Net) (Alloc := unit) (AB := Append) (A := list byte) (T := Proto) (Out := list byte)
  (Th := Thread (X := Net) (Els := unit) (A := list byte)) (Slab := GSlab)).
#[local] Instance clock_at_7 : ClockOps Msg Net := {
  precise_time_ns := ret 7%Z;
  nanosleep _ := ret tt;
  timer_new := ret (Ok tt)
}.
#[local] Instance show_traced : Debug ((Msg * Z) * Z) := fun x => pretty x.2.
#[local] Instance ClockLaws_at_7 : ClockLaws (X := Net) (Els := unit) (A := list byte).
Proof. intros w. do 2 eexists. by splits. Qed.
#[local] Instance ClockStill_at_7 : ClockStill (X := Net) (A := list byte) (Els := unit) (Alloc := unit) (AB := Append).
Proof. intros w t w' E. simpl in E. unfold ret in E. by simplify_eq. Qed.
#[local] Instance str_bytes : IobufStr unit (list byte) := fun s _ => String.list_byte_of_string s.
#[local] Instance IobufStrLaws_bytes : IobufStrLaws unit (list byte) (list byte).
Proof. intros s alloc. by eexists. Qed.

(** Socket 3 will listen; socket 4 is the client's, takes 40 bytes, then the
    other 24, and 20 when the message has gone round. *)
Definition fresh_net : World Msg Net :=
  empty_world (mkNet ∅ {[ 4%Z := [40; 24; 20]%Z ]} ∅ [] 3 [] [] true true).

Lemma echo_net_new : new_host (Out := list byte) (Alloc := unit) (AB := Append) (A := list byte) (ext fresh_net).
Proof. repeat split. Qed.

Abbreviation setup_out := (NetEngine.t (H := MioTypes_model) GSlab unit (list byte) Append Proto ShutdownCB *
  Receiver * NetStream.t unit * Token * unit)%type.
Definition net_setup : Outcome Msg Net setup_out := main_setup fresh_net.
Definition net_cli : NetStream.t unit := NetStream.mk tt (mkReceiver 1) 256.
Definition net_rx : Receiver := mkReceiver 0.
Definition net_engine : Engine :=
  match net_setup with Done (ne, _, _, _, _) _ => NetEngine.inner ne | _ => EngineInner_new default_config end.
Definition net_armed (t : Token) : Prop := is_Some (slab_get (timeouts net_engine) t).
Definition set_world : World Msg Net := match net_setup with Done _ w => w | _ => fresh_net end.
Definition start_state : NetTest := mkTest Starting (Before (main_send (RW := list byte) tt net_cli 256) net_engine) false 0 set_world.

(** The message reaches the server's queue, ... *)
Definition one_way : list Move := [MThread; MMain; MConnect; MNotify; MWritable 256; MReadable 0; MCarry 1; MReadable 257].
(** ... and is sent once more. *)
Definition and_back : list Move := one_way ++ [MThread; MNotify].
Definition and_end : list Move := [MTimeout 129; MReturn].

Definition after (mvs : list Move) : NetTest := moved_to (thread_next net_rx tt 256) Failed 129 net_cli 4%Z 9%Z 129 start_state mvs.

Example net_test_ends :
  match after (and_back ++ and_end ++ [MThread]) with mkTest Ended Returned _ _ _ => true | _ => false end = true.
Proof. vm_compute. reflexivity. Qed.

Lemma echo_net_starts : starts (RW := list byte) (Alloc := unit) fresh_net tt net_rx net_cli 256 tt net_armed 4%Z start_state.
Proof.
  refine (starts_intro (RW := list byte) fresh_net tt net_engine net_rx net_cli 256 tt set_world
    (fresh_conn (H := MioTypes_model) (X := Net) (Alloc := unit) (AB := Append) (A := list byte) (T := Proto) (Out := list byte) 4%Z 1) _ _).
  - reflexivity.
  - reflexivity.
Defined.

Abbreviation net_step := (step (Alloc := unit) (T := Proto) (B := list byte) (thread_next net_rx tt 256) Failed 129 net_cli net_armed 4%Z 9%Z).

Lemma echo_after_reachable mvs :
  match do_moves (thread_next net_rx tt 256) Failed 129 net_cli 4%Z 9%Z 129 mvs start_state with Some _ => true | None => false end = true ->
  rtc net_step start_state (after mvs).
Proof. intros Hn. apply moved_to_reachable; [by eexists|exact Hn]. Qed.

(** In its second round, 20 bytes of the message are on the wire and 44 in the
    write queue. *)
Definition half_written : NetTest := after and_back.



(** When the main thread returns, the message waits for the thread. *)
Lemma integration_ends_witness :
  exists w', thread_run net_rx tt 256 3 (thread (after (one_way ++ and_end))) (world (after (one_way ++ and_end))) = Done tt w'.
Proof.
  refine (integration_ends (RW := list byte) (Alloc := unit) 129 fresh_net tt net_rx net_cli 256%Z tt net_armed 4%Z 9%Z
    start_state (after (one_way ++ and_end)) echo_net_new _ _ echo_net_starts _ _).
  - lia.
  - done.
  - apply echo_after_reachable. vm_compute. reflexivity.
  - vm_compute. reflexivity.
Defined.
End Instances.
