(* ===== verification/Leftover.v ===== *)
(** * Messages split over reads

    What [readable] of src/src/reactor.rs does with bytes that are not a whole
    message yet.  It looks at as many bytes as the last read brought, counted
    from the marker; the others wait.  While the read buffer lasts no byte is
    lost, doubled or moved, although a message may come late; when the buffer
    is replaced, the bytes that were waiting beyond the slice are lost. *)

From S2P Require Import Prelude Effects Sendable Protocol Mio StreamBuf NetStream Reactor MioModel Inbound U64.

Section Leftover.
Context {X Alloc AB A T Out CB Sender B : Type} {Slab : Type -> Type}.
Abbreviation V := (ProtoMsg Out).
Context `{!MioTypes} `{!Iobuf A} `{!IobufLaws A} `{!AppendBufOps Alloc AB A} `{!AppendBufLaws Alloc AB A}.
Context `{!SlabOps Slab} `{!SlabLaws Slab} `{!MioOps V X (StreamBuf A) (ReadBuf AB) Sender}.
Context `{!Protocol V X T A Out} `{!Framing V X T A Out B} `{!RecvLaws V X Alloc A AB Sender}.
Abbreviation Conn := (Connection A AB T).
Abbreviation Inner := (EngineInner Slab Alloc A AB T CB).
Implicit Types w : World V X.

(** Every message stands for the bytes it took. *)
Context (enc : B -> list byte).
Definition encodes : Prop := forall p bs p' m n, frame p bs = (p', Some (m, n)) -> enc m = take n bs.

Definition bytes_of (ms : list B) : list byte := concat (map enc ms).

Lemma bytes_of_app ms ms' : bytes_of (ms ++ ms') = bytes_of ms ++ bytes_of ms'.
Proof. unfold bytes_of. by rewrite map_app, concat_app. Qed.

Lemma frames_bytes p bs p' ms rest : encodes -> frames p bs = (p', ms, rest) -> bytes_of ms ++ rest = bs.
Proof.
  intros Henc. unfold frames. generalize (S (length bs)) as fuel. intros fuel. revert p bs p' ms rest.
  induction fuel as [|fuel IH]; intros p bs p' ms rest E; simpl in E; [by simplify_eq|].
  destruct (frame p bs) as [p1 [[m n]|]] eqn:Ef; [|by simplify_eq].
  destruct (frames_fuel fuel p1 (drop n bs)) as [[p2 ms'] rest'] eqn:E2. simplify_eq.
  change (bytes_of (m :: ms')) with (enc m ++ bytes_of ms'). rewrite <- app_assoc, (IH _ _ _ _ _ E2), (Henc _ _ _ _ _ Ef).
  apply take_drop.
Qed.

(** A message takes at least one byte. *)
Lemma frames_count p bs p' ms rest : frames p bs = (p', ms, rest) -> length ms <= length bs.
Proof.
  unfold frames. generalize (S (length bs)) as fuel. intros fuel. revert p bs p' ms rest.
  induction fuel as [|fuel IH]; intros p bs p' ms rest E; simpl in E; [simplify_eq; simpl; lia|].
  destruct (frame p bs) as [p1 [[m n]|]] eqn:Ef; [|simplify_eq; simpl; lia].
  pose proof (frame_progress _ _ _ _ _ Ef).
  destruct (frames_fuel fuel p1 (drop n bs)) as [[p2 ms'] rest'] eqn:E2. simplify_eq.
  apply IH in E2. rewrite length_drop in E2. simpl. lia.
Qed.

(** What is left after a read, with what was cut off it, is what was there. *)
Lemma left_over_bytes cfg (c c' : Conn) chunk p' ms rest :
  encodes -> frames (proto c) (looked_at c chunk) = (p', ms, rest) -> left_over cfg c chunk rest c' ->
  exists lost, bytes_of ms ++ unread c' ++ lost = unread c ++ chunk /\
    length lost = if (room c - Z.of_nat (length chunk) <? min_read_buf_sz cfg)%Z then length (unread c) else 0.
Proof.
  intros Henc E. apply (frames_bytes _ _ _ _ _ Henc) in E. unfold left_over.
  assert (Hall : bytes_of ms ++ rest ++ drop (length chunk) (unread c ++ chunk) = unread c ++ chunk).
  { rewrite app_assoc, E. unfold looked_at. apply take_drop. }
  destruct (_ <? _)%Z; intros [-> _]; [exists (drop (length chunk) (unread c ++ chunk))|exists []].
  - split; [exact Hall|]. rewrite length_drop, length_app. lia.
  - by rewrite app_nil_r.
Qed.

(** C24: One readable event accounts for every byte: those waiting and
    those that arrived are the messages delivered, then what waits now, then
    what is lost, which is as much as was waiting when the buffer is replaced,
    and nothing otherwise. *)
Theorem read_accounts_for_bytes fuel (self : Inner) tok h (c : Conn) w chunk more q :
  encodes -> reading fuel self tok h c [chunk] more w ->
  open_queue (stx_chan (conn_tx c)) q (length chunk) w ->
  exists self' c' items lost w', readable fuel self tok h w = Done self' w' /\
    slab_get (conns self') tok = Some c' /\
    delivered (stx_chan (conn_tx c)) (map (fun i => mkProtoMsg i tok) items) w w' /\
    bytes_of (map view items) ++ unread c' ++ lost = unread c ++ chunk /\
    length lost = if (room c - Z.of_nat (length chunk) <? min_read_buf_sz (config self))%Z
                  then length (unread c) else 0.
Proof.
  intros Henc Hr Hopen. pose proof (rd_small _ _ _ _ _ _ _ _ Hr) as Hsm. inversion Hsm as [|? ? [Hsz Hf] _]; subst.
  pose proof (readable_step fuel self tok h c w chunk more q) as Hstep.
  destruct (frames (proto c) (looked_at c chunk)) as [[p' ms] rest] eqn:Efr.
  pose proof (frames_count _ _ _ _ _ Efr) as Hcount. rewrite looked_at_length in Hcount.
  destruct (Hstep 0) as (c' & items & w' & E & Hms & Hd & _ & Hok & _ & _ & Hu & _); try apply Hr; try done.
  { eapply open_queue_weaken; [exact Hopen|lia|done]. }
  destruct (left_over_bytes (config self) c c' chunk p' ms rest Henc Efr Hu) as (lost & Hb & Hl).
  exists (with_conns (slab_set (conns self) tok c') self), c', items, lost, w'.
  split; [done|]. split; [apply slab_set_laws; eexists; apply Hr|]. split; [done|]. by rewrite Hms.
Qed.

End Leftover.

(** ** The two protocols of the repository *)

Lemma block_encodes {X A S : Type} `{!Iobuf A} `{!IobufLaws A} `{!HasSize S} (Hpos : (0 < size S)%Z) :
  encodes (X := X) (Out := A) (Framing0 := Framing_BufProtocol (S := S) Hpos) id.
Proof.
  intros p bs p' m n. simpl. unfold block_frame. case_decide; intros E; by simplify_eq.
Qed.

Lemma u64_encodes {X A : Type} `{!Iobuf A} `{!IobufLaws A} `{!IobufPtr A} `{!IobufPtrLaws A} :
  encodes (X := X) (A := A) (Out := Z) (T := U64Protocol.t) (to_bytes 8).
Proof.
  intros p bs p' m n. simpl. unfold u64_frame. case_decide as Hle; intros E; simplify_eq.
  rewrite <- (to_from_bytes (take 8 bs)) at 2. by rewrite length_take_le.
Qed.

(** ** Concrete instances *)

Section Instances.

(** Two bytes are waiting and fifteen arrive: three blocks come out, three
    bytes wait, and two are lost with the old buffer. *)
Definition waiting_conn : Connection (list byte) Append (BufProtocol.t Four) :=
  mkConn (H := MioTypes_model) 3%Z [] 8%Z (mkSyncSender 0) 0 BufProtocol.mk (mkReadBuf (mkAppend [x01; x02] (replicate 30 x00))).
Definition waiting_engine : EngineInner (H := MioTypes_model) GSlab unit (list byte) Append (BufProtocol.t Four) unit :=
  mkInner (mkSlab 0 128 ∅) (mkSlab 129 255 ∅) (mkSlab 256 300 {[ 256%Z := waiting_conn ]}) (mkConfig 4 32 16 44 100 None).
Definition fifteen : list byte := [x03; x04; x05; x06; x07; x08; x09; x0a; x0b; x0c; x0d; x0e; x0f; x10; x11].
Definition arriving15 : World (ProtoMsg (list byte)) Net :=
  mkWorld [] [] {[ 0 := mkChan [] 1 true (Some 16) ]} (mkNet {[ 3%Z := [fifteen] ]} ∅ ∅ [] 4 [] [] true true).

Lemma read_accounts_for_bytes_witness :
  exists self' c' items lost w', readable 20 waiting_engine 256 0%Z arriving15 = Done self' w' /\
    slab_get (conns self') 256 = Some c' /\
    concat items ++ unread (Alloc := unit) c' ++ lost = [x01; x02] ++ fifteen /\ length lost = 2.
Proof.
  destruct (read_accounts_for_bytes (Framing0 := framing4) (RecvLaws0 := RecvLaws_model) id 20 waiting_engine 256 0%Z waiting_conn
    arriving15 fifteen [] []) as (self' & c' & items & lost & w' & E & Hc & _ & Hb & Hl).
  - apply block_encodes.
  - split; try reflexivity.
    + repeat split; simpl; lia.
    + split; vm_compute; repeat split; discriminate.
    + repeat constructor; simpl; lia.
  - exists 1, 16. split; [reflexivity|]. simpl. lia.
  - exists self', c', items, lost, w'. split; [exact E|]. split; [exact Hc|].
    unfold bytes_of in Hb. rewrite !map_id in Hb. split; [exact Hb|]. rewrite Hl. reflexivity.
Defined.

End Instances.
